(** * node-logging: process supervision and graceful lifecycle

    A shallow embedding of the lifecycle core of the service:
    - [src/routes/healthRoutes.js]: health state and the readiness probe;
    - [src/server.js]: the worker's connection tracking and graceful shutdown;
    - [src/cluster.js]: the primary process (crash restart with a rate limit,
      cluster-wide shutdown, rolling restart).

    Both processes are single-threaded event loops.  A process is modelled as
    a world holding its clock, its pending timers, its exit status, a
    time-stamped trace of what happened and the program's own state; callbacks
    are functions from worlds to worlds. *)

From Stdlib Require Import Floats ZArith Lia.
From stdpp Require Import gmap strings list pretty.

Local Open Scope Z_scope.

(** ** Platform: environment variables and timers *)

(** Log levels of [utils/logger]. *)
Inductive Level := Info | Warn | Error.

(** [parseInt(process.env.X, 10) || dflt], where the argument is the result of
    [parseInt] ([None] for [NaN]): [NaN] and [0] are falsy. *)
Definition envInt (v : option Z) (dflt : Z) : Z :=
  match v with
  | Some n => if n =? 0 then dflt else n
  | None => dflt
  end.

(** Node coerces a timer delay outside [1 .. 2^31-1] to 1 ms. *)
Definition TIMEOUT_MAX : Z := 2147483647.

Definition timerDelay (ms : Z) : Z :=
  if (1 <=? ms) && (ms <=? TIMEOUT_MAX) then ms else 1.

(** ** The event loop *)

Module Loop.

Section World.
Context {St Act Ev Eff : Type}.

(** What the trace records: an event delivered to the process, a timer
    callback being run, an effect of the program. *)
Inductive Obs :=
| Recv (e : Ev)
| Fired (a : Act)
| Out (o : Eff).

Record World := mkWorld {
  now : Z;                     (* Date.now() *)
  timers : list (Z * Act);     (* pending timers (due time, callback), in registration order *)
  exited : option Z;           (* the code given to process.exit *)
  trace : list (Z * Obs);      (* oldest first *)
  app : St                     (* the program's variables *)
}.

Definition setNow (t : Z) (w : World) : World :=
  mkWorld t (timers w) (exited w) (trace w) (app w).

Definition setApp (f : St -> St) (w : World) : World :=
  mkWorld (now w) (timers w) (exited w) (trace w) (f (app w)).

Definition record (o : Obs) (w : World) : World :=
  mkWorld (now w) (timers w) (exited w) (trace w ++ [(now w, o)]) (app w).

Definition emit (o : Eff) (w : World) : World := record (Out o) w.

(** [setTimeout(cb, ms)]. *)
Definition setTimeout (ms : Z) (a : Act) (w : World) : World :=
  mkWorld (now w) (timers w ++ [(now w + timerDelay ms, a)]) (exited w) (trace w) (app w).

(** [clearTimeout] / [clearInterval] of the timers running a callback in [p]. *)
Definition clearTimers (p : Act -> bool) (w : World) : World :=
  mkWorld (now w) (List.filter (fun x => negb (p (snd x))) (timers w))
          (exited w) (trace w) (app w).

(** The earliest due time among the pending timers. *)
Fixpoint minDue (l : list (Z * Act)) : option Z :=
  match l with
  | [] => None
  | (d, _) :: l' =>
      match minDue l' with
      | None => Some d
      | Some m => Some (Z.min d m)
      end
  end.

(** Removes the first registered timer due at [d]. *)
Fixpoint takeDue (d : Z) (l : list (Z * Act)) : option (Act * list (Z * Act)) :=
  match l with
  | [] => None
  | (d', a) :: l' =>
      if d' =? d then Some (a, l')
      else match takeDue d l' with
           | Some (b, r) => Some (b, (d', a) :: r)
           | None => None
           end
  end.

(** No pending timer is due before [t]. *)
Definition quiet (t : Z) (w : World) : bool :=
  forallb (fun x => t <=? fst x) (timers w).

(** The pending timers due by [t]. *)
Definition dueBy (t : Z) (l : list (Z * Act)) : list (Z * Act) :=
  List.filter (fun x => fst x <=? t) l.

Section Run.
Variable fire : Act -> World -> World.    (* the timer callbacks *)
Variable handle : Ev -> World -> World.   (* the event listeners *)

(** One turn of the timer phase: the earliest pending timer fires, ties
    going to the timer registered first.  Nothing runs after
    [process.exit]. *)
Definition tick (w : World) : World :=
  match exited w with
  | Some _ => w
  | None =>
      match minDue (timers w) with
      | None => w
      | Some d =>
          match takeDue d (timers w) with
          | None => w
          | Some (a, rest) =>
              fire a (record (Fired a) (mkWorld d rest (exited w) (trace w) (app w)))
          end
      end
  end.

(** The event [e] reaches the process at time [t]: its listeners run. *)
Definition deliver (t : Z) (e : Ev) (w : World) : World :=
  handle e (record (Recv e) (setNow t w)).

(** Inputs of a schedule: the next timer fires, or an outside event is
    delivered at time [t].  Time cannot pass a pending timer. *)
Inductive Input :=
| Tick
| Ext (t : Z) (e : Ev).

Definition step (i : Input) (w : World) : option World :=
  match exited w with
  | Some _ => None
  | None =>
      match i with
      | Tick =>
          match minDue (timers w) with
          | None => None
          | Some _ => Some (tick w)
          end
      | Ext t e =>
          if (now w <=? t) && quiet t w then Some (deliver t e w) else None
      end
  end.

Fixpoint exec (ins : list Input) (w : World) : option World :=
  match ins with
  | [] => Some w
  | i :: ins' =>
      match step i w with
      | Some w' => exec ins' w'
      | None => None
      end
  end.

(** The process left alone for [n] timer firings. *)
Fixpoint run (n : nat) (w : World) : World :=
  match n with
  | O => w
  | S n' => run n' (tick w)
  end.
End Run.
End World.

Arguments Obs : clear implicits.
Arguments World : clear implicits.
Arguments Input : clear implicits.

End Loop.

Import Loop.

(** ** Health state and probes ([src/routes/healthRoutes.js]) *)

Module Health.

Inductive Status := unknown | healthy | unhealthy.

Definition Status_eqb (a b : Status) : bool :=
  match a, b with
  | unknown, unknown | healthy, healthy | unhealthy, unhealthy => true
  | _, _ => false
  end.

(** An entry of [healthState.checks]: the status and the time of the last
    check ([null] before the first one). *)
Record Check := { status : Status; lastCheck : option Z }.

Record healthState := {
  isReady : bool;
  isHealthy : bool;
  checks : gmap string Check
}.

Definition initial : healthState :=
  {| isReady := false;
     isHealthy := true;
     checks := <["database" := {| status := unknown; lastCheck := None |}]>
               (<["memory" := {| status := unknown; lastCheck := None |}]>
               (<["eventLoop" := {| status := unknown; lastCheck := None |}]> ∅)) |}.

(* Thresholds *)
Definition MEMORY_THRESHOLD_PERCENT : float := 90%float.
Definition EVENT_LOOP_LAG_THRESHOLD_MS : Z := 500.

Definition markReady (hs : healthState) : healthState :=
  {| isReady := true; isHealthy := isHealthy hs; checks := checks hs |}.

Definition markNotReady (hs : healthState) : healthState :=
  {| isReady := false; isHealthy := isHealthy hs; checks := checks hs |}.

Definition updateHealthCheck (checkName : string) (s : Status) (at_ : Z)
    (hs : healthState) : healthState :=
  {| isReady := isReady hs;
     isHealthy := isHealthy hs;
     checks := <[checkName := {| status := s; lastCheck := Some at_ |}]> (checks hs) |}.

(** What one run of the checks reads from the process: [process.memoryUsage()]
    (JavaScript numbers are doubles) and [Date.now()] before and after the
    [setImmediate] turn. *)
Record Readings := {
  heapUsed : float;
  heapTotal : float;
  eventLoopStart : Z;
  eventLoopEnd : Z
}.

Definition heapUsedPercent (r : Readings) : float :=
  PrimFloat.mul (PrimFloat.div (heapUsed r) (heapTotal r)) 100%float.

Definition memoryHealthy (r : Readings) : bool :=
  PrimFloat.ltb (heapUsedPercent r) MEMORY_THRESHOLD_PERCENT.

Definition eventLoopLag (r : Readings) : Z := eventLoopEnd r - eventLoopStart r.

Definition eventLoopHealthy (r : Readings) : bool :=
  eventLoopLag r <? EVENT_LOOP_LAG_THRESHOLD_MS.

Definition statusOf (b : bool) : Status := if b then healthy else unhealthy.

(** The local [checks] object of [runHealthChecks], keys in insertion order
    (the order of [Object.values]). *)
Definition checksOf (r : Readings) : list (string * Status) :=
  [("memory", statusOf (memoryHealthy r));
   ("eventLoop", statusOf (eventLoopHealthy r));
   ("database", healthy)].

Definition allHealthy (cs : list (string * Status)) : bool :=
  forallb (fun c => Status_eqb (snd c) healthy) cs.

Definition runHealthChecks (r : Readings) (hs : healthState)
    : list (string * Status) * healthState :=
  let cs := checksOf r in
  let hs := updateHealthCheck "memory" (statusOf (memoryHealthy r)) (eventLoopStart r) hs in
  let hs := updateHealthCheck "eventLoop" (statusOf (eventLoopHealthy r)) (eventLoopEnd r) hs in
  let hs := updateHealthCheck "database" healthy (eventLoopEnd r) hs in
  (cs, {| isReady := isReady hs; isHealthy := allHealthy cs; checks := checks hs |}).

Record Response := {
  statusCode : Z;
  bodyStatus : string;
  bodyChecks : option (list (string * Status))
}.

(** [router.get('/ready')]. *)
Definition getReady (r : Readings) (hs : healthState) : Response * healthState :=
  if negb (isReady hs) then
    ({| statusCode := 503; bodyStatus := "not_ready"; bodyChecks := None |}, hs)
  else
    let '(cs, hs') := runHealthChecks r hs in
    ({| statusCode := if isHealthy hs' then 200 else 503;
        bodyStatus := if isHealthy hs' then "ready" else "not_ready";
        bodyChecks := Some cs |}, hs').

(** [router.get('/')]. *)
Definition getHealth (r : Readings) (hs : healthState) : Response * healthState :=
  let '(cs, hs') := runHealthChecks r hs in
  ({| statusCode := if isHealthy hs' then 200 else 503;
      bodyStatus := if isHealthy hs' then "healthy" else "unhealthy";
      bodyChecks := None |}, hs').

End Health.

(** ** The worker process ([src/server.js], and the worker branch of
    [src/cluster.js]) *)

Module Worker.

Inductive Signal := SIGTERM | SIGINT.

Definition signalName (s : Signal) : string :=
  match s with SIGTERM => "SIGTERM" | SIGINT => "SIGINT" end.

(** [process.env], as [parseInt] reads it. *)
Record Config := {
  DRAIN_DELAY_MS : option Z;
  SHUTDOWN_TIMEOUT_MS : option Z
}.

(** [serverState]; connections are named by numbers, the set keeps
    insertion order as a JavaScript [Set] does. *)
Record serverState := {
  isShuttingDown : bool;
  connections : list nat
}.

Record State := {
  env : Config;
  clustered : bool;          (* the process is a worker of the cluster: [cluster.js]
                                has run its worker branch before [server.js] *)
  server : serverState;
  health : Health.healthState;
  accepting : bool;          (* the http server accepts connections *)
  exitWhenResolved : bool    (* the uncaughtException handler awaits gracefulShutdown *)
}.

Inductive Action :=
| DrainElapsed                      (* the await of the drain delay resumes *)
| ForceShutdown                     (* forceShutdownTimer *)
| DestroyConnection (c : nat)       (* the 5000 ms timer of one connection *)
| CheckConnections                  (* the 100 ms interval *)
| Heartbeat.                        (* the 10000 ms interval of a clustered worker *)

Inductive Effect :=
| Log (l : Level) (msg : string)
| ServerClose                       (* server.close() *)
| End (c : nat)                     (* connection.end() *)
| Destroy (c : nat)                 (* connection.destroy() *)
| Send (type : string)              (* process.send to the primary *)
| Exit (code : Z).                  (* process.exit(code) *)

Inductive Event :=
| Sig (s : Signal)
| ShutdownMessage                   (* the process receives { type: 'shutdown' } *)
| UncaughtException
| Connection (c : nat)              (* server 'connection' *)
| ConnectionClosed (c : nat)        (* the connection's 'close', when the peer finishes *)
| Listening                         (* the callback of server.listen *)
| ServerError (addrInUse : bool).   (* server 'error' *)

Abbreviation W := (World State Action Event Effect).

Definition isForce (a : Action) : bool :=
  match a with ForceShutdown => true | _ => false end.

Definition isCheck (a : Action) : bool :=
  match a with CheckConnections => true | _ => false end.

Definition isDrain (a : Action) : bool :=
  match a with DrainElapsed => true | _ => false end.

Definition setServer (f : serverState -> serverState) (s : State) : State :=
  {| env := env s; clustered := clustered s; server := f (server s); health := health s;
     accepting := accepting s; exitWhenResolved := exitWhenResolved s |}.

Definition setHealth (f : Health.healthState -> Health.healthState) (s : State) : State :=
  {| env := env s; clustered := clustered s; server := server s; health := f (health s);
     accepting := accepting s; exitWhenResolved := exitWhenResolved s |}.

Definition setAccepting (b : bool) (s : State) : State :=
  {| env := env s; clustered := clustered s; server := server s; health := health s;
     accepting := b; exitWhenResolved := exitWhenResolved s |}.

Definition setExitWhenResolved (b : bool) (s : State) : State :=
  {| env := env s; clustered := clustered s; server := server s; health := health s;
     accepting := accepting s; exitWhenResolved := b |}.

Definition hasConnection (c : nat) (s : serverState) : bool :=
  existsb (Nat.eqb c) (connections s).

(** [serverState.connections.add(c)] *)
Definition addConnection (c : nat) (s : serverState) : serverState :=
  {| isShuttingDown := isShuttingDown s;
     connections := if hasConnection c s then connections s else connections s ++ [c] |}.

(** [serverState.connections.delete(c)] *)
Definition deleteConnection (c : nat) (s : serverState) : serverState :=
  {| isShuttingDown := isShuttingDown s;
     connections := List.filter (fun x => negb (Nat.eqb c x)) (connections s) |}.

Definition shutDown (s : serverState) : serverState :=
  {| isShuttingDown := true; connections := connections s |}.

Definition drainDelay (s : State) : Z := envInt (DRAIN_DELAY_MS (env s)) 5000.
Definition shutdownTimeout (s : State) : Z := envInt (SHUTDOWN_TIMEOUT_MS (env s)) 30000.

Definition processExit (code : Z) (w : W) : W :=
  let w := emit (Exit code) w in
  mkWorld (now w) (timers w) (Some code) (trace w) (app w).

Definition markReady (w : W) : W :=
  emit (Log Info "Application marked as ready") (setApp (setHealth Health.markReady) w).

Definition markNotReady (w : W) : W :=
  emit (Log Warn "Application marked as not ready") (setApp (setHealth Health.markNotReady) w).

(** [gracefulShutdown], up to its [await]. *)
Definition gracefulShutdown (signal : string) (w : W) : W :=
  if isShuttingDown (server (app w)) then
    emit (Log Warn "Shutdown already in progress, ignoring signal") w
  else
    let w := setApp (setServer shutDown) w in
    let w := emit (Log Info ("Received " +:+ signal +:+ ", starting graceful shutdown...")) w in
    let w := markNotReady w in
    let w := emit (Log Info "Waiting ${drainDelay}ms for load balancer drain...") w in
    setTimeout (drainDelay (app w)) DrainElapsed w.

Definition endConnection (w : W) (c : nat) : W :=
  setTimeout 5000 (DestroyConnection c) (emit (End c) w).

(** [gracefulShutdown], from the [await] to its end.  The callback given to
    [server.close] only writes a log line and is left out; the 100 ms
    interval is a timer that its callback arms again. *)
Definition afterDrain (w : W) : W :=
  let w := emit ServerClose (setApp (setAccepting false) w) in
  let w := setTimeout (shutdownTimeout (app w)) ForceShutdown w in
  let w := fold_left endConnection (connections (server (app w))) w in
  let w := setTimeout 100 CheckConnections w in
  if exitWhenResolved (app w) then processExit 1 w else w.

Definition fire (a : Action) (w : W) : W :=
  match a with
  | DrainElapsed => afterDrain w
  | ForceShutdown =>
      processExit 1 (emit (Log Error "Forced shutdown due to timeout") w)
  | DestroyConnection c =>
      if hasConnection c (server (app w))
      then setApp (setServer (deleteConnection c)) (emit (Destroy c) w)
      else w
  | CheckConnections =>
      match connections (server (app w)) with
      | [] =>
          let w := clearTimers isForce (clearTimers isCheck w) in
          processExit 0 (emit (Log Info "All connections closed, shutting down") w)
      | _ :: _ => setTimeout 100 CheckConnections w
      end
  | Heartbeat => setTimeout 10000 Heartbeat (emit (Send "heartbeat") w)
  end.

(** [process.on('uncaughtException')]: the handler exits with 1 once the
    promise of [gracefulShutdown] resolves, at once when a shutdown is
    already in progress. *)
Definition uncaughtException (w : W) : W :=
  let w := emit (Log Error "Uncaught Exception") w in
  if isShuttingDown (server (app w))
  then processExit 1 (gracefulShutdown "uncaughtException" w)
  else setApp (setExitWhenResolved true) (gracefulShutdown "uncaughtException" w).

(** The listener of ['message'] is registered by the worker branch of
    [cluster.js] only: a process started from [server.js] alone has none, and
    the message changes nothing there. *)
Definition handle (e : Event) (w : W) : W :=
  match e with
  | Sig s => gracefulShutdown (signalName s) w
  | ShutdownMessage =>
      if clustered (app w) then
        gracefulShutdown "SIGTERM"
          (emit (Log Info "Worker ${cluster.worker.id} received shutdown signal") w)
      else w
  | UncaughtException => uncaughtException w
  | Connection c =>
      if accepting (app w) then setApp (setServer (addConnection c)) w else w
  | ConnectionClosed c => setApp (setServer (deleteConnection c)) w
  | Listening =>
      markReady (emit (Log Info "Server started successfully")
                      (setApp (setAccepting true) w))
  | ServerError true =>
      processExit 1 (emit (Log Error "Port ${config.app.port} is already in use") w)
  | ServerError false => uncaughtException w
  end.

(** The process at start-up; a clustered worker also sends heartbeats. *)
Definition start (cfg : Config) (clustered : bool) : W :=
  let w := mkWorld 0 [] None []
    {| env := cfg;
       clustered := clustered;
       server := {| isShuttingDown := false; connections := [] |};
       health := Health.initial;
       accepting := false;
       exitWhenResolved := false |} in
  if clustered then setTimeout 10000 Heartbeat w else w.

Definition tick : W -> W := Loop.tick fire.
Definition deliver : Z -> Event -> W -> W := Loop.deliver handle.
Definition step : Input Event -> W -> option W := Loop.step fire handle.
Definition exec : list (Input Event) -> W -> option W := Loop.exec fire handle.
Definition run : nat -> W -> W := Loop.run fire.

(** The entries of the trace that close a connection by force:
    [connection.end()] and [connection.destroy()]. *)
Definition isTeardown (o : Obs Action Event Effect) : bool :=
  match o with
  | Out (End _) | Out (Destroy _) => true
  | _ => false
  end.


(** When the drain delay elapses and when the force timer fires, for a
    shutdown triggered at time [T]. *)
Definition drainAt (cfg : Config) (T : Z) : Z :=
  T + timerDelay (envInt (DRAIN_DELAY_MS cfg) 5000).

Definition forceAt (cfg : Config) (T : Z) : Z :=
  drainAt cfg T + timerDelay (envInt (SHUTDOWN_TIMEOUT_MS cfg) 30000).

(** The events that ask for a graceful shutdown: a termination signal, and
    in a worker of the cluster the shutdown message of the primary. *)
Definition isTrigger (clustered : bool) (e : Event) : bool :=
  match e with
  | Sig _ => true
  | ShutdownMessage => clustered
  | _ => false
  end.

(** A worker that listens and holds the open connection 1, at time 0. *)
Definition serving (cfg : Config) (clustered : bool) : W :=
  deliver 0 (Connection 1) (deliver 0 Listening (start cfg clustered)).

(** The scenario of C4: drain delay 200 ms, shutdown timeout 1000 ms, one
    open connection whose peer never closes it; SIGTERM arrives at time 0. *)
Definition cfgC4 : Config :=
  {| DRAIN_DELAY_MS := Some 200; SHUTDOWN_TIMEOUT_MS := Some 1000 |}.

Definition scenarioC4 : W := deliver 0 (Sig SIGTERM) (serving cfgC4 true).


(** The states of the drain state machine, read off the process: a worker
    that is shutting down is draining while the [await] of the drain delay
    is pending, and closing after it. *)
Inductive Phase := RUNNING | DRAINING | CLOSING | TERMINATED (code : Z).

Definition phase (w : W) : Phase :=
  match exited w with
  | Some c => TERMINATED c
  | None =>
      if negb (isShuttingDown (server (app w))) then RUNNING
      else if existsb (fun x => isDrain (snd x)) (timers w) then DRAINING
      else CLOSING
  end.

Definition Phase_eqb (p q : Phase) : bool :=
  match p, q with
  | RUNNING, RUNNING | DRAINING, DRAINING | CLOSING, CLOSING => true
  | TERMINATED c, TERMINATED d => c =? d
  | _, _ => false
  end.

(** The phase changes, with their times, over the next [n] timer firings. *)
Fixpoint timeline (n : nat) (w : W) : list (Z * Phase) :=
  match n with
  | O => []
  | S n' =>
      let w' := tick w in
      (if Phase_eqb (phase w) (phase w') then [] else [(now w', phase w')])
        ++ timeline n' w'
  end.

End Worker.

(** ** The primary process ([src/cluster.js]) *)

Module Primary.

Inductive Signal := SIGTERM | SIGINT | SIGUSR2.

(** [clusterState] *)
Record clusterState := {
  isShuttingDown : bool;
  workerRestarts : gmap nat (list Z);
  maxRestartsPerMinute : nat
}.

(** The listeners put on one worker's ['exit']. *)
Inductive ExitListener :=
| ClearHeartbeat                                      (* forkWorker *)
| RestartAfterExit (index : nat) (workerIds : list nat).  (* restartNext *)

(** The closure put on a new worker's ['listening'] by [restartNext]. *)
Record Replacement := {
  oldWorker : nat;
  index : nat;
  workerIds : list nat
}.

Record State := {
  SHUTDOWN_TIMEOUT_MS : option Z;          (* process.env, as parseInt reads it *)
  cstate : clusterState;                   (* clusterState *)
  ids : nat;                               (* cluster: the id of the last worker forked *)
  workers : list nat;                      (* cluster.workers: the live ids, ascending *)
  lastHeartbeat : gmap nat Z;              (* the variable of each forkWorker call *)
  onListening : list (nat * Replacement);  (* newWorker.on('listening', ...) *)
  onExit : list (nat * ExitListener)       (* worker.on('exit', ...) *)
}.

Inductive Action :=
| PollWorkers                                  (* checkInterval, every 500 ms *)
| ShutdownTimeout                              (* the force-exit timer *)
| RestartNext (index : nat) (workerIds : list nat)   (* setTimeout(() => restartNext(index + 1), 1000) *)
| HeartbeatCheck (id : nat).                   (* heartbeatInterval, every 30000 ms *)

Inductive Effect :=
| Log (l : Level) (msg : string)
| Fork (id : nat)                   (* cluster.fork() returned the worker [id] *)
| Send (id : nat) (type : string)   (* worker.send({ type }) *)
| Disconnect (id : nat)             (* worker.disconnect() *)
| Kill (id : nat)                   (* worker.kill() *)
| Exit (code : Z).                  (* process.exit(code) *)

Inductive Event :=
| Sig (s : Signal)
| WorkerExit (id : nat)
| WorkerListening (id : nat)
| WorkerOnline (id : nat)
| WorkerDisconnected (id : nat)
| WorkerMessage (id : nat) (type : string).

Abbreviation W := (World State Action Event Effect).

Definition isPoll (a : Action) : bool :=
  match a with PollWorkers => true | _ => false end.

Definition isTimeout (a : Action) : bool :=
  match a with ShutdownTimeout => true | _ => false end.

(** The signals that ask for the shutdown of the cluster. *)
Definition isTerminate (e : Event) : bool :=
  match e with Sig SIGTERM | Sig SIGINT => true | _ => false end.

Definition isHeartbeatOf (id : nat) (a : Action) : bool :=
  match a with HeartbeatCheck i => Nat.eqb i id | _ => false end.

Definition setCstate (f : clusterState -> clusterState) (s : State) : State :=
  {| SHUTDOWN_TIMEOUT_MS := SHUTDOWN_TIMEOUT_MS s; cstate := f (cstate s); ids := ids s;
     workers := workers s; lastHeartbeat := lastHeartbeat s;
     onListening := onListening s; onExit := onExit s |}.

Definition setShuttingDown (c : clusterState) : clusterState :=
  {| isShuttingDown := true; workerRestarts := workerRestarts c;
     maxRestartsPerMinute := maxRestartsPerMinute c |}.

Definition setRestarts (id : nat) (l : list Z) (c : clusterState) : clusterState :=
  {| isShuttingDown := isShuttingDown c; workerRestarts := <[id := l]> (workerRestarts c);
     maxRestartsPerMinute := maxRestartsPerMinute c |}.

(** The cluster module hands out worker ids from a counter. *)
Definition addWorker (s : State) : State :=
  {| SHUTDOWN_TIMEOUT_MS := SHUTDOWN_TIMEOUT_MS s; cstate := cstate s; ids := S (ids s);
     workers := workers s ++ [S (ids s)]; lastHeartbeat := lastHeartbeat s;
     onListening := onListening s; onExit := onExit s |}.

Definition removeWorker (id : nat) (s : State) : State :=
  {| SHUTDOWN_TIMEOUT_MS := SHUTDOWN_TIMEOUT_MS s; cstate := cstate s; ids := ids s;
     workers := List.filter (fun x => negb (Nat.eqb id x)) (workers s);
     lastHeartbeat := lastHeartbeat s;
     onListening := onListening s; onExit := onExit s |}.

Definition setLastHeartbeat (id : nat) (t : Z) (s : State) : State :=
  {| SHUTDOWN_TIMEOUT_MS := SHUTDOWN_TIMEOUT_MS s; cstate := cstate s; ids := ids s;
     workers := workers s; lastHeartbeat := <[id := t]> (lastHeartbeat s);
     onListening := onListening s; onExit := onExit s |}.

Definition addOnListening (id : nat) (r : Replacement) (s : State) : State :=
  {| SHUTDOWN_TIMEOUT_MS := SHUTDOWN_TIMEOUT_MS s; cstate := cstate s; ids := ids s;
     workers := workers s; lastHeartbeat := lastHeartbeat s;
     onListening := onListening s ++ [(id, r)]; onExit := onExit s |}.

Definition addOnExit (id : nat) (l : ExitListener) (s : State) : State :=
  {| SHUTDOWN_TIMEOUT_MS := SHUTDOWN_TIMEOUT_MS s; cstate := cstate s; ids := ids s;
     workers := workers s; lastHeartbeat := lastHeartbeat s;
     onListening := onListening s; onExit := onExit s ++ [(id, l)] |}.

Definition isLive (id : nat) (s : State) : bool := existsb (Nat.eqb id) (workers s).

Definition shutdownTimeout (s : State) : Z := envInt (SHUTDOWN_TIMEOUT_MS s) 30000.

Definition processExit (code : Z) (w : W) : W :=
  let w := emit (Exit code) w in
  mkWorld (now w) (timers w) (Some code) (trace w) (app w).

(** [cluster.fork()]: the new worker and its id. *)
Definition clusterFork (w : W) : nat * W :=
  let id := S (ids (app w)) in
  (id, emit (Fork id) (setApp addWorker w)).

(** [forkWorker]: a fork with the heartbeat watchdog. *)
Definition forkWorker (w : W) : W :=
  let '(id, w) := clusterFork w in
  let w := setApp (setLastHeartbeat id (now w)) w in
  let w := setTimeout 30000 (HeartbeatCheck id) w in
  setApp (addOnExit id ClearHeartbeat) w.

(** The restart-rate check of [cluster.on('exit')]: the instants kept by
    [restarts.filter((time) => now - time < 60000)]. *)
Definition recentRestarts (now_ : Z) (restarts : list Z) : list Z :=
  List.filter (fun time => now_ - time <? 60000) restarts.

Definition restartsOf (id : nat) (c : clusterState) : list Z :=
  default [] (workerRestarts c !! id).

(** [cluster.on('exit', ...)] *)
Definition clusterOnExit (id : nat) (w : W) : W :=
  let w := emit (Log Warn "Worker died") w in
  if isShuttingDown (cstate (app w)) then w
  else
    let recent := recentRestarts (now w) (restartsOf id (cstate (app w))) in
    if (maxRestartsPerMinute (cstate (app w)) <=? length recent)%nat then
      emit (Log Error "Worker ${worker.id} restarting too frequently, not restarting") w
    else
      let w := setApp (setCstate (setRestarts id (recent ++ [now w]))) w in
      let w := emit (Log Info "Restarting worker") w in
      forkWorker w.

Definition runExitListener (id : nat) (w : W) (l : nat * ExitListener) : W :=
  if Nat.eqb (fst l) id then
    match snd l with
    | ClearHeartbeat => clearTimers (isHeartbeatOf id) w
    | RestartAfterExit i wids => setTimeout 1000 (RestartNext (S i) wids) w
    end
  else w.

(** A worker exits: it leaves [cluster.workers], its own ['exit'] listeners
    run, then the cluster's. *)
Definition workerExit (id : nat) (w : W) : W :=
  let w := setApp (removeWorker id) w in
  let w := fold_left (runExitListener id) (onExit (app w)) w in
  clusterOnExit id w.

(** [restartNext(index)], over the ids from [index] on: the ids whose worker
    is gone are skipped. *)
Fixpoint restartFrom (i : nat) (rest wids : list nat) (w : W) : W :=
  match rest with
  | [] => emit (Log Info "Rolling restart complete") w
  | old :: rest' =>
      if isLive old (app w) then
        let w := emit (Log Info "Restarting worker ${worker.id}") w in
        let '(new, w) := clusterFork w in
        setApp (addOnListening new {| oldWorker := old; index := i; workerIds := wids |}) w
      else restartFrom (S i) rest' wids w
  end.

Definition restartNext (i : nat) (wids : list nat) (w : W) : W :=
  restartFrom i (drop i wids) wids w.

(** The listener of [restartNext] on the new worker's ['listening']. *)
Definition runListeningListener (id : nat) (w : W) (l : nat * Replacement) : W :=
  if Nat.eqb (fst l) id then
    let r := snd l in
    let w := emit (Disconnect (oldWorker r)) w in
    setApp (addOnExit (oldWorker r) (RestartAfterExit (index r) (workerIds r))) w
  else w.

Definition workerListening (id : nat) (w : W) : W :=
  let w := fold_left (runListeningListener id) (onListening (app w)) w in
  emit (Log Info "Worker listening") w.

(** [process.on('SIGUSR2', ...)] *)
Definition rollingRestart (w : W) : W :=
  let w := emit (Log Info "Received SIGUSR2, performing rolling restart") w in
  restartNext 0 (workers (app w)) w.

Definition sendShutdown (w : W) (id : nat) : W := emit (Send id "shutdown") w.

(** [gracefulShutdown] of the primary; the 500 ms interval is a timer that
    its callback arms again. *)
Definition gracefulShutdown (signal : string) (w : W) : W :=
  if isShuttingDown (cstate (app w)) then w
  else
    let w := setApp (setCstate setShuttingDown) w in
    let w := emit (Log Info ("Primary received " +:+ signal +:+ ", initiating graceful shutdown")) w in
    let w := fold_left sendShutdown (workers (app w)) w in
    let w := setTimeout 500 PollWorkers w in
    setTimeout (shutdownTimeout (app w)) ShutdownTimeout w.

Definition workerMessage (id : nat) (type : string) (w : W) : W :=
  let w :=
    if String.eqb type "heartbeat" then
      match lastHeartbeat (app w) !! id with
      | Some _ => setApp (setLastHeartbeat id (now w)) w
      | None => w
      end
    else w in
  if String.eqb type "log" then emit (Log Info "Message from worker ${worker.id}") w else w.

Definition heartbeatCheck (id : nat) (w : W) : W :=
  let w :=
    match lastHeartbeat (app w) !! id with
    | Some t =>
        if 60000 <? now w - t
        then emit (Kill id) (emit (Log Error "Worker ${worker.id} heartbeat timeout, killing") w)
        else w
    | None => w
    end in
  setTimeout 30000 (HeartbeatCheck id) w.

Definition fire (a : Action) (w : W) : W :=
  match a with
  | PollWorkers =>
      match workers (app w) with
      | [] =>
          let w := clearTimers isPoll w in
          processExit 0 (emit (Log Info "All workers exited, primary shutting down") w)
      | _ :: _ => setTimeout 500 PollWorkers w
      end
  | ShutdownTimeout =>
      processExit 1 (emit (Log Error "Shutdown timeout reached, forcing exit") w)
  | RestartNext i wids => restartNext i wids w
  | HeartbeatCheck id => heartbeatCheck id w
  end.

Definition handle (e : Event) (w : W) : W :=
  match e with
  | Sig SIGTERM => gracefulShutdown "SIGTERM" w
  | Sig SIGINT => gracefulShutdown "SIGINT" w
  | Sig SIGUSR2 => rollingRestart w
  | WorkerExit id => workerExit id w
  | WorkerListening id => workerListening id w
  | WorkerOnline id => emit (Log Info "Worker online") w
  | WorkerDisconnected id => emit (Log Warn "Worker disconnected") w
  | WorkerMessage id type => workerMessage id type w
  end.

(** The primary at start-up: [numWorkers] calls of [forkWorker]. *)
Definition boot (timeoutEnv : option Z) : W :=
  emit (Log Info "Primary process started")
    (mkWorld 0 [] None []
      {| SHUTDOWN_TIMEOUT_MS := timeoutEnv;
         cstate := {| isShuttingDown := false; workerRestarts := ∅;
                      maxRestartsPerMinute := 5 |};
         ids := 0; workers := []; lastHeartbeat := ∅;
         onListening := []; onExit := [] |}).

Fixpoint forkWorkers (n : nat) (w : W) : W :=
  match n with
  | O => w
  | S n' => forkWorkers n' (forkWorker w)
  end.

Definition start (numWorkers : nat) (timeoutEnv : option Z) : W :=
  forkWorkers numWorkers (boot timeoutEnv).

Definition tick : W -> W := Loop.tick fire.
Definition deliver : Z -> Event -> W -> W := Loop.deliver handle.
Definition step : Input Event -> W -> option W := Loop.step fire handle.
Definition exec : list (Input Event) -> W -> option W := Loop.exec fire handle.
Definition run : nat -> W -> W := Loop.run fire.

(** The ids forked, in order, as the trace shows them. *)
Definition forks (tr : list (Z * Obs Action Event Effect)) : list nat :=
  omap (fun x => match snd x with Out (Fork id) => Some id | _ => None end) tr.

(** Reading the trace: the fork of worker [n], its listening notification,
    the request to disconnect worker [o], the exit of worker [o]. *)
Definition isForkOf (n : nat) (o : Obs Action Event Effect) : bool :=
  match o with Out (Fork i) => Nat.eqb i n | _ => false end.

Definition isListeningOf (n : nat) (o : Obs Action Event Effect) : bool :=
  match o with Recv (WorkerListening i) => Nat.eqb i n | _ => false end.

Definition isDisconnectOf (n : nat) (o : Obs Action Event Effect) : bool :=
  match o with Out (Disconnect i) => Nat.eqb i n | _ => false end.

Definition isExitOf (n : nat) (o : Obs Action Event Effect) : bool :=
  match o with Recv (WorkerExit i) => Nat.eqb i n | _ => false end.

Definition occurs (p : Obs Action Event Effect -> bool)
    (tr : list (Z * Obs Action Event Effect)) : bool :=
  existsb (fun x => p (snd x)) tr.

(** Some entry in [p] comes before some entry in [q]. *)
Fixpoint before (p q : Obs Action Event Effect -> bool)
    (tr : list (Z * Obs Action Event Effect)) : bool :=
  match tr with
  | [] => false
  | x :: tr' => (p (snd x) && occurs q tr') || before p q tr'
  end.

(** The entries that the order of the rolling restart is about: a request
    to disconnect, and the timer that moves on to the next id. *)
Definition isPlain (o : Obs Action Event Effect) : bool :=
  match o with
  | Out (Disconnect _) | Fired (RestartNext _ _) => false
  | _ => true
  end.

(** An entry is in order after the entries [seen]: a worker is disconnected
    after some worker, forked before, has reported listening; the rolling
    restart moves on after some worker, disconnected before, has exited. *)
Definition entry_ok (seen : list (Z * Obs Action Event Effect))
    (x : Z * Obs Action Event Effect) : Prop :=
  match snd x with
  | Out (Disconnect o) =>
      exists n, before (isForkOf n) (isListeningOf n) seen = true
  | Fired (RestartNext j wids) =>
      exists o, before (isDisconnectOf o) (isExitOf o) seen = true
  | _ => True
  end.

Fixpoint ordered_from (seen rest : list (Z * Obs Action Event Effect)) : Prop :=
  match rest with
  | [] => True
  | x :: rest' => entry_ok seen x /\ ordered_from (seen ++ [x]) rest'
  end.

(** The closures waiting for worker [n] to listen. *)
Definition replacementsOf (n : nat) (ls : list (nat * Replacement)) : list Replacement :=
  map snd (List.filter (fun l => Nat.eqb (fst l) n) ls).

(** The warnings of the log. *)
Definition isWarn (o : Obs Action Event Effect) : bool :=
  match o with Out (Log Warn _) => true | _ => false end.

(** When the force-exit timer fires, for a shutdown triggered at time [T]. *)
Definition forceAt (timeoutEnv : option Z) (T : Z) : Z :=
  T + timerDelay (envInt timeoutEnv 30000).

(** The exit of the worker [id] is reported at each of the instants [ts]. *)
Definition crashes (id : nat) (ts : list Z) (w : W) : W :=
  fold_left (fun w t => deliver t (WorkerExit id) w) ts w.

(** [numWorkers]: [parseInt(process.env.CLUSTER_WORKERS, 10) || os.cpus().length]. *)
Definition numWorkers (CLUSTER_WORKERS : option Z) (cpus : nat) : Z :=
  envInt CLUSTER_WORKERS (Z.of_nat cpus).

(** The primary branch at start-up: the loop
    [for (let i = 0; i < numWorkers; i++) forkWorker()]. *)
Definition startPrimary (CLUSTER_WORKERS : option Z) (cpus : nat)
    (timeoutEnv : option Z) : W :=
  start (Z.to_nat (numWorkers CLUSTER_WORKERS cpus)) timeoutEnv.

End Primary.

(** ** The other probes ([src/routes/healthRoutes.js]) *)

Module Probes.
Import Health.

(** [formatUptime]; [ms] is an integer number of milliseconds, [Math.floor]
    of its quotients is the division of [Z], [%] is the remainder that takes
    the sign of the dividend. *)
Definition formatUptime (ms : Z) : string :=
  let seconds := ms / 1000 in
  let minutes := seconds / 60 in
  let hours := minutes / 60 in
  let days := hours / 24 in
  if 0 <? days then
    pretty days +:+ "d " +:+ pretty (Z.rem hours 24) +:+ "h "
      +:+ pretty (Z.rem minutes 60) +:+ "m"
  else if 0 <? hours then
    pretty hours +:+ "h " +:+ pretty (Z.rem minutes 60) +:+ "m "
      +:+ pretty (Z.rem seconds 60) +:+ "s"
  else if 0 <? minutes then
    pretty minutes +:+ "m " +:+ pretty (Z.rem seconds 60) +:+ "s"
  else pretty seconds +:+ "s".

(** [router.get('/live')] *)
Definition getLive (hs : healthState) : Response * healthState :=
  ({| statusCode := 200; bodyStatus := "alive"; bodyChecks := None |}, hs).

(** The body of [GET /health/detailed], as far as it depends on the health
    state and the clock; [res.json] answers with status 200. *)
Record Detailed := {
  response : Response;
  ready : bool;
  uptimeSeconds : Z;
  uptimeHuman : string
}.

(** [router.get('/detailed')]; [uptime] is [Date.now() - healthState.startTime]. *)
Definition getDetailed (r : Readings) (uptime : Z) (hs : healthState)
    : Detailed * healthState :=
  let '(cs, hs') := runHealthChecks r hs in
  ({| response := {| statusCode := 200;
                     bodyStatus := if isHealthy hs' then "healthy" else "unhealthy";
                     bodyChecks := Some cs |};
      ready := isReady hs';
      uptimeSeconds := (uptime + 500) / 1000;     (* Math.round(uptime / 1000) *)
      uptimeHuman := formatUptime uptime |}, hs').

(** What reaches the health state: the four probes, and [markReady] and
    [markNotReady], which the server calls. *)
Inductive Request :=
| GetHealth (r : Readings)
| GetLive
| GetReady (r : Readings)
| GetDetailed (r : Readings) (uptime : Z)
| MarkReady
| MarkNotReady.

Definition serve (q : Request) (hs : healthState) : healthState :=
  match q with
  | GetHealth r => (getHealth r hs).2
  | GetLive => (getLive hs).2
  | GetReady r => (getReady r hs).2
  | GetDetailed r uptime => (getDetailed r uptime hs).2
  | MarkReady => markReady hs
  | MarkNotReady => markNotReady hs
  end.

Definition serveAll (qs : list Request) (hs : healthState) : healthState :=
  fold_left (fun hs q => serve q hs) qs hs.

Definition checkNames : list string := ["database"; "memory"; "eventLoop"].

End Probes.

(** ** The user store ([src/models/User.js]) and its pagination
    ([src/services/userService.js]) *)

(** Each operation of the model first awaits [simulateDbLatency], which may
    throw, and then runs to its end without another [await]: it is one
    function of the store, with the outcome of the simulated database as the
    argument [failing].  The timing by [trackDbQuery], the metrics and the log
    lines are left out.  The properties of a user are strings. *)

Module Users.

(** The outcome of an operation: the value it resolves to, or the message of
    the error it throws. *)
Inductive Result (A : Type) :=
| Ok (value : A)
| Err (message : string).

Arguments Ok {A} value.
Arguments Err {A} message.

(** An object with string values. *)
Definition Meta := list (string * string).

Record User := {
  id : string;
  email : string;
  name : string;
  role : string;
  status : string;
  metadata : Meta;
  createdAt : string;
  updatedAt : string
}.

(** The argument of [create]: [email] and [name] are read without a test,
    the other properties may be missing. *)
Record UserData := {
  data_id : option string;
  data_email : string;
  data_name : string;
  data_role : option string;
  data_status : option string;
  data_metadata : option Meta;
  data_createdAt : option string
}.

(** The argument of [update]: each property is present or not. *)
Record UpdateData := {
  upd_email : option string;
  upd_name : option string;
  upd_role : option string;
  upd_status : option string;
  upd_metadata : option Meta
}.

(** The Map [users]: keys in insertion order. *)
Definition Store := list (string * User).

(** A string in a condition: the empty string is falsy. *)
Definition truthy (s : string) : bool := negb (String.eqb s "").

(** [v || d] for a string property that may be missing. *)
Definition orElse (v : option string) (d : string) : string :=
  match v with
  | Some s => if truthy s then s else d
  | None => d
  end.

(** [if (v)] for a string property that may be missing. *)
Definition given (v : option string) : bool :=
  match v with Some s => truthy s | None => false end.

Definition mapGet (k : string) (m : Store) : option User :=
  match List.find (fun p => String.eqb p.1 k) m with
  | Some p => Some p.2
  | None => None
  end.

Fixpoint mapSet (k : string) (v : User) (m : Store) : Store :=
  match m with
  | [] => [(k, v)]
  | (k', v') :: m' => if String.eqb k' k then (k, v) :: m' else (k', v') :: mapSet k v m'
  end.

Definition mapDelete (k : string) (m : Store) : Store :=
  List.filter (fun p => negb (String.eqb p.1 k)) m.

Definition values (m : Store) : list User := map snd m.

(** [s.includes(sub)] *)
Definition includes (s sub : string) : bool :=
  match String.index 0 sub s with Some _ => true | None => false end.

(** [arr.slice(start, end)] *)
Definition slice {A} (start end_ : Z) (l : list A) : list A :=
  let len := Z.of_nat (length l) in
  let from := if start <? 0 then Z.max (len + start) 0 else Z.min start len in
  let to := if end_ <? 0 then Z.max (len + end_) 0 else Z.min end_ len in
  take (Z.to_nat (to - from)) (drop (Z.to_nat from) l).

(** A number that need not be finite: the result of [Math.ceil(total / limit)]. *)
Inductive Number :=
| Finite (n : Z)
| Infinity
| NaN.

(** [a < b] for a finite [a]. *)
Definition ltNumber (a : Z) (b : Number) : bool :=
  match b with
  | Finite n => a <? n
  | Infinity => true
  | NaN => false
  end.

(** [Math.ceil(total / limit)] for integers, [total] not negative. *)
Definition ceilDiv (total limit : Z) : Number :=
  if limit =? 0 then (if total =? 0 then NaN else Infinity)
  else Finite (- ((- total) / limit)).

Record Pagination := {
  page : Z;
  limit : Z;
  total : Z;
  totalPages : Number;
  hasNext : bool;
  hasPrev : bool
}.

Record Options := {
  opt_page : option Z;
  opt_limit : option Z;
  opt_status : option string;
  opt_role : option string;
  opt_search : option string
}.

(** What [seed] draws for one user: the outcome of the simulated database,
    the uuid, the clock, and the two random indexes below 3. *)
Record Draw := {
  dbError : bool;
  uuid : string;
  now_ : string;
  roleIndex : nat;
  statusIndex : nat
}.

Definition dbTimeout : string := "Database connection timeout".

(** The object [{ status }]. *)
Definition statusOnly (status_ : string) : UpdateData :=
  {| upd_email := None; upd_name := None; upd_role := None;
     upd_status := Some status_; upd_metadata := None |}.

(** The [results] of [bulkUpdateStatus]. *)
Record BulkResults := {
  success : list string;
  failed : list (string * string)
}.

Section Model.
(** The platform: [String.prototype.toLowerCase] and [trim], and
    [Array.prototype.sort] with the comparator of [findAll]. *)
Variable toLowerCase : string -> string.
Variable trim : string -> string.
Variable sortByCreatedAt : list User -> list User.

Definition createUserObject (uuid_ now : string) (data : UserData) : User :=
  {| id := orElse (data_id data) uuid_;
     email := trim (toLowerCase (data_email data));
     name := trim (data_name data);
     role := orElse (data_role data) "user";
     status := orElse (data_status data) "active";
     metadata := default [] (data_metadata data);
     createdAt := orElse (data_createdAt data) now;
     updatedAt := now |}.

(** [UserModel.create]; [failing] says that the simulated database throws. *)
Definition create (failing : bool) (uuid_ now : string) (userData : UserData)
    (users : Store) : Result User * Store :=
  if failing then (Err dbTimeout, users)
  else if existsb (fun u => String.eqb (email u) (toLowerCase (data_email userData)))
                  (values users)
  then (Err "Email already exists", users)
  else
    let user := createUserObject uuid_ now userData in
    (Ok user, mapSet (id user) user users).

Definition findById (failing : bool) (id_ : string) (users : Store)
    : Result (option User) :=
  if failing then Err dbTimeout else Ok (mapGet id_ users).

Definition findByEmail (failing : bool) (email_ : string) (users : Store)
    : Result (option User) :=
  if failing then Err dbTimeout
  else Ok (List.find (fun u => String.eqb (email u) (toLowerCase email_)) (values users)).

Definition update (failing : bool) (now : string) (id_ : string)
    (updateData : UpdateData) (users : Store) : Result (option User) * Store :=
  if failing then (Err dbTimeout, users)
  else
    match mapGet id_ users with
    | None => (Ok None, users)
    | Some user =>
        let clash :=
          match upd_email updateData with
          | Some e =>
              truthy e && negb (String.eqb (toLowerCase e) (email user)) &&
              existsb (fun u => String.eqb (email u) (toLowerCase e)
                                && negb (String.eqb (id u) id_)) (values users)
          | None => false
          end in
        if clash then (Err "Email already exists", users)
        else
          let email1 := default (email user) (upd_email updateData) in
          let name1 := default (name user) (upd_name updateData) in
          let updatedUser :=
            {| id := id user;
               email := if truthy email1 then trim (toLowerCase email1) else email1;
               name := if truthy name1 then trim name1 else name1;
               role := default (role user) (upd_role updateData);
               status := default (status user) (upd_status updateData);
               metadata := default (metadata user) (upd_metadata updateData);
               createdAt := createdAt user;
               updatedAt := now |} in
          (Ok (Some updatedUser), mapSet id_ updatedUser users)
    end.

Definition delete (failing : bool) (id_ : string) (users : Store) : Result bool * Store :=
  if failing then (Err dbTimeout, users)
  else
    match mapGet id_ users with
    | None => (Ok false, users)
    | Some _ => (Ok true, mapDelete id_ users)
    end.

(** The test of [count] on one user. *)
Definition matches (status_ role_ : option string) (u : User) : bool :=
  negb (given status_ && negb (String.eqb (status u) (default "" status_))) &&
  negb (given role_ && negb (String.eqb (role u) (default "" role_))).

Definition count (failing : bool) (status_ role_ : option string) (users : Store)
    : Result nat :=
  if failing then Err dbTimeout
  else Ok (length (List.filter (matches status_ role_) (values users))).

(** The users that [findAll] pages over: filtered, then sorted. *)
Definition selected (options : Options) (users : Store) : list User :=
  let results := values users in
  let results :=
    if given (opt_status options)
    then List.filter (fun u => String.eqb (status u) (default "" (opt_status options))) results
    else results in
  let results :=
    if given (opt_role options)
    then List.filter (fun u => String.eqb (role u) (default "" (opt_role options))) results
    else results in
  let results :=
    if given (opt_search options)
    then
      let searchLower := toLowerCase (default "" (opt_search options)) in
      List.filter (fun u => includes (toLowerCase (name u)) searchLower
                            || includes (toLowerCase (email u)) searchLower) results
    else results in
  sortByCreatedAt results.

Definition findAll (failing : bool) (options : Options) (users : Store)
    : Result (list User * Pagination) :=
  if failing then Err dbTimeout
  else
    let page_ := default 1 (opt_page options) in
    let limit_ := default 10 (opt_limit options) in
    let results := selected options users in
    let total_ := Z.of_nat (length results) in
    let totalPages_ := ceilDiv total_ limit_ in
    let offset := (page_ - 1) * limit_ in
    Ok (slice offset (offset + limit_) results,
        {| page := page_; limit := limit_; total := total_; totalPages := totalPages_;
           hasNext := ltNumber page_ totalPages_; hasPrev := 1 <? page_ |}).

(** [roles[Math.floor(Math.random() * roles.length)]] *)
Definition pick (l : list string) (i : nat) : string := nth i l "".

Definition seedData (i : nat) (d : Draw) : UserData :=
  {| data_id := None;
     data_email := "user" +:+ pretty (S i) +:+ "@example.com";
     data_name := "Test User " +:+ pretty (S i);
     data_role := Some (pick ["user"; "admin"; "moderator"] (roleIndex d));
     data_status := Some (pick ["active"; "inactive"; "pending"] (statusIndex d));
     data_metadata := None;
     data_createdAt := None |}.

(** [UserModel.seed(count)], from the iteration [i] on: one draw for each
    user; the first insert that throws ends it. *)
Fixpoint seedFrom (i : nat) (draws : list Draw) (users : Store) : Result unit * Store :=
  match draws with
  | [] => (Ok tt, users)
  | d :: draws' =>
      match create (dbError d) (uuid d) (now_ d) (seedData i d) users with
      | (Ok _, users') => seedFrom (S i) draws' users'
      | (Err message, users') => (Err message, users')
      end
  end.

Definition seed (draws : list Draw) (users : Store) : Result unit * Store :=
  seedFrom 0 draws users.

(** [UserService.getUsers], up to its call of [findAll]: [page] and [limit]
    as [parseInt] reads them ([None] for [NaN] or a missing value gives the
    default of the destructuring, then of [||]). *)
Definition pageNum (page_ : option Z) : Z := Z.max 1 (envInt page_ 1).

Definition limitNum (limit_ : option Z) : Z := Z.min 100 (Z.max 1 (envInt limit_ 10)).

Definition getUsers (failing : bool) (page_ limit_ : option Z)
    (status_ role_ search_ : option string) (users : Store)
    : Result (list User * Pagination) :=
  findAll failing
    {| opt_page := Some (pageNum page_); opt_limit := Some (limitNum limit_);
       opt_status := status_; opt_role := role_; opt_search := search_ |} users.

(** [UserService.bulkUpdateStatus], from the iteration [i] on: [failing i]
    says whether the database throws in that iteration, [clock i] is its
    time. *)
Fixpoint bulkFrom (failing : nat -> bool) (clock : nat -> string) (i : nat)
    (userIds : list string) (status_ : string) (results : BulkResults) (users : Store)
    : BulkResults * Store :=
  match userIds with
  | [] => (results, users)
  | id_ :: userIds' =>
      match update (failing i) (clock i) id_ (statusOnly status_) users with
      | (Ok _, users') =>
          bulkFrom failing clock (S i) userIds' status_
            {| success := success results ++ [id_]; failed := failed results |} users'
      | (Err message, users') =>
          bulkFrom failing clock (S i) userIds' status_
            {| success := success results; failed := failed results ++ [(id_, message)] |}
            users'
      end
  end.

Definition bulkUpdateStatus (failing : nat -> bool) (clock : nat -> string)
    (userIds : list string) (status_ : string) (users : Store) : BulkResults * Store :=
  bulkFrom failing clock 0 userIds status_ {| success := []; failed := [] |} users.

End Model.

End Users.

(** * Facts *)

(** ** Platform *)

Lemma timerDelay_pos ms : 1 <= timerDelay ms.
Proof.
  unfold timerDelay.
  destruct (1 <=? ms) eqn:E1; destruct (ms <=? TIMEOUT_MAX) eqn:E2; simpl; lia.
Qed.


(** ** The event loop *)

Section LoopFacts.
Context {St Act Ev Eff : Type}.
Implicit Types (l : list (Z * Act)) (w : World St Act Ev Eff).

Lemma minDue_nil l : minDue l = None -> l = [].
Proof.
  destruct l as [|[d a] l]; [done|]. simpl. by destruct (minDue l).
Qed.

Lemma minDue_lower l m : minDue l = Some m -> Forall (fun x => m <= x.1) l.
Proof.
  revert m. induction l as [|[d a] l IH]; intros m Hm; [constructor|].
  simpl in Hm. destruct (minDue l) as [m'|] eqn:E.
  - injection Hm as <-. constructor; [simpl; lia|].
    eapply Forall_impl; [by apply IH|]. simpl. intros; lia.
  - injection Hm as <-. apply minDue_nil in E as ->.
    constructor; [simpl; lia|constructor].
Qed.

Lemma minDue_elem l m : minDue l = Some m -> exists a, (m, a) ∈ l.
Proof.
  revert m. induction l as [|[d a] l IH]; intros m Hm; [done|].
  simpl in Hm. destruct (minDue l) as [m'|] eqn:E.
  - injection Hm as <-. destruct (Z.min_spec d m') as [[_ ->]|[_ ->]].
    + exists a. left.
    + destruct (IH m' eq_refl) as [b Hb]. exists b. by right.
  - injection Hm as <-. exists a. left.
Qed.

Lemma minDue_some l x : x ∈ l -> exists m, minDue l = Some m /\ m <= x.1.
Proof.
  induction 1 as [[d a] l|x [d a] l _ IH]; simpl.
  - destruct (minDue l) as [m'|]; eexists; (split; [reflexivity|]); simpl; lia.
  - destruct IH as (m' & -> & Hle). eexists; split; [reflexivity|]. lia.
Qed.

(** [takeDue] takes one timer out, the first one due at [d]. *)
Lemma takeDue_split d l a r :
  takeDue d l = Some (a, r) ->
  exists l1 l2, l = l1 ++ (d, a) :: l2 /\ r = l1 ++ l2.
Proof.
  revert r. induction l as [|[d' b] l IH]; intros r H; [done|].
  simpl in H. destruct (d' =? d) eqn:E.
  - apply Z.eqb_eq in E as ->. injection H as <- <-. by exists [], l.
  - destruct (takeDue d l) as [[c r']|]; [|done]. injection H as <- <-.
    destruct (IH r' eq_refl) as (l1 & l2 & -> & ->).
    by exists ((d', b) :: l1), l2.
Qed.

Lemma takeDue_elem d l a : (d, a) ∈ l -> is_Some (takeDue d l).
Proof.
  induction l as [|[d' b] l IH]; intros H; [by apply elem_of_nil in H|].
  simpl. destruct (d' =? d) eqn:E; [done|].
  apply elem_of_cons in H as [H|H].
  - injection H as -> ->. rewrite Z.eqb_refl in E. done.
  - destruct (IH H) as [[c r] ->]. done.
Qed.

Section Run.
Variable fire : Act -> World St Act Ev Eff -> World St Act Ev Eff.
Variable handle : Ev -> World St Act Ev Eff -> World St Act Ev Eff.

(** What a turn of the timer phase does. *)
Inductive ticked w : World St Act Ev Eff -> Prop :=
| ticked_idle : exited w <> None \/ timers w = [] -> ticked w w
| ticked_fire d a l1 l2 :
    exited w = None ->
    timers w = l1 ++ (d, a) :: l2 ->
    Forall (fun x => d <= x.1) (timers w) ->
    ticked w (fire a (record (Fired a) (mkWorld d (l1 ++ l2) None (trace w) (app w)))).

Lemma tick_ticked w : ticked w (tick fire w).
Proof.
  unfold tick. destruct (exited w) as [c|] eqn:Ex.
  { constructor. left. by rewrite Ex. }
  destruct (minDue (timers w)) as [d|] eqn:Em.
  2:{ constructor. right. by apply minDue_nil. }
  destruct (minDue_elem _ _ Em) as [b Hb].
  destruct (takeDue_elem _ _ _ Hb) as [[a r] Ht]. rewrite Ht.
  destruct (takeDue_split _ _ _ _ Ht) as (l1 & l2 & Hl & ->).
  rewrite <- Ex at 1. rewrite Ex.
  eapply ticked_fire; eauto using minDue_lower.
Qed.

Lemma tick_exited w : exited w <> None -> tick fire w = w.
Proof. unfold tick. by destruct (exited w). Qed.

Lemma run_exited n w : exited w <> None -> run fire n w = w.
Proof.
  revert w. induction n as [|n IH]; intros w H; [done|].
  simpl. rewrite tick_exited by done. by apply IH.
Qed.

Lemma run_add n m w : run fire (n + m) w = run fire m (run fire n w).
Proof. revert w. induction n as [|n IH]; intros w; simpl; [done|apply IH]. Qed.

(** An invariant of the steps holds after every schedule. *)
Lemma exec_invariant (I : World St Act Ev Eff -> Prop) :
  (forall i w w', I w -> step fire handle i w = Some w' -> I w') ->
  forall ins w w', I w -> exec fire handle ins w = Some w' -> I w'.
Proof.
  intros Hstep. induction ins as [|i ins IH]; intros w w' Hw H; simpl in H.
  - by injection H as <-.
  - destruct (step fire handle i w) as [w1|] eqn:E; [|done]. eauto.
Qed.

Lemma step_cases i w w' :
  step fire handle i w = Some w' ->
  exited w = None /\
  ((i = Tick /\ timers w <> [] /\ w' = tick fire w) \/
   (exists t e, i = Ext t e /\ now w <= t /\ Forall (fun x => t <= x.1) (timers w) /\
                w' = deliver handle t e w)).
Proof.
  unfold step. destruct (exited w); [done|]. intros H. split; [done|].
  destruct i as [|t e].
  - left. destruct (minDue (timers w)) eqn:E; [|done]. injection H as <-.
    repeat split. intros Hn. by rewrite Hn in E.
  - right. destruct (now w <=? t) eqn:E1; [|done].
    destruct (quiet t w) eqn:E2; [|done]. simpl in H. injection H as <-.
    exists t, e. repeat split; [lia|].
    unfold quiet in E2. rewrite forallb_forall in E2.
    apply Forall_forall. intros x Hx. apply list_elem_of_In in Hx.
    specialize (E2 x Hx). simpl in E2. lia.
Qed.

Lemma exec_app ins1 ins2 w :
  exec fire handle (ins1 ++ ins2) w = exec fire handle ins1 w ≫= exec fire handle ins2.
Proof.
  revert w. induction ins1 as [|i ins1 IH]; intros w; simpl; [done|].
  destruct (step fire handle i w); simpl; [apply IH|done].
Qed.
End Run.

Lemma dueBy_sublist t l k :
  l `sublist_of` k -> (length (dueBy t l) <= length (dueBy t k))%nat.
Proof.
  induction 1 as [|x l k _ IH|x l k _ IH]; simpl; [lia| |];
    destruct (x.1 <=? t); simpl; lia.
Qed.

Lemma dueBy_later t l : Forall (fun x => t < x.1) l -> dueBy t l = [].
Proof.
  induction 1 as [|x l Hx _ IH]; simpl; [done|].
  destruct (x.1 <=? t) eqn:E; [lia|done].
Qed.

Lemma dueBy_none t l :
  dueBy t l = [] -> Forall (fun x => t + 1 <= x.1) l.
Proof.
  induction l as [|x l IH]; simpl; [constructor|].
  destruct (x.1 <=? t) eqn:E; [done|]. intros H. constructor; [lia|auto].
Qed.

Lemma Forall_sublist_of_gen {A} (P : A -> Prop) (l k : list A) :
  l `sublist_of` k -> Forall P k -> Forall P l.
Proof.
  induction 1 as [|x l' k' _ IH|x l' k' _ IH]; intros H; [done| |].
  - apply Forall_cons in H as [? ?]. constructor; auto.
  - apply Forall_cons in H as [? ?]. auto.
Qed.

Lemma sublist_List_filter (f : Z * Act -> bool) l : List.filter f l `sublist_of` l.
Proof.
  induction l as [|x l IH]; simpl; [constructor|].
  destruct (f x); by constructor.
Qed.

Lemma Forall_List_filter (P : Z * Act -> Prop) (f : Z * Act -> bool) l :
  Forall P l -> Forall P (List.filter f l).
Proof. intros H. eapply Forall_sublist_of_gen; [apply sublist_List_filter|done]. Qed.

Lemma Forall_sublist_of (P : Z * Act -> Prop) l k :
  l `sublist_of` k -> Forall P k -> Forall P l.
Proof.
  induction 1 as [|x l k _ IH|x l k _ IH]; intros H; [done| |].
  - apply Forall_cons in H as [? ?]. constructor; auto.
  - apply Forall_cons in H as [? ?]. auto.
Qed.

(** ** Progress: the timer phase cannot stall before a given time

    When callbacks only add timers that are due later than the time they
    run at, finitely many firings empty the queue of the timers due by [F],
    unless the process exits first. *)
Section Progress.
Variable fire : Act -> World St Act Ev Eff -> World St Act Ev Eff.
Hypothesis fire_timers : forall a w,
  exists added, Forall (fun x => now w < x.1) added /\
                timers (fire a w) `sublist_of` (timers w ++ added).

Definition settled (F : Z) w : Prop :=
  exited w <> None \/ Forall (fun x => F < x.1) (timers w).

Lemma run_settles_aux F (k : nat) :
  forall D w, F + 1 - D <= Z.of_nat k -> Forall (fun x => D <= x.1) (timers w) ->
              exists n, settled F (run fire n w).
Proof.
  induction k as [|k IHk]; intros D w HD Hall.
  { exists O. right. eapply Forall_impl; [exact Hall|]. simpl. intros; lia. }
  assert (Hc : forall (c : nat) w, (length (dueBy D (timers w)) <= c)%nat ->
                 Forall (fun x => D <= x.1) (timers w) ->
                 exists n, settled F (run fire n w)).
  { clear w Hall. induction c as [|c IHc]; intros w Hlen Hall.
    - apply (IHk (D + 1)); [lia|]. apply dueBy_none.
      destruct (dueBy D (timers w)); [done|simpl in Hlen; lia].
    - pose proof (tick_ticked fire w) as Htick.
      remember (tick fire w) as w2 eqn:Ew2.
      destruct Htick as [Hidle|d a l1 l2 Hex Ht Hmin].
      + exists O. destruct Hidle as [H|H]; [by left|].
        right. simpl. rewrite H. constructor.
      + assert (Hd : D <= d).
        { rewrite Ht in Hall. apply Forall_app in Hall as [_ Hall].
          by apply Forall_cons in Hall as [Hall _]. }
        destruct (Z.eq_dec d D) as [->|Hne].
        2:{ apply (IHk (D + 1)); [lia|].
            eapply Forall_impl; [exact Hmin|]. simpl. intros; lia. }
        set (w1 := record (Fired a) (mkWorld D (l1 ++ l2) None (trace w) (app w))) in *.
        destruct (fire_timers a w1) as (added & Hadd & Hsub).
        destruct (IHc (fire a w1)) as [n Hn].
        * etrans; [apply dueBy_sublist, Hsub|].
          unfold dueBy at 1. rewrite List.filter_app. fold (dueBy D added).
          rewrite (dueBy_later D added) by exact Hadd.
          rewrite app_nil_r. simpl.
          rewrite Ht in Hlen. unfold dueBy in Hlen |- *.
          rewrite List.filter_app in Hlen |- *. simpl in Hlen.
          rewrite Z.leb_refl in Hlen.
          rewrite !length_app in Hlen |- *. simpl in Hlen. lia.
        * eapply Forall_sublist_of; [exact Hsub|].
          apply Forall_app. split.
          -- simpl. rewrite Ht in Hall. apply Forall_app in Hall as [H1 H2].
             apply Forall_cons in H2 as [_ H2]. apply Forall_app; split; eauto.
          -- eapply Forall_impl; [exact Hadd|]. simpl. intros; lia.
        * exists (S n). simpl. by rewrite <- Ew2. }
  eapply Hc; [reflexivity|done].
Qed.

Lemma run_settles F w : exists n, settled F (run fire n w).
Proof.
  destruct (minDue (timers w)) as [m|] eqn:E.
  - apply (run_settles_aux F (Z.to_nat (F + 1 - m)) m); [lia|].
    by apply minDue_lower.
  - exists O. right. simpl. apply minDue_nil in E as ->. constructor.
Qed.

(** With an invariant of the firings that keeps a timer due by [F] while
    the process lives, the process exits. *)
Lemma run_exits (I : World St Act Ev Eff -> Prop) F :
  (forall w, I w -> I (tick fire w)) ->
  (forall w, I w -> exited w = None -> exists x, x ∈ timers w /\ x.1 <= F) ->
  forall w, I w -> exists n, exited (run fire n w) <> None.
Proof.
  intros Htick Hdead w Hw.
  destruct (run_settles F w) as [n Hn]. exists n.
  assert (HI : I (run fire n w)).
  { clear Hn. revert w Hw. induction n as [|n IH]; intros w Hw; simpl; auto. }
  destruct Hn as [Hn|Hn]; [done|].
  destruct (exited (run fire n w)) eqn:E; [done|].
  destruct (Hdead _ HI E) as (x & Hx & Hle).
  rewrite Forall_forall in Hn. specialize (Hn x Hx). lia.
Qed.
End Progress.
End LoopFacts.

(** ** Lists of timers and trace entries *)

Lemma elem_of_middle_ne {A} (x y : A) l1 l2 :
  y ∈ l1 ++ x :: l2 -> y <> x -> y ∈ l1 ++ l2.
Proof.
  rewrite !elem_of_app, elem_of_cons. intros [?|[?|?]] ?; auto. done.
Qed.

Lemma Forall_middle {A} (P : A -> Prop) x l1 l2 :
  Forall P (l1 ++ x :: l2) -> P x /\ Forall P (l1 ++ l2).
Proof.
  rewrite !Forall_app, Forall_cons. tauto.
Qed.

(** Closes the side goals on lists of timers and trace entries. *)
Ltac list_side :=
  repeat match goal with
         | |- Forall _ _ =>
             first [ assumption
                   | apply Forall_nil_2
                   | apply Forall_List_filter
                   | apply Forall_app_2
                   | apply Forall_cons_2
                   | apply Forall_fmap, Forall_forall; intros ? _ ]
         end;
  try (simpl; intros; first [done | lia | congruence]).

(** ** Health state *)

Lemma allHealthy_checksOf r :
  Health.allHealthy (Health.checksOf r)
  = Health.memoryHealthy r && Health.eventLoopHealthy r.
Proof.
  unfold Health.allHealthy, Health.checksOf. simpl.
  by destruct (Health.memoryHealthy r), (Health.eventLoopHealthy r).
Qed.

Lemma runHealthChecks_isHealthy r hs :
  Health.isHealthy (Health.runHealthChecks r hs).2
  = Health.allHealthy (Health.checksOf r).
Proof. reflexivity. Qed.

Lemma getReady_not_ready r hs :
  Health.isReady hs = false ->
  Health.getReady r hs
  = ({| Health.statusCode := 503; Health.bodyStatus := "not_ready";
        Health.bodyChecks := None |}, hs).
Proof. intros H. unfold Health.getReady. by rewrite H. Qed.

Lemma allHealthy_Forall cs :
  Health.allHealthy cs = true <-> Forall (fun c => c.2 = Health.healthy) cs.
Proof.
  unfold Health.allHealthy. induction cs as [|c cs IH]; simpl.
  - split; [constructor|done].
  - rewrite andb_true_iff, Forall_cons, IH.
    by destruct (c.2); simpl; intuition.
Qed.

(** C9. [GET /health/ready] answers 200 or 503; it answers 200, with the check
    details in the body, exactly when [isReady] holds and the health computed
    by this very probe holds; that health ([isHealthy], stored by the probe)
    is the conjunction of the named checks of this run: memory, event loop and
    the database check. *)
Theorem C9_ready_probe (r : Health.Readings) (hs : Health.healthState) :
  let resp := (Health.getReady r hs).1 in
  let hs' := (Health.getReady r hs).2 in
  (Health.statusCode resp = 200 \/ Health.statusCode resp = 503) /\
  (Health.statusCode resp = 200 <->
     Health.isReady hs = true /\ Health.allHealthy (Health.checksOf r) = true) /\
  (Health.statusCode resp = 200 <->
     Health.isReady hs = true /\ Health.isHealthy hs' = true) /\
  (Health.statusCode resp = 200 ->
     Health.bodyChecks resp = Some (Health.checksOf r)) /\
  (Health.isReady hs = true ->
     Health.isHealthy hs' = Health.allHealthy (Health.checksOf r)) /\
  (Health.allHealthy (Health.checksOf r) = true <->
     Forall (fun c => c.2 = Health.healthy) (Health.checksOf r)) /\
  (Health.checksOf r).*1 = ["memory"; "eventLoop"; "database"]%string.
Proof.
  cbv zeta.
  assert (HF := allHealthy_Forall (Health.checksOf r)).
  assert (HN : (Health.checksOf r).*1 = ["memory"; "eventLoop"; "database"]%string)
    by reflexivity.
  unfold Health.getReady, Health.runHealthChecks. cbv zeta.
  set (cs := Health.checksOf r) in *. clearbody cs.
  destruct (Health.isReady hs) eqn:Hr; cbn [negb fst snd Health.isHealthy
    Health.statusCode Health.bodyChecks];
    destruct (Health.allHealthy cs) eqn:Hh;
    repeat split; try tauto; try discriminate; try (intros [? ?]; discriminate);
    try (by left); try (by right); try (intros; discriminate).
Qed.

(** ** The primary process *)

Module PrimaryFacts.
Import Primary.

Lemma forks_app tr1 tr2 : forks (tr1 ++ tr2) = forks tr1 ++ forks tr2.
Proof. apply omap_app. Qed.

(** The worker's own ['exit'] listeners only touch the timers. *)
Lemma exit_listeners_frame id ls (w : W) :
  let w' := fold_left (runExitListener id) ls w in
  app w' = app w /\ trace w' = trace w /\ now w' = now w /\ exited w' = exited w.
Proof.
  revert w. induction ls as [|[i l] ls IH]; intros w; simpl; [done|].
  destruct (IH (runExitListener id w (i, l))) as (H1 & H2 & H3 & H4).
  rewrite H1, H2, H3, H4. unfold runExitListener. simpl.
  destruct (Nat.eqb i id); [destruct l|]; done.
Qed.

(** They clear heartbeat timers and add timers of the rolling restart. *)
Lemma exit_listeners_Forall (P : Z * Action -> Prop) id ls : forall w : W,
  (forall t i wids, P (t, RestartNext i wids)) ->
  Forall P (timers w) -> Forall P (timers (fold_left (runExitListener id) ls w)).
Proof.
  induction ls as [|[i l] ls IH]; intros w HP H; simpl; [done|].
  apply IH; [done|]. unfold runExitListener. simpl.
  destruct (Nat.eqb i id); [|done]. destruct l; simpl.
  - by apply Forall_List_filter.
  - apply Forall_app_2; [done|]. by repeat constructor.
Qed.

Lemma exit_listeners_sublist id ls : forall w : W,
  exists added, Forall (fun x => now w < x.1) added /\
    timers (fold_left (runExitListener id) ls w) `sublist_of` (timers w ++ added).
Proof.
  induction ls as [|[i l] ls IH]; intros w; simpl.
  { exists []. split; [constructor|]. by rewrite app_nil_r. }
  destruct (IH (runExitListener id w (i, l))) as (added & Hadd & Hsub).
  assert (Hn : now (runExitListener id w (i, l)) = now w).
  { unfold runExitListener. simpl. destruct (Nat.eqb i id); [|done]. by destruct l. }
  rewrite Hn in Hadd.
  unfold runExitListener in Hsub |- *. simpl in Hsub |- *.
  destruct (Nat.eqb i id); [|by exists added]. destruct l as [|j wids]; simpl in Hsub.
  - exists added. split; [done|]. etrans; [exact Hsub|].
    apply sublist_app; [apply sublist_List_filter|done].
  - exists ((now w + 1000, RestartNext (S j) wids) :: added).
    split; [constructor; [simpl; lia|done]|].
    by rewrite <- app_assoc in Hsub.
Qed.

Lemma recentRestarts_recent t l : Forall (fun time => t - time < 60000) (recentRestarts t l).
Proof.
  unfold recentRestarts. induction l as [|x l IH]; simpl; [constructor|].
  destruct (t - x <? 60000) eqn:E; [constructor; [lia|done]|done].
Qed.

Lemma recentRestarts_keeps t l time :
  time ∈ l -> t - time < 60000 -> time ∈ recentRestarts t l.
Proof.
  intros Hin Hlt. unfold recentRestarts. apply list_elem_of_In, filter_In.
  split; [by apply list_elem_of_In|]. by apply Z.ltb_lt.
Qed.

Lemma recentRestarts_all t l :
  Forall (fun time => t - time < 60000) l -> recentRestarts t l = l.
Proof.
  unfold recentRestarts. induction 1 as [|x l Hx _ IH]; simpl; [done|].
  apply Z.ltb_lt in Hx. by rewrite Hx, IH.
Qed.

(** The exit handler, when the limit is not reached: the pruned history with
    the current instant is stored and one worker is forked. *)
Lemma workerExit_allowed id (w : W) :
  isShuttingDown (cstate (app w)) = false ->
  (length (recentRestarts (now w) (restartsOf id (cstate (app w))))
     < maxRestartsPerMinute (cstate (app w)))%nat ->
  let w' := workerExit id w in
  cstate (app w') =
    setRestarts id (recentRestarts (now w) (restartsOf id (cstate (app w))) ++ [now w])
                (cstate (app w)) /\
  forks (trace w') = forks (trace w) ++ [S (ids (app w))] /\
  ids (app w') = S (ids (app w)) /\
  workers (app w') = List.filter (fun x => negb (Nat.eqb id x)) (workers (app w)) ++ [S (ids (app w))] /\
  now w' = now w /\ exited w' = exited w.
Proof.
  intros Hs Hlt. unfold workerExit. cbv zeta.
  destruct (exit_listeners_frame id (onExit (app (setApp (removeWorker id) w)))
              (setApp (removeWorker id) w)) as (Ha & Ht & Hn & He).
  cbv zeta in Ha, Ht, Hn, He.
  set (w1 := fold_left _ _ _) in *. clearbody w1.
  unfold clusterOnExit. cbn [app emit record now].
  rewrite Ha, Hn. cbn [setApp app now removeWorker cstate]. rewrite Hs.
  apply Nat.leb_gt in Hlt. rewrite Hlt.
  cbn. rewrite Ha, Ht, Hn, He. cbn.
  rewrite !forks_app. cbn. rewrite !app_nil_r. done.
Qed.

(** The exit handler at the limit: nothing is stored and nothing is forked. *)
Lemma workerExit_denied id (w : W) :
  isShuttingDown (cstate (app w)) = false ->
  (maxRestartsPerMinute (cstate (app w))
     <= length (recentRestarts (now w) (restartsOf id (cstate (app w)))))%nat ->
  let w' := workerExit id w in
  cstate (app w') = cstate (app w) /\
  forks (trace w') = forks (trace w) /\
  ids (app w') = ids (app w) /\
  workers (app w') = List.filter (fun x => negb (Nat.eqb id x)) (workers (app w)) /\
  now w' = now w /\ exited w' = exited w.
Proof.
  intros Hs Hle. unfold workerExit. cbv zeta.
  destruct (exit_listeners_frame id (onExit (app (setApp (removeWorker id) w)))
              (setApp (removeWorker id) w)) as (Ha & Ht & Hn & He).
  cbv zeta in Ha, Ht, Hn, He.
  set (w1 := fold_left _ _ _) in *. clearbody w1.
  unfold clusterOnExit. cbn [app emit record now].
  rewrite Ha, Hn. cbn [setApp app now removeWorker cstate]. rewrite Hs.
  apply Nat.leb_le in Hle. rewrite Hle.
  cbn. rewrite Ha, Ht, Hn, He. cbn.
  rewrite !forks_app. cbn. rewrite !app_nil_r. done.
Qed.

(** The exit handler during shutdown. *)
Lemma workerExit_shutting_down id (w : W) :
  isShuttingDown (cstate (app w)) = true ->
  let w' := workerExit id w in
  cstate (app w') = cstate (app w) /\
  forks (trace w') = forks (trace w) /\
  ids (app w') = ids (app w) /\
  workers (app w') = List.filter (fun x => negb (Nat.eqb id x)) (workers (app w)) /\
  now w' = now w /\ exited w' = exited w.
Proof.
  intros Hs. unfold workerExit. cbv zeta.
  destruct (exit_listeners_frame id (onExit (app (setApp (removeWorker id) w)))
              (setApp (removeWorker id) w)) as (Ha & Ht & Hn & He).
  cbv zeta in Ha, Ht, Hn, He.
  set (w1 := fold_left _ _ _) in *. clearbody w1.
  unfold clusterOnExit. cbn [app emit record now].
  rewrite Ha. cbn [setApp app now removeWorker cstate]. rewrite Hs.
  cbn. rewrite Ha, Ht, Hn, He. cbn.
  rewrite !forks_app. cbn. rewrite !app_nil_r. done.
Qed.

Lemma restartsOf_setRestarts id l c : restartsOf id (setRestarts id l c) = l.
Proof. unfold restartsOf, setRestarts. simpl. by rewrite lookup_insert_eq. Qed.

Lemma restartsOf_setRestarts_ne id id' l c :
  id <> id' -> restartsOf id' (setRestarts id l c) = restartsOf id' c.
Proof. intros. unfold restartsOf, setRestarts. simpl. by rewrite lookup_insert_ne. Qed.

Lemma crash_allowed id t (w : W) :
  isShuttingDown (cstate (app w)) = false ->
  (length (recentRestarts t (restartsOf id (cstate (app w))))
     < maxRestartsPerMinute (cstate (app w)))%nat ->
  let w' := deliver t (WorkerExit id) w in
  cstate (app w') =
    setRestarts id (recentRestarts t (restartsOf id (cstate (app w))) ++ [t])
                (cstate (app w)) /\
  forks (trace w') = forks (trace w) ++ [S (ids (app w))] /\
  ids (app w') = S (ids (app w)) /\
  workers (app w') = List.filter (fun x => negb (Nat.eqb id x)) (workers (app w)) ++ [S (ids (app w))] /\
  now w' = t /\ exited w' = exited w.
Proof.
  intros Hs Hlt.
  destruct (workerExit_allowed id (record (Recv (WorkerExit id)) (setNow t w)) Hs Hlt)
    as (H1 & H2 & H3 & H4 & H5 & H6).
  cbn [record setNow trace app now exited] in *.
  rewrite forks_app in H2. cbn in H2. rewrite app_nil_r in H2. done.
Qed.

Lemma crash_denied id t (w : W) :
  isShuttingDown (cstate (app w)) = false ->
  (maxRestartsPerMinute (cstate (app w))
     <= length (recentRestarts t (restartsOf id (cstate (app w)))))%nat ->
  let w' := deliver t (WorkerExit id) w in
  cstate (app w') = cstate (app w) /\
  forks (trace w') = forks (trace w) /\
  ids (app w') = ids (app w) /\
  workers (app w') = List.filter (fun x => negb (Nat.eqb id x)) (workers (app w)) /\
  now w' = t /\ exited w' = exited w.
Proof.
  intros Hs Hle.
  destruct (workerExit_denied id (record (Recv (WorkerExit id)) (setNow t w)) Hs Hle)
    as (H1 & H2 & H3 & H4 & H5 & H6).
  cbn [record setNow trace app now exited] in *.
  rewrite forks_app in H2. cbn in H2. rewrite app_nil_r in H2. done.
Qed.

Lemma crash_shutting_down id t (w : W) :
  isShuttingDown (cstate (app w)) = true ->
  let w' := deliver t (WorkerExit id) w in
  cstate (app w') = cstate (app w) /\
  forks (trace w') = forks (trace w) /\
  ids (app w') = ids (app w) /\
  workers (app w') = List.filter (fun x => negb (Nat.eqb id x)) (workers (app w)) /\
  now w' = t /\ exited w' = exited w.
Proof.
  intros Hs.
  destruct (workerExit_shutting_down id (record (Recv (WorkerExit id)) (setNow t w)) Hs)
    as (H1 & H2 & H3 & H4 & H5 & H6).
  cbn [record setNow trace app now exited] in *.
  rewrite forks_app in H2. cbn in H2. rewrite app_nil_r in H2. done.
Qed.

(** Crash exits of one id whose instants all lie within one window, while the
    history stays below the limit: each one is respawned. *)
Lemma crashes_allowed id lo ts : forall (w : W) h,
  isShuttingDown (cstate (app w)) = false ->
  restartsOf id (cstate (app w)) = h ->
  Forall (fun x => lo <= x < lo + 60000) (h ++ ts) ->
  (length h + length ts <= maxRestartsPerMinute (cstate (app w)))%nat ->
  let w' := crashes id ts w in
  isShuttingDown (cstate (app w')) = false /\
  maxRestartsPerMinute (cstate (app w')) = maxRestartsPerMinute (cstate (app w)) /\
  restartsOf id (cstate (app w')) = h ++ ts /\
  forks (trace w') = forks (trace w) ++ seq (S (ids (app w))) (length ts) /\
  ids (app w') = (ids (app w) + length ts)%nat.
Proof.
  induction ts as [|t ts IH]; intros w h Hs Hh Hwin Hlen; cbn [crashes fold_left].
  { rewrite !app_nil_r, Nat.add_0_r. done. }
  assert (Hrec : recentRestarts t (restartsOf id (cstate (app w))) = h).
  { rewrite Hh. apply recentRestarts_all.
    apply Forall_app in Hwin as [Hwin1 Hwin2].
    apply Forall_cons in Hwin2 as [Ht _].
    eapply Forall_impl; [exact Hwin1|]. simpl. intros; lia. }
  destruct (crash_allowed id t w Hs) as (H1 & H2 & H3 & _).
  { rewrite Hrec. simpl in Hlen. lia. }
  rewrite Hrec in H1.
  specialize (IH (deliver t (WorkerExit id) w) (h ++ [t])).
  rewrite H1 in IH. cbn [setRestarts isShuttingDown maxRestartsPerMinute] in IH.
  destruct IH as (I1 & I2 & I3 & I4 & I5).
  - done.
  - apply restartsOf_setRestarts.
  - by rewrite <- app_assoc.
  - rewrite length_app. simpl in *. lia.
  - fold (crashes id ts (deliver t (WorkerExit id) w)).
    rewrite I1, I2, I3, I4, I5, H2, H3, <- !app_assoc. simpl.
    repeat split; try done; lia.
Qed.

Lemma forkWorker_cstate (w : W) : cstate (app (forkWorker w)) = cstate (app w).
Proof. reflexivity. Qed.

Lemma forkWorkers_cstate n : forall w : W, cstate (app (forkWorkers n w)) = cstate (app w).
Proof. induction n as [|n IH]; intros w; simpl; [done|]. by rewrite IH. Qed.

Lemma start_cstate n env :
  cstate (app (start n env))
  = {| isShuttingDown := false; workerRestarts := ∅; maxRestartsPerMinute := 5 |}.
Proof. unfold start. by rewrite forkWorkers_cstate. Qed.

Lemma crashes_snoc id ts t (w : W) :
  crashes id (ts ++ [t]) w = deliver t (WorkerExit id) (crashes id ts w).
Proof. unfold crashes. by rewrite fold_left_app. Qed.

(** C2. When the exit of worker [id] is reported at time [t] to a primary that
    is not shutting down, the governor keeps of that id's history exactly the
    instants less than 60000 ms old, and respawns iff fewer than
    [maxRestartsPerMinute] (5 from start-up on) remain, storing the kept
    instants followed by [t]; at the limit nothing is stored and nothing is
    forked.  Six exits of one id with no earlier history, within 10 seconds:
    the first five are respawned, the sixth is not. *)
Theorem C2_restart_rate_governor (w : W) (id : nat) (t : Z) :
  isShuttingDown (cstate (app w)) = false ->
  let history := restartsOf id (cstate (app w)) in
  let recent := recentRestarts t history in
  let limit := maxRestartsPerMinute (cstate (app w)) in
  let w' := deliver t (WorkerExit id) w in
  Forall (fun time => t - time < 60000) recent /\
  (forall time, time ∈ history -> t - time < 60000 -> time ∈ recent) /\
  ((length recent < limit)%nat ->
     restartsOf id (cstate (app w')) = recent ++ [t] /\
     forks (trace w') = forks (trace w) ++ [S (ids (app w))]) /\
  ((limit <= length recent)%nat ->
     cstate (app w') = cstate (app w) /\ forks (trace w') = forks (trace w)) /\
  (forall n env, maxRestartsPerMinute (cstate (app (start n env))) = 5%nat) /\
  (forall t1 t2 t3 t4 t5 t6,
     limit = 5%nat -> history = [] ->
     t1 <= t2 /\ t2 <= t3 /\ t3 <= t4 /\ t4 <= t5 /\ t5 <= t6 /\ t6 <= t1 + 10000 ->
     let w5 := crashes id [t1; t2; t3; t4; t5] w in
     let w6 := crashes id [t1; t2; t3; t4; t5; t6] w in
     forks (trace w5) = forks (trace w) ++ seq (S (ids (app w))) 5 /\
     forks (trace w6) = forks (trace w5)).
Proof.
  intros Hs history recent limit w'.
  split; [apply recentRestarts_recent|].
  split; [apply recentRestarts_keeps|].
  split.
  { intros Hlt. destruct (crash_allowed id t w Hs Hlt) as (H1 & H2 & _).
    fold w' in H1, H2. rewrite H1. split; [apply restartsOf_setRestarts|done]. }
  split.
  { intros Hle. destruct (crash_denied id t w Hs Hle) as (H1 & H2 & _). done. }
  split.
  { intros n env. by rewrite start_cstate. }
  intros t1 t2 t3 t4 t5 t6 Hlim Hh Ht w5 w6.
  assert (Hwin : Forall (fun x => t1 <= x < t1 + 60000) ([] ++ [t1; t2; t3; t4; t5])).
  { simpl. repeat constructor; lia. }
  destruct (crashes_allowed id t1 [t1; t2; t3; t4; t5] w [] Hs Hh Hwin)
    as (I1 & I2 & I3 & I4 & I5).
  { fold limit. rewrite Hlim. simpl. lia. }
  fold w5 in I1, I2, I3, I4, I5. split; [exact I4|].
  unfold w6.
  replace [t1; t2; t3; t4; t5; t6] with ([t1; t2; t3; t4; t5] ++ [t6]) by reflexivity.
  rewrite crashes_snoc. fold w5.
  destruct (crash_denied id t6 w5 I1) as (_ & H2 & _); [|exact H2].
  rewrite I2, I3. fold limit. rewrite Hlim.
  rewrite recentRestarts_all; [simpl; lia|].
  simpl. repeat constructor; lia.
Qed.

(** The scenario of C2 at start-up: worker 1 of a one-worker cluster exits six
    times within ten seconds. *)
Lemma C2_restart_rate_governor_witness :
  forks (trace (crashes 1 [0; 2000; 4000; 6000; 8000; 10000] (start 1 None)))
  = [1; 2; 3; 4; 5; 6]%nat.
Proof.
  destruct (C2_restart_rate_governor (start 1 None) 1%nat 0 eq_refl)
    as (_ & _ & _ & _ & _ & H).
  destruct (H 0 2000 4000 6000 8000 10000 eq_refl eq_refl) as [H5 H6]; [lia|].
  rewrite H6, H5. reflexivity.
Defined.

(** *** Handlers that leave [clusterState] alone *)

Lemma restartFrom_frame rest : forall i wids (w : W),
  let w' := restartFrom i rest wids w in
  cstate (app w') = cstate (app w) /\ timers w' = timers w /\
  exited w' = exited w /\ now w' = now w /\
  SHUTDOWN_TIMEOUT_MS (app w') = SHUTDOWN_TIMEOUT_MS (app w).
Proof.
  induction rest as [|old rest IH]; intros i wids w; simpl; [done|].
  destruct (isLive old (app w)); [done|]. apply IH.
Qed.

Lemma listening_listeners_frame id ls (w : W) :
  let w' := fold_left (runListeningListener id) ls w in
  cstate (app w') = cstate (app w) /\ timers w' = timers w /\
  exited w' = exited w /\ now w' = now w /\
  forks (trace w') = forks (trace w) /\ ids (app w') = ids (app w) /\
  SHUTDOWN_TIMEOUT_MS (app w') = SHUTDOWN_TIMEOUT_MS (app w) /\
  workers (app w') = workers (app w).
Proof.
  revert w. induction ls as [|[n r] ls IH]; intros w; simpl; [done|].
  destruct (IH (runListeningListener id w (n, r))) as (H1 & H2 & H3 & H4 & H5 & H6 & H7 & H8).
  rewrite H1, H2, H3, H4, H5, H6, H7, H8. unfold runListeningListener. simpl.
  destruct (Nat.eqb n id); [|done]. simpl.
  rewrite forks_app. simpl. by rewrite app_nil_r.
Qed.

Lemma fire_cstate a (w : W) : cstate (app (fire a w)) = cstate (app w).
Proof.
  destruct a as [| |i wids|id]; simpl.
  - by destruct (workers (app w)).
  - done.
  - apply restartFrom_frame.
  - unfold heartbeatCheck. simpl.
    destruct (lastHeartbeat (app w) !! id); [|done].
    by destruct (60000 <? _).
Qed.

Lemma handle_cstate e (w : W) :
  isShuttingDown (cstate (app w)) = true ->
  cstate (app (handle e w)) = cstate (app w).
Proof.
  intros Hs. destruct e as [[| |]|id|id|id|id|id type]; cbn [handle].
  - unfold gracefulShutdown. by rewrite Hs.
  - unfold gracefulShutdown. by rewrite Hs.
  - exact (proj1 (restartFrom_frame _ _ _
      (emit (Log Info "Received SIGUSR2, performing rolling restart") w))).
  - by apply workerExit_shutting_down.
  - exact (proj1 (listening_listeners_frame id (onListening (app w)) w)).
  - done.
  - done.
  - unfold workerMessage.
    destruct (String.eqb type "heartbeat"), (String.eqb type "log"); simpl;
      by destruct (lastHeartbeat (app w) !! id).
Qed.

Lemma step_cstate_shutting_down i (w w' : W) :
  isShuttingDown (cstate (app w)) = true ->
  step i w = Some w' -> cstate (app w') = cstate (app w).
Proof.
  intros Hs H. apply step_cases in H as [Hex [(-> & _ & ->)|(t & e & -> & _ & _ & ->)]].
  - pose proof (tick_ticked fire w) as Ht.
    remember (Loop.tick fire w) as w2 eqn:E. clear E.
    destruct Ht; [done|]. by rewrite fire_cstate.
  - unfold Loop.deliver. by rewrite handle_cstate.
Qed.

Lemma exec_cstate_shutting_down ins : forall (w w' : W),
  isShuttingDown (cstate (app w)) = true ->
  exec ins w = Some w' -> cstate (app w') = cstate (app w).
Proof.
  induction ins as [|i ins IH]; intros w w' Hs H; simpl in H.
  - by injection H as <-.
  - unfold exec in H. simpl in H. fold (step i w) in H.
    destruct (step i w) as [w1|] eqn:E; [|done].
    pose proof (step_cstate_shutting_down _ _ _ Hs E) as H1.
    rewrite <- H1. apply IH; [by rewrite H1|exact H].
Qed.

(** C8. Once [isShuttingDown] is set it stays set, and from then on every
    worker exit leaves the restart history as it is and forks nothing: no
    exited worker is respawned. *)
Theorem C8_no_respawn_when_shutting_down (w : W) (ins : list (Input Event)) (w1 : W) :
  isShuttingDown (cstate (app w)) = true ->
  exec ins w = Some w1 ->
  isShuttingDown (cstate (app w1)) = true /\
  workerRestarts (cstate (app w1)) = workerRestarts (cstate (app w)) /\
  forall id t,
    let w' := deliver t (WorkerExit id) w1 in
    forks (trace w') = forks (trace w1) /\
    ids (app w') = ids (app w1) /\
    workerRestarts (cstate (app w')) = workerRestarts (cstate (app w)) /\
    isShuttingDown (cstate (app w')) = true.
Proof.
  intros Hs Hex.
  pose proof (exec_cstate_shutting_down ins w w1 Hs Hex) as Hc.
  assert (Hs1 : isShuttingDown (cstate (app w1)) = true) by (by rewrite Hc).
  split; [done|]. split; [by rewrite Hc|].
  intros id t w'.
  destruct (crash_shutting_down id t w1 Hs1) as (H1 & H2 & H3 & _).
  fold w' in H1, H2, H3. rewrite H1, Hc. done.
Qed.

(** C8 on a two-worker cluster that received SIGTERM at time 100: worker 1
    exits at 200, then worker 2 at 300. *)
Lemma C8_no_respawn_when_shutting_down_witness :
  let w := deliver 100 (Sig SIGTERM) (start 2 None) in
  let w1 := deliver 200 (WorkerExit 1) w in
  isShuttingDown (cstate (app w)) = true /\
  exec [Ext 200 (WorkerExit 1)] w = Some w1 /\
  forks (trace (deliver 300 (WorkerExit 2) w1)) = forks (trace w1).
Proof.
  intros w w1.
  assert (Hs : isShuttingDown (cstate (app w)) = true) by (vm_compute; reflexivity).
  assert (He : exec [Ext 200 (WorkerExit 1)] w = Some w1) by (vm_compute; reflexivity).
  split; [exact Hs|]. split; [exact He|].
  exact (proj1 (proj2 (proj2 (C8_no_respawn_when_shutting_down w _ w1 Hs He)) 2%nat 300)).
Defined.

(** *** The exit of a worker that the rolling restart disconnected *)

Lemma runExitListener_timers id (w : W) l x :
  x ∈ timers w -> isHeartbeatOf id x.2 = false ->
  x ∈ timers (runExitListener id w l).
Proof.
  intros Hx Hh. unfold runExitListener.
  destruct (Nat.eqb l.1 id); [|done]. destruct (l.2) as [|i wids]; simpl.
  - apply list_elem_of_In, filter_In. split; [by apply list_elem_of_In|].
    by rewrite Hh.
  - apply elem_of_app. by left.
Qed.

Lemma exit_listeners_timers id ls : forall (w : W) x,
  x ∈ timers w -> isHeartbeatOf id x.2 = false ->
  x ∈ timers (fold_left (runExitListener id) ls w).
Proof.
  induction ls as [|l ls IH]; intros w x Hx Hh; simpl; [done|].
  apply IH; [|done]. by apply runExitListener_timers.
Qed.

Lemma exit_listeners_restart id ls : forall (w : W) i wids,
  (id, RestartAfterExit i wids) ∈ ls ->
  (now w + 1000, RestartNext (S i) wids) ∈ timers (fold_left (runExitListener id) ls w).
Proof.
  induction ls as [|l ls IH]; intros w i wids Hin; [by apply elem_of_nil in Hin|].
  apply elem_of_cons in Hin as [<-|Hin]; simpl.
  - apply exit_listeners_timers; [|done].
    unfold runExitListener. simpl. rewrite Nat.eqb_refl. simpl.
    apply elem_of_app. right. left.
  - specialize (IH (runExitListener id w l) i wids Hin).
    replace (now (runExitListener id w l)) with (now w) in IH; [done|].
    unfold runExitListener. destruct (Nat.eqb l.1 id); [|done]. by destruct (l.2).
Qed.

Lemma workerExit_timers_grow id (w : W) x :
  x ∈ timers (fold_left (runExitListener id) (onExit (app w)) (setApp (removeWorker id) w)) ->
  x ∈ timers (workerExit id w).
Proof.
  intros Hx. unfold workerExit. cbv zeta.
  change (onExit (app (setApp (removeWorker id) w))) with (onExit (app w)).
  set (w1 := fold_left _ _ _) in *. clearbody w1.
  unfold clusterOnExit. cbn [emit record app].
  destruct (isShuttingDown (cstate (app w1))); [done|].
  destruct (_ <=? _)%nat; [done|].
  cbn. apply elem_of_app. by left.
Qed.

(** C10. The exit handler of the cluster runs for every worker exit, whatever
    its cause: while the primary is not shutting down and the id is under the
    limit, a worker is forked, also when the exit is the one that the rolling
    restart asked for, in which case the rolling restart goes on as well (its
    timer for the next id is set). *)
Theorem C10_exit_handler_ignores_cause (w : W) (id : nat) (t : Z) :
  isShuttingDown (cstate (app w)) = false ->
  (length (recentRestarts t (restartsOf id (cstate (app w))))
     < maxRestartsPerMinute (cstate (app w)))%nat ->
  let w' := deliver t (WorkerExit id) w in
  forks (trace w') = forks (trace w) ++ [S (ids (app w))] /\
  (forall i wids,
     (id, RestartAfterExit i wids) ∈ onExit (app w) ->
     (t + 1000, RestartNext (S i) wids) ∈ timers w').
Proof.
  intros Hs Hlt w'. split; [by apply crash_allowed|].
  intros i wids Hin. apply workerExit_timers_grow.
  by apply (exit_listeners_restart id (onExit (app w))
              (setApp (removeWorker id) (record (Recv (WorkerExit id)) (setNow t w)))).
Qed.

(** C10 on a one-worker cluster: the rolling restart forks worker 2 and, once
    it listens, disconnects worker 1; the exit of worker 1 then forks worker 3
    as well. *)
Lemma C10_exit_handler_ignores_cause_witness :
  exists w,
    exec [Ext 10 (Sig SIGUSR2); Ext 20 (WorkerListening 2)] (start 1 None) = Some w /\
    (20, Out (Disconnect 1)) ∈ trace w /\
    forks (trace w) = [1; 2]%nat /\
    forks (trace (deliver 30 (WorkerExit 1) w)) = [1; 2; 3]%nat /\
    workers (app (deliver 30 (WorkerExit 1) w)) = [2; 3]%nat.
Proof.
  eexists. split; [reflexivity|].
  split; [apply list_elem_of_In; vm_compute; tauto|].
  split; [reflexivity|]. split; [|reflexivity].
  match goal with
  | |- forks (trace (deliver _ _ ?w)) = _ =>
      exact (proj1 (C10_exit_handler_ignores_cause w 1%nat 30 eq_refl
                      ltac:(vm_compute; lia)))
  end.
Defined.

(** *** Restart history and worker ids *)

(** C1. A one-worker cluster in a crash loop: worker 1 exits at 1000 ms, its
    replacement is worker 2, whose history is empty; when worker 2 exits at
    2000 ms the governor counts nothing, stores the instant under id 2, and
    forks worker 3.  Seven exits of the successive replacements within seven
    seconds are all respawned: the history of a logical worker slot is not
    accumulated. *)
Theorem C1_history_is_not_carried_over :
  let w1 := deliver 1000 (WorkerExit 1) (start 1 None) in
  let w2 := deliver 2000 (WorkerExit 2) w1 in
  workers (app w1) = [2]%nat /\
  restartsOf 1 (cstate (app w1)) = [1000] /\
  restartsOf 2 (cstate (app w1)) = [] /\
  recentRestarts 2000 (restartsOf 2 (cstate (app w1))) = [] /\
  restartsOf 2 (cstate (app w2)) = [2000] /\
  workers (app w2) = [3]%nat /\
  exists w7,
    exec [Ext 1000 (WorkerExit 1); Ext 2000 (WorkerExit 2); Ext 3000 (WorkerExit 3);
          Ext 4000 (WorkerExit 4); Ext 5000 (WorkerExit 5); Ext 6000 (WorkerExit 6);
          Ext 7000 (WorkerExit 7)] (start 1 None) = Some w7 /\
    forks (trace w7) = [1; 2; 3; 4; 5; 6; 7; 8]%nat /\
    workers (app w7) = [8]%nat.
Proof.
  cbv zeta. repeat (split; [vm_compute; reflexivity|]).
  eexists. split; [vm_compute; reflexivity|].
  split; vm_compute; reflexivity.
Qed.

(** *** Rolling restart: the first step *)

Lemma restartFrom_live i old rest wids (w : W) :
  isLive old (app w) = true ->
  restartFrom i (old :: rest) wids w
  = setApp (addOnListening (S (ids (app w)))
              {| oldWorker := old; index := i; workerIds := wids |})
      (emit (Fork (S (ids (app w))))
         (setApp addWorker (emit (Log Info "Restarting worker ${worker.id}") w))).
Proof. intros H. cbn [restartFrom]. by rewrite H. Qed.

Lemma restartFrom_gone i old rest wids (w : W) :
  isLive old (app w) = false ->
  restartFrom i (old :: rest) wids w = restartFrom (S i) rest wids w.
Proof. intros H. cbn [restartFrom]. by rewrite H. Qed.

Lemma rollingRestart_first (w : W) old rest :
  workers (app w) = old :: rest ->
  let w' := rollingRestart w in
  trace w' = trace w ++
    [(now w, Out (Log Info "Received SIGUSR2, performing rolling restart"));
     (now w, Out (Log Info "Restarting worker ${worker.id}"));
     (now w, Out (Fork (S (ids (app w)))))] /\
  onListening (app w') = onListening (app w) ++
    [(S (ids (app w)), {| oldWorker := old; index := 0; workerIds := workers (app w) |})] /\
  workers (app w') = workers (app w) ++ [S (ids (app w))] /\
  timers w' = timers w.
Proof.
  intros Hw. unfold rollingRestart, restartNext. cbv zeta. rewrite drop_0.
  set (w0 := emit _ w).
  assert (E : restartFrom 0 (workers (app w0)) (workers (app w0)) w0
              = restartFrom 0 (old :: rest) (workers (app w)) w0).
  { subst w0. cbn [app emit record]. by rewrite Hw. }
  rewrite E, restartFrom_live.
  - subst w0. cbn. rewrite <- !app_assoc. done.
  - unfold isLive. subst w0. cbn [app emit record]. rewrite Hw. simpl.
    by rewrite Nat.eqb_refl.
Qed.

Lemma primary_shutdown_again sig (w : W) :
  isShuttingDown (cstate (app w)) = true -> gracefulShutdown sig w = w.
Proof. intros H. unfold gracefulShutdown. by rewrite H. Qed.

Lemma sendShutdown_all l : forall w : W,
  fold_left sendShutdown l w
  = mkWorld (now w) (timers w) (exited w)
      (trace w ++ map (fun id => (now w, Out (Send id "shutdown"))) l) (app w).
Proof.
  induction l as [|id l IH]; intros w; simpl.
  - rewrite app_nil_r. by destruct w.
  - rewrite IH. cbn. by rewrite <- app_assoc.
Qed.

(** The first termination signal. *)
Lemma primary_shutdown_first sig (w : W) :
  isShuttingDown (cstate (app w)) = false ->
  gracefulShutdown sig w
  = mkWorld (now w)
      (timers w ++ [(now w + 500, PollWorkers);
                    (now w + timerDelay (shutdownTimeout (app w)), ShutdownTimeout)])
      (exited w)
      (trace w ++ (now w, Out (Log Info ("Primary received " +:+ sig +:+
                                         ", initiating graceful shutdown")))
         :: map (fun id => (now w, Out (Send id "shutdown"))) (workers (app w)))
      (setCstate setShuttingDown (app w)).
Proof.
  intros H. unfold gracefulShutdown. rewrite H. cbv zeta.
  rewrite sendShutdown_all. unfold setTimeout.
  cbn [now timers exited trace app emit record setApp].
  rewrite <- !app_assoc. reflexivity.
Qed.

Lemma gracefulShutdown_sets sig (w : W) :
  isShuttingDown (cstate (app (gracefulShutdown sig w))) = true.
Proof.
  destruct (isShuttingDown (cstate (app w))) eqn:E.
  - by rewrite primary_shutdown_again.
  - by rewrite primary_shutdown_first.
Qed.

(** *** Timers of the primary *)

Lemma workerExit_timers id (w : W) :
  exists extra,
    timers (workerExit id w)
    = timers (fold_left (runExitListener id) (onExit (app w)) (setApp (removeWorker id) w))
      ++ extra /\
    Forall (fun x => exists j, x = (now w + 30000, HeartbeatCheck j)) extra /\
    exited (workerExit id w) = exited w /\
    SHUTDOWN_TIMEOUT_MS (app (workerExit id w)) = SHUTDOWN_TIMEOUT_MS (app w) /\
    now (workerExit id w) = now w.
Proof.
  unfold workerExit. cbv zeta.
  change (onExit (app (setApp (removeWorker id) w))) with (onExit (app w)).
  destruct (exit_listeners_frame id (onExit (app w)) (setApp (removeWorker id) w))
    as (Ha & Ht & Hn & He). cbv zeta in Ha, Ht, Hn, He.
  set (w1 := fold_left _ _ _) in *. clearbody w1.
  unfold clusterOnExit. cbn [emit record app now].
  destruct (isShuttingDown (cstate (app w1))).
  { exists []. rewrite app_nil_r. cbn. rewrite Ha, Hn, He. by repeat split. }
  destruct (_ <=? _)%nat.
  { exists []. rewrite app_nil_r. cbn. rewrite Ha, Hn, He. by repeat split. }
  exists [(now w + 30000, HeartbeatCheck (S (ids (app w))))].
  cbn. rewrite Ha, Hn, He. cbn. repeat split; try done.
  repeat constructor. by eexists.
Qed.

Lemma primary_fire_timers a (w : W) :
  exists added, Forall (fun x => now w < x.1) added /\
                timers (fire a w) `sublist_of` (timers w ++ added).
Proof.
  destruct a as [| |i wids|id]; cbn [fire].
  - destruct (workers (app w)).
    + exists []. split; [constructor|]. rewrite app_nil_r. cbn.
      apply sublist_List_filter.
    + exists [(now w + 500, PollWorkers)]. split; [|reflexivity].
      repeat constructor. simpl. lia.
  - exists []. split; [constructor|]. rewrite app_nil_r. reflexivity.
  - exists []. split; [constructor|]. rewrite app_nil_r. unfold restartNext.
    destruct (restartFrom_frame (drop i wids) i wids w) as (_ & -> & _). reflexivity.
  - exists [(now w + 30000, HeartbeatCheck id)]. split; [repeat constructor; simpl; lia|].
    unfold heartbeatCheck.
    destruct (lastHeartbeat (app w) !! id); [destruct (60000 <? _)|]; reflexivity.
Qed.

(** What a timer callback leaves alone. *)
Lemma fire_frame a (w : W) :
  SHUTDOWN_TIMEOUT_MS (app (fire a w)) = SHUTDOWN_TIMEOUT_MS (app w) /\
  now (fire a w) = now w.
Proof.
  destruct a as [| |i wids|id]; cbn [fire].
  - by destruct (workers (app w)).
  - done.
  - unfold restartNext.
    destruct (restartFrom_frame (drop i wids) i wids w) as (_ & _ & _ & -> & ->). done.
  - unfold heartbeatCheck.
    destruct (lastHeartbeat (app w) !! id); [destruct (60000 <? _)|]; done.
Qed.

(** What the listeners of an event leave alone: they never exit, and apart
    from the first termination signal they only clear heartbeat timers and
    add timers of the heartbeat and of the rolling restart. *)
Lemma handle_frame e (w : W) :
  exited (handle e w) = exited w /\ now (handle e w) = now w /\
  SHUTDOWN_TIMEOUT_MS (app (handle e w)) = SHUTDOWN_TIMEOUT_MS (app w).
Proof.
  destruct e as [[| |]|id|id|id|id|id type]; cbn [handle].
  - destruct (isShuttingDown (cstate (app w))) eqn:E;
      [by rewrite primary_shutdown_again|by rewrite primary_shutdown_first].
  - destruct (isShuttingDown (cstate (app w))) eqn:E;
      [by rewrite primary_shutdown_again|by rewrite primary_shutdown_first].
  - unfold rollingRestart, restartNext.
    destruct (restartFrom_frame (drop 0 (workers
                (app (emit (Log Info "Received SIGUSR2, performing rolling restart") w))))
              0 (workers (app (emit (Log Info "Received SIGUSR2, performing rolling restart") w)))
              (emit (Log Info "Received SIGUSR2, performing rolling restart") w))
      as (_ & _ & -> & -> & ->). done.
  - destruct (workerExit_timers id w) as (extra & _ & _ & -> & -> & ->). done.
  - unfold workerListening.
    destruct (listening_listeners_frame id (onListening (app w)) w)
      as (_ & _ & H3 & H4 & _ & _ & H7 & _). cbn. by rewrite H3, H4, H7.
  - done.
  - done.
  - unfold workerMessage.
    destruct (String.eqb type "heartbeat"), (String.eqb type "log"); simpl;
      by destruct (lastHeartbeat (app w) !! id).
Qed.

Lemma handle_timers_Forall (P : Z * Action -> Prop) e (w : W) :
  (forall t i wids, P (t, RestartNext i wids)) ->
  (forall t j, P (t, HeartbeatCheck j)) ->
  isShuttingDown (cstate (app w)) = true \/ isTerminate e = false ->
  Forall P (timers w) -> Forall P (timers (handle e w)).
Proof.
  intros HP1 HP2 Hq H.
  assert (Hterm : forall sig, isTerminate e = true ->
            Forall P (timers (gracefulShutdown sig w))).
  { intros sig He. destruct Hq as [Hq|Hq]; [|congruence].
    by rewrite primary_shutdown_again. }
  destruct e as [[| |]|id|id|id|id|id type]; cbn [handle]; try (by apply Hterm).
  - unfold rollingRestart, restartNext.
    by destruct (restartFrom_frame (drop 0 (workers
                (app (emit (Log Info "Received SIGUSR2, performing rolling restart") w))))
              0 (workers (app (emit (Log Info "Received SIGUSR2, performing rolling restart") w)))
              (emit (Log Info "Received SIGUSR2, performing rolling restart") w))
      as (_ & -> & _).
  - destruct (workerExit_timers id w) as (extra & -> & Hextra & _).
    apply Forall_app_2; [by apply exit_listeners_Forall|].
    eapply Forall_impl; [exact Hextra|]. intros x [j ->]. apply HP2.
  - unfold workerListening.
    destruct (listening_listeners_frame id (onListening (app w)) w) as (_ & H2 & _).
    cbn. by rewrite H2.
  - done.
  - done.
  - unfold workerMessage.
    destruct (String.eqb type "heartbeat"), (String.eqb type "log"); simpl;
      by destruct (lastHeartbeat (app w) !! id).
Qed.

Lemma handle_timers_elem x e (w : W) :
  (forall j, isHeartbeatOf j x.2 = false) ->
  isShuttingDown (cstate (app w)) = true \/ isTerminate e = false ->
  x ∈ timers w -> x ∈ timers (handle e w).
Proof.
  intros Hx Hq H.
  assert (Hterm : forall sig, isTerminate e = true ->
            x ∈ timers (gracefulShutdown sig w)).
  { intros sig He. destruct Hq as [Hq|Hq]; [|congruence].
    by rewrite primary_shutdown_again. }
  destruct e as [[| |]|id|id|id|id|id type]; cbn [handle]; try (by apply Hterm).
  - unfold rollingRestart, restartNext.
    by destruct (restartFrom_frame (drop 0 (workers
                (app (emit (Log Info "Received SIGUSR2, performing rolling restart") w))))
              0 (workers (app (emit (Log Info "Received SIGUSR2, performing rolling restart") w)))
              (emit (Log Info "Received SIGUSR2, performing rolling restart") w))
      as (_ & -> & _).
  - destruct (workerExit_timers id w) as (extra & -> & _).
    apply elem_of_app. left. by apply exit_listeners_timers.
  - unfold workerListening.
    destruct (listening_listeners_frame id (onListening (app w)) w) as (_ & H2 & _).
    cbn. by rewrite H2.
  - done.
  - done.
  - unfold workerMessage.
    destruct (String.eqb type "heartbeat"), (String.eqb type "log"); simpl;
      by destruct (lastHeartbeat (app w) !! id).
Qed.

(** *** Before the shutdown of the cluster *)

(** While the primary is not shutting down it has not exited, and the poll
    and the force-exit timer are not armed. *)
Definition running_inv (timeoutEnv : option Z) (w : W) : Prop :=
  SHUTDOWN_TIMEOUT_MS (app w) = timeoutEnv /\
  (isShuttingDown (cstate (app w)) = false ->
   exited w = None /\
   Forall (fun x => isPoll x.2 = false /\ isTimeout x.2 = false) (timers w)).

Lemma forkWorkers_running n : forall (w : W) timeoutEnv,
  running_inv timeoutEnv w -> running_inv timeoutEnv (forkWorkers n w).
Proof.
  induction n as [|n IH]; intros w timeoutEnv H; simpl; [done|].
  apply IH. destruct H as [Henv H]. split; [done|].
  cbn. intros Hs. destruct (H Hs) as [Hex Ht]. split; [done|].
  apply Forall_app_2; [done|]. by repeat constructor.
Qed.

Lemma start_running n timeoutEnv : running_inv timeoutEnv (start n timeoutEnv).
Proof.
  apply forkWorkers_running. split; [done|]. intros _. split; [done|]. constructor.
Qed.

Lemma step_running_inv timeoutEnv i (w w' : W) :
  running_inv timeoutEnv w -> step i w = Some w' -> running_inv timeoutEnv w'.
Proof.
  intros [Henv Hinv] H.
  apply step_cases in H as [Hex [(-> & _ & ->)|(t & e & -> & _ & _ & ->)]].
  - pose proof (tick_ticked fire w) as Ht.
    remember (Loop.tick fire w) as w2 eqn:E. clear E.
    destruct Ht as [_|d a l1 l2 _ Htim Hmin]; [done|].
    set (w1 := record _ _).
    destruct (fire_frame a w1) as [He _]. split; [by rewrite He|].
    rewrite fire_cstate. cbn [w1 record app]. intros Hs.
    destruct (Hinv Hs) as [_ Ht]. rewrite Htim in Ht.
    apply Forall_middle in Ht as [[Ha1 Ha2] Ht]. simpl in Ha1, Ha2.
    destruct a as [| |j wids|id]; try discriminate; cbn [fire].
    + unfold restartNext.
      destruct (restartFrom_frame (drop j wids) j wids w1) as (_ & -> & -> & _).
      done.
    + unfold heartbeatCheck.
      destruct (lastHeartbeat (app w1) !! id); [destruct (60000 <? _)|]; cbn;
        (split; [done|]); apply Forall_app_2; try done; by repeat constructor.
  - unfold Loop.deliver. set (w1 := record _ _).
    destruct (handle_frame e w1) as (He & _ & Hv). split; [by rewrite Hv|].
    intros Hs'. rewrite He.
    destruct (isShuttingDown (cstate (app w1))) eqn:Hs1.
    { rewrite handle_cstate in Hs' by done. congruence. }
    destruct (Hinv Hs1) as [_ Ht]. split; [done|].
    apply handle_timers_Forall; try done.
    right. destruct e as [[| |]| | | | |]; try done;
      cbn [handle] in Hs'; by rewrite gracefulShutdown_sets in Hs'.
Qed.

Lemma exec_running_inv n timeoutEnv ins (w : W) :
  exec ins (start n timeoutEnv) = Some w -> running_inv timeoutEnv w.
Proof.
  apply (exec_invariant fire handle (running_inv timeoutEnv)).
  - intros i w1 w2. apply step_running_inv.
  - apply start_running.
Qed.

(** *** During the shutdown of the cluster *)

(** From the termination signal (at time [T]) on: the force-exit timer is
    pending while the primary lives, the clock does not pass it, exit code 0
    is given with no worker left and exit code 1 when the timer fires. *)
Definition stopping_inv (timeoutEnv : option Z) (T : Z) (w : W) : Prop :=
  SHUTDOWN_TIMEOUT_MS (app w) = timeoutEnv /\
  isShuttingDown (cstate (app w)) = true /\
  Forall (fun x => isTimeout x.2 = true -> x.1 = forceAt timeoutEnv T) (timers w) /\
  (exited w = None -> (forceAt timeoutEnv T, ShutdownTimeout) ∈ timers w) /\
  now w <= forceAt timeoutEnv T /\
  (forall c, exited w = Some c ->
     (c = 0 /\ workers (app w) = []) \/ (c = 1 /\ now w = forceAt timeoutEnv T)).

Lemma tick_stopping_inv timeoutEnv T (w : W) :
  stopping_inv timeoutEnv T w -> stopping_inv timeoutEnv T (tick w).
Proof.
  intros (Henv & Hs & H3 & H4 & H5 & H6).
  pose proof (tick_ticked fire w) as Ht. unfold tick.
  remember (Loop.tick fire w) as w2 eqn:E. clear E.
  destruct Ht as [_|d a l1 l2 Hex Htim Hmin]; [done|].
  specialize (H4 Hex).
  assert (HdF : d <= forceAt timeoutEnv T).
  { rewrite Forall_forall in Hmin. apply Hmin in H4. simpl in H4. lia. }
  rewrite Htim in H3, H4.
  apply Forall_middle in H3 as [Ha3 H3]. simpl in Ha3.
  assert (H4' : a <> ShutdownTimeout -> (forceAt timeoutEnv T, ShutdownTimeout) ∈ l1 ++ l2).
  { intros N. eapply elem_of_middle_ne; [exact H4|congruence]. }
  clear H4 Hmin Htim.
  destruct a as [| |j wids|id]; cbn [fire].
  - specialize (H4' ltac:(done)).
    destruct (workers (app w)) as [|x l] eqn:Hw;
      unfold stopping_inv; cbn [record app]; rewrite Hw; cbn; rewrite ?Hw.
    + repeat (split; [done|]). split; [list_side|]. split; [done|]. split; [done|].
      intros c [= <-]. by left.
    + repeat (split; [done|]). split; [list_side|].
      split; [intros _; apply elem_of_app; by left|]. done.
  - specialize (Ha3 eq_refl). subst d.
    unfold stopping_inv. cbn. repeat (split; [done|]).
    intros c [= <-]. by right.
  - specialize (H4' ltac:(done)). unfold restartNext.
    set (w1 := record _ _).
    destruct (restartFrom_frame (drop j wids) j wids w1) as (F1 & F2 & F3 & F4 & F5).
    cbv zeta in F1, F2, F3, F4, F5.
    unfold stopping_inv. rewrite F1, F2, F3, F4, F5. cbn. done.
  - specialize (H4' ltac:(done)). unfold heartbeatCheck.
    destruct (lastHeartbeat _ !! id); [destruct (60000 <? _)|];
      unfold stopping_inv; cbn; repeat (split; [done|]);
      (split; [list_side|]); (split; [intros _; apply elem_of_app; by left|]); done.
Qed.

Lemma deliver_stopping_inv timeoutEnv T t e (w : W) :
  stopping_inv timeoutEnv T w -> exited w = None ->
  Forall (fun x => t <= x.1) (timers w) ->
  stopping_inv timeoutEnv T (deliver t e w).
Proof.
  intros (Henv & Hs & H3 & H4 & H5 & H6) Hex Hq.
  specialize (H4 Hex).
  assert (HtF : t <= forceAt timeoutEnv T).
  { rewrite Forall_forall in Hq. apply Hq in H4. simpl in H4. lia. }
  unfold deliver, Loop.deliver. set (w1 := record _ _).
  destruct (handle_frame e w1) as (He & Hn & Hv).
  unfold stopping_inv. rewrite He, Hn, Hv, handle_cstate by done.
  cbn [w1 record setNow app now exited]. rewrite Hex.
  repeat (split; [done|]).
  split; [by apply handle_timers_Forall; try done; left|].
  split; [intros _; by apply handle_timers_elem; try done; left|].
  done.
Qed.

Lemma step_stopping_inv timeoutEnv T i (w w' : W) :
  stopping_inv timeoutEnv T w -> step i w = Some w' -> stopping_inv timeoutEnv T w'.
Proof.
  intros Hinv H.
  apply step_cases in H as [Hex [(-> & _ & ->)|(t & e & -> & _ & Hq & ->)]].
  - by apply tick_stopping_inv.
  - by apply deliver_stopping_inv.
Qed.

Lemma exec_stopping_inv timeoutEnv T ins (w w' : W) :
  stopping_inv timeoutEnv T w -> exec ins w = Some w' -> stopping_inv timeoutEnv T w'.
Proof.
  apply (exec_invariant fire handle (stopping_inv timeoutEnv T)).
  intros i w1 w2. apply step_stopping_inv.
Qed.

Lemma run_stopping_inv timeoutEnv T n : forall w : W,
  stopping_inv timeoutEnv T w -> stopping_inv timeoutEnv T (run n w).
Proof.
  induction n as [|n IH]; intros w H; [done|].
  apply (IH (tick w)). by apply tick_stopping_inv.
Qed.

(** The termination signal starts the shutdown. *)
Lemma terminate_stopping_inv timeoutEnv T e (w : W) :
  running_inv timeoutEnv w -> isShuttingDown (cstate (app w)) = false ->
  isTerminate e = true ->
  stopping_inv timeoutEnv T (deliver T e w).
Proof.
  intros [Henv Hinv] Hs He. destruct (Hinv Hs) as [Hex Ht].
  pose proof (timerDelay_pos (envInt timeoutEnv 30000)) as Hpos.
  unfold deliver, Loop.deliver.
  destruct e as [[| |]| | | | |]; try discriminate He; cbn [handle];
    rewrite primary_shutdown_first by done;
    unfold stopping_inv, forceAt, shutdownTimeout; cbn; rewrite Henv, Hex;
    repeat (split; [done|]);
    (split; [apply Forall_app_2; [|by repeat constructor];
             eapply Forall_impl; [exact Ht|]; simpl; intros x [_ Hx]; congruence|]);
    (split; [intros _; apply elem_of_app; right; right; left|]);
    (split; [lia|done]).
Qed.

(** Left alone, a primary that is shutting down exits. *)
Lemma stopping_exits timeoutEnv T (w : W) :
  stopping_inv timeoutEnv T w -> exists n, exited (run n w) <> None.
Proof.
  apply (run_exits fire primary_fire_timers (stopping_inv timeoutEnv T) (forceAt timeoutEnv T)).
  - intros w1. apply tick_stopping_inv.
  - intros w1 (_ & _ & _ & H4 & _) Hex. eexists. split; [exact (H4 Hex)|]. simpl. lia.
Qed.

(** *** Rolling restart *)

Lemma occurs_app p tr1 tr2 : occurs p (tr1 ++ tr2) = occurs p tr1 || occurs p tr2.
Proof. apply existsb_app. Qed.

Lemma before_app p q tr1 tr2 :
  before p q (tr1 ++ tr2)
  = before p q tr1 || (occurs p tr1 && occurs q tr2) || before p q tr2.
Proof.
  induction tr1 as [|x tr1 IH]; simpl; [done|].
  rewrite IH, occurs_app.
  destruct (p x.2), (occurs q tr1), (occurs q tr2), (before p q tr1),
    (occurs p tr1), (before p q tr2); done.
Qed.

Lemma before_grows p q tr more : before p q tr = true -> before p q (tr ++ more) = true.
Proof. intros H. by rewrite before_app, H. Qed.

Lemma before_intro p q tr1 tr2 :
  occurs p tr1 = true -> occurs q tr2 = true -> before p q (tr1 ++ tr2) = true.
Proof.
  intros H1 H2. rewrite before_app, H1, H2. by destruct (before p q tr1).
Qed.

(** What [restartNext] does: the ids whose worker is gone are skipped;
    either none is left and the restart is complete, or one worker is forked
    for the first id still alive, and a listener waits for it. *)
Lemma restartFrom_spec rest : forall i wids (w : W),
  (Forall (fun o => isLive o (app w) = false) rest /\
   restartFrom i rest wids w = emit (Log Info "Rolling restart complete") w) \/
  (exists k old,
     rest !! k = Some old /\ isLive old (app w) = true /\
     Forall (fun o => isLive o (app w) = false) (take k rest) /\
     restartFrom i rest wids w
     = setApp (addOnListening (S (ids (app w)))
                 {| oldWorker := old; index := i + k; workerIds := wids |})
         (emit (Fork (S (ids (app w))))
            (setApp addWorker (emit (Log Info "Restarting worker ${worker.id}") w)))).
Proof.
  induction rest as [|old rest IH]; intros i wids w.
  { left. by split. }
  destruct (isLive old (app w)) eqn:E.
  - right. exists O, old. rewrite Nat.add_0_r.
    split; [done|]. split; [done|]. split; [constructor|]. by apply restartFrom_live.
  - rewrite restartFrom_gone by done.
    destruct (IH (S i) wids w) as [[H1 H2]|(k & o & H1 & H2 & H3 & H4)].
    + left. split; [by constructor|done].
    + right. exists (S k), o. split; [done|]. split; [done|].
      split; [by constructor|]. rewrite H4. by rewrite Nat.add_succ_r.
Qed.

Lemma restartNext_spec i wids (w : W) :
  (Forall (fun o => isLive o (app w) = false) (drop i wids) /\
   restartNext i wids w = emit (Log Info "Rolling restart complete") w) \/
  (exists j old,
     (i <= j)%nat /\ wids !! j = Some old /\ isLive old (app w) = true /\
     (forall j' o, (i <= j' < j)%nat -> wids !! j' = Some o -> isLive o (app w) = false) /\
     restartNext i wids w
     = setApp (addOnListening (S (ids (app w)))
                 {| oldWorker := old; index := j; workerIds := wids |})
         (emit (Fork (S (ids (app w))))
            (setApp addWorker (emit (Log Info "Restarting worker ${worker.id}") w)))).
Proof.
  unfold restartNext.
  destruct (restartFrom_spec (drop i wids) i wids w) as [H|(k & old & H1 & H2 & H3 & H4)];
    [by left|right].
  exists (i + k)%nat, old. split; [lia|].
  rewrite lookup_drop in H1. split; [done|]. split; [done|]. split; [|done].
  intros j' o Hj Ho. rewrite Forall_forall in H3. apply H3.
  apply list_elem_of_lookup. exists (j' - i)%nat.
  rewrite lookup_take_lt by lia. rewrite lookup_drop.
  by replace (i + (j' - i))%nat with j' by lia.
Qed.

Lemma ordered_from_app seen r1 : forall r2,
  ordered_from seen (r1 ++ r2) <-> ordered_from seen r1 /\ ordered_from (seen ++ r1) r2.
Proof.
  revert seen. induction r1 as [|x r1 IH]; intros seen r2; simpl.
  - rewrite app_nil_r. tauto.
  - rewrite IH, <- app_assoc. simpl. tauto.
Qed.

Lemma entry_ok_plain seen x : isPlain x.2 = true -> entry_ok seen x.
Proof. unfold entry_ok. destruct x as [t [e|[]|[]]]; simpl; done. Qed.

Lemma ordered_from_plain rest : forall seen,
  Forall (fun x => isPlain x.2 = true) rest -> ordered_from seen rest.
Proof.
  induction rest as [|x rest IH]; intros seen H; simpl; [done|].
  apply Forall_cons in H as [Hx H]. split; [by apply entry_ok_plain|by apply IH].
Qed.

Lemma ordered_from_split seen pre x post :
  ordered_from seen (pre ++ x :: post) -> entry_ok (seen ++ pre) x.
Proof. rewrite ordered_from_app. simpl. tauto. Qed.

(** The invariant of the rolling restart: listeners wait for workers that
    were forked, at the index of their old worker; the listeners on the exit
    of an old worker were put when it was disconnected; the timers for the
    next id were set at the exit of a disconnected worker; and the trace is in
    order. *)
Definition rolling_ok (tr : list (Z * Obs Action Event Effect))
    (ls : list (nat * Replacement)) (xs : list (nat * ExitListener))
    (tm : list (Z * Action)) : Prop :=
  Forall (fun l => occurs (isForkOf l.1) tr = true /\
                   workerIds l.2 !! index l.2 = Some (oldWorker l.2)) ls /\
  Forall (fun x => forall i wids, x.2 = RestartAfterExit i wids ->
                   occurs (isDisconnectOf x.1) tr = true) xs /\
  Forall (fun x => forall j wids, x.2 = RestartNext j wids ->
                   exists o, before (isDisconnectOf o) (isExitOf o) tr = true) tm /\
  ordered_from [] tr.

Definition rolling_inv (w : W) : Prop :=
  rolling_ok (trace w) (onListening (app w)) (onExit (app w)) (timers w).

(** Steps that add nothing that the order is about. *)
Definition plain_step (w w' : W) : Prop :=
  (exists new, trace w' = trace w ++ new /\ Forall (fun x => isPlain x.2 = true) new) /\
  onListening (app w') = onListening (app w) /\
  (exists more, onExit (app w') = onExit (app w) ++ more /\
                Forall (fun x => x.2 = ClearHeartbeat) more) /\
  Forall (fun x => forall j wids, x.2 = RestartNext j wids -> x ∈ timers w) (timers w').

Lemma rolling_ok_trace tr new ls xs tm :
  rolling_ok tr ls xs tm -> ordered_from tr new -> rolling_ok (tr ++ new) ls xs tm.
Proof.
  intros (H1 & H2 & H3 & H4) Hnew. repeat split.
  - eapply Forall_impl; [exact H1|]. intros l [Hl ?]. split; [|done].
    by rewrite occurs_app, Hl.
  - eapply Forall_impl; [exact H2|]. intros x Hx i wids E.
    by rewrite occurs_app, (Hx i wids E).
  - eapply Forall_impl; [exact H3|]. intros x Hx j wids E.
    destruct (Hx j wids E) as [o Ho]. exists o. by apply before_grows.
  - apply ordered_from_app. by split.
Qed.

Lemma plain_step_inv (w w' : W) : rolling_inv w -> plain_step w w' -> rolling_inv w'.
Proof.
  intros Hinv ((new & Htr & Hnew) & Hls & (more & Hxs & Hmore) & Htm).
  unfold rolling_inv. rewrite Htr, Hls, Hxs.
  apply (rolling_ok_trace _ new) in Hinv; [|by apply ordered_from_plain].
  destruct Hinv as (H1 & H2 & H3 & H4). repeat split; try done.
  - apply Forall_app_2; [done|]. eapply Forall_impl; [exact Hmore|].
    intros x Hx i wids E. congruence.
  - rewrite Forall_forall in H3. apply Forall_forall. intros x Hx j wids E.
    rewrite Forall_forall in Htm. apply (H3 x (Htm x Hx j wids E) j wids E).
Qed.

Lemma plain_step_refl (w : W) : plain_step w w.
Proof.
  split; [exists []; by rewrite app_nil_r|]. split; [done|].
  split; [exists []; by rewrite app_nil_r|].
  apply Forall_forall. by intros x Hx j wids _.
Qed.

Lemma plain_step_trans (w1 w2 w3 : W) :
  plain_step w1 w2 -> plain_step w2 w3 -> plain_step w1 w3.
Proof.
  intros ((n1 & T1 & P1) & L1 & (m1 & X1 & M1) & R1)
         ((n2 & T2 & P2) & L2 & (m2 & X2 & M2) & R2).
  split; [exists (n1 ++ n2); rewrite T2, T1, <- app_assoc; split; [done|by apply Forall_app_2]|].
  split; [congruence|].
  split; [exists (m1 ++ m2); rewrite X2, X1, <- app_assoc; split; [done|by apply Forall_app_2]|].
  rewrite Forall_forall in R1, R2. apply Forall_forall. intros x Hx j wids E.
  apply (R1 x (R2 x Hx j wids E) j wids E).
Qed.

Lemma restart_timers_app (tm added : list (Z * Action)) :
  Forall (fun x => forall j wids, x.2 <> RestartNext j wids) added ->
  Forall (fun x => forall j wids, x.2 = RestartNext j wids -> x ∈ tm) (tm ++ added).
Proof.
  intros H. apply Forall_app_2.
  - apply Forall_forall. by intros x Hx j wids _.
  - eapply Forall_impl; [exact H|]. intros x Hx j wids E. by destruct (Hx j wids).
Qed.

Lemma restart_timers_filter (f : Z * Action -> bool) (tm : list (Z * Action)) :
  Forall (fun x => forall j wids, x.2 = RestartNext j wids -> x ∈ tm) (List.filter f tm).
Proof.
  apply Forall_forall. intros x Hx j wids _.
  apply list_elem_of_In, filter_In in Hx as [Hx _]. by apply list_elem_of_In.
Qed.

(** Proves [plain_step w w'] when [w'] computes to [w] with entries added. *)
Ltac plain_tac :=
  unfold plain_step; cbn;
  split; [first [ exists []; split; [by rewrite app_nil_r|by constructor]
                | eexists; split; [rewrite <- ?app_assoc; reflexivity|list_side] ]|];
  split; [reflexivity|];
  split; [first [ exists []; split; [by rewrite app_nil_r|by constructor]
                | eexists; split; [reflexivity|by repeat constructor] ]|];
  first [ apply restart_timers_filter
        | apply restart_timers_app; by repeat constructor
        | apply Forall_forall; intros ? ? ? ? _; assumption ].

Lemma plain_forkWorker (w : W) : plain_step w (forkWorker w).
Proof. plain_tac. Qed.

Lemma plain_clusterOnExit id (w : W) : plain_step w (clusterOnExit id w).
Proof.
  unfold clusterOnExit. cbn [emit record app now].
  destruct (isShuttingDown (cstate (app w))); [plain_tac|].
  destruct (_ <=? _)%nat; plain_tac.
Qed.

Lemma plain_gracefulShutdown sig (w : W) : plain_step w (gracefulShutdown sig w).
Proof.
  destruct (isShuttingDown (cstate (app w))) eqn:E.
  - rewrite primary_shutdown_again by done. apply plain_step_refl.
  - rewrite primary_shutdown_first by done.
    unfold plain_step; cbn.
    split; [eexists; split; [reflexivity|]|].
    { constructor; [done|]. apply Forall_fmap, Forall_forall. by intros x _. }
    split; [reflexivity|].
    split; [exists []; split; [by rewrite app_nil_r|constructor]|].
    apply restart_timers_app; by repeat constructor.
Qed.

Lemma plain_heartbeatCheck id (w : W) : plain_step w (heartbeatCheck id w).
Proof.
  unfold heartbeatCheck.
  destruct (lastHeartbeat (app w) !! id); [destruct (60000 <? _)|]; plain_tac.
Qed.

Lemma plain_workerMessage id type (w : W) : plain_step w (workerMessage id type w).
Proof.
  unfold workerMessage.
  destruct (String.eqb type "heartbeat"), (String.eqb type "log");
    destruct (lastHeartbeat (app w) !! id); plain_tac.
Qed.

Lemma plain_recv t e (w : W) : plain_step w (record (Recv e) (setNow t w)).
Proof. plain_tac. Qed.

Lemma restartNext_inv i wids (w : W) :
  rolling_inv w -> rolling_inv (restartNext i wids w).
Proof.
  intros Hinv.
  destruct (restartNext_spec i wids w) as [[_ ->]|(j & old & _ & Hj & _ & _ & ->)].
  { apply (plain_step_inv w); [done|]. plain_tac. }
  unfold rolling_inv in *. cbn.
  apply (rolling_ok_trace _
           [(now w, Out (Log Info "Restarting worker ${worker.id}"));
            (now w, Out (Fork (S (ids (app w)))))]) in Hinv;
    [|by apply ordered_from_plain; repeat constructor].
  rewrite <- app_assoc. simpl.
  destruct Hinv as (H1 & H2 & H3 & H4). repeat split; try done.
  apply Forall_app_2; [done|]. repeat constructor; simpl; [|done].
  rewrite occurs_app. simpl. rewrite Nat.eqb_refl. by destruct (occurs _ _).
Qed.

Lemma listening_fold_inv n ls : forall w : W,
  rolling_inv w ->
  Forall (fun l => l.1 = n -> before (isForkOf n) (isListeningOf n) (trace w) = true) ls ->
  rolling_inv (fold_left (runListeningListener n) ls w).
Proof.
  induction ls as [|[m r] ls IH]; intros w Hinv Hls; simpl; [done|].
  apply Forall_cons in Hls as [Hl Hls]. simpl in Hl.
  unfold runListeningListener at 2. simpl.
  destruct (Nat.eqb m n) eqn:E; [|by apply IH].
  apply Nat.eqb_eq in E. specialize (Hl E).
  apply IH.
  - unfold rolling_inv in *. cbn.
    apply (rolling_ok_trace _ [(now w, Out (Disconnect (oldWorker r)))]) in Hinv.
    2:{ simpl. split; [|done]. unfold entry_ok. simpl. by exists n. }
    destruct Hinv as (H1 & H2 & H3 & H4). repeat split; try done.
    apply Forall_app_2; [done|]. repeat constructor. simpl. intros _ _ _.
    rewrite occurs_app. simpl. rewrite Nat.eqb_refl. by destruct (occurs _ _).
  - cbn. eapply Forall_impl; [exact Hls|]. intros l Hl' El.
    by apply before_grows, Hl'.
Qed.

Lemma exit_fold_inv o ls : forall w : W,
  rolling_inv w ->
  Forall (fun x => x.1 = o -> forall i wids, x.2 = RestartAfterExit i wids ->
            before (isDisconnectOf o) (isExitOf o) (trace w) = true) ls ->
  rolling_inv (fold_left (runExitListener o) ls w).
Proof.
  induction ls as [|[m l] ls IH]; intros w Hinv Hls; simpl; [done|].
  apply Forall_cons in Hls as [Hl Hls]. simpl in Hl.
  unfold runExitListener at 2. simpl.
  destruct (Nat.eqb m o) eqn:E; [|by apply IH].
  apply Nat.eqb_eq in E. specialize (Hl E).
  destruct l as [|i wids].
  - apply IH; [|done]. apply (plain_step_inv w); [done|]. plain_tac.
  - apply IH; [|done].
    destruct Hinv as (H1 & H2 & H3 & H4). unfold rolling_inv. cbn.
    repeat split; try done.
    apply Forall_app_2; [done|]. repeat constructor. simpl. intros j wids' _.
    exists o. by apply (Hl i wids).
Qed.

Lemma deliver_rolling_inv t e (w : W) :
  rolling_inv w -> rolling_inv (deliver t e w).
Proof.
  intros Hinv. unfold deliver, Loop.deliver.
  pose proof (plain_step_inv _ _ Hinv (plain_recv t e w)) as Hinv1.
  set (w1 := record (Recv e) (setNow t w)) in *.
  destruct e as [[| |]|o|n|id|id|id type]; cbn [handle].
  - apply (plain_step_inv w1); [done|apply plain_gracefulShutdown].
  - apply (plain_step_inv w1); [done|apply plain_gracefulShutdown].
  - unfold rollingRestart. apply restartNext_inv.
    apply (plain_step_inv w1); [done|]. plain_tac.
  - (* the exit of a worker *)
    unfold workerExit. cbv zeta.
    eapply plain_step_inv; [|apply plain_clusterOnExit].
    apply exit_fold_inv.
    + apply (plain_step_inv w1); [done|]. plain_tac.
    + destruct Hinv as (_ & H2 & _). cbn.
      eapply Forall_impl; [exact H2|]. intros x Hx Eo i wids Ex.
      subst o. apply before_intro; [by apply (Hx i wids)|].
      simpl. by rewrite Nat.eqb_refl.
  - (* a worker listens *)
    unfold workerListening. cbv zeta.
    apply (plain_step_inv (fold_left (runListeningListener n) (onListening (app w1)) w1));
      [|plain_tac].
    apply listening_fold_inv; [done|].
    destruct Hinv as (H1 & _). cbn.
    eapply Forall_impl; [exact H1|]. intros l [Hl _] El.
    subst n. apply before_intro; [done|]. simpl. by rewrite Nat.eqb_refl.
  - apply (plain_step_inv w1); [done|]. plain_tac.
  - apply (plain_step_inv w1); [done|]. plain_tac.
  - apply (plain_step_inv w1); [done|apply plain_workerMessage].
Qed.

Lemma tick_rolling_inv (w : W) : rolling_inv w -> rolling_inv (tick w).
Proof.
  intros Hinv.
  pose proof (tick_ticked fire w) as Ht. unfold tick.
  remember (Loop.tick fire w) as w2 eqn:E. clear E.
  destruct Ht as [_|d a l1 l2 Hex Htim Hmin]; [done|].
  set (w1 := record _ _).
  destruct a as [| |j wids|id]; cbn [fire].
  - assert (H1 : plain_step w w1).
    { unfold plain_step, w1. cbn. rewrite Htim.
      split; [eexists; split; [reflexivity|by repeat constructor]|].
      split; [done|]. split; [exists []; split; [by rewrite app_nil_r|constructor]|].
      apply Forall_forall. intros x Hx _ _ _.
      rewrite !elem_of_app in Hx |- *. rewrite elem_of_cons. tauto. }
    apply (plain_step_inv w); [done|]. eapply plain_step_trans; [exact H1|].
    destruct (workers (app w1)); plain_tac.
  - assert (H1 : plain_step w w1).
    { unfold plain_step, w1. cbn. rewrite Htim.
      split; [eexists; split; [reflexivity|by repeat constructor]|].
      split; [done|]. split; [exists []; split; [by rewrite app_nil_r|constructor]|].
      apply Forall_forall. intros x Hx _ _ _.
      rewrite !elem_of_app in Hx |- *. rewrite elem_of_cons. tauto. }
    apply (plain_step_inv w); [done|]. eapply plain_step_trans; [exact H1|]. plain_tac.
  - (* the rolling restart moves on *)
    apply restartNext_inv.
    destruct Hinv as (H1 & H2 & H3 & H4). unfold rolling_inv, w1. cbn.
    rewrite Htim in H3. apply Forall_middle in H3 as [Ha H3]. simpl in Ha.
    destruct (Ha j wids eq_refl) as [o Ho].
    assert (Hok : rolling_ok (trace w ++ [(d, Fired (RestartNext j wids))])
                    (onListening (app w)) (onExit (app w)) (l1 ++ l2)).
    { apply rolling_ok_trace; [by repeat split|].
      simpl. split; [|done]. unfold entry_ok. simpl. by exists o. }
    exact Hok.
  - assert (H1 : plain_step w w1).
    { unfold plain_step, w1. cbn. rewrite Htim.
      split; [eexists; split; [reflexivity|by repeat constructor]|].
      split; [done|]. split; [exists []; split; [by rewrite app_nil_r|constructor]|].
      apply Forall_forall. intros x Hx _ _ _.
      rewrite !elem_of_app in Hx |- *. rewrite elem_of_cons. tauto. }
    apply (plain_step_inv w); [done|]. eapply plain_step_trans; [exact H1|].
    apply plain_heartbeatCheck.
Qed.

Lemma forkWorkers_rolling_inv n : forall w : W,
  rolling_inv w -> rolling_inv (forkWorkers n w).
Proof.
  induction n as [|n IH]; intros w H; simpl; [done|].
  apply IH. apply (plain_step_inv w); [done|apply plain_forkWorker].
Qed.

Lemma exec_rolling_inv n timeoutEnv ins (w : W) :
  exec ins (start n timeoutEnv) = Some w -> rolling_inv w.
Proof.
  apply (exec_invariant fire handle rolling_inv).
  - intros i w1 w2 Hinv H.
    apply step_cases in H as [Hex [(-> & _ & ->)|(t & e & -> & _ & _ & ->)]].
    + by apply tick_rolling_inv.
    + by apply deliver_rolling_inv.
  - apply forkWorkers_rolling_inv. unfold rolling_inv, boot. cbn.
    repeat split; try constructor; done.
Qed.

Lemma listening_fold_trace n ls : forall w : W,
  let w' := fold_left (runListeningListener n) ls w in
  trace w' = trace w ++
    map (fun r => (now w, Out (Disconnect (oldWorker r)))) (replacementsOf n ls) /\
  onExit (app w') = onExit (app w) ++
    map (fun r => (oldWorker r, RestartAfterExit (index r) (workerIds r)))
        (replacementsOf n ls).
Proof.
  unfold replacementsOf.
  induction ls as [|[m r] ls IH]; intros w; simpl.
  { by rewrite !app_nil_r. }
  destruct (IH (runListeningListener n w (m, r))) as [H1 H2].
  rewrite H1, H2. unfold runListeningListener. simpl.
  destruct (Nat.eqb m n); [|done]. simpl. by rewrite <- !app_assoc.
Qed.

(** The order of the entries of every trace, whatever the schedule.  The
    rolling restart takes the ids in order, skipping the ids whose worker is
    gone when their turn comes: for the first id still alive it forks one
    worker and waits for that worker to listen; the listening notification,
    and nothing else, disconnects the old worker and puts a listener on its
    exit; that exit sets the timer (1000 ms) whose firing takes the next
    index.  In every trace a worker is disconnected only after a worker forked
    before has reported listening, and the restart moves on only after a
    worker disconnected before has exited. *)
Lemma rolling_restart_trace_order (numWorkers : nat) (timeoutEnv : option Z)
    (ins : list (Input Event)) (w : W) :
  exec ins (start numWorkers timeoutEnv) = Some w ->
  (forall pre t o post,
     trace w = pre ++ (t, Out (Disconnect o)) :: post ->
     exists n, before (isForkOf n) (isListeningOf n) pre = true) /\
  (forall pre t j wids post,
     trace w = pre ++ (t, Fired (RestartNext j wids)) :: post ->
     exists o, before (isDisconnectOf o) (isExitOf o) pre = true) /\
  (forall n r, (n, r) ∈ onListening (app w) ->
     occurs (isForkOf n) (trace w) = true /\
     workerIds r !! index r = Some (oldWorker r)) /\
  (forall i wids,
     (Forall (fun o => isLive o (app w) = false) (drop i wids) /\
      restartNext i wids w = emit (Log Info "Rolling restart complete") w) \/
     (exists j old,
        (i <= j)%nat /\ wids !! j = Some old /\ isLive old (app w) = true /\
        (forall j' o, (i <= j' < j)%nat -> wids !! j' = Some o ->
                      isLive o (app w) = false) /\
        restartNext i wids w
        = setApp (addOnListening (S (ids (app w)))
                    {| oldWorker := old; index := j; workerIds := wids |})
            (emit (Fork (S (ids (app w))))
               (setApp addWorker
                  (emit (Log Info "Restarting worker ${worker.id}") w))))) /\
  (forall n t,
     let w' := deliver t (WorkerListening n) w in
     trace w' = trace w ++ (t, Recv (WorkerListening n))
       :: map (fun r => (t, Out (Disconnect (oldWorker r))))
              (replacementsOf n (onListening (app w)))
       ++ [(t, Out (Log Info "Worker listening"))] /\
     onExit (app w') = onExit (app w) ++
       map (fun r => (oldWorker r, RestartAfterExit (index r) (workerIds r)))
           (replacementsOf n (onListening (app w))) /\
     timers w' = timers w /\ forks (trace w') = forks (trace w)) /\
  (forall o i wids t,
     (o, RestartAfterExit i wids) ∈ onExit (app w) ->
     (t + 1000, RestartNext (S i) wids) ∈ timers (deliver t (WorkerExit o) w)) /\
  (forall j wids, fire (RestartNext j wids) w = restartNext j wids w).
Proof.
  intros Hexec.
  pose proof (exec_rolling_inv numWorkers timeoutEnv ins w Hexec) as (H1 & H2 & H3 & H4).
  split.
  { intros pre t o post E. rewrite E in H4.
    apply ordered_from_split in H4. exact H4. }
  split.
  { intros pre t j wids post E. rewrite E in H4.
    apply ordered_from_split in H4. exact H4. }
  split.
  { intros n r Hin. rewrite Forall_forall in H1. exact (H1 _ Hin). }
  split; [intros i wids; apply restartNext_spec|].
  split.
  { intros n t w'. subst w'. unfold deliver, Loop.deliver. cbn [handle].
    unfold workerListening. cbv zeta.
    set (w1 := record _ _).
    destruct (listening_fold_trace n (onListening (app w1)) w1) as [T1 T2].
    destruct (listening_listeners_frame n (onListening (app w1)) w1)
      as (_ & F2 & _ & F4 & F5 & _).
    cbv zeta in T1, T2, F2, F4, F5.
    set (w2 := fold_left _ _ w1) in *. clearbody w2.
    cbn [emit record trace timers app].
    cbn [w1 record setNow trace app now timers] in T1, T2, F2, F4, F5.
    split.
    { rewrite T1, F4, <- !app_assoc. reflexivity. }
    split; [exact T2|]. split; [exact F2|].
    rewrite forks_app, F5, forks_app. cbn. by rewrite !app_nil_r. }
  split; [|done].
  intros o i wids t Hin. apply workerExit_timers_grow.
  by apply (exit_listeners_restart o (onExit (app w))
              (setApp (removeWorker o) (record (Recv (WorkerExit o)) (setNow t w)))).
Qed.

End PrimaryFacts.

(** ** The worker process *)

Module WorkerFacts.
Import Worker.

(** Splits on the mode where the listener of the shutdown message asks for
    it. *)
Ltac by_mode :=
  repeat match goal with
         | |- context [if clustered ?s then _ else _] =>
             let H := fresh "Hmode" in destruct (clustered s) eqn:H; cbn in H
         | H0 : context [if clustered ?s then _ else _] |- _ =>
             let H := fresh "Hmode" in destruct (clustered s) eqn:H; cbn in H
         end.

(** The mode of a process is fixed. *)
Lemma fire_clustered a (w : W) : clustered (app (fire a w)) = clustered (app w).
Proof.
  destruct a as [| |c| |]; cbn [fire].
  - unfold afterDrain. cbv zeta.
    match goal with |- context [if ?b then _ else _] => destruct b end; cbn.
    + generalize (connections (server (app w))). intros l.
      match goal with |- context [fold_left endConnection l ?w0] =>
        change (clustered (app w)) with (clustered (app w0)); generalize w0 end.
      induction l as [|c l IH]; intros w0; [done|]. cbn [fold_left]. by rewrite IH.
    + generalize (connections (server (app w))). intros l.
      match goal with |- context [fold_left endConnection l ?w0] =>
        change (clustered (app w)) with (clustered (app w0)); generalize w0 end.
      induction l as [|c l IH]; intros w0; [done|]. cbn [fold_left]. by rewrite IH.
  - done.
  - by destruct (hasConnection c (server (app w))).
  - by destruct (connections (server (app w))).
  - done.
Qed.

Lemma gracefulShutdown_clustered sig (w : W) :
  clustered (app (gracefulShutdown sig w)) = clustered (app w).
Proof. unfold gracefulShutdown. by destruct (isShuttingDown (server (app w))). Qed.

Lemma handle_clustered e (w : W) : clustered (app (handle e w)) = clustered (app w).
Proof.
  destruct e as [s| | |c|c| |[|]]; cbn [handle].
  - apply gracefulShutdown_clustered.
  - destruct (clustered (app w)) eqn:E; [|done]. by rewrite gracefulShutdown_clustered.
  - unfold uncaughtException. cbv zeta.
    destruct (isShuttingDown _); cbn; by rewrite gracefulShutdown_clustered.
  - by destruct (accepting (app w)).
  - done.
  - done.
  - done.
  - unfold uncaughtException. cbv zeta.
    destruct (isShuttingDown _); cbn; by rewrite gracefulShutdown_clustered.
Qed.

Lemma exec_clustered cfg mode ins (w : W) :
  exec ins (start cfg mode) = Some w -> clustered (app w) = mode.
Proof.
  apply (exec_invariant fire handle (fun w => clustered (app w) = mode)).
  - intros i w1 w2 Hm Hstep.
    apply step_cases in Hstep as [Hex [(-> & _ & ->)|(t & e & -> & _ & _ & ->)]].
    + pose proof (tick_ticked fire w1) as Ht.
      remember (Loop.tick fire w1) as w3 eqn:E. clear E.
      destruct Ht as [_|d a l1 l2 _ _ _]; [done|]. by rewrite fire_clustered.
    + unfold Loop.deliver. by rewrite handle_clustered.
  - by destruct mode.
Qed.

(** A process started on its own has no listener for the messages of a
    primary ([cluster.js] registers it in its worker branch only): the
    shutdown message does nothing. *)
Lemma standalone_ignores_shutdown_message t (w : W) :
  clustered (app w) = false ->
  deliver t ShutdownMessage w = record (Recv ShutdownMessage) (setNow t w).
Proof.
  intros H. unfold deliver, Loop.deliver. cbn [handle record setNow app]. by rewrite H.
Qed.

Lemma run_plus n m (w : W) : run (n + m) w = run m (run n w).
Proof. exact (run_add fire n m w). Qed.

Lemma run_after_exit n (w : W) : exited w <> None -> run n w = w.
Proof. exact (run_exited fire n w). Qed.

Lemma timeline_exited n (w : W) : exited w <> None -> timeline n w = [].
Proof.
  revert w. induction n as [|n IH]; intros w H; [done|].
  cbn [timeline]. unfold tick. rewrite tick_exited by done.
  fold tick. rewrite IH by done.
  unfold phase. destruct (exited w) as [c|]; [|done].
  simpl. by rewrite Z.eqb_refl.
Qed.

Lemma timeline_add n m (w : W) :
  timeline (n + m) w = timeline n w ++ timeline m (run n w).
Proof.
  revert w. induction n as [|n IH]; intros w; [done|].
  cbn [Nat.add timeline]. rewrite IH, <- app_assoc. reflexivity.
Qed.

Lemma timeline_settled n k (w : W) :
  exited (run n w) <> None -> (n <= k)%nat -> timeline k w = timeline n w.
Proof.
  intros He Hk. replace k with (n + (k - n))%nat by lia.
  rewrite timeline_add, (timeline_exited (k - n) (run n w)) by done.
  apply app_nil_r.
Qed.

(** C4, as claimed, fails: the worker of the scenario is not terminated
    1000 ms after the trigger; after the poll at 1000 ms it is still closing,
    and no number of steps gives the claimed timeline. *)
Lemma C4_forced_exit_counterexample :
  phase (run 9 scenarioC4) = CLOSING /\ now (run 9 scenarioC4) = 1000 /\
  ~ (exists n c, timeline n scenarioC4 = [(200, CLOSING); (1000, TERMINATED c)]).
Proof.
  split; [vm_compute; reflexivity|]. split; [vm_compute; reflexivity|].
  intros (n & c & H).
  assert (H11 : timeline 11 scenarioC4 = [(200, CLOSING); (1200, TERMINATED 1)])
    by (vm_compute; reflexivity).
  assert (He : exited (run 11 scenarioC4) <> None) by (vm_compute; discriminate).
  pose proof (timeline_settled 11 (n + 11) scenarioC4 He ltac:(lia)) as Hs.
  rewrite timeline_add, H, H11 in Hs. discriminate Hs.
Qed.

(** C4, amended.  In the scenario the worker is RUNNING before the trigger and
    DRAINING from it (time 0), CLOSING from 200 ms, and is forced to
    TERMINATED with exit code 1 at 1200 ms, the drain delay plus the shutdown
    timeout: the force timer is armed when the drain delay has elapsed. *)
Theorem C4_forced_exit_timeline (n : nat) :
  (11 <= n)%nat ->
  phase (serving cfgC4 true) = RUNNING /\
  phase scenarioC4 = DRAINING /\ now scenarioC4 = 0 /\
  timeline n scenarioC4 = [(200, CLOSING); (1200, TERMINATED 1)] /\
  connections (server (app (run n scenarioC4))) = [1%nat] /\
  exited (run n scenarioC4) = Some 1 /\ now (run n scenarioC4) = 1200.
Proof.
  intros Hn.
  assert (He : exited (run 11 scenarioC4) <> None) by (vm_compute; discriminate).
  assert (Hr : run n scenarioC4 = run 11 scenarioC4).
  { replace n with (11 + (n - 11))%nat by lia.
    rewrite run_plus. apply run_after_exit. exact He. }
  rewrite (timeline_settled 11 n), Hr by done.
  repeat split; vm_compute; reflexivity.
Qed.

Lemma C4_forced_exit_timeline_witness :
  timeline 20 scenarioC4 = [(200, CLOSING); (1200, TERMINATED 1)].
Proof.
  refine (proj1 (proj2 (proj2 (proj2 (C4_forced_exit_timeline 20 _))))).
  lia.
Defined.

(** *** The shutdown sequence, step by step *)

Lemma endConnection_all cs : forall w : W,
  fold_left endConnection cs w
  = mkWorld (now w)
      (timers w ++ map (fun c => (now w + 5000, DestroyConnection c)) cs)
      (exited w)
      (trace w ++ map (fun c => (now w, Out (End c))) cs)
      (app w).
Proof.
  induction cs as [|c cs IH]; intros w; simpl.
  - rewrite !app_nil_r. by destruct w.
  - rewrite IH. cbn. by rewrite <- !app_assoc.
Qed.

(** The world after the body of [afterDrain], before the exit that the
    uncaughtException handler may add. *)
Definition drained (w : W) : W :=
  mkWorld (now w)
    (timers w ++ (now w + timerDelay (shutdownTimeout (app w)), ForceShutdown)
       :: map (fun c => (now w + 5000, DestroyConnection c)) (connections (server (app w)))
       ++ [(now w + 100, CheckConnections)])
    (exited w)
    (trace w ++ (now w, Out ServerClose)
       :: map (fun c => (now w, Out (End c))) (connections (server (app w))))
    (setAccepting false (app w)).

Lemma afterDrain_eq (w : W) :
  afterDrain w
  = if exitWhenResolved (app w) then processExit 1 (drained w) else drained w.
Proof.
  unfold afterDrain. cbv zeta. rewrite endConnection_all.
  unfold drained, setTimeout, emit, record, setApp.
  cbn [now timers exited trace app setAccepting server connections exitWhenResolved].
  rewrite <- !app_assoc. reflexivity.
Qed.

Lemma worker_shutdown_first signal (w : W) :
  isShuttingDown (server (app w)) = false ->
  gracefulShutdown signal w
  = mkWorld (now w)
      (timers w ++ [(now w + timerDelay (drainDelay (app w)), DrainElapsed)])
      (exited w)
      (trace w ++
         [(now w, Out (Log Info ("Received " +:+ signal +:+ ", starting graceful shutdown...")));
          (now w, Out (Log Warn "Application marked as not ready"));
          (now w, Out (Log Info "Waiting ${drainDelay}ms for load balancer drain..."))])
      (setHealth Health.markNotReady (setServer shutDown (app w))).
Proof.
  intros H. unfold gracefulShutdown. rewrite H.
  unfold markNotReady, setTimeout, emit, record, setApp. cbn [now timers exited trace app].
  rewrite <- !app_assoc. reflexivity.
Qed.

Lemma worker_shutdown_again signal (w : W) :
  isShuttingDown (server (app w)) = true ->
  gracefulShutdown signal w
  = emit (Log Warn "Shutdown already in progress, ignoring signal") w.
Proof. intros H. unfold gracefulShutdown. by rewrite H. Qed.

(** Callbacks only add timers due later than the time they run at. *)
Lemma worker_fire_timers a (w : W) :
  exists added, Forall (fun x => now w < x.1) added /\
                timers (fire a w) `sublist_of` (timers w ++ added).
Proof.
  destruct a as [| |c| |]; cbn [fire].
  - rewrite afterDrain_eq.
    exists ((now w + timerDelay (shutdownTimeout (app w)), ForceShutdown)
       :: map (fun c => (now w + 5000, DestroyConnection c)) (connections (server (app w)))
       ++ [(now w + 100, CheckConnections)]).
    split.
    + constructor; [pose proof (timerDelay_pos (shutdownTimeout (app w))); simpl; lia|].
      apply Forall_app. split; [|repeat constructor; simpl; lia].
      apply Forall_forall. intros x Hx. apply list_elem_of_fmap in Hx as (c & -> & _).
      simpl. lia.
    + destruct (exitWhenResolved (app w)); reflexivity.
  - exists []. split; [constructor|]. rewrite app_nil_r. reflexivity.
  - exists []. split; [constructor|]. rewrite app_nil_r.
    destruct (hasConnection c (server (app w))); reflexivity.
  - destruct (connections (server (app w))).
    + exists []. split; [constructor|]. rewrite app_nil_r. cbn.
      etrans; [apply sublist_List_filter|]. apply sublist_List_filter.
    + exists [(now w + 100, CheckConnections)]. split; [repeat constructor; simpl; lia|].
      reflexivity.
  - exists [(now w + 10000, Heartbeat)]. split; [repeat constructor; simpl; lia|].
    reflexivity.
Qed.

(** *** Before the shutdown *)

(** While the worker is not shutting down, its only timers are heartbeats, no
    exit is pending on a promise, and no connection has been closed by force. *)
Definition serving_inv (cfg : Config) (w : W) : Prop :=
  env (app w) = cfg /\
  (isShuttingDown (server (app w)) = false ->
   Forall (fun x => x.2 = Heartbeat) (timers w) /\
   exitWhenResolved (app w) = false /\
   Forall (fun x => isTeardown x.2 = false) (trace w)).

Lemma start_serving_inv cfg clustered : serving_inv cfg (start cfg clustered).
Proof.
  split; [by destruct clustered|]. intros _.
  destruct clustered; cbn; repeat split; repeat constructor.
Qed.

Lemma fire_flag a (w : W) :
  isShuttingDown (server (app (fire a w))) = isShuttingDown (server (app w)) /\
  env (app (fire a w)) = env (app w).
Proof.
  destruct a as [| |c| |]; cbn [fire].
  - rewrite afterDrain_eq. by destruct (exitWhenResolved (app w)).
  - done.
  - by destruct (hasConnection c (server (app w))).
  - by destruct (connections (server (app w))).
  - done.
Qed.

Lemma uncaughtException_again (w : W) :
  isShuttingDown (server (app w)) = true ->
  uncaughtException w
  = processExit 1 (emit (Log Warn "Shutdown already in progress, ignoring signal")
                        (emit (Log Error "Uncaught Exception") w)).
Proof.
  intros H. unfold uncaughtException. cbn [emit record app]. rewrite H.
  by rewrite worker_shutdown_again.
Qed.

Lemma uncaughtException_first (w : W) :
  isShuttingDown (server (app w)) = false ->
  uncaughtException w
  = setApp (setExitWhenResolved true)
      (gracefulShutdown "uncaughtException" (emit (Log Error "Uncaught Exception") w)).
Proof. intros H. unfold uncaughtException. cbn [emit record app]. by rewrite H. Qed.

(** [isShuttingDown] never reverts, and the environment is fixed. *)
Lemma handle_flag e (w : W) :
  env (app (handle e w)) = env (app w) /\
  (isShuttingDown (server (app w)) = true ->
   isShuttingDown (server (app (handle e w))) = true).
Proof.
  destruct (isShuttingDown (server (app w))) eqn:Hs.
  - destruct e as [s| | |c|c| |[|]]; cbn [handle]; by_mode;
      rewrite ?uncaughtException_again by done;
      rewrite ?worker_shutdown_again by done; cbn; rewrite ?Hs; try done;
      by destruct (accepting (app w)).
  - split; [|done].
    destruct e as [s| | |c|c| |[|]]; cbn [handle]; by_mode;
      rewrite ?uncaughtException_first by done;
      rewrite ?worker_shutdown_first by done; cbn; try done;
      by destruct (accepting (app w)).
Qed.

(** The events that leave a worker that is not shutting down as it is. *)
Lemma handle_keeps_serving e (w : W) :
  isShuttingDown (server (app w)) = false ->
  isShuttingDown (server (app (handle e w))) = false ->
  timers (handle e w) = timers w /\
  exitWhenResolved (app (handle e w)) = exitWhenResolved (app w) /\
  (Forall (fun x => isTeardown x.2 = false) (trace w) ->
   Forall (fun x => isTeardown x.2 = false) (trace (handle e w))).
Proof.
  intros Hs. destruct e as [s| | |c|c| |[|]]; cbn [handle]; by_mode;
    rewrite ?uncaughtException_first by done;
    rewrite ?worker_shutdown_first by done; cbn; try done.
  - by destruct (accepting (app w)).
  - intros _. repeat split; try done. intros H.
    rewrite !Forall_app. by repeat constructor.
  - intros _. repeat split; try done. intros H.
    rewrite !Forall_app. by repeat constructor.
Qed.

Lemma step_serving_inv cfg i (w w' : W) :
  serving_inv cfg w -> step i w = Some w' -> serving_inv cfg w'.
Proof.
  intros [Henv Hinv] H.
  apply step_cases in H as [Hex [(-> & _ & ->)|(t & e & -> & _ & _ & ->)]].
  - pose proof (tick_ticked fire w) as Ht.
    remember (Loop.tick fire w) as w2 eqn:E. clear E.
    destruct Ht as [_|d a l1 l2 _ Htim Hmin]; [done|].
    set (w1 := record _ _).
    destruct (fire_flag a w1) as [Hf He]. split; [by rewrite He|].
    rewrite Hf. cbn [w1 record app]. intros Hs.
    destruct (Hinv Hs) as (Hh & Hx & Htr).
    rewrite Htim in Hh. apply Forall_app in Hh as [Hh1 Hh2].
    apply Forall_cons in Hh2 as [Ha Hh2]. simpl in Ha. subst a.
    cbn. repeat split; [|done|].
    + rewrite !Forall_app. by repeat constructor.
    + rewrite !Forall_app. by repeat constructor.
  - unfold Loop.deliver. set (w1 := record _ _).
    destruct (handle_flag e w1) as [He Hmono]. split; [by rewrite He|].
    intros Hs'.
    destruct (isShuttingDown (server (app w1))) eqn:Hs1.
    { rewrite Hmono in Hs' by done. done. }
    destruct (Hinv Hs1) as (Hh & Hx & Htr).
    destruct (handle_keeps_serving e w1 Hs1 Hs') as (-> & -> & Hk).
    repeat split; try done. apply Hk. cbn.
    rewrite Forall_app. by repeat constructor.
Qed.

Lemma exec_serving_inv cfg clustered ins (w : W) :
  exec ins (start cfg clustered) = Some w -> serving_inv cfg w.
Proof.
  apply (exec_invariant fire handle (serving_inv cfg)).
  - intros i w1 w2. apply step_serving_inv.
  - apply start_serving_inv.
Qed.

(** *** During the shutdown *)


Lemma drainAt_lt cfg T : T < drainAt cfg T < forceAt cfg T.
Proof.
  unfold forceAt, drainAt.
  pose proof (timerDelay_pos (envInt (DRAIN_DELAY_MS cfg) 5000)).
  pose proof (timerDelay_pos (envInt (SHUTDOWN_TIMEOUT_MS cfg) 30000)). lia.
Qed.











(** *** Exit codes of the worker *)

(** Exit code 0 is only given with no connection left; every other exit is
    with code 1. *)
Definition exit_codes (w : W) : Prop :=
  forall c, exited w = Some c ->
    (c = 0 /\ connections (server (app w)) = []) \/ c = 1.

Lemma step_exit_codes i (w w' : W) : step i w = Some w' -> exit_codes w'.
Proof.
  intros H.
  apply step_cases in H as [Hex [(-> & _ & ->)|(t & e & -> & _ & _ & ->)]].
  - pose proof (tick_ticked fire w) as Ht.
    remember (Loop.tick fire w) as w2 eqn:E. clear E.
    destruct Ht as [_|d a l1 l2 _ _ _]; [intros c Hc; congruence|].
    destruct a as [| |c| |]; cbn [fire]; intros c' Hc'.
    + rewrite afterDrain_eq in Hc'. cbn [record app] in Hc'.
      destruct (exitWhenResolved (app w)); cbn in Hc'; [|done].
      injection Hc' as <-. by right.
    + cbn in Hc'. injection Hc' as <-. by right.
    + cbn [record app] in Hc'. by destruct (hasConnection c (server (app w))).
    + cbn [record app] in Hc' |- *.
      destruct (connections (server (app w))) eqn:Hcs; cbn in Hc' |- *; [|done].
      injection Hc' as <-. left. by rewrite Hcs.
    + done.
  - unfold Loop.deliver. set (w1 := record _ _).
    assert (Hex1 : exited w1 = None) by done. clearbody w1.
    intros c' Hc'.
    destruct (isShuttingDown (server (app w1))) eqn:Hs;
      destruct e as [s| | |c|c| |[|]]; cbn [handle] in Hc'; by_mode;
      rewrite ?uncaughtException_again in Hc' by done;
      rewrite ?uncaughtException_first in Hc' by done;
      rewrite ?worker_shutdown_again in Hc' by done;
      rewrite ?worker_shutdown_first in Hc' by done;
      cbn in Hc'; try congruence;
      try (injection Hc' as <-; by right);
      destruct (accepting (app w1)); cbn in Hc'; congruence.
Qed.

Lemma exec_exit_codes cfg clustered ins (w : W) :
  exec ins (start cfg clustered) = Some w -> exit_codes w.
Proof.
  apply (exec_invariant fire handle exit_codes).
  - intros i w1 w2 _. apply step_exit_codes.
  - intros c Hc. by destruct clustered.
Qed.

End WorkerFacts.

(** ** Shutdown and restart triggers, across the two processes *)

(** C3, as claimed, fails for the rolling restart: in a two-worker cluster a
    first SIGUSR2 forks worker 3 and waits for it to listen; a second SIGUSR2
    then starts a second sequence (it forks worker 4 and registers a second
    listener), and no warning is logged. *)
Lemma C3_duplicate_rolling_restart_counterexample :
  exists w1 w2,
    Primary.exec [Ext 10 (Primary.Sig Primary.SIGUSR2)] (Primary.start 2 None) = Some w1 /\
    Primary.onListening (app w1)
    = [(3%nat, {| Primary.oldWorker := 1; Primary.index := 0;
                  Primary.workerIds := [1; 2]%nat |})] /\
    Primary.step (Ext 20 (Primary.Sig Primary.SIGUSR2)) w1 = Some w2 /\
    Primary.forks (trace w2) = Primary.forks (trace w1) ++ [4%nat] /\
    length (Primary.onListening (app w2)) = 2%nat /\
    List.filter (fun x => Primary.isWarn x.2) (trace w2) = [].
Proof.
  eexists. eexists. split; [vm_compute; reflexivity|].
  split; [vm_compute; reflexivity|]. split; [vm_compute; reflexivity|].
  repeat split; vm_compute; reflexivity.
Qed.

(** C3, amended.  Duplicate shutdown triggers are no-ops that raise no error:
    a worker that is shutting down answers a signal with one warning in the
    log and nothing else, so two signals in succession start one shutdown
    sequence (one drain timer); a primary that is shutting down ignores a
    termination signal silently, so two in succession are as one.  The
    rolling restart has no such guard: every SIGUSR2 received while a worker
    is alive starts a sequence of its own (a fork and a listener), logged at
    info level. *)
Theorem C3_duplicate_triggers :
  (forall (w : Worker.W) s,
     Worker.isShuttingDown (Worker.server (app w)) = true ->
     Worker.handle (Worker.Sig s) w
     = emit (Worker.Log Warn "Shutdown already in progress, ignoring signal") w) /\
  (forall (w : Worker.W) s1 s2,
     Worker.isShuttingDown (Worker.server (app w)) = false ->
     let w1 := Worker.handle (Worker.Sig s1) w in
     Worker.handle (Worker.Sig s2) w1
     = emit (Worker.Log Warn "Shutdown already in progress, ignoring signal") w1 /\
     timers (Worker.handle (Worker.Sig s2) w1)
     = timers w ++ [(now w + timerDelay (Worker.drainDelay (app w)), Worker.DrainElapsed)]) /\
  (forall (w : Primary.W) sig,
     Primary.isShuttingDown (Primary.cstate (app w)) = true ->
     Primary.gracefulShutdown sig w = w) /\
  (forall (w : Primary.W) sig1 sig2,
     Primary.gracefulShutdown sig2 (Primary.gracefulShutdown sig1 w)
     = Primary.gracefulShutdown sig1 w) /\
  (forall (w : Primary.W) old rest,
     Primary.workers (app w) = old :: rest ->
     let w' := Primary.handle (Primary.Sig Primary.SIGUSR2) w in
     trace w' = trace w ++
       [(now w, Out (Primary.Log Info "Received SIGUSR2, performing rolling restart"));
        (now w, Out (Primary.Log Info "Restarting worker ${worker.id}"));
        (now w, Out (Primary.Fork (S (Primary.ids (app w)))))] /\
     Primary.onListening (app w') = Primary.onListening (app w) ++
       [(S (Primary.ids (app w)),
         {| Primary.oldWorker := old; Primary.index := 0;
            Primary.workerIds := Primary.workers (app w) |})]).
Proof.
  split; [intros w s Hs; by apply WorkerFacts.worker_shutdown_again|].
  split.
  { intros w s1 s2 Hs w1. subst w1. cbn [Worker.handle].
    rewrite (WorkerFacts.worker_shutdown_first _ w Hs).
    rewrite WorkerFacts.worker_shutdown_again by done. done. }
  split; [intros w sig Hs; by apply PrimaryFacts.primary_shutdown_again|].
  split.
  { intros w sig1 sig2. apply PrimaryFacts.primary_shutdown_again.
    apply PrimaryFacts.gracefulShutdown_sets. }
  intros w old rest Hw w'.
  destruct (PrimaryFacts.rollingRestart_first w old rest Hw) as (H1 & H2 & _).
  done.
Qed.

(** ** The worker's life cycle, further *)

Section ExecOn.
Context {St Act Ev Eff : Type}.
Variable fire : Act -> World St Act Ev Eff -> World St Act Ev Eff.
Variable handle : Ev -> World St Act Ev Eff -> World St Act Ev Eff.

(** An invariant of the steps taken on the inputs in [p]. *)
Lemma exec_invariant_on (p : Input Ev -> bool) (I : World St Act Ev Eff -> Prop) :
  (forall i w w', p i = true -> I w -> step fire handle i w = Some w' -> I w') ->
  forall ins w w', forallb p ins = true -> I w -> exec fire handle ins w = Some w' -> I w'.
Proof.
  intros Hstep. induction ins as [|i ins IH]; intros w w' Hp Hw H; simpl in H.
  - by injection H as <-.
  - simpl in Hp. apply andb_true_iff in Hp as [Hi Hp].
    destruct (step fire handle i w) as [w1|] eqn:E; [|done]. eauto.
Qed.

Lemma run_invariant (I : World St Act Ev Eff -> Prop) :
  (forall w, I w -> I (tick fire w)) -> forall n w, I w -> I (run fire n w).
Proof.
  intros Htick. induction n as [|n IH]; intros w Hw; simpl; auto.
Qed.
End ExecOn.

Module WorkerLife.
Import Worker WorkerFacts.

(** The inputs of an undisturbed shutdown: timers firing, signals and
    shutdown messages, connections opening and closing. *)
Definition isTraffic (i : Input Event) : bool :=
  match i with
  | Tick => true
  | Ext _ (Sig _) | Ext _ ShutdownMessage
  | Ext _ (Connection _) | Ext _ (ConnectionClosed _) => true
  | Ext _ _ => false
  end.

(** The events that throw out of a listener: an uncaught exception, or a
    server error other than [EADDRINUSE], which the listener throws again. *)
Definition isThrow (e : Event) : bool :=
  match e with
  | UncaughtException | ServerError false => true
  | _ => false
  end.

Definition isListening (i : Input Event) : bool :=
  match i with Ext _ Listening => true | _ => false end.

(** Between the trigger and the end of the drain delay: the [await] is the
    only timer besides the heartbeat. *)
Definition draining_inv (cfg : Config) (T : Z) (x : bool) (w : W) : Prop :=
  env (app w) = cfg /\
  isShuttingDown (server (app w)) = true /\
  exitWhenResolved (app w) = x /\
  exited w = None /\
  now w <= drainAt cfg T /\
  Forall (fun y => y.2 = Heartbeat \/ y = (drainAt cfg T, DrainElapsed)) (timers w) /\
  length (List.filter (fun y => isDrain y.2) (timers w)) = 1%nat.

(** After the drain delay, when the force timer is due more than 5100 ms
    later: every connection still tracked has its destroy timer pending, and
    a poll is pending while the process lives. *)
Definition closing_inv (cfg : Config) (T : Z) (w : W) : Prop :=
  isShuttingDown (server (app w)) = true /\
  accepting (app w) = false /\
  Forall (fun y => isDrain y.2 = false) (timers w) /\
  Forall (fun y => y.2 = ForceShutdown -> drainAt cfg T + 5100 < y.1) (timers w) /\
  (forall c, c ∈ connections (server (app w)) ->
     (drainAt cfg T + 5000, DestroyConnection c) ∈ timers w) /\
  now w <= drainAt cfg T + 5100 /\
  match exited w with
  | None => exists dc, dc <= drainAt cfg T + 5100 /\ (dc, CheckConnections) ∈ timers w
  | Some c => c = 0 /\ connections (server (app w)) = []
  end.

Definition clean_inv (cfg : Config) (T : Z) (w : W) : Prop :=
  draining_inv cfg T false w \/ closing_inv cfg T w.

Definition doomed_inv (cfg : Config) (T : Z) (w : W) : Prop :=
  draining_inv cfg T true w \/ (exited w = Some 1 /\ now w <= drainAt cfg T).

Lemma filter_count_middle {A} (f : A -> bool) l1 x l2 :
  length (List.filter f (l1 ++ x :: l2))
  = (length (List.filter f (l1 ++ l2)) + (if f x then 1 else 0))%nat.
Proof.
  rewrite !List.filter_app, !length_app. simpl. destruct (f x); simpl; lia.
Qed.

Lemma filter_count_zero {A} (f : A -> bool) l :
  length (List.filter f l) = 0%nat -> Forall (fun y => f y = false) l.
Proof.
  induction l as [|y l IH]; simpl; [constructor|].
  destruct (f y) eqn:E; simpl; [lia|]. intros H. constructor; auto.
Qed.

Lemma filter_count_none {A} (f : A -> bool) l :
  Forall (fun y => f y = false) l -> length (List.filter f l) = 0%nat.
Proof.
  induction 1 as [|y l Hy _ IH]; simpl; [done|]. by rewrite Hy.
Qed.

Lemma filter_count_some {A} (f : A -> bool) l :
  (0 < length (List.filter f l))%nat -> exists y, y ∈ l /\ f y = true.
Proof.
  induction l as [|y l IH]; simpl; [lia|].
  destruct (f y) eqn:E.
  - intros _. exists y. split; [left|done].
  - intros H. destruct (IH H) as (z & Hz & Hf). exists z. split; [by right|done].
Qed.

Lemma drain_pending cfg T x (w : W) :
  draining_inv cfg T x w -> (drainAt cfg T, DrainElapsed) ∈ timers w.
Proof.
  intros (_ & _ & _ & _ & _ & Hall & Hcount).
  destruct (filter_count_some (fun y => isDrain y.2) (timers w)) as (y & Hy & Hd); [lia|].
  rewrite Forall_forall in Hall. destruct (Hall y Hy) as [Hh| ->]; [|done].
  rewrite Hh in Hd. done.
Qed.

Lemma hasConnection_elem c s : hasConnection c s = true <-> c ∈ connections s.
Proof.
  unfold hasConnection. rewrite existsb_exists. split.
  - intros (x & Hx & E). apply Nat.eqb_eq in E as ->. by apply list_elem_of_In.
  - intros H. exists c. split; [by apply list_elem_of_In|apply Nat.eqb_refl].
Qed.

Lemma deleteConnection_elem c c' s :
  c' ∈ connections (deleteConnection c s) <-> c' ∈ connections s /\ c' <> c.
Proof.
  unfold deleteConnection. cbn [connections].
  rewrite !list_elem_of_In, List.filter_In, negb_true_iff, Nat.eqb_neq.
  intuition congruence.
Qed.

(** The trigger starts the drain delay. *)
Lemma trigger_draining cfg T e (w : W) :
  serving_inv cfg w -> isShuttingDown (server (app w)) = false ->
  exited w = None -> Forall (fun y => T <= y.1) (timers w) ->
  isTrigger (clustered (app w)) e = true ->
  draining_inv cfg T false (deliver T e w).
Proof.
  intros [Henv Hinv] Hs Hex Hq He. destruct (Hinv Hs) as (Hh & Hx & _).
  pose proof (drainAt_lt cfg T) as HDF.
  assert (Hc : length (List.filter (fun y : Z * Action => isDrain y.2) (timers w)) = 0%nat).
  { apply filter_count_none. eapply Forall_impl; [exact Hh|]. by intros y ->. }
  assert (Hall : Forall (fun y : Z * Action =>
                   y.2 = Heartbeat \/ y = (drainAt cfg T, DrainElapsed)) (timers w)).
  { eapply Forall_impl; [exact Hh|]. intros y ->. by left. }
  unfold deliver, Loop.deliver.
  destruct e as [s| | |c|c| |[|]]; try discriminate He; cbn [handle]; by_mode;
    try (cbn in He; congruence);
    rewrite worker_shutdown_first by done;
    unfold draining_inv; cbn; unfold drainDelay; rewrite Henv;
    fold (drainAt cfg T);
    repeat (split; [done|]); (split; [lia|]);
    (split; [apply Forall_app_2; [done|by repeat constructor]|]);
    rewrite List.filter_app, length_app, Hc; reflexivity.
Qed.

(** An exception thrown in a worker that is not shutting down starts the
    drain delay as well, with the exit pending on the promise. *)
Lemma throw_draining cfg T e (w : W) :
  serving_inv cfg w -> isShuttingDown (server (app w)) = false ->
  exited w = None -> Forall (fun y => T <= y.1) (timers w) ->
  isThrow e = true ->
  draining_inv cfg T true (deliver T e w).
Proof.
  intros [Henv Hinv] Hs Hex Hq He. destruct (Hinv Hs) as (Hh & Hx & _).
  pose proof (drainAt_lt cfg T) as HDF.
  assert (Hc : length (List.filter (fun y : Z * Action => isDrain y.2) (timers w)) = 0%nat).
  { apply filter_count_none. eapply Forall_impl; [exact Hh|]. by intros y ->. }
  assert (Hall : Forall (fun y : Z * Action =>
                   y.2 = Heartbeat \/ y = (drainAt cfg T, DrainElapsed)) (timers w)).
  { eapply Forall_impl; [exact Hh|]. intros y ->. by left. }
  unfold deliver, Loop.deliver.
  destruct e as [s| | |c|c| |[|]]; try discriminate He; cbn [handle]; by_mode;
    rewrite uncaughtException_first by done;
    rewrite worker_shutdown_first by done;
    unfold draining_inv; cbn; unfold drainDelay; rewrite Henv;
    fold (drainAt cfg T);
    repeat (split; [done|]); (split; [lia|]);
    (split; [apply Forall_app_2; [done|by repeat constructor]|]);
    rewrite List.filter_app, length_app, Hc; reflexivity.
Qed.

Lemma fire_now a (w : W) : now (fire a w) = now w.
Proof.
  destruct a as [| |c| |]; cbn [fire].
  - rewrite afterDrain_eq. by destruct (exitWhenResolved (app w)).
  - done.
  - by destruct (hasConnection c (server (app w))).
  - by destruct (connections (server (app w))).
  - done.
Qed.

(** A step of the timer phase during the drain delay: a heartbeat, or the
    end of the delay. *)
Lemma tick_draining cfg T x (w : W) :
  (x = false -> 5100 < timerDelay (envInt (SHUTDOWN_TIMEOUT_MS cfg) 30000)) ->
  draining_inv cfg T x w ->
  draining_inv cfg T x (tick w) \/
  (x = false /\ closing_inv cfg T (tick w)) \/
  (x = true /\ exited (tick w) = Some 1 /\ now (tick w) = drainAt cfg T).
Proof.
  intros Hlong Hinv.
  pose proof (drain_pending _ _ _ _ Hinv) as Hpend.
  destruct Hinv as (Henv & Hs & Hx & Hex & Hnow & Hall & Hcount).
  pose proof (tick_ticked fire w) as Ht. unfold tick.
  remember (Loop.tick fire w) as w2 eqn:E. clear E.
  destruct Ht as [[?|Hnil]|d a l1 l2 _ Htim Hmin].
  { done. }
  { rewrite Hnil in Hpend. by apply elem_of_nil in Hpend. }
  assert (Hd : d <= drainAt cfg T).
  { rewrite Forall_forall in Hmin. apply Hmin in Hpend. done. }
  rewrite Htim in Hall, Hcount.
  apply Forall_middle in Hall as [Ha Hall]. rewrite filter_count_middle in Hcount.
  cbn [fst snd] in Ha, Hcount.
  destruct Ha as [->|[= -> ->]].
  - (* a heartbeat *)
    left. cbn [isDrain] in Hcount. unfold draining_inv. cbn.
    repeat (split; [done|]).
    split; [apply Forall_app_2; [done|constructor; [by left|constructor]]|].
    rewrite List.filter_app, length_app. simpl. lia.
  - (* the drain delay has elapsed *)
    cbn [isDrain] in Hcount.
    assert (Hnone : Forall (fun y : Z * Action => isDrain y.2 = false) (l1 ++ l2)).
    { apply filter_count_zero. lia. }
    assert (Hhb : Forall (fun y : Z * Action => y.2 = Heartbeat) (l1 ++ l2)).
    { rewrite Forall_forall in Hall, Hnone |- *. intros y Hy.
      destruct (Hall y Hy) as [?| ->]; [done|]. specialize (Hnone _ Hy). done. }
    cbn [fire]. rewrite afterDrain_eq. cbn [record app]. rewrite Hx.
    destruct x.
    + right. right. repeat split.
    + right. left. split; [done|]. specialize (Hlong eq_refl).
      unfold closing_inv, drained.
      cbn [now timers exited trace app record setAccepting env server accepting
           isShuttingDown connections].
      change (shutdownTimeout (setAccepting false (app w))) with (shutdownTimeout (app w)).
      unfold shutdownTimeout. rewrite Henv.
      split; [done|]. split; [done|].
      split.
      { apply Forall_app_2; [done|]. constructor; [done|].
        apply Forall_app_2; [|by repeat constructor].
        apply Forall_fmap, Forall_forall. by intros. }
      split.
      { apply Forall_app_2.
        - eapply Forall_impl; [exact Hhb|]. by intros y ->.
        - constructor; [simpl; intros _; lia|].
          apply Forall_app_2; [|by repeat constructor].
          apply Forall_fmap, Forall_forall. by intros. }
      split.
      { intros c Hc. rewrite elem_of_app. right. right.
        rewrite elem_of_app. left. apply list_elem_of_fmap. by exists c. }
      split; [lia|].
      exists (drainAt cfg T + 100). split; [lia|].
      rewrite elem_of_app. right. right. rewrite elem_of_app. right. left.
Qed.

(** A step of the timer phase once the server is closed. *)
Lemma tick_closing cfg T (w : W) :
  closing_inv cfg T w -> closing_inv cfg T (tick w).
Proof.
  intros (Hs & Hacc & Hnodrain & Hforce & Hdestroy & Hnow & Hlive).
  pose proof (tick_ticked fire w) as Ht. unfold tick.
  remember (Loop.tick fire w) as w2 eqn:E. clear E.
  destruct Ht as [_|d a l1 l2 Hex Htim Hmin].
  { by repeat split. }
  rewrite Hex in Hlive. destruct Hlive as (dc & Hdc & Hcheck).
  assert (Hd : d <= drainAt cfg T + 5100).
  { rewrite Forall_forall in Hmin. apply Hmin in Hcheck. simpl in Hcheck. lia. }
  assert (Hdconn : forall c, c ∈ connections (server (app w)) -> d <= drainAt cfg T + 5000).
  { intros c Hc. apply Hdestroy in Hc. rewrite Forall_forall in Hmin.
    apply Hmin in Hc. done. }
  rewrite Htim in Hnodrain, Hforce, Hcheck.
  apply Forall_middle in Hnodrain as [Ha1 Hnodrain].
  apply Forall_middle in Hforce as [Ha2 Hforce].
  cbn [fst snd] in Ha1, Ha2.
  assert (Hdestroy' : forall c, c ∈ connections (server (app w)) ->
            a <> DestroyConnection c ->
            (drainAt cfg T + 5000, DestroyConnection c) ∈ l1 ++ l2).
  { intros c Hc Hne. eapply elem_of_middle_ne; [rewrite <- Htim; by apply Hdestroy|].
    congruence. }
  assert (Hcheck' : a <> CheckConnections -> (dc, CheckConnections) ∈ l1 ++ l2).
  { intros Hne. eapply elem_of_middle_ne; [exact Hcheck|congruence]. }
  destruct a as [| |c| |]; cbn [fire].
  - done.
  - specialize (Ha2 eq_refl). lia.
  - (* a connection is destroyed *)
    specialize (Hcheck' ltac:(done)).
    destruct (hasConnection c (server (app w))) eqn:Hc; unfold closing_inv;
      cbn [record app]; rewrite Hc; cbn.
    + repeat (split; [done|]).
      split.
      { intros c' Hc'. apply deleteConnection_elem in Hc' as [Hc' Hne].
        apply Hdestroy'; [done|congruence]. }
      split; [done|]. by exists dc.
    + repeat (split; [done|]).
      split.
      { intros c' Hc'. apply Hdestroy'; [done|]. intros [= ->].
        apply hasConnection_elem in Hc'. congruence. }
      split; [done|]. by exists dc.
  - (* the poll *)
    destruct (connections (server (app w))) as [|c cs] eqn:Hc;
      unfold closing_inv; cbn [record app]; rewrite Hc; cbn; rewrite ?Hc.
    + repeat (split; [done|]).
      split; [by do 2 apply Forall_List_filter|].
      split; [by do 2 apply Forall_List_filter|].
      split; [intros c Hin; by apply elem_of_nil in Hin|].
      done.
    + assert (Hd5 : d <= drainAt cfg T + 5000).
      { apply (Hdconn c). rewrite ?Hc. left. }
      repeat (split; [done|]).
      split; [apply Forall_app_2; [done|by repeat constructor]|].
      split; [apply Forall_app_2; [done|by repeat constructor]|].
      split.
      { intros c' Hc'. rewrite elem_of_app. left.
        apply Hdestroy'; [by rewrite ?Hc|done]. }
      split; [done|].
      exists (d + 100). split; [lia|]. rewrite elem_of_app. right. left.
  - (* a heartbeat *)
    specialize (Hcheck' ltac:(done)).
    unfold closing_inv; cbn. repeat (split; [done|]).
    split; [apply Forall_app_2; [done|by repeat constructor]|].
    split; [apply Forall_app_2; [done|by repeat constructor]|].
    split.
    { intros c' Hc'. rewrite elem_of_app. left. by apply Hdestroy'. }
    split; [done|].
    exists dc. split; [done|]. rewrite elem_of_app. by left.
Qed.

Lemma deliver_draining cfg T t e (w : W) :
  draining_inv cfg T false w ->
  Forall (fun y => t <= y.1) (timers w) ->
  isTraffic (Ext t e) = true ->
  draining_inv cfg T false (deliver t e w).
Proof.
  intros Hinv Hq He.
  pose proof (drain_pending _ _ _ _ Hinv) as Hpend.
  destruct Hinv as (Henv & Hs & Hx & Hex & Hnow & Hall & Hcount).
  assert (Ht : t <= drainAt cfg T).
  { rewrite Forall_forall in Hq. by apply Hq in Hpend. }
  unfold deliver, Loop.deliver.
  destruct e as [s| | |c|c| |[|]]; try discriminate He; cbn [handle]; by_mode;
    rewrite ?worker_shutdown_again by done;
    try destruct (accepting (app (record (Recv (Connection c)) (setNow t w))));
    unfold draining_inv; cbn; by repeat (split; [done|]).
Qed.

Lemma deliver_doomed cfg T t e (w : W) :
  draining_inv cfg T true w ->
  Forall (fun y => t <= y.1) (timers w) ->
  doomed_inv cfg T (deliver t e w).
Proof.
  intros Hinv Hq.
  pose proof (drain_pending _ _ _ _ Hinv) as Hpend.
  destruct Hinv as (Henv & Hs & Hx & Hex & Hnow & Hall & Hcount).
  assert (Ht : t <= drainAt cfg T).
  { rewrite Forall_forall in Hq. by apply Hq in Hpend. }
  unfold deliver, Loop.deliver.
  destruct e as [s| | |c|c| |[|]]; cbn [handle]; by_mode;
    rewrite ?uncaughtException_again by done;
    rewrite ?worker_shutdown_again by done;
    try destruct (accepting (app (record (Recv (Connection c)) (setNow t w))));
    first [ by right
          | left; unfold draining_inv; cbn; by repeat (split; [done|]) ].
Qed.

Lemma deliver_closing cfg T t e (w : W) :
  closing_inv cfg T w -> exited w = None ->
  Forall (fun y => t <= y.1) (timers w) ->
  isTraffic (Ext t e) = true ->
  closing_inv cfg T (deliver t e w).
Proof.
  intros (Hs & Hacc & Hnodrain & Hforce & Hdestroy & Hnow & Hlive) Hex Hq He.
  rewrite Hex in Hlive. destruct Hlive as (dc & Hdc & Hcheck).
  assert (Ht : t <= drainAt cfg T + 5100).
  { rewrite Forall_forall in Hq. apply Hq in Hcheck. simpl in Hcheck. lia. }
  unfold deliver, Loop.deliver.
  destruct e as [s| | |c|c| |[|]]; try discriminate He; cbn [handle]; by_mode;
    rewrite ?worker_shutdown_again by done;
    unfold closing_inv; cbn; rewrite ?Hacc, ?Hex; cbn; rewrite ?Hex;
    repeat (split; [done|]).
  - by exists dc.
  - by exists dc.
  - by exists dc.
  - by exists dc.
  - split.
    { intros c' Hc'.
      apply (deleteConnection_elem c c' (server (app w))) in Hc' as [Hc' _].
      by apply Hdestroy. }
    split; [done|]. by exists dc.
Qed.

Lemma tick_clean cfg T (w : W) :
  5100 < timerDelay (envInt (SHUTDOWN_TIMEOUT_MS cfg) 30000) ->
  clean_inv cfg T w -> clean_inv cfg T (tick w).
Proof.
  intros Hlong [H|H].
  - destruct (tick_draining cfg T false w) as [?|[[_ ?]|[? _]]]; try done;
      [by left|by right].
  - right. by apply tick_closing.
Qed.

Lemma step_clean cfg T i (w w' : W) :
  5100 < timerDelay (envInt (SHUTDOWN_TIMEOUT_MS cfg) 30000) ->
  isTraffic i = true ->
  clean_inv cfg T w -> step i w = Some w' -> clean_inv cfg T w'.
Proof.
  intros Hlong Hi Hinv H.
  apply step_cases in H as [Hex [(-> & _ & ->)|(t & e & -> & _ & Hq & ->)]].
  - by apply tick_clean.
  - destruct Hinv as [Hinv|Hinv]; [left|right].
    + by apply deliver_draining.
    + by apply deliver_closing.
Qed.

Lemma clean_exits cfg T (w : W) :
  5100 < timerDelay (envInt (SHUTDOWN_TIMEOUT_MS cfg) 30000) ->
  clean_inv cfg T w ->
  exists n, exited (run n w) = Some 0 /\
            connections (server (app (run n w))) = [] /\
            now (run n w) <= drainAt cfg T + 5100.
Proof.
  intros Hlong Hinv.
  destruct (run_exits fire worker_fire_timers (clean_inv cfg T) (drainAt cfg T + 5100))
    with (w := w) as [n Hn].
  - intros w1. by apply tick_clean.
  - intros w1 [H|H] Hex.
    + exists (drainAt cfg T, DrainElapsed). split; [by eapply drain_pending|simpl; lia].
    + destruct H as (_ & _ & _ & _ & _ & _ & Hlive). rewrite Hex in Hlive.
      destruct Hlive as (dc & Hdc & Hcheck). by exists (dc, CheckConnections).
  - done.
  - exists n.
    pose proof (run_invariant fire (clean_inv cfg T) (fun w1 => tick_clean cfg T w1 Hlong)
                  n w Hinv) as [H|H].
    + destruct H as (_ & _ & _ & Hex & _). done.
    + destruct H as (_ & _ & _ & _ & _ & Hnow & Hlive).
      fold (run n w) in *.
      destruct (exited (run n w)) as [c|]; [|done].
      destruct Hlive as [-> Hc]. done.
Qed.

(** With a shutdown timeout longer than 5100 ms (it is 30000 ms by default)
    a process that starts a graceful shutdown (on a termination signal, or,
    in a worker of the cluster, on the shutdown message of the primary), and
    that no exception disturbs, always exits with code 0: the connections left when the server is closed
    are destroyed 5000 ms later, and the next poll finds none.  The exit
    comes at the latest 5100 ms after the end of the drain delay, whatever the
    peers do. *)
Theorem graceful_shutdown_ends_clean (cfg : Config) (clustered : bool)
    (ins0 : list (Input Event)) (w0 w1 : W) (T : Z) (e : Event)
    (ins : list (Input Event)) (w' : W) :
  exec ins0 (start cfg clustered) = Some w0 ->
  isShuttingDown (server (app w0)) = false ->
  isTrigger clustered e = true ->
  step (Ext T e) w0 = Some w1 ->
  5100 < timerDelay (envInt (SHUTDOWN_TIMEOUT_MS cfg) 30000) ->
  forallb isTraffic ins = true ->
  exec ins w1 = Some w' ->
  now w' <= drainAt cfg T + 5100 /\
  (forall c, exited w' = Some c -> c = 0 /\ connections (server (app w')) = []) /\
  exists n, exited (run n w') = Some 0 /\
            connections (server (app (run n w'))) = [] /\
            now (run n w') <= drainAt cfg T + 5100.
Proof.
  intros H0 Hs He H1 Hlong Hins Hexec.
  pose proof (exec_serving_inv cfg clustered ins0 w0 H0) as Hserv.
  rewrite <- (exec_clustered cfg clustered ins0 w0 H0) in He.
  apply step_cases in H1 as [Hex [(? & _)|(t & e' & [= <- <-] & _ & Hq & ->)]]; [done|].
  pose proof (trigger_draining cfg T e w0 Hserv Hs Hex Hq He) as Hinv.
  fold (deliver T e w0) in *.
  assert (Hclean : clean_inv cfg T w').
  { eapply (exec_invariant_on fire handle isTraffic (clean_inv cfg T)).
    - intros i wa wb Hi Ha Hstep. by eapply step_clean.
    - exact Hins.
    - left. exact Hinv.
    - exact Hexec. }
  split; [|split].
  - destruct Hclean as [H|H].
    + destruct H as (_ & _ & _ & _ & Hnow & _). lia.
    + by destruct H as (_ & _ & _ & _ & _ & Hnow & _).
  - intros c Hc. destruct Hclean as [H|H].
    + destruct H as (_ & _ & _ & Hex' & _). congruence.
    + destruct H as (_ & _ & _ & _ & _ & _ & Hlive). rewrite Hc in Hlive. done.
  - by apply clean_exits.
Qed.

(** The default configuration: a worker with one open connection receives
    SIGTERM at time 0; the drain delay ends at 5000 ms. *)
Lemma graceful_shutdown_ends_clean_witness :
  let cfg := {| DRAIN_DELAY_MS := None; SHUTDOWN_TIMEOUT_MS := None |} in
  exists n, exited (run n (deliver 0 (Sig SIGTERM) (serving cfg false))) = Some 0 /\
            connections (server (app (run n (deliver 0 (Sig SIGTERM) (serving cfg false))))) = [] /\
            now (run n (deliver 0 (Sig SIGTERM) (serving cfg false))) <= drainAt cfg 0 + 5100.
Proof.
  intros cfg.
  assert (H0 : exec [Ext 0 Listening; Ext 0 (Connection 1)] (start cfg false)
               = Some (serving cfg false)) by (vm_compute; reflexivity).
  assert (H1 : step (Ext 0 (Sig SIGTERM)) (serving cfg false)
               = Some (deliver 0 (Sig SIGTERM) (serving cfg false)))
    by (vm_compute; reflexivity).
  assert (Hlong : 5100 < timerDelay (envInt (SHUTDOWN_TIMEOUT_MS cfg) 30000))
    by (vm_compute; reflexivity).
  exact (proj2 (proj2 (graceful_shutdown_ends_clean cfg false _ _ _ 0 (Sig SIGTERM) [] _
                         H0 eq_refl eq_refl H1 Hlong eq_refl eq_refl))).
Defined.

(** *** Exceptions *)

Lemma tick_doomed cfg T (w : W) : doomed_inv cfg T w -> doomed_inv cfg T (tick w).
Proof.
  intros [H|[Hex Hnow]].
  - destruct (tick_draining cfg T true w) as [?|[[? _]|(_ & ? & ?)]]; try done;
      [by left|right; split; [done|lia]].
  - right. unfold tick. rewrite tick_exited by congruence. done.
Qed.

Lemma step_doomed cfg T i (w w' : W) :
  doomed_inv cfg T w -> step i w = Some w' -> doomed_inv cfg T w'.
Proof.
  intros Hinv H.
  apply step_cases in H as [Hex [(-> & _ & ->)|(t & e & -> & _ & Hq & ->)]].
  - by apply tick_doomed.
  - destruct Hinv as [Hinv|[Hinv _]]; [|congruence]. by apply deliver_doomed.
Qed.

(** An exception that reaches [process.on('uncaughtException')] ends the
    worker with exit code 1.  When a shutdown is in progress the exit is
    immediate.  Otherwise the handler starts the graceful shutdown and exits
    when its promise resolves, which is when the drain delay has elapsed: the
    process never runs a poll, and exits then whether or not connections are
    open.  A server error other than [EADDRINUSE] is thrown by its listener
    and takes the same path. *)
Theorem exception_exits_with_1 (cfg : Config) (clustered : bool)
    (ins0 : list (Input Event)) (w0 w1 : W) (T : Z) (e : Event) :
  exec ins0 (start cfg clustered) = Some w0 ->
  isThrow e = true ->
  step (Ext T e) w0 = Some w1 ->
  (isShuttingDown (server (app w0)) = true ->
     exited w1 = Some 1 /\ now w1 = T /\ timers w1 = timers w0) /\
  (isShuttingDown (server (app w0)) = false ->
     exited w1 = None /\
     connections (server (app w1)) = connections (server (app w0)) /\
     forall ins w', exec ins w1 = Some w' ->
       now w' <= drainAt cfg T /\
       (forall c, exited w' = Some c -> c = 1) /\
       exists n, exited (run n w') = Some 1 /\ now (run n w') <= drainAt cfg T).
Proof.
  intros H0 He H1.
  pose proof (exec_serving_inv cfg clustered ins0 w0 H0) as Hserv.
  apply step_cases in H1 as [Hex [(? & _)|(t & e' & [= <- <-] & _ & Hq & ->)]]; [done|].
  fold (deliver T e w0) in *.
  split.
  - intros Hs. unfold deliver, Loop.deliver.
    destruct e as [s| | |c|c| |[|]]; try discriminate He; cbn [handle]; by_mode;
      rewrite uncaughtException_again by done; done.
  - intros Hs.
    pose proof (throw_draining cfg T e w0 Hserv Hs Hex Hq He) as Hinv.
    split; [by destruct Hinv as (_ & _ & _ & ? & _)|].
    split.
    { unfold deliver, Loop.deliver.
      destruct e as [s| | |c|c| |[|]]; try discriminate He; cbn [handle]; by_mode;
        rewrite uncaughtException_first by done;
        by rewrite worker_shutdown_first by done. }
    intros ins w' Hexec.
    assert (Hd : doomed_inv cfg T w').
    { eapply (exec_invariant fire handle (doomed_inv cfg T)).
      - intros i wa wb. apply step_doomed.
      - left. exact Hinv.
      - exact Hexec. }
    split; [|split].
    + destruct Hd as [H|[_ H]]; [|done]. by destruct H as (_ & _ & _ & _ & ? & _).
    + intros c Hc. destruct Hd as [H|[H _]]; [|congruence].
      destruct H as (_ & _ & _ & ? & _). congruence.
    + destruct (run_exits fire worker_fire_timers (doomed_inv cfg T) (drainAt cfg T))
        with (w := w') as [n Hn].
      * intros wa. apply tick_doomed.
      * intros wa [H|[H _]] Hexa; [|congruence].
        exists (drainAt cfg T, DrainElapsed). split; [by eapply drain_pending|done].
      * done.
      * exists n.
        pose proof (run_invariant fire (doomed_inv cfg T) (tick_doomed cfg T) n w' Hd)
          as [H|[H ?]].
        -- destruct H as (_ & _ & _ & ? & _). done.
        -- done.
Qed.

Lemma exception_exits_with_1_witness :
  let cfg := {| DRAIN_DELAY_MS := None; SHUTDOWN_TIMEOUT_MS := None |} in
  exists n, exited (run n (deliver 0 UncaughtException (serving cfg false))) = Some 1 /\
            now (run n (deliver 0 UncaughtException (serving cfg false))) <= drainAt cfg 0.
Proof.
  intros cfg.
  assert (H0 : exec [Ext 0 Listening; Ext 0 (Connection 1)] (start cfg false)
               = Some (serving cfg false)) by (vm_compute; reflexivity).
  assert (H1 : step (Ext 0 UncaughtException) (serving cfg false)
               = Some (deliver 0 UncaughtException (serving cfg false)))
    by (vm_compute; reflexivity).
  exact (proj2 (proj2 (proj2 (proj2 (proj2
           (exception_exits_with_1 cfg false _ _ _ 0 UncaughtException H0 eq_refl H1)
           eq_refl)) [] _ eq_refl))).
Defined.

(** *** Readiness during the shutdown *)

Lemma fire_health a (w : W) : health (app (fire a w)) = health (app w).
Proof.
  destruct a as [| |c| |]; cbn [fire].
  - rewrite afterDrain_eq. by destruct (exitWhenResolved (app w)).
  - done.
  - by destruct (hasConnection c (server (app w))).
  - by destruct (connections (server (app w))).
  - done.
Qed.

Lemma step_not_ready i (w w' : W) :
  isListening i = false ->
  isShuttingDown (server (app w)) = true /\ Health.isReady (health (app w)) = false ->
  step i w = Some w' ->
  isShuttingDown (server (app w')) = true /\ Health.isReady (health (app w')) = false.
Proof.
  intros Hi [Hs Hr] H.
  apply step_cases in H as [Hex [(-> & _ & ->)|(t & e & -> & _ & _ & ->)]].
  - pose proof (tick_ticked fire w) as Ht.
    remember (Loop.tick fire w) as w2 eqn:E. clear E.
    destruct Ht as [_|d a l1 l2 _ _ _]; [done|].
    rewrite fire_health. by destruct (fire_flag a
      (record (Fired a) (mkWorld d (l1 ++ l2) None (trace w) (app w)))) as [-> _].
  - unfold Loop.deliver.
    destruct e as [s| | |c|c| |[|]]; try discriminate Hi; cbn [handle]; by_mode;
      rewrite ?uncaughtException_again by done;
      rewrite ?worker_shutdown_again by done;
      try destruct (accepting (app (record (Recv (Connection c)) (setNow t w))));
      done.
Qed.

Lemma getReady_ready r hs :
  Health.isReady hs = true ->
  Health.statusCode (Health.getReady r hs).1
  = if Health.allHealthy (Health.checksOf r) then 200 else 503.
Proof.
  intros H. unfold Health.getReady, Health.runHealthChecks. rewrite H. reflexivity.
Qed.

(** From the moment a shutdown starts (a signal, in a worker of the cluster
    the shutdown message of the primary, or an exception) the readiness probe
    answers 503, and goes on doing so for the rest of the process's life,
    with one exception: the callback of [server.listen] marks the application
    ready whenever it runs, so a process whose shutdown started before it was
    listening is reported ready again while it shuts down. *)
Theorem not_ready_while_shutting_down (w0 w1 : W) (T : Z) (e : Event)
    (ins : list (Input Event)) (w' : W) :
  isShuttingDown (server (app w0)) = false ->
  isTrigger (clustered (app w0)) e || isThrow e = true ->
  step (Ext T e) w0 = Some w1 ->
  exec ins w1 = Some w' ->
  (forallb (fun i => negb (isListening i)) ins = true ->
     forall r, Health.statusCode (Health.getReady r (health (app w'))).1 = 503) /\
  (forall t r, Health.allHealthy (Health.checksOf r) = true ->
     Health.statusCode
       (Health.getReady r (health (app (deliver t Listening w')))).1 = 200).
Proof.
  intros Hs He H1 Hexec.
  apply step_cases in H1 as [Hex [(? & _)|(t & e' & [= <- <-] & _ & Hq & ->)]]; [done|].
  fold (deliver T e w0) in *.
  split.
  - intros Hins r. rewrite getReady_not_ready; [done|].
    assert (Hinv : isShuttingDown (server (app (deliver T e w0))) = true /\
                   Health.isReady (health (app (deliver T e w0))) = false).
    { unfold deliver, Loop.deliver.
      destruct e as [s| | |c|c| |[|]]; try discriminate He; cbn [handle]; by_mode;
        try (cbn in He; rewrite Hmode in He; discriminate He);
        rewrite ?uncaughtException_first by done;
        by rewrite worker_shutdown_first by done. }
    eapply (exec_invariant_on fire handle (fun i => negb (isListening i))
              (fun w => isShuttingDown (server (app w)) = true /\
                        Health.isReady (health (app w)) = false)); eauto.
    intros i wa wb Hi. apply step_not_ready. by apply negb_true_iff.
  - intros t r Hr. rewrite getReady_ready; [by rewrite Hr|reflexivity].
Qed.

(** A worker that receives SIGTERM while it is listening, then a second
    signal: not ready. *)
Lemma not_ready_while_shutting_down_witness :
  let cfg := {| DRAIN_DELAY_MS := None; SHUTDOWN_TIMEOUT_MS := None |} in
  let r := {| Health.heapUsed := 1%float; Health.heapTotal := 2%float;
              Health.eventLoopStart := 0; Health.eventLoopEnd := 1 |} in
  Health.statusCode
    (Health.getReady r
       (health (app (deliver 10 (Sig SIGINT) (deliver 0 (Sig SIGTERM) (serving cfg false)))))).1
  = 503.
Proof.
  intros cfg r.
  assert (H1 : step (Ext 0 (Sig SIGTERM)) (serving cfg false)
               = Some (deliver 0 (Sig SIGTERM) (serving cfg false)))
    by (vm_compute; reflexivity).
  assert (H2 : exec [Ext 10 (Sig SIGINT)] (deliver 0 (Sig SIGTERM) (serving cfg false))
               = Some (deliver 10 (Sig SIGINT) (deliver 0 (Sig SIGTERM) (serving cfg false))))
    by (vm_compute; reflexivity).
  exact (proj1 (not_ready_while_shutting_down (serving cfg false) _ 0 (Sig SIGTERM) _ _
                  eq_refl eq_refl H1 H2) eq_refl r).
Defined.

(** *** Heartbeats of a clustered worker *)

(** The instants at which a heartbeat was sent to the primary. *)
Definition heartbeats (tr : list (Z * Obs Action Event Effect)) : list Z :=
  omap (fun x => match x.2 with
                 | Out (Send type) => if String.eqb type "heartbeat" then Some x.1 else None
                 | _ => None
                 end) tr.

Definition isHeartbeat (x : Z * Action) : bool :=
  match x.2 with Heartbeat => true | _ => false end.

(** A callback or a listener that sends no heartbeat and leaves the
    heartbeat timer alone. *)
Definition silent_step (w w' : W) : Prop :=
  now w' = now w /\
  (exists new, trace w' = trace w ++ new /\ heartbeats new = []) /\
  List.filter isHeartbeat (timers w') = List.filter isHeartbeat (timers w) /\
  (Forall (fun y => now w <= y.1) (timers w) -> Forall (fun y => now w <= y.1) (timers w')).

Lemma heartbeats_app tr1 tr2 : heartbeats (tr1 ++ tr2) = heartbeats tr1 ++ heartbeats tr2.
Proof. apply omap_app. Qed.

Lemma filter_idemp_hb (f : Z * Action -> bool) (l : list (Z * Action)) :
  (forall y, isHeartbeat y = true -> f y = true) ->
  List.filter isHeartbeat (List.filter f l) = List.filter isHeartbeat l.
Proof.
  intros Hf. induction l as [|y l IH]; simpl; [done|].
  destruct (f y) eqn:E; simpl.
  - destruct (isHeartbeat y); by rewrite IH.
  - destruct (isHeartbeat y) eqn:E2; [|done]. rewrite Hf in E by done. done.
Qed.

Lemma fire_silent a (w : W) : a <> Heartbeat -> silent_step w (fire a w).
Proof.
  intros Ha. split; [apply fire_now|].
  assert (Hov : Forall (fun y => now w <= y.1) (timers w) ->
                Forall (fun y => now w <= y.1) (timers (fire a w))).
  { intros H. destruct (worker_fire_timers a w) as (added & Hadd & Hsub).
    eapply Forall_sublist_of; [exact Hsub|].
    apply Forall_app_2; [done|]. eapply Forall_impl; [exact Hadd|]. simpl. intros; lia. }
  split; [|split; [|exact Hov]]; clear Hov.
  - destruct a as [| |c| |]; cbn [fire]; try done.
    + rewrite afterDrain_eq.
      exists ((now w, Out ServerClose)
                :: map (fun c => (now w, Out (End c))) (connections (server (app w)))
                ++ (if exitWhenResolved (app w) then [(now w, Out (Exit 1))] else [])).
      split.
      * destruct (exitWhenResolved (app w)); cbn; rewrite <- ?app_assoc; simpl;
          by rewrite ?app_nil_r.
      * cbn. rewrite heartbeats_app.
        replace (heartbeats (map _ _)) with (@nil Z).
        -- by destruct (exitWhenResolved (app w)).
        -- induction (connections (server (app w))); simpl; [done|]. done.
    + eexists. split; [cbn; rewrite <- app_assoc; reflexivity|done].
    + destruct (hasConnection c (server (app w))).
      * eexists. split; [cbn; reflexivity|done].
      * exists []. by rewrite app_nil_r.
    + destruct (connections (server (app w))).
      * eexists. split; [cbn; rewrite <- app_assoc; reflexivity|done].
      * exists []. by rewrite app_nil_r.
  - destruct a as [| |c| |]; cbn [fire]; try done.
    + rewrite afterDrain_eq.
      assert (List.filter isHeartbeat (timers (drained w)) = List.filter isHeartbeat (timers w)).
      { unfold drained. cbn [timers]. rewrite List.filter_app. simpl.
        rewrite List.filter_app. simpl.
        replace (List.filter isHeartbeat (map _ _)) with (@nil (Z * Action)).
        - by rewrite app_nil_r.
        - induction (connections (server (app w))); simpl; done. }
      by destruct (exitWhenResolved (app w)).
    + by destruct (hasConnection c (server (app w))).
    + destruct (connections (server (app w))); cbn.
      * rewrite !filter_idemp_hb; [done| |]; by intros [? []].
      * rewrite List.filter_app. simpl. by rewrite app_nil_r.
Qed.

Lemma handle_silent e (w : W) : silent_step w (handle e w).
Proof.
  assert (Hrefl : forall w0 : W, silent_step w0 w0).
  { intros w0. split; [done|]. split; [exists []; by rewrite app_nil_r|]. done. }
  assert (Hemit : forall (w0 : W) o, (forall s, o <> Send s) -> silent_step w0 (emit o w0)).
  { intros w0 o Ho. split; [done|]. split; [|done].
    eexists. split; [reflexivity|]. destruct o; try done. by destruct (Ho type). }
  assert (Hgs : forall sig (w0 : W), silent_step w0 (gracefulShutdown sig w0)).
  { intros sig w0. destruct (isShuttingDown (server (app w0))) eqn:Hs.
    - rewrite worker_shutdown_again by done. by apply Hemit.
    - rewrite worker_shutdown_first by done.
      split; [done|]. split; [eexists; split; [reflexivity|done]|].
      cbn. split.
      + rewrite List.filter_app. simpl. by rewrite app_nil_r.
      + intros H. apply Forall_app_2; [done|]. repeat constructor. simpl.
        pose proof (timerDelay_pos (drainDelay (app w0))). lia. }
  assert (Hue : forall w0 : W, silent_step w0 (uncaughtException w0)).
  { intros w0. destruct (isShuttingDown (server (app w0))) eqn:Hs.
    - rewrite uncaughtException_again by done.
      split; [done|]. split; [|done].
      eexists. split; [cbn; rewrite <- !app_assoc; reflexivity|done].
    - rewrite uncaughtException_first by done. rewrite worker_shutdown_first by done.
      split; [done|]. split; [eexists; split; [cbn; rewrite <- !app_assoc; reflexivity|done]|].
      cbn. split.
      + rewrite List.filter_app. simpl. by rewrite app_nil_r.
      + intros H. apply Forall_app_2; [done|]. repeat constructor. simpl.
        pose proof (timerDelay_pos (drainDelay (app w0))). lia. }
  destruct e as [s| | |c|c| |[|]]; cbn [handle]; by_mode; try done.
  - destruct (Hgs "SIGTERM"
       (emit (Log Info "Worker ${cluster.worker.id} received shutdown signal") w))
      as (H1 & (new & H2 & H3) & H4 & H5).
    split; [done|]. split; [|done].
    exists ((now w, Out (Log Info "Worker ${cluster.worker.id} received shutdown signal")) :: new).
    split; [rewrite H2; cbn; by rewrite <- app_assoc|done].
  - destruct (accepting (app w)); [|apply Hrefl].
    split; [done|]. split; [exists []; by rewrite app_nil_r|]. done.
  - split; [done|]. split; [exists []; by rewrite app_nil_r|]. done.
  - split; [done|]. split; [|done].
    eexists. split; [cbn; rewrite <- !app_assoc; reflexivity|done].
  - split; [done|]. split; [|done].
    eexists. split; [cbn; rewrite <- !app_assoc; reflexivity|done].
Qed.

(** What holds of a clustered worker after [k] heartbeats. *)
Definition heartbeat_inv (k : nat) (w : W) : Prop :=
  heartbeats (trace w) = map (fun i => 10000 * Z.of_nat i) (seq 1 k) /\
  10000 * Z.of_nat k <= now w /\
  Forall (fun y => now w <= y.1) (timers w) /\
  List.filter isHeartbeat (timers w) = [(10000 * (Z.of_nat k + 1), Heartbeat)].

Lemma silent_heartbeat_inv k (w w' : W) :
  heartbeat_inv k w -> silent_step w w' -> heartbeat_inv k w'.
Proof.
  intros (H1 & H2 & H3 & H4) (S1 & (new & S2 & S3) & S4 & S5).
  unfold heartbeat_inv. rewrite S1, S2, S4, heartbeats_app, S3, app_nil_r. auto.
Qed.

Lemma step_heartbeat_inv i (w w' : W) :
  (exists k, heartbeat_inv k w) -> step i w = Some w' -> exists k, heartbeat_inv k w'.
Proof.
  intros [k (H1 & H2 & H3 & H4)] H.
  apply step_cases in H as [Hex [(-> & _ & ->)|(t & e & -> & Hnow & Hq & ->)]].
  - pose proof (tick_ticked fire w) as Ht.
    remember (Loop.tick fire w) as w2 eqn:E. clear E.
    destruct Ht as [_|d a l1 l2 _ Htim Hmin]; [by exists k|].
    set (w1 := record (Fired a) (mkWorld d (l1 ++ l2) None (trace w) (app w))).
    assert (Hd : now w <= d).
    { rewrite Htim in H3. apply Forall_middle in H3 as [H3 _]. done. }
    assert (Hmin' : Forall (fun y : Z * Action => d <= y.1) (l1 ++ l2)).
    { rewrite Htim in Hmin. by apply Forall_middle in Hmin as [_ ?]. }
    rewrite Htim in H4. rewrite List.filter_app in H4. simpl in H4.
    destruct a as [| |c| |].
    5:{ (* the heartbeat *)
      change (isHeartbeat (d, Heartbeat)) with true in H4.
      assert (Hl : List.filter isHeartbeat l1 = [] /\ List.filter isHeartbeat l2 = [] /\
                   d = 10000 * (Z.of_nat k + 1)).
      { destruct (List.filter isHeartbeat l1) as [|? [|? ?]]; simpl in H4.
        - injection H4 as -> ->. done.
        - destruct (List.filter isHeartbeat l2); simplify_eq.
        - simplify_eq. }
      destruct Hl as (Hl1 & Hl2 & ->).
      exists (S k). unfold heartbeat_inv. rewrite seq_S, map_app. cbn.
      rewrite !heartbeats_app, H1. cbn.
      split; [rewrite app_nil_r; do 2 f_equal; lia|].
      split; [lia|].
      split; [apply Forall_app_2; [done|repeat constructor; simpl; lia]|].
      rewrite !List.filter_app, Hl1, Hl2. simpl. do 2 f_equal. lia. }
    all: exists k; apply (silent_heartbeat_inv k w1); [|by apply fire_silent];
      change (isHeartbeat (d, _)) with false in H4;
      unfold heartbeat_inv, w1; cbn; rewrite heartbeats_app, H1, app_nil_r;
      (split; [done|]); (split; [lia|]); (split; [done|]);
      by rewrite List.filter_app.
  - exists k. unfold Loop.deliver.
    apply (silent_heartbeat_inv k (record (Recv e) (setNow t w))); [|apply handle_silent].
    unfold heartbeat_inv. cbn. rewrite heartbeats_app, H1, app_nil_r.
    repeat split; try done. lia.
Qed.

(** A clustered worker sends its heartbeats exactly at 10 s, 20 s, ... of its
    life, as long as it lives, also during a shutdown; no instant is missed
    and none is added.  A worker that is started on its own sends none. *)
Theorem heartbeats_every_10_seconds (cfg : Config) (clustered : bool)
    (ins : list (Input Event)) (w : W) :
  exec ins (start cfg clustered) = Some w ->
  if clustered then
    exists k : nat,
      heartbeats (trace w) = map (fun i => 10000 * Z.of_nat i) (seq 1 k) /\
      10000 * Z.of_nat k <= now w <= 10000 * (Z.of_nat k + 1)
  else heartbeats (trace w) = [].
Proof.
  intros H. destruct clustered.
  - assert (Hinv : exists k, heartbeat_inv k w).
    { eapply (exec_invariant fire handle (fun w => exists k, heartbeat_inv k w));
        [apply step_heartbeat_inv| |exact H].
      exists 0%nat. repeat split; try done. cbn. repeat constructor. done. }
    destruct Hinv as (k & H1 & H2 & H3 & H4). exists k.
    split; [done|]. split; [done|].
    assert (Hin : (10000 * (Z.of_nat k + 1), Heartbeat) ∈ timers w).
    { apply list_elem_of_In. eapply (proj1 (List.filter_In isHeartbeat _ _)).
      rewrite H4. by left. }
    rewrite Forall_forall in H3. by apply H3 in Hin.
  - apply (proj1 (A := heartbeats (trace w) = [])
                   (B := List.filter isHeartbeat (timers w) = [])).
    apply (exec_invariant fire handle
             (fun w => heartbeats (trace w) = [] /\ List.filter isHeartbeat (timers w) = []))
      with (ins := ins) (w := start cfg false); [|split; reflexivity|exact H].
    intros i wa wb [I1 I2] Hstep.
    apply step_cases in Hstep as [Hex [(-> & _ & ->)|(t & e & -> & Hnow & Hq & ->)]].
    + pose proof (tick_ticked fire wa) as Ht.
      remember (Loop.tick fire wa) as w2 eqn:E. clear E.
      destruct Ht as [_|d a l1 l2 _ Htim Hmin]; [done|].
      rewrite Htim, List.filter_app in I2. simpl in I2.
      assert (Ha : a <> Heartbeat).
      { intros ->. change (isHeartbeat (d, Heartbeat)) with true in I2.
        by destruct (List.filter isHeartbeat l1). }
      destruct (fire_silent a (record (Fired a) (mkWorld d (l1 ++ l2) None (trace wa) (app wa))) Ha)
        as (_ & (new & -> & S3) & -> & _).
      cbn. rewrite !heartbeats_app, I1, S3. split; [done|].
      rewrite List.filter_app.
      destruct a; try done; change (isHeartbeat (d, _)) with false in I2; done.
    + unfold Loop.deliver.
      destruct (handle_silent e (record (Recv e) (setNow t wa)))
        as (_ & (new & -> & S3) & -> & _).
      cbn. by rewrite !heartbeats_app, I1, S3.
Qed.

(** A clustered worker, 25 s old: the heartbeats of 10 s and 20 s. *)
Lemma heartbeats_every_10_seconds_witness :
  let cfg := {| DRAIN_DELAY_MS := None; SHUTDOWN_TIMEOUT_MS := None |} in
  exists k : nat,
    heartbeats (trace (deliver 25000 (Connection 1) (run 2 (start cfg true))))
    = map (fun i => 10000 * Z.of_nat i) (seq 1 k) /\
    10000 * Z.of_nat k <= 25000 <= 10000 * (Z.of_nat k + 1).
Proof.
  intros cfg.
  assert (H : exec [Tick; Tick; Ext 25000 (Connection 1)] (start cfg true)
              = Some (deliver 25000 (Connection 1) (run 2 (start cfg true))))
    by (vm_compute; reflexivity).
  exact (heartbeats_every_10_seconds cfg true _ _ H).
Defined.

End WorkerLife.

(** ** The primary process, further *)

Module PrimaryLife.
Import Primary PrimaryFacts.


(** The heartbeats and the forks that the watchdog of worker [id] counts
    from. *)
Definition isBeatOf (id : nat) (o : Obs Action Event Effect) : bool :=
  match o with
  | Out (Fork i) => Nat.eqb i id
  | Recv (WorkerMessage i type) => Nat.eqb i id && String.eqb type "heartbeat"
  | _ => false
  end.

Definition isKillOf (id : nat) (o : Obs Action Event Effect) : bool :=
  match o with Out (Kill i) => Nat.eqb i id | _ => false end.

Lemma forkWorkers_spec n : forall w : W,
  let w' := forkWorkers n w in
  workers (app w') = workers (app w) ++ seq (S (ids (app w))) n /\
  ids (app w') = (ids (app w) + n)%nat /\
  forks (trace w') = forks (trace w) ++ seq (S (ids (app w))) n /\
  timers w' = timers w ++ map (fun id => (now w + 30000, HeartbeatCheck id))
                              (seq (S (ids (app w))) n) /\
  now w' = now w /\ exited w' = exited w /\
  (forall id, lastHeartbeat (app w') !! id
              = if decide (ids (app w) < id <= ids (app w) + n)%nat then Some (now w)
                else lastHeartbeat (app w) !! id).
Proof.
  induction n as [|n IH]; intros w; simpl.
  { rewrite !app_nil_r, Nat.add_0_r. repeat split; try done.
    intros id. destruct (decide _); [lia|done]. }
  destruct (IH (forkWorker w)) as (H1 & H2 & H3 & H4 & H5 & H6 & H7).
  cbv zeta in *. rewrite H1, H2, H3, H4, H5, H6. cbn.
  rewrite forks_app. cbn. rewrite <- !app_assoc. simpl.
  repeat split; try done; try lia.
  intros id. rewrite H7. cbn.
  repeat case_decide; try done; try lia.
  - replace id with (S (ids (app w))) by lia. by rewrite lookup_insert_eq.
  - rewrite lookup_insert_ne; [done|lia].
Qed.

(** At start-up the primary forks [numWorkers] workers, with the ids 1, 2,
    ... in order, each with its watchdog, first due at 30000 ms.
    [CLUSTER_WORKERS] counts when it parses to a number other than 0: unset,
    not a number or 0, the number of CPUs is taken; a negative value starts no
    worker at all. *)
Theorem primary_starts_numWorkers (cw : option Z) (cpus : nat) (timeoutEnv : option Z) :
  let n := Z.to_nat (numWorkers cw cpus) in
  let w := startPrimary cw cpus timeoutEnv in
  workers (app w) = seq 1 n /\
  forks (trace w) = seq 1 n /\
  timers w = map (fun id => (30000, HeartbeatCheck id)) (seq 1 n) /\
  (forall id, (1 <= id <= n)%nat -> lastHeartbeat (app w) !! id = Some 0) /\
  exited w = None /\
  (cw = None \/ cw = Some 0 -> n = cpus) /\
  (forall z, cw = Some z -> z <> 0 -> n = Z.to_nat z) /\
  (forall z, cw = Some z -> z < 0 -> workers (app w) = []).
Proof.
  intros n w. subst w. unfold startPrimary, start. fold n.
  destruct (forkWorkers_spec n (boot timeoutEnv)) as (H1 & H2 & H3 & H4 & H5 & H6 & H7).
  cbv zeta in *. rewrite H1, H3, H4, H6.
  split; [done|]. split; [done|]. split; [done|].
  split. { intros id Hid. rewrite H7. cbn. destruct (decide _); [done|lia]. }
  split; [done|].
  split. { intros [->| ->]; unfold n, numWorkers; simpl; lia. }
  split.
  { intros z -> Hz. unfold n, numWorkers, envInt.
    destruct (Z.eqb_spec z 0); [done|lia]. }
  intros z -> Hz. unfold n, numWorkers, envInt.
  destruct (Z.eqb_spec z 0); [lia|]. by replace (Z.to_nat z) with 0%nat by lia.
Qed.

(** *** Worker ids, listeners and watchdog timers *)

(** Ids come from the counter of the cluster; every worker that has a
    watchdog has the listener that clears it; a watchdog timer is pending only
    for a watched worker that is alive; only watched workers are killed. *)
Definition pool_inv (w : W) : Prop :=
  Forall (fun id => (id <= ids (app w))%nat) (workers (app w)) /\
  NoDup (workers (app w)) /\
  Forall (fun l => (l.1 <= ids (app w))%nat) (onListening (app w)) /\
  (forall id, is_Some (lastHeartbeat (app w) !! id) ->
     (id <= ids (app w))%nat /\ (id, ClearHeartbeat) ∈ onExit (app w)) /\
  Forall (fun y => forall id, y.2 = HeartbeatCheck id ->
            is_Some (lastHeartbeat (app w) !! id) /\ id ∈ workers (app w)) (timers w) /\
  Forall (fun x => forall id, x.2 = Out (Kill id) ->
            is_Some (lastHeartbeat (app w) !! id)) (trace w) /\
  Forall (fun id => (id <= ids (app w))%nat) (forks (trace w)).

(** Entries of the trace that are neither a fork nor a kill. *)
Definition isQuiet (o : Obs Action Event Effect) : bool :=
  match o with Out (Fork _) | Out (Kill _) => false | _ => true end.

Lemma forks_quiet new :
  Forall (fun x : Z * Obs Action Event Effect => isQuiet x.2 = true) new -> forks new = [].
Proof.
  induction 1 as [|[t o] new Ho _ IH]; [done|].
  unfold forks in *. cbn. rewrite IH. by destruct o as [| |[]].
Qed.

(** A step that forks and kills nobody, and adds no watchdog. *)
Lemma pool_mono (w w' : W) new :
  ids (app w') = ids (app w) ->
  workers (app w') = workers (app w) ->
  (exists more, onListening (app w') = onListening (app w) ++ more /\
                Forall (fun l => (l.1 <= ids (app w))%nat) more) ->
  (forall id, is_Some (lastHeartbeat (app w') !! id) <->
              is_Some (lastHeartbeat (app w) !! id)) ->
  (forall x, x ∈ onExit (app w) -> x ∈ onExit (app w')) ->
  Forall (fun y => y ∈ timers w \/ forall id, y.2 <> HeartbeatCheck id) (timers w') ->
  trace w' = trace w ++ new ->
  Forall (fun x => isQuiet x.2 = true) new ->
  pool_inv w -> pool_inv w'.
Proof.
  intros Hids Hw (more & Hl & Hmore) Hh Hx Ht Htr Hnew (I1 & I2 & I3 & I4 & I5 & I6 & I7).
  unfold pool_inv. rewrite Hids, Hw, Hl, Htr.
  split; [done|]. split; [done|]. split; [by apply Forall_app_2|].
  split. { intros id Hid. apply Hh in Hid. destruct (I4 id Hid). auto. }
  split.
  { rewrite Forall_forall in Ht, I5 |- *. intros y Hy id Ey.
    destruct (Ht y Hy) as [Hin|Hne]; [|by destruct (Hne id)].
    destruct (I5 y Hin id Ey). split; [by apply Hh|done]. }
  split.
  { apply Forall_app_2.
    - eapply Forall_impl; [exact I6|]. intros x H id Ex. apply Hh. eauto.
    - eapply Forall_impl; [exact Hnew|]. intros x H id Ex. simpl in H. rewrite Ex in H. done. }
  rewrite forks_app, (forks_quiet new Hnew), app_nil_r. done.
Qed.

(** [cluster.fork()] *)
Lemma pool_fork (w : W) :
  pool_inv w -> pool_inv (emit (Fork (S (ids (app w)))) (setApp addWorker w)).
Proof.
  intros (I1 & I2 & I3 & I4 & I5 & I6 & I7). unfold pool_inv. cbn.
  split.
  { apply Forall_app_2; [|by repeat constructor].
    eapply Forall_impl; [exact I1|]. simpl. intros; lia. }
  split.
  { apply NoDup_app. split; [done|]. split; [|apply NoDup_singleton].
    intros x Hx Hx'. apply list_elem_of_singleton in Hx' as ->.
    rewrite Forall_forall in I1. apply I1 in Hx. lia. }
  split. { eapply Forall_impl; [exact I3|]. simpl. intros; lia. }
  split. { intros id Hid. destruct (I4 id Hid). split; [lia|done]. }
  split.
  { eapply Forall_impl; [exact I5|]. intros y H id Ey. destruct (H id Ey).
    split; [done|]. apply elem_of_app. by left. }
  split. { apply Forall_app_2; [done|]. by repeat constructor. }
  rewrite forks_app. apply Forall_app_2; [|by repeat constructor].
  eapply Forall_impl; [exact I7|]. simpl. intros; lia.
Qed.

Lemma pool_forkWorker (w : W) : pool_inv w -> pool_inv (forkWorker w).
Proof.
  intros Hinv. pose proof (pool_fork w Hinv) as (I1 & I2 & I3 & I4 & I5 & I6 & I7).
  cbn in I1, I2, I3, I4, I5, I6, I7.
  unfold pool_inv, forkWorker. cbn.
  split; [done|]. split; [done|]. split; [done|].
  split.
  { intros id Hid. destruct (decide (id = S (ids (app w)))) as [->|Hne].
    - split; [done|]. apply elem_of_app. right. left.
    - rewrite lookup_insert_ne in Hid by done. destruct (I4 id Hid).
      split; [done|]. apply elem_of_app. by left. }
  split.
  { apply Forall_app_2.
    - eapply Forall_impl; [exact I5|]. intros y H id Ey. destruct (H id Ey).
      split; [|done].
      destruct (decide (id = S (ids (app w)))) as [->|Hne];
        [by rewrite lookup_insert_eq|by rewrite lookup_insert_ne].
    - repeat constructor; simplify_eq/=; [by rewrite lookup_insert_eq|].
      apply elem_of_app. right. left. }
  split; [|done].
  eapply Forall_impl; [exact I6|]. intros x H id Ex.
  destruct (decide (id = S (ids (app w)))) as [->|Hne];
    [by rewrite lookup_insert_eq|rewrite lookup_insert_ne by done; eauto].
Qed.

Lemma Forall_self {A} (l : list A) (Q : A -> Prop) : Forall (fun y => y ∈ l \/ Q y) l.
Proof. apply Forall_forall. intros y Hy. by left. Qed.

Ltac pool_frame :=
  first [ reflexivity
        | done
        | exists []; split; [by rewrite app_nil_r|by constructor]
        | apply Forall_self
        | by repeat constructor
        | simpl; by rewrite app_nil_r ].

Lemma pool_emit o (w : W) : isQuiet (Out o) = true -> pool_inv w -> pool_inv (emit o w).
Proof.
  intros Ho. apply (pool_mono w (emit o w) [(now w, Out o)]); pool_frame.
Qed.

Lemma pool_record o (w : W) : isQuiet o = true -> pool_inv w -> pool_inv (record o w).
Proof.
  intros Ho. apply (pool_mono w (record o w) [(now w, o)]); pool_frame.
Qed.

Lemma pool_world t tm ex (w : W) :
  Forall (fun y => y ∈ timers w \/ forall id, y.2 <> HeartbeatCheck id) tm ->
  pool_inv w -> pool_inv (mkWorld t tm ex (trace w) (app w)).
Proof.
  intros Htm. apply (pool_mono w _ []); pool_frame.
Qed.

Lemma pool_setTimeout ms a (w : W) :
  (forall id, a <> HeartbeatCheck id) -> pool_inv w -> pool_inv (setTimeout ms a w).
Proof.
  intros Ha. apply pool_world. apply Forall_app_2; [apply Forall_self|].
  apply Forall_cons_2; [right; exact Ha|constructor].
Qed.

Lemma pool_clearTimers p (w : W) : pool_inv w -> pool_inv (clearTimers p w).
Proof.
  apply pool_world. apply Forall_forall. intros y Hy. left.
  apply list_elem_of_In in Hy. apply List.filter_In in Hy as [Hy _].
  by apply list_elem_of_In.
Qed.

Lemma pool_processExit c (w : W) : pool_inv w -> pool_inv (processExit c w).
Proof.
  intros H. apply (pool_world (now w) _ (Some c) (emit (Exit c) w)); [apply Forall_self|].
  by apply pool_emit.
Qed.

Lemma pool_setApp f (w : W) :
  ids (f (app w)) = ids (app w) ->
  workers (f (app w)) = workers (app w) ->
  (exists more, onListening (f (app w)) = onListening (app w) ++ more /\
                Forall (fun l => (l.1 <= ids (app w))%nat) more) ->
  (forall id, is_Some (lastHeartbeat (f (app w)) !! id) <->
              is_Some (lastHeartbeat (app w) !! id)) ->
  (forall x, x ∈ onExit (app w) -> x ∈ onExit (f (app w))) ->
  pool_inv w -> pool_inv (setApp f w).
Proof.
  intros. apply (pool_mono w _ []); pool_frame.
Qed.

Lemma pool_restartFrom rest : forall i wids (w : W),
  pool_inv w -> pool_inv (restartFrom i rest wids w).
Proof.
  induction rest as [|old rest IH]; intros i wids w Hinv; simpl.
  { by apply pool_emit. }
  destruct (isLive old (app w)); [|by apply IH].
  cbn [clusterFork].
  set (w0 := emit (Log Info "Restarting worker ${worker.id}") w).
  assert (H0 : pool_inv w0) by (by apply pool_emit).
  change (ids (app w)) with (ids (app w0)).
  apply pool_fork in H0. revert H0. apply pool_setApp; try pool_frame.
  eexists. split; [reflexivity|]. by repeat constructor.
Qed.

Lemma exit_listeners_cleared id ls : forall w : W,
  (id, ClearHeartbeat) ∈ ls \/ Forall (fun y => isHeartbeatOf id y.2 = false) (timers w) ->
  Forall (fun y => isHeartbeatOf id y.2 = false)
         (timers (fold_left (runExitListener id) ls w)).
Proof.
  induction ls as [|l ls IH]; intros w H; simpl.
  { destruct H as [H|H]; [by apply elem_of_nil in H|done]. }
  apply IH. destruct H as [H|H].
  - apply elem_of_cons in H as [<-|H]; [|by left].
    right. unfold runExitListener. simpl. rewrite Nat.eqb_refl. simpl.
    apply Forall_forall. intros y Hy.
    apply list_elem_of_In, List.filter_In in Hy as [_ Hy].
    by apply negb_true_iff in Hy.
  - right. unfold runExitListener. destruct (Nat.eqb l.1 id); [|done].
    destruct (l.2); simpl.
    + by apply Forall_List_filter.
    + apply Forall_app_2; [done|]. by repeat constructor.
Qed.

(** A worker leaves the pool and its own ['exit'] listeners run. *)
Lemma pool_exit id (w : W) :
  pool_inv w ->
  pool_inv (fold_left (runExitListener id) (onExit (app w)) (setApp (removeWorker id) w)).
Proof.
  intros (I1 & I2 & I3 & I4 & I5 & I6 & I7).
  destruct (exit_listeners_frame id (onExit (app w)) (setApp (removeWorker id) w))
    as (Ha & Ht & _ & _). cbv zeta in Ha, Ht.
  assert (Hclr : Forall (fun y => isHeartbeatOf id y.2 = false)
            (timers (fold_left (runExitListener id) (onExit (app w))
                       (setApp (removeWorker id) w)))).
  { apply exit_listeners_cleared.
    destruct (lastHeartbeat (app w) !! id) as [t0|] eqn:E.
    - left. by apply (I4 id).
    - right. cbn. eapply Forall_impl; [exact I5|]. intros [d a] H. simpl.
      destruct a as [| | |j]; try done. simpl.
      destruct (Nat.eqb_spec j id) as [->|]; [|done].
      destruct (H id eq_refl) as [[? Hs] _]. simpl in Hs. congruence. }
  assert (Hold : Forall (fun y => forall id', y.2 = HeartbeatCheck id' ->
                   is_Some (lastHeartbeat (app w) !! id') /\ id' ∈ workers (app w))
            (timers (fold_left (runExitListener id) (onExit (app w))
                       (setApp (removeWorker id) w)))).
  { apply exit_listeners_Forall; [done|exact I5]. }
  set (w2 := fold_left _ _ _) in *. clearbody w2.
  unfold pool_inv. rewrite Ha, Ht. cbn.
  split.
  { apply Forall_forall. intros x Hx.
    apply list_elem_of_In, List.filter_In in Hx as [Hx _].
    rewrite Forall_forall in I1. by apply I1, list_elem_of_In. }
  split; [by apply NoDup_ListNoDup, List.NoDup_filter, NoDup_ListNoDup|].
  split; [done|]. split; [done|].
  split; [|done].
  rewrite Forall_forall in Hclr, Hold |- *. intros y Hy id' Ey.
  destruct (Hold y Hy id' Ey) as [H1 H2]. split; [done|].
  apply list_elem_of_In, List.filter_In. split; [by apply list_elem_of_In|].
  specialize (Hclr y Hy). rewrite Ey in Hclr. simpl in Hclr.
  apply negb_true_iff, Nat.eqb_neq. apply Nat.eqb_neq in Hclr. congruence.
Qed.

Lemma pool_clusterOnExit id (w : W) : pool_inv w -> pool_inv (clusterOnExit id w).
Proof.
  intros Hinv. unfold clusterOnExit. cbv zeta.
  set (w0 := emit (Log Warn "Worker died") w).
  assert (H0 : pool_inv w0) by (by apply pool_emit).
  destruct (isShuttingDown (cstate (app w0))); [done|].
  destruct (_ <=? _)%nat; [by apply pool_emit|].
  apply pool_forkWorker, pool_emit; [done|].
  revert H0. apply pool_setApp; try pool_frame.
Qed.

Lemma pool_workerExit id (w : W) : pool_inv w -> pool_inv (workerExit id w).
Proof.
  intros Hinv. unfold workerExit. cbv zeta.
  apply pool_clusterOnExit.
  change (onExit (app (setApp (removeWorker id) w))) with (onExit (app w)).
  by apply pool_exit.
Qed.

Lemma pool_listening id ls : forall w : W,
  pool_inv w -> pool_inv (fold_left (runListeningListener id) ls w).
Proof.
  induction ls as [|l ls IH]; intros w Hinv; simpl; [done|].
  apply IH. unfold runListeningListener. destruct (Nat.eqb l.1 id); [|done].
  cbv zeta. apply pool_setApp; try pool_frame.
  - intros x Hx. cbn. apply elem_of_app. by left.
  - by apply pool_emit.
Qed.

Lemma pool_gracefulShutdown sig (w : W) : pool_inv w -> pool_inv (gracefulShutdown sig w).
Proof.
  intros Hinv. unfold gracefulShutdown.
  destruct (isShuttingDown (cstate (app w))); [done|]. cbv zeta.
  apply pool_setTimeout; [done|]. apply pool_setTimeout; [done|].
  set (w0 := emit _ _).
  assert (H0 : pool_inv w0).
  { apply pool_emit; [done|]. revert Hinv. apply pool_setApp; pool_frame. }
  clearbody w0. change (workers (app (setApp (setCstate setShuttingDown) w)))
    with (workers (app w)).
  generalize (workers (app w0)). intros l. revert w0 H0.
  induction l as [|x l IH]; intros w0 H0; simpl; [done|].
  apply IH. by apply pool_emit.
Qed.

Lemma pool_workerMessage id type (w : W) : pool_inv w -> pool_inv (workerMessage id type w).
Proof.
  intros Hinv. unfold workerMessage.
  set (w0 := if String.eqb type "heartbeat" then _ else _).
  assert (H0 : pool_inv w0).
  { unfold w0. destruct (String.eqb type "heartbeat"); [|done].
    destruct (lastHeartbeat (app w) !! id) as [t0|] eqn:E; [|done].
    revert Hinv. apply pool_setApp; try pool_frame.
    intros id'. cbn. destruct (decide (id' = id)) as [->|Hne].
    - rewrite lookup_insert_eq, E. split; by eexists.
    - by rewrite lookup_insert_ne. }
  destruct (String.eqb type "log"); [by apply pool_emit|done].
Qed.

Lemma pool_heartbeatCheck id (w : W) :
  is_Some (lastHeartbeat (app w) !! id) -> id ∈ workers (app w) ->
  pool_inv w -> pool_inv (heartbeatCheck id w).
Proof.
  intros Hs Hl Hinv. unfold heartbeatCheck.
  set (w0 := match lastHeartbeat (app w) !! id with Some _ => _ | None => _ end).
  assert (H0 : pool_inv w0 /\ app w0 = app w).
  { unfold w0. destruct (lastHeartbeat (app w) !! id) as [t0|] eqn:E; [|done].
    destruct (60000 <? now w - t0); [|done]. split; [|done].
    pose proof (pool_emit (Log Error "Worker ${worker.id} heartbeat timeout, killing") w
                  eq_refl Hinv) as (I1 & I2 & I3 & I4 & I5 & I6 & I7).
    unfold pool_inv. cbn [emit record trace timers app now] in *.
    repeat (split; [done|]).
    split.
    - apply Forall_app_2; [done|]. repeat constructor. intros id' [= <-]. by rewrite E.
    - rewrite forks_app. cbn. by rewrite app_nil_r. }
  destruct H0 as [(I1 & I2 & I3 & I4 & I5 & I6 & I7) Happ]. clearbody w0.
  unfold pool_inv. cbn [setTimeout trace timers app now]. rewrite Happ in *.
  repeat (split; [done|]). split; [|done].
  apply Forall_app_2; [done|]. apply Forall_cons_2; [|constructor].
  simpl. by intros id' [= <-].
Qed.

Lemma pool_restartNext i wids (w : W) : pool_inv w -> pool_inv (restartNext i wids w).
Proof. apply pool_restartFrom. Qed.

Lemma tick_pool_inv (w : W) : pool_inv w -> pool_inv (tick w).
Proof.
  intros Hinv.
  pose proof (tick_ticked fire w) as Ht. unfold tick.
  remember (Loop.tick fire w) as w2 eqn:E. clear E.
  destruct Ht as [_|d a l1 l2 Hex Htim Hmin]; [done|].
  assert (Ha : forall id, a = HeartbeatCheck id ->
            is_Some (lastHeartbeat (app w) !! id) /\ id ∈ workers (app w)).
  { destruct Hinv as (_ & _ & _ & _ & I5 & _). rewrite Htim in I5.
    apply Forall_middle in I5 as [I5 _]. exact I5. }
  set (w1 := record (Fired a) (mkWorld d (l1 ++ l2) None (trace w) (app w))).
  assert (H1 : pool_inv w1).
  { apply pool_record; [done|]. apply pool_world; [|done].
    apply Forall_forall. intros y Hy. left. rewrite Htim.
    rewrite !elem_of_app, elem_of_cons in *. tauto. }
  destruct a as [| |i wids|id]; cbn [fire].
  - destruct (workers (app w1)).
    + by apply pool_processExit, pool_emit, pool_clearTimers.
    + by apply pool_setTimeout.
  - by apply pool_processExit, pool_emit.
  - by apply pool_restartNext.
  - destruct (Ha id eq_refl). by apply pool_heartbeatCheck.
Qed.

Lemma deliver_pool_inv t e (w : W) : pool_inv w -> pool_inv (deliver t e w).
Proof.
  intros Hinv. unfold deliver, Loop.deliver.
  set (w1 := record (Recv e) (setNow t w)).
  assert (H1 : pool_inv w1).
  { apply pool_record; [done|]. apply (pool_world t (timers w) (exited w) w); [|done].
    apply Forall_self. }
  clearbody w1.
  destruct e as [[| |]|id|id|id|id|id type]; cbn [handle].
  - by apply pool_gracefulShutdown.
  - by apply pool_gracefulShutdown.
  - unfold rollingRestart. cbv zeta. by apply pool_restartNext, pool_emit.
  - by apply pool_workerExit.
  - unfold workerListening. cbv zeta. by apply pool_emit, pool_listening.
  - by apply pool_emit.
  - by apply pool_emit.
  - by apply pool_workerMessage.
Qed.

Lemma step_pool_inv i (w w' : W) : pool_inv w -> step i w = Some w' -> pool_inv w'.
Proof.
  intros Hinv H.
  apply step_cases in H as [Hex [(-> & _ & ->)|(t & e & -> & _ & _ & ->)]].
  - by apply tick_pool_inv.
  - by apply deliver_pool_inv.
Qed.

Lemma forkWorkers_pool_inv n : forall w : W, pool_inv w -> pool_inv (forkWorkers n w).
Proof.
  induction n as [|n IH]; intros w H; simpl; [done|]. by apply IH, pool_forkWorker.
Qed.

Lemma exec_pool_inv n timeoutEnv ins (w : W) :
  exec ins (start n timeoutEnv) = Some w -> pool_inv w.
Proof.
  apply (exec_invariant fire handle pool_inv).
  - intros i w1 w2. apply step_pool_inv.
  - apply forkWorkers_pool_inv. unfold pool_inv, boot. cbn.
    split; [constructor|]. split; [constructor|]. split; [constructor|].
    split; [intros id [? E]; by rewrite lookup_empty in E|].
    split; [constructor|]. split; [by repeat constructor|constructor].
Qed.

(** *** One step of the rolling restart *)

Lemma isLive_elem id (s : State) : isLive id s = true <-> id ∈ workers s.
Proof.
  unfold isLive. rewrite existsb_exists. split.
  - intros (x & Hx & E). apply Nat.eqb_eq in E as ->. by apply list_elem_of_In.
  - intros H. exists id. split; [by apply list_elem_of_In|apply Nat.eqb_refl].
Qed.

Lemma filter_out_length (x : nat) l :
  NoDup l -> x ∈ l ->
  S (length (List.filter (fun y => negb (Nat.eqb x y)) l)) = length l.
Proof.
  induction 1 as [|y l Hy Hnd IH]; intros Hx; [by apply elem_of_nil in Hx|].
  simpl. destruct (Nat.eqb_spec x y) as [->|Hne]; simpl.
  - f_equal. clear IH Hnd Hx. induction l as [|z l IH]; [done|]. simpl.
    destruct (Nat.eqb_spec y z) as [->|]; simpl.
    + destruct Hy. left.
    + f_equal. apply IH. intros H. apply Hy. by right.
  - f_equal. apply IH. apply elem_of_cons in Hx as [?|?]; [done|done].
Qed.

Lemma replacementsOf_fresh n ls :
  Forall (fun l : nat * Replacement => (l.1 < n)%nat) ls -> replacementsOf n ls = [].
Proof.
  unfold replacementsOf. induction 1 as [|[m r] ls Hm _ IH]; [done|]. simpl in *.
  destruct (Nat.eqb_spec m n); [lia|done].
Qed.

(** Replacing one worker in a rolling restart leaves the pool one worker
    larger.  The rolling restart forks the replacement and, once it listens,
    disconnects the old worker; when the old worker exits, the exit handler
    of the cluster, which does not know the cause, forks another worker, and
    the rolling restart arms its timer for the next id. *)
Theorem rolling_restart_adds_a_worker (n : nat) (timeoutEnv : option Z)
    (ins0 : list (Input Event)) (w : W) (i : nat) (wids : list nat) (old : nat)
    (t1 t2 : Z) :
  exec ins0 (start n timeoutEnv) = Some w ->
  isShuttingDown (cstate (app w)) = false ->
  wids !! i = Some old ->
  isLive old (app w) = true ->
  (length (recentRestarts t2 (restartsOf old (cstate (app w))))
     < maxRestartsPerMinute (cstate (app w)))%nat ->
  let new := S (ids (app w)) in
  let w1 := restartNext i wids w in
  let w2 := deliver t1 (WorkerListening new) w1 in
  let w3 := deliver t2 (WorkerExit old) w2 in
  forks (trace w1) = forks (trace w) ++ [new] /\
  (t1, Out (Disconnect old)) ∈ trace w2 /\
  forks (trace w3) = forks (trace w) ++ [new; S new] /\
  workers (app w3)
  = List.filter (fun x => negb (Nat.eqb old x)) (workers (app w)) ++ [new; S new] /\
  length (workers (app w3)) = S (length (workers (app w))) /\
  (t2 + 1000, RestartNext (S i) wids) ∈ timers w3.
Proof.
  intros Hexec Hs Hi Hlive Hlt new w1 w2 w3.
  pose proof (exec_pool_inv n timeoutEnv ins0 w Hexec) as (I1 & I2 & I3 & _).
  assert (Hold : old ∈ workers (app w)) by by apply isLive_elem.
  assert (Hne : old <> new).
  { rewrite Forall_forall in I1. apply I1 in Hold. unfold new. lia. }
  assert (E1 : w1 = setApp (addOnListening new
                      {| oldWorker := old; index := i; workerIds := wids |})
                 (emit (Fork new) (setApp addWorker
                    (emit (Log Info "Restarting worker ${worker.id}") w)))).
  { unfold w1, restartNext. rewrite (drop_S _ _ _ Hi). by rewrite restartFrom_live. }
  assert (F1 : forks (trace w1) = forks (trace w) ++ [new]).
  { rewrite E1. cbn. rewrite !forks_app. cbn. by rewrite app_nil_r. }
  set (w1' := record (Recv (WorkerListening new)) (setNow t1 w1)).
  destruct (listening_fold_trace new (onListening (app w1')) w1') as [T1 T2].
  destruct (listening_listeners_frame new (onListening (app w1')) w1')
    as (C1 & C2 & C3 & C4 & C5 & C6 & C7 & C8).
  cbv zeta in T1, T2, C1, C2, C3, C4, C5, C6, C7, C8.
  assert (Hrep : replacementsOf new (onListening (app w1'))
                 = [{| oldWorker := old; index := i; workerIds := wids |}]).
  { unfold w1'. rewrite E1. cbn [record setNow setApp app addOnListening onListening emit
                                   addWorker].
    unfold replacementsOf. rewrite List.filter_app, map_app.
    fold (replacementsOf new (onListening (app w))).
    rewrite replacementsOf_fresh.
    - simpl. by rewrite Nat.eqb_refl.
    - eapply Forall_impl; [exact I3|]. unfold new. simpl. intros; lia. }
  rewrite Hrep in T1, T2. simpl in T1, T2.
  assert (E2 : w2 = emit (Log Info "Worker listening")
                      (fold_left (runListeningListener new) (onListening (app w1')) w1'))
    by reflexivity.
  set (w2' := fold_left _ _ w1') in *. clearbody w2'.
  assert (Hs2 : isShuttingDown (cstate (app w2)) = false).
  { rewrite E2. cbn. rewrite C1. unfold w1'. rewrite E1. done. }
  assert (Hr2 : restartsOf old (cstate (app w2)) = restartsOf old (cstate (app w))).
  { rewrite E2. cbn. rewrite C1. unfold w1'. rewrite E1. done. }
  assert (Hw2 : workers (app w2) = workers (app w) ++ [new]).
  { rewrite E2. cbn. rewrite C8. unfold w1'. rewrite E1. done. }
  assert (Hi2 : ids (app w2) = new).
  { rewrite E2. cbn. rewrite C6. unfold w1'. rewrite E1. done. }
  assert (Hf2 : forks (trace w2) = forks (trace w) ++ [new]).
  { rewrite E2. cbn. rewrite forks_app, C5. cbn. rewrite app_nil_r.
    unfold w1'. cbn. rewrite forks_app, F1. cbn. by rewrite app_nil_r. }
  assert (Hm2 : maxRestartsPerMinute (cstate (app w2)) = maxRestartsPerMinute (cstate (app w))).
  { rewrite E2. cbn. rewrite C1. unfold w1'. rewrite E1. done. }
  destruct (crash_allowed old t2 w2 Hs2) as (D1 & D2 & D3 & D4 & D5 & D6).
  { by rewrite Hr2, Hm2. }
  cbv zeta in D1, D2, D3, D4, D5, D6. fold w3 in D1, D2, D3, D4, D5, D6.
  split; [done|].
  split.
  { rewrite E2. cbn. rewrite T1. unfold w1'. cbn.
    rewrite !elem_of_app, !elem_of_cons. left. right. by left. }
  split. { rewrite D2, Hf2, Hi2, <- app_assoc. done. }
  assert (Hw3 : workers (app w3)
    = List.filter (fun x => negb (Nat.eqb old x)) (workers (app w)) ++ [new; S new]).
  { rewrite D4, Hw2, Hi2, List.filter_app. simpl.
    destruct (Nat.eqb_spec old new); [done|]. simpl. by rewrite <- app_assoc. }
  split; [done|].
  split.
  { rewrite Hw3, length_app. simpl.
    pose proof (filter_out_length old (workers (app w)) I2 Hold). lia. }
  apply workerExit_timers_grow.
  apply (exit_listeners_restart old (onExit (app w2))
           (setApp (removeWorker old) (record (Recv (WorkerExit old)) (setNow t2 w2)))).
  rewrite E2. cbn. rewrite T2. apply elem_of_app. right. left.
Qed.

(** A two-worker cluster: SIGUSR2 at 10 ms is taken up to the first fork;
    the replacement of worker 1 leaves three workers. *)
Lemma rolling_restart_adds_a_worker_witness :
  let w := start 2 None in
  length (workers (app (deliver 30 (WorkerExit 1)
                          (deliver 20 (WorkerListening 3) (restartNext 0 [1; 2]%nat w)))))
  = 3%nat.
Proof.
  intros w.
  assert (H0 : exec [] (start 2 None) = Some w) by reflexivity.
  exact (proj1 (proj2 (proj2 (proj2 (proj2
           (rolling_restart_adds_a_worker 2 None [] w 0 [1; 2]%nat 1 20 30
              H0 eq_refl eq_refl eq_refl ltac:(vm_compute; lia))))))).
Defined.

(** *** What a step can do to the pool *)

(** The counter of ids only grows; the workers after the step were there
    before or are new; no watchdog is given to, or taken from, a worker that
    exists; the workers killed were alive. *)
Definition grows (w w' : W) : Prop :=
  (ids (app w) <= ids (app w'))%nat /\
  Forall (fun id => id ∈ workers (app w) \/ (ids (app w) < id)%nat) (workers (app w')) /\
  (forall id, (id <= ids (app w))%nat ->
     lastHeartbeat (app w') !! id = None <-> lastHeartbeat (app w) !! id = None) /\
  exists more, trace w' = trace w ++ more /\
    Forall (fun x => forall id, x.2 = Out (Kill id) ->
              id ∈ workers (app w) \/ (ids (app w) < id)%nat) more.

Lemma grows_refl (w : W) : grows w w.
Proof.
  split; [done|]. split; [apply Forall_forall; by left|]. split; [done|].
  exists []. by rewrite app_nil_r.
Qed.

Lemma grows_trans (w1 w2 w3 : W) : grows w1 w2 -> grows w2 w3 -> grows w1 w3.
Proof.
  intros (A1 & A2 & A3 & m1 & A4 & A5) (B1 & B2 & B3 & m2 & B4 & B5).
  assert (Hold : forall id, id ∈ workers (app w2) \/ (ids (app w2) < id)%nat ->
                            id ∈ workers (app w1) \/ (ids (app w1) < id)%nat).
  { intros id [H|H]; [|right; lia]. rewrite Forall_forall in A2. by apply A2. }
  split; [lia|].
  split. { eapply Forall_impl; [exact B2|]. intros id. apply Hold. }
  split. { intros id Hid. rewrite B3 by lia. by apply A3. }
  exists (m1 ++ m2). split; [by rewrite B4, A4, app_assoc|].
  apply Forall_app_2; [done|].
  eapply Forall_impl; [exact B5|]. intros x H id Ex. by apply Hold, H.
Qed.

Lemma grows_frame (w w' : W) more :
  ids (app w') = ids (app w) ->
  Forall (fun id => id ∈ workers (app w)) (workers (app w')) ->
  (forall id, lastHeartbeat (app w') !! id = None <-> lastHeartbeat (app w) !! id = None) ->
  trace w' = trace w ++ more ->
  Forall (fun x => isQuiet x.2 = true) more ->
  grows w w'.
Proof.
  intros H1 H2 H3 H4 H5. split; [lia|].
  split; [eapply Forall_impl; [exact H2|]; by left|].
  split; [intros id _; apply H3|].
  exists more. split; [done|].
  eapply Forall_impl; [exact H5|]. intros x H id Ex. simpl in H. by rewrite Ex in H.
Qed.

Ltac grows_side :=
  first [ reflexivity
        | done
        | apply Forall_forall; intros ? ?; assumption
        | by repeat constructor
        | simpl; by rewrite app_nil_r ].

Lemma grows_emit o (w : W) : isQuiet (Out o) = true -> grows w (emit o w).
Proof. intros Ho. apply (grows_frame w _ [(now w, Out o)]); grows_side. Qed.

Lemma grows_record o (w : W) : isQuiet o = true -> grows w (record o w).
Proof. intros Ho. apply (grows_frame w _ [(now w, o)]); grows_side. Qed.

Lemma grows_world t tm ex (w : W) : grows w (mkWorld t tm ex (trace w) (app w)).
Proof. apply (grows_frame w _ []); grows_side. Qed.

Lemma grows_setApp f (w : W) :
  ids (f (app w)) = ids (app w) ->
  Forall (fun id => id ∈ workers (app w)) (workers (f (app w))) ->
  (forall id, lastHeartbeat (f (app w)) !! id = None <-> lastHeartbeat (app w) !! id = None) ->
  grows w (setApp f w).
Proof. intros. apply (grows_frame w _ []); grows_side. Qed.

Lemma grows_clearTimers p (w : W) : grows w (clearTimers p w).
Proof. apply grows_world. Qed.

Lemma grows_setTimeout ms a (w : W) : grows w (setTimeout ms a w).
Proof. apply grows_world. Qed.

Lemma grows_processExit c (w : W) : grows w (processExit c w).
Proof.
  eapply grows_trans; [apply (grows_emit (Exit c)); done|]. apply grows_world.
Qed.

Lemma grows_fork (w : W) : grows w (emit (Fork (S (ids (app w)))) (setApp addWorker w)).
Proof.
  split; [cbn; lia|]. split.
  { cbn. apply Forall_app_2; [apply Forall_forall; by left|].
    apply Forall_cons_2; [right; lia|constructor]. }
  split; [done|].
  eexists. split; [reflexivity|]. by repeat constructor.
Qed.

Lemma grows_forkWorker (w : W) : grows w (forkWorker w).
Proof.
  split; [cbn; lia|]. split.
  { cbn. apply Forall_app_2; [apply Forall_forall; by left|].
    apply Forall_cons_2; [right; lia|constructor]. }
  split. { intros id Hid. cbn. rewrite lookup_insert_ne; [done|lia]. }
  eexists. split; [reflexivity|]. by repeat constructor.
Qed.

Lemma grows_restartFrom rest : forall i wids (w : W), grows w (restartFrom i rest wids w).
Proof.
  induction rest as [|old rest IH]; intros i wids w; simpl.
  { by apply grows_emit. }
  destruct (isLive old (app w)); [|by apply IH].
  cbn [clusterFork].
  set (w0 := emit (Log Info "Restarting worker ${worker.id}") w).
  eapply grows_trans; [apply (grows_emit (Log Info "Restarting worker ${worker.id}")); done|].
  fold w0. change (ids (app w)) with (ids (app w0)).
  eapply grows_trans; [apply grows_fork|]. apply grows_setApp; grows_side.
Qed.

Lemma grows_exit_listeners id ls : forall w : W,
  grows w (fold_left (runExitListener id) ls w).
Proof.
  intros w.
  destruct (exit_listeners_frame id ls w) as (Ha & Ht & _ & _). cbv zeta in Ha, Ht.
  apply (grows_frame w _ []); rewrite ?Ha, ?Ht; grows_side.
Qed.

Lemma grows_workerExit id (w : W) : grows w (workerExit id w).
Proof.
  unfold workerExit. cbv zeta.
  eapply grows_trans.
  { apply (grows_setApp (removeWorker id)); try grows_side.
    apply Forall_forall. intros x Hx. cbn in Hx.
    apply list_elem_of_In, List.filter_In in Hx as [Hx _]. by apply list_elem_of_In. }
  eapply grows_trans;
    [apply (grows_exit_listeners id (onExit (app (setApp (removeWorker id) w))))|].
  set (w1 := fold_left _ _ _). clearbody w1.
  unfold clusterOnExit. cbv zeta.
  eapply grows_trans; [apply (grows_emit (Log Warn "Worker died")); done|].
  set (w0 := emit (Log Warn "Worker died") w1). clearbody w0.
  destruct (isShuttingDown (cstate (app w0))); [apply grows_refl|].
  destruct (_ <=? _)%nat; [by apply grows_emit|].
  eapply grows_trans;
    [apply (grows_setApp (setCstate (setRestarts id
              (recentRestarts (now w0) (restartsOf id (cstate (app w0))) ++ [now w0]))));
     grows_side|].
  eapply grows_trans; [apply (grows_emit (Log Info "Restarting worker")); done|].
  apply grows_forkWorker.
Qed.

Lemma grows_listening id ls : forall w : W,
  grows w (fold_left (runListeningListener id) ls w).
Proof.
  induction ls as [|l ls IH]; intros w; simpl; [apply grows_refl|].
  eapply grows_trans; [|apply IH].
  unfold runListeningListener. destruct (Nat.eqb l.1 id); [|apply grows_refl].
  cbv zeta. eapply grows_trans; [apply (grows_emit (Disconnect (oldWorker l.2))); done|].
  apply grows_setApp; grows_side.
Qed.

Lemma grows_gracefulShutdown sig (w : W) : grows w (gracefulShutdown sig w).
Proof.
  destruct (isShuttingDown (cstate (app w))) eqn:Hs.
  { rewrite primary_shutdown_again by done. apply grows_refl. }
  rewrite primary_shutdown_first by done.
  eapply (grows_frame w _ _); [grows_side..|].
  constructor; [done|]. apply Forall_fmap, Forall_forall. by intros.
Qed.

Lemma grows_workerMessage id type (w : W) : grows w (workerMessage id type w).
Proof.
  unfold workerMessage.
  set (w0 := if String.eqb type "heartbeat" then _ else _).
  assert (H0 : grows w w0).
  { unfold w0. destruct (String.eqb type "heartbeat"); [|apply grows_refl].
    destruct (lastHeartbeat (app w) !! id) as [t0|] eqn:E; [|apply grows_refl].
    apply grows_setApp; try grows_side.
    intros id'. cbn. destruct (decide (id' = id)) as [->|Hne].
    - by rewrite lookup_insert_eq, E.
    - by rewrite lookup_insert_ne. }
  destruct (String.eqb type "log"); [|done].
  eapply grows_trans; [exact H0|]. by apply grows_emit.
Qed.

Lemma grows_heartbeatCheck id (w : W) :
  id ∈ workers (app w) -> grows w (heartbeatCheck id w).
Proof.
  intros Hl. unfold heartbeatCheck.
  set (w0 := match lastHeartbeat (app w) !! id with Some _ => _ | None => _ end).
  assert (H0 : grows w w0).
  { unfold w0. destruct (lastHeartbeat (app w) !! id) as [t0|]; [|apply grows_refl].
    destruct (60000 <? now w - t0); [|apply grows_refl].
    split; [done|]. split; [apply Forall_forall; by left|]. split; [done|].
    eexists. split; [cbn; rewrite <- app_assoc; reflexivity|].
    apply Forall_cons_2; [done|]. apply Forall_cons_2; [|constructor].
    simpl. intros id' [= <-]. by left. }
  eapply grows_trans; [exact H0|]. apply grows_setTimeout.
Qed.

Lemma tick_grows (w : W) : pool_inv w -> grows w (tick w).
Proof.
  intros Hinv.
  pose proof (tick_ticked fire w) as Ht. unfold tick.
  remember (Loop.tick fire w) as w2 eqn:E. clear E.
  destruct Ht as [_|d a l1 l2 Hex Htim Hmin]; [apply grows_refl|].
  assert (Ha : forall id, a = HeartbeatCheck id -> id ∈ workers (app w)).
  { destruct Hinv as (_ & _ & _ & _ & I5 & _). rewrite Htim in I5.
    apply Forall_middle in I5 as [I5 _]. intros id ->. by destruct (I5 id eq_refl). }
  set (w1 := record (Fired a) (mkWorld d (l1 ++ l2) None (trace w) (app w))).
  assert (H1 : grows w w1).
  { eapply grows_trans; [apply (grows_world d (l1 ++ l2) None)|]. by apply grows_record. }
  eapply grows_trans; [exact H1|].
  destruct a as [| |i wids|id]; cbn [fire].
  - destruct (workers (app w1)).
    + eapply grows_trans; [apply (grows_clearTimers isPoll)|].
      eapply grows_trans; [|apply grows_processExit]. by apply grows_emit.
    + apply grows_setTimeout.
  - eapply grows_trans; [|apply grows_processExit]. by apply grows_emit.
  - apply grows_restartFrom.
  - apply grows_heartbeatCheck. by apply Ha.
Qed.

Lemma deliver_grows t e (w : W) : grows w (deliver t e w).
Proof.
  unfold deliver, Loop.deliver.
  set (w1 := record (Recv e) (setNow t w)).
  assert (H1 : grows w w1).
  { eapply grows_trans; [apply (grows_world t (timers w) (exited w))|]. by apply grows_record. }
  eapply grows_trans; [exact H1|]. clearbody w1.
  destruct e as [[| |]|id|id|id|id|id type]; cbn [handle].
  - apply grows_gracefulShutdown.
  - apply grows_gracefulShutdown.
  - unfold rollingRestart. cbv zeta.
    eapply grows_trans; [|apply grows_restartFrom]. by apply grows_emit.
  - apply grows_workerExit.
  - unfold workerListening. cbv zeta.
    eapply grows_trans; [apply grows_listening|]. by apply grows_emit.
  - by apply grows_emit.
  - by apply grows_emit.
  - apply grows_workerMessage.
Qed.

Lemma step_grows i (w w' : W) : pool_inv w -> step i w = Some w' -> grows w w'.
Proof.
  intros Hinv H.
  apply step_cases in H as [Hex [(-> & _ & ->)|(t & e & -> & _ & _ & ->)]].
  - by apply tick_grows.
  - apply deliver_grows.
Qed.

Lemma exec_grows ins : forall (w w' : W),
  pool_inv w -> exec ins w = Some w' -> grows w w' /\ pool_inv w'.
Proof.
  induction ins as [|i ins IH]; intros w w' Hinv H; simpl in H.
  { injection H as <-. split; [apply grows_refl|done]. }
  unfold exec in IH. destruct (Loop.step fire handle i w) as [w1|] eqn:E; [|done].
  pose proof (step_grows i w w1 Hinv E) as G1.
  pose proof (step_pool_inv i w w1 Hinv E) as P1.
  destruct (IH w1 w' P1 H) as [G2 P2]. split; [|done]. by eapply grows_trans.
Qed.

(** The watchdog is set up by [forkWorker] only.  The workers forked by the
    rolling restart come from a plain [cluster.fork()]: [restartNext] neither
    records a heartbeat time nor arms a timer, and a worker without a
    watchdog never gets one.  Such a worker is never checked and never
    killed by the primary, whether or not it sends heartbeats. *)
Theorem rolling_replacements_are_unwatched (n : nat) (timeoutEnv : option Z)
    (ins0 : list (Input Event)) (w : W) :
  exec ins0 (start n timeoutEnv) = Some w ->
  (forall i wids,
     let w1 := restartNext i wids w in
     lastHeartbeat (app w1) = lastHeartbeat (app w) /\ timers w1 = timers w /\
     (forall id, id ∈ workers (app w1) -> id ∉ workers (app w) ->
        id = S (ids (app w)) /\ lastHeartbeat (app w1) !! id = None)) /\
  (forall id ins w',
     (id <= ids (app w))%nat ->
     lastHeartbeat (app w) !! id = None ->
     exec ins w = Some w' ->
     lastHeartbeat (app w') !! id = None /\
     Forall (fun y => y.2 <> HeartbeatCheck id) (timers w') /\
     Forall (fun x => x.2 <> Out (Kill id)) (trace w')).
Proof.
  intros Hexec.
  pose proof (exec_pool_inv n timeoutEnv ins0 w Hexec) as Hpool.
  split.
  - intros i wids w1. subst w1.
    assert (Hlh : lastHeartbeat (app (restartNext i wids w)) = lastHeartbeat (app w)).
    { destruct (restartNext_spec i wids w) as [[_ ->]|(j & old & _ & _ & _ & _ & ->)]; done. }
    split; [done|].
    split. { unfold restartNext. by destruct (restartFrom_frame (drop i wids) i wids w)
                                     as (_ & -> & _). }
    intros id Hin Hnot.
    destruct (grows_restartFrom (drop i wids) i wids w) as (_ & G2 & _).
    rewrite Forall_forall in G2. fold (restartNext i wids w) in G2.
    destruct (G2 id Hin) as [?|Hfresh]; [done|].
    assert (Hnone : lastHeartbeat (app w) !! id = None).
    { destruct (lastHeartbeat (app w) !! id) eqn:E; [|done].
      destruct Hpool as (_ & _ & _ & I4 & _). destruct (I4 id); [by eexists|lia]. }
    split; [|by rewrite Hlh].
    destruct (restartNext_spec i wids w) as [[_ E]|(j & old & _ & _ & _ & _ & E)];
      rewrite E in Hin; cbn in Hin; [done|].
    apply elem_of_app in Hin as [?|Hin]; [done|]. by apply list_elem_of_singleton in Hin.
  - intros id ins w' Hid Hnone Hexec'.
    destruct (exec_grows ins w w' Hpool Hexec') as [(_ & _ & G3 & _) (_ & _ & _ & _ & I5 & I6 & _)].
    assert (Hnone' : lastHeartbeat (app w') !! id = None) by by apply G3.
    split; [done|]. split.
    + eapply Forall_impl; [exact I5|]. intros y H Ey. destruct (H id Ey) as [[? Hs] _].
      congruence.
    + eapply Forall_impl; [exact I6|]. intros x H Ex. destruct (H id Ex) as [? Hs].
      congruence.
Qed.

(** A two-worker cluster: the rolling restart forks worker 3; 200 s later,
    after six checks of the watchdogs of workers 1 and 2, worker 3 has never
    been killed. *)
Lemma rolling_replacements_are_unwatched_witness :
  let w := deliver 10 (Sig SIGUSR2) (start 2 None) in
  Forall (fun x => x.2 <> Out (Kill 3)) (trace (run 12 w)).
Proof.
  intros w.
  assert (H0 : exec [Ext 10 (Sig SIGUSR2)] (start 2 None) = Some w)
    by (vm_compute; reflexivity).
  assert (H1 : exec (repeat Tick 12) w = Some (run 12 w)) by (vm_compute; reflexivity).
  exact (proj2 (proj2 (proj2 (rolling_replacements_are_unwatched 2 None _ w H0)
                         3%nat _ _ ltac:(vm_compute; lia) eq_refl H1))).
Defined.

(** Once the exit of a worker has been reported, its watchdog is gone: the
    worker is not in the pool again, no check of it is pending, and it is
    never killed afterwards. *)
Theorem no_kill_after_exit (n : nat) (timeoutEnv : option Z)
    (ins0 : list (Input Event)) (w0 w1 : W) (id : nat) (t : Z)
    (ins : list (Input Event)) (w' : W) :
  exec ins0 (start n timeoutEnv) = Some w0 ->
  id ∈ forks (trace w0) ->
  step (Ext t (WorkerExit id)) w0 = Some w1 ->
  exec ins w1 = Some w' ->
  (id ∉ workers (app w')) /\
  Forall (fun y => y.2 <> HeartbeatCheck id) (timers w') /\
  exists more, trace w' = trace w1 ++ more /\
               Forall (fun x => x.2 <> Out (Kill id)) more.
Proof.
  intros H0 Hfork H1 Hexec.
  pose proof (exec_pool_inv n timeoutEnv ins0 w0 H0) as Hpool0.
  pose proof (step_pool_inv _ _ _ Hpool0 H1) as Hpool1.
  assert (Hid0 : (id <= ids (app w0))%nat).
  { destruct Hpool0 as (_ & _ & _ & _ & _ & _ & I7). rewrite Forall_forall in I7. auto. }
  pose proof (step_grows _ _ _ Hpool0 H1) as (G1 & _).
  apply step_cases in H1 as [Hex [(? & _)|(t' & e' & [= <- <-] & _ & _ & ->)]]; [done|].
  fold (deliver t (WorkerExit id) w0) in *.
  assert (Hgone : id ∉ workers (app (deliver t (WorkerExit id) w0))).
  { unfold deliver, Loop.deliver. cbn [handle].
    set (wr := record _ _).
    destruct (isShuttingDown (cstate (app wr))) eqn:Hs.
    - destruct (workerExit_shutting_down id wr Hs) as (_ & _ & _ & -> & _).
      intros Hin. apply list_elem_of_In, List.filter_In in Hin as [_ Hin].
      by rewrite Nat.eqb_refl in Hin.
    - destruct (Nat.leb_spec (maxRestartsPerMinute (cstate (app wr)))
                  (length (recentRestarts (now wr) (restartsOf id (cstate (app wr))))))
        as [Hle|Hlt].
      + destruct (workerExit_denied id wr Hs Hle) as (_ & _ & _ & -> & _).
        intros Hin. apply list_elem_of_In, List.filter_In in Hin as [_ Hin].
        by rewrite Nat.eqb_refl in Hin.
      + destruct (workerExit_allowed id wr Hs Hlt) as (_ & _ & _ & -> & _).
        intros Hin. apply elem_of_app in Hin as [Hin|Hin].
        * apply list_elem_of_In, List.filter_In in Hin as [_ Hin].
          by rewrite Nat.eqb_refl in Hin.
        * apply list_elem_of_singleton in Hin. cbn in Hin. lia. }
  set (w1 := deliver t (WorkerExit id) w0) in *. clearbody w1.
  destruct (exec_grows ins w1 w' Hpool1 Hexec)
    as [(_ & G2 & _ & more & G4 & G5) (_ & _ & _ & _ & I5 & _)].
  assert (Hgone' : id ∉ workers (app w')).
  { intros Hin. rewrite Forall_forall in G2. destruct (G2 id Hin); [done|lia]. }
  split; [done|]. split.
  - eapply Forall_impl; [exact I5|]. intros y H Ey. by destruct (H id Ey) as [_ ?].
  - exists more. split; [done|].
    eapply Forall_impl; [exact G5|]. intros x H Ex. destruct (H id Ex); [done|lia].
Qed.

(** A one-worker cluster whose worker exits at 100 ms: left alone for ten
    firings of the watchdog of its replacement, worker 1 is not killed. *)
Lemma no_kill_after_exit_witness :
  let w1 := deliver 100 (WorkerExit 1) (start 1 None) in
  exists more, trace (run 10 w1) = trace w1 ++ more /\
               Forall (fun x => x.2 <> Out (Kill 1)) more.
Proof.
  intros w1.
  assert (H0 : exec [] (start 1 None) = Some (start 1 None)) by reflexivity.
  assert (Hf : 1%nat ∈ forks (trace (start 1 None))) by (vm_compute; left).
  assert (H1 : step (Ext 100 (WorkerExit 1)) (start 1 None) = Some w1)
    by (vm_compute; reflexivity).
  assert (H2 : exec (repeat Tick 10) w1 = Some (run 10 w1)) by (vm_compute; reflexivity).
  exact (proj2 (proj2 (no_kill_after_exit 1 None [] _ w1 1 100 _ _ H0 Hf H1 H2))).
Defined.

(** *** The watchdog and the heartbeats *)

(** Every kill comes more than 60000 ms after every earlier heartbeat of the
    worker killed, and after its fork. *)
Definition kills_ok (tr : list (Z * Obs Action Event Effect)) : Prop :=
  forall pre t id post, tr = pre ++ (t, Out (Kill id)) :: post ->
    Forall (fun y => isBeatOf id y.2 = true -> 60000 < t - y.1) pre.

(** No timer is overdue and the trace is not ahead of the clock; the time
    kept for a watched worker dominates its fork and all its heartbeats. *)
Definition beat_inv (w : W) : Prop :=
  Forall (fun y => now w <= y.1) (timers w) /\
  Forall (fun x => x.1 <= now w) (trace w) /\
  (forall id t0, lastHeartbeat (app w) !! id = Some t0 ->
     Forall (fun x => isBeatOf id x.2 = true -> x.1 <= t0) (trace w)) /\
  kills_ok (trace w).

Definition fresh (w : W) : Prop := lastHeartbeat (app w) !! S (ids (app w)) = None.

Lemma pool_fresh (w : W) : pool_inv w -> fresh w.
Proof.
  intros (_ & _ & _ & I4 & _). unfold fresh.
  destruct (lastHeartbeat (app w) !! S (ids (app w))) eqn:E; [|done].
  destruct (I4 (S (ids (app w)))); [by eexists|lia].
Qed.

Lemma kills_ok_snoc tr x :
  kills_ok tr ->
  (forall id, x.2 = Out (Kill id) ->
     Forall (fun y => isBeatOf id y.2 = true -> 60000 < x.1 - y.1) tr) ->
  kills_ok (tr ++ [x]).
Proof.
  intros Hok Hx pre t id post E.
  destruct post as [|p post _] using rev_ind.
  - apply app_inj_tail in E as [-> ->]. by apply (Hx id).
  - rewrite app_comm_cons, app_assoc in E. apply app_inj_tail in E as [-> _].
    by apply (Hok pre t id post).
Qed.

(** An entry is added to the trace. *)
Lemma beat_record o (w : W) :
  (forall id, isBeatOf id o = false) ->
  (forall id, o = Out (Kill id) ->
     Forall (fun y => isBeatOf id y.2 = true -> 60000 < now w - y.1) (trace w)) ->
  beat_inv w -> beat_inv (record o w).
Proof.
  intros Ho Hk (B0 & B1 & B2 & B3). unfold beat_inv. cbn.
  split; [done|].
  split; [apply Forall_app_2; [done|]; by repeat constructor|].
  split.
  { intros id t0 E. apply Forall_app_2; [by apply B2|].
    apply Forall_cons_2; [|constructor]. simpl. by rewrite Ho. }
  apply kills_ok_snoc; [done|]. simpl. exact Hk.
Qed.

Lemma beat_emit o (w : W) :
  isQuiet (Out o) = true -> beat_inv w -> beat_inv (emit o w).
Proof.
  intros Ho. apply beat_record.
  - intros id. by destruct o.
  - intros id [= ->]. done.
Qed.

(** The clock and the timers change. *)
Lemma beat_world t tm ex (w : W) :
  now w <= t -> Forall (fun y => t <= y.1) tm ->
  beat_inv w -> beat_inv (mkWorld t tm ex (trace w) (app w)).
Proof.
  intros Ht Htm (B0 & B1 & B2 & B3). unfold beat_inv. cbn.
  split; [done|]. split; [|done].
  eapply Forall_impl; [exact B1|]. simpl. intros; lia.
Qed.

Lemma beat_setTimeout ms a (w : W) : beat_inv w -> beat_inv (setTimeout ms a w).
Proof.
  intros Hinv. apply beat_world; [lia| |done].
  destruct Hinv as (B0 & _). apply Forall_app_2; [done|].
  apply Forall_cons_2; [|constructor]. pose proof (timerDelay_pos ms). simpl. lia.
Qed.

Lemma beat_clearTimers p (w : W) : beat_inv w -> beat_inv (clearTimers p w).
Proof.
  intros Hinv. apply beat_world; [lia| |done].
  destruct Hinv as (B0 & _). by apply Forall_List_filter.
Qed.

Lemma beat_setApp f (w : W) :
  lastHeartbeat (f (app w)) = lastHeartbeat (app w) ->
  beat_inv w -> beat_inv (setApp f w).
Proof.
  intros Hf (B0 & B1 & B2 & B3). unfold beat_inv. cbn. rewrite Hf. done.
Qed.

Lemma beat_processExit c (w : W) : beat_inv w -> beat_inv (processExit c w).
Proof.
  intros Hinv. apply (beat_world (now w) (timers w) (Some c) (emit (Exit c) w)).
  - done.
  - by destruct Hinv as (B0 & _).
  - by apply beat_emit.
Qed.

(** [cluster.fork()] and [forkWorker] *)
Lemma beat_fork (w : W) :
  fresh w -> beat_inv w -> beat_inv (emit (Fork (S (ids (app w)))) (setApp addWorker w)).
Proof.
  intros Hf (B0 & B1 & B2 & B3). unfold beat_inv. cbn.
  split; [done|].
  split; [apply Forall_app_2; [done|]; by repeat constructor|].
  split.
  { intros id t0 E. apply Forall_app_2; [by apply (B2 id)|].
    apply Forall_cons_2; [|constructor]. cbn [isBeatOf snd fst].
    destruct (Nat.eqb_spec (S (ids (app w))) id) as [<-|]; [|done].
    unfold fresh in Hf. congruence. }
  apply kills_ok_snoc; [done|]. done.
Qed.

Lemma beat_forkWorker (w : W) : fresh w -> beat_inv w -> beat_inv (forkWorker w).
Proof.
  intros Hf Hinv. pose proof (beat_fork w Hf Hinv) as (B0 & B1 & B2 & B3).
  cbn in B0, B1, B2, B3. unfold beat_inv, forkWorker. cbn.
  split.
  { apply Forall_app_2; [done|]. apply Forall_cons_2; [simpl; lia|constructor]. }
  split; [done|]. split; [|done].
  intros id t0 E. destruct (decide (id = S (ids (app w)))) as [->|Hne].
  - rewrite lookup_insert_eq in E. injection E as <-.
    eapply Forall_impl; [exact B1|]. by intros.
  - rewrite lookup_insert_ne in E by done. by apply (B2 id).
Qed.

Lemma fresh_frame (w w' : W) :
  lastHeartbeat (app w') = lastHeartbeat (app w) -> ids (app w') = ids (app w) ->
  fresh w -> fresh w'.
Proof. unfold fresh. by intros -> ->. Qed.

Lemma beat_restartFrom rest : forall i wids (w : W),
  fresh w -> beat_inv w -> beat_inv (restartFrom i rest wids w).
Proof.
  induction rest as [|old rest IH]; intros i wids w Hf Hinv; simpl.
  { by apply beat_emit. }
  destruct (isLive old (app w)); [|by apply IH].
  cbn [clusterFork].
  set (w0 := emit (Log Info "Restarting worker ${worker.id}") w).
  assert (H0 : beat_inv w0) by (by apply beat_emit).
  change (ids (app w)) with (ids (app w0)).
  apply beat_setApp; [done|]. apply beat_fork; [|done]. exact Hf.
Qed.

Lemma beat_exit_listeners id ls : forall w : W,
  beat_inv w -> beat_inv (fold_left (runExitListener id) ls w).
Proof.
  induction ls as [|l ls IH]; intros w Hinv; simpl; [done|].
  apply IH. unfold runExitListener. destruct (Nat.eqb l.1 id); [|done].
  destruct (l.2); [by apply beat_clearTimers|by apply beat_setTimeout].
Qed.

Lemma beat_workerExit id (w : W) : fresh w -> beat_inv w -> beat_inv (workerExit id w).
Proof.
  intros Hf Hinv. unfold workerExit. cbv zeta.
  change (onExit (app (setApp (removeWorker id) w))) with (onExit (app w)).
  assert (H1 : beat_inv (fold_left (runExitListener id) (onExit (app w))
                           (setApp (removeWorker id) w))).
  { apply beat_exit_listeners. by apply beat_setApp. }
  assert (F1 : fresh (fold_left (runExitListener id) (onExit (app w))
                        (setApp (removeWorker id) w))).
  { destruct (exit_listeners_frame id (onExit (app w)) (setApp (removeWorker id) w))
      as (Ha & _). cbv zeta in Ha. unfold fresh. rewrite Ha. exact Hf. }
  set (w1 := fold_left _ _ _) in *. clearbody w1.
  unfold clusterOnExit. cbv zeta.
  set (w0 := emit (Log Warn "Worker died") w1).
  assert (H0 : beat_inv w0) by (by apply beat_emit).
  destruct (isShuttingDown (cstate (app w0))); [done|].
  destruct (_ <=? _)%nat; [by apply beat_emit|].
  apply beat_forkWorker; [exact F1|].
  apply beat_emit; [done|]. by apply beat_setApp.
Qed.

Lemma beat_listening id ls : forall w : W,
  beat_inv w -> beat_inv (fold_left (runListeningListener id) ls w).
Proof.
  induction ls as [|l ls IH]; intros w Hinv; simpl; [done|].
  apply IH. unfold runListeningListener. destruct (Nat.eqb l.1 id); [|done].
  cbv zeta. apply beat_setApp; [done|]. by apply beat_emit.
Qed.

Lemma beat_gracefulShutdown sig (w : W) : beat_inv w -> beat_inv (gracefulShutdown sig w).
Proof.
  intros Hinv. unfold gracefulShutdown.
  destruct (isShuttingDown (cstate (app w))); [done|]. cbv zeta.
  apply beat_setTimeout, beat_setTimeout.
  set (w0 := emit _ _).
  assert (H0 : beat_inv w0).
  { apply beat_emit; [done|]. by apply beat_setApp. }
  clearbody w0. change (workers (app (setApp (setCstate setShuttingDown) w)))
    with (workers (app w)).
  generalize (workers (app w0)). intros l. revert w0 H0.
  induction l as [|x l IH]; intros w0 H0; simpl; [done|].
  apply IH. by apply beat_emit.
Qed.

(** A message of a worker: a heartbeat of a watched worker is noted. *)
Lemma beat_workerMessage id type (w : W) :
  beat_inv w ->
  beat_inv (workerMessage id type (record (Recv (WorkerMessage id type)) w)).
Proof.
  intros (B0 & B1 & B2 & B3).
  assert (H1 : beat_inv
    (if String.eqb type "heartbeat" then
       match lastHeartbeat (app w) !! id with
       | Some _ => setApp (setLastHeartbeat id (now w)) (record (Recv (WorkerMessage id type)) w)
       | None => record (Recv (WorkerMessage id type)) w
       end
     else record (Recv (WorkerMessage id type)) w)).
  { assert (Hk : kills_ok (trace w ++ [(now w, Recv (WorkerMessage id type))])).
    { apply kills_ok_snoc; [done|]. done. }
    assert (Ht : Forall (fun x => x.1 <= now w)
                   (trace w ++ [(now w, Recv (WorkerMessage id type))])).
    { apply Forall_app_2; [done|]. by repeat constructor. }
    assert (Hother : forall id' t0, id' <> id -> lastHeartbeat (app w) !! id' = Some t0 ->
              Forall (fun x => isBeatOf id' x.2 = true -> x.1 <= t0)
                (trace w ++ [(now w, Recv (WorkerMessage id type))])).
    { intros id' t0 Hne E. apply Forall_app_2; [by apply (B2 id')|].
      apply Forall_cons_2; [|constructor]. simpl.
      destruct (Nat.eqb_spec id id'); [congruence|done]. }
    destruct (String.eqb type "heartbeat") eqn:Ety.
    - destruct (lastHeartbeat (app w) !! id) as [t1|] eqn:E1.
      + unfold beat_inv. cbn. repeat (split; [done|]). split; [|done].
        intros id' t0 E. destruct (decide (id' = id)) as [->|Hne].
        * rewrite lookup_insert_eq in E. injection E as <-.
          eapply Forall_impl; [exact Ht|]. by intros.
        * rewrite lookup_insert_ne in E by done. by apply Hother.
      + unfold beat_inv. cbn. repeat (split; [done|]). split; [|done].
        intros id' t0 E. apply Hother; [|done]. intros ->. congruence.
    - unfold beat_inv. cbn. repeat (split; [done|]). split; [|done].
      intros id' t0 E. apply Forall_app_2; [by apply (B2 id')|].
      apply Forall_cons_2; [|constructor]. simpl. rewrite Ety.
      by rewrite andb_false_r. }
  unfold workerMessage. cbn [record app now] in *.
  destruct (String.eqb type "log"); [by apply beat_emit|done].
Qed.

Lemma beat_heartbeatCheck id (w : W) : beat_inv w -> beat_inv (heartbeatCheck id w).
Proof.
  intros Hinv. unfold heartbeatCheck. apply beat_setTimeout.
  destruct (lastHeartbeat (app w) !! id) as [t0|] eqn:E; [|done].
  destruct (60000 <? now w - t0) eqn:Hlate; [|done].
  apply Z.ltb_lt in Hlate.
  set (w0 := emit (Log Error "Worker ${worker.id} heartbeat timeout, killing") w).
  assert (H0 : beat_inv w0) by (by apply beat_emit).
  apply beat_record; [done| |done].
  intros id' [= <-]. destruct H0 as (_ & _ & B2 & _).
  eapply Forall_impl; [exact (B2 id t0 E)|]. simpl. intros x Hx Hb.
  specialize (Hx Hb). lia.
Qed.

Lemma tick_beat_inv (w : W) : pool_inv w -> beat_inv w -> beat_inv (tick w).
Proof.
  intros Hpool Hinv.
  pose proof (tick_ticked fire w) as Ht. unfold tick.
  remember (Loop.tick fire w) as w2 eqn:E. clear E.
  destruct Ht as [_|d a l1 l2 Hex Htim Hmin]; [done|].
  set (w1 := record (Fired a) (mkWorld d (l1 ++ l2) None (trace w) (app w))).
  assert (H1 : beat_inv w1).
  { apply beat_record; [done|done|]. apply beat_world; [| |done].
    - destruct Hinv as (B0 & _). rewrite Htim in B0.
      apply Forall_middle in B0 as [B0 _]. done.
    - rewrite Htim in Hmin. by apply Forall_middle in Hmin as [_ ?]. }
  assert (F1 : fresh w1) by (by apply pool_fresh in Hpool).
  destruct a as [| |i wids|id]; cbn [fire].
  - destruct (workers (app w1)).
    + by apply beat_processExit, beat_emit, beat_clearTimers.
    + by apply beat_setTimeout.
  - by apply beat_processExit, beat_emit.
  - by apply beat_restartFrom.
  - by apply beat_heartbeatCheck.
Qed.

Lemma deliver_beat_inv t e (w : W) :
  pool_inv w -> now w <= t -> Forall (fun y => t <= y.1) (timers w) ->
  beat_inv w -> beat_inv (deliver t e w).
Proof.
  intros Hpool Ht Hq Hinv. unfold deliver, Loop.deliver.
  assert (H0 : beat_inv (setNow t w)) by (by apply beat_world).
  assert (F0 : fresh (setNow t w)) by (by apply pool_fresh in Hpool).
  destruct e as [[| |]|id|id|id|id|id type]; cbn [handle].
  - by apply beat_gracefulShutdown, beat_record.
  - by apply beat_gracefulShutdown, beat_record.
  - unfold rollingRestart. cbv zeta.
    apply beat_restartFrom; [exact F0|]. by apply beat_emit, beat_record.
  - apply beat_workerExit; [exact F0|]. by apply beat_record.
  - unfold workerListening. cbv zeta. by apply beat_emit, beat_listening, beat_record.
  - by apply beat_emit, beat_record.
  - by apply beat_emit, beat_record.
  - by apply beat_workerMessage.
Qed.

Lemma forkWorkers_both n : forall w : W,
  pool_inv w /\ beat_inv w -> pool_inv (forkWorkers n w) /\ beat_inv (forkWorkers n w).
Proof.
  induction n as [|n IH]; intros w [H1 H2]; simpl; [done|].
  apply IH. split; [by apply pool_forkWorker|].
  apply beat_forkWorker; [by apply pool_fresh|done].
Qed.

Lemma exec_beat_inv n timeoutEnv ins (w : W) :
  exec ins (start n timeoutEnv) = Some w -> pool_inv w /\ beat_inv w.
Proof.
  apply (exec_invariant fire handle (fun w => pool_inv w /\ beat_inv w)).
  - intros i w1 w2 [Hp Hb] Hstep. split; [by eapply step_pool_inv|].
    apply step_cases in Hstep as [Hex [(-> & _ & ->)|(t & e & -> & Ht & Hq & ->)]].
    + by apply tick_beat_inv.
    + by apply deliver_beat_inv.
  - apply forkWorkers_both. split.
    + apply (exec_pool_inv 0 timeoutEnv [] _ eq_refl).
    + unfold beat_inv, boot. cbn.
      split; [constructor|]. split; [by repeat constructor|].
      split; [intros id t0 E; by rewrite lookup_empty in E|].
      intros pre t id post E. destruct pre as [|? [|? ?]]; simplify_eq.
Qed.

(** The watchdog never kills a worker whose last heartbeat, or whose fork,
    is at most 60000 ms old: whenever the primary kills worker [id], every
    heartbeat it has received from that worker, and the fork of the worker,
    lie more than 60000 ms back. *)
Theorem watchdog_spares_live_workers (n : nat) (timeoutEnv : option Z)
    (ins : list (Input Event)) (w : W)
    (pre post : list (Z * Obs Action Event Effect)) (t : Z) (id : nat) :
  exec ins (start n timeoutEnv) = Some w ->
  trace w = pre ++ (t, Out (Kill id)) :: post ->
  (forall t', (t', Out (Fork id)) ∈ pre -> 60000 < t - t') /\
  (forall t', (t', Recv (WorkerMessage id "heartbeat")) ∈ pre -> 60000 < t - t').
Proof.
  intros Hexec E.
  destruct (exec_beat_inv n timeoutEnv ins w Hexec) as [_ (_ & _ & _ & B3)].
  specialize (B3 pre t id post E). rewrite Forall_forall in B3.
  split; intros t' Hin; apply (B3 _ Hin); simpl; by rewrite Nat.eqb_refl.
Qed.

(** A one-worker cluster left alone: the watchdog runs at 30, 60 and 90 s,
    and kills the silent worker at 90 s, forked at 0. *)
Lemma watchdog_spares_live_workers_witness :
  let w := run 3 (start 1 None) in
  trace w = take 6 (trace w) ++ [(90000, Out (Kill 1))] /\ 60000 < 90000 - 0.
Proof.
  intros w.
  assert (H : exec [Tick; Tick; Tick] (start 1 None) = Some w) by (vm_compute; reflexivity).
  assert (E : trace w = take 6 (trace w) ++ (90000, Out (Kill 1)) :: [])
    by (vm_compute; reflexivity).
  split; [exact E|].
  refine (proj1 (watchdog_spares_live_workers 1 None _ w _ _ 90000 1 H E) 0 _).
  apply list_elem_of_In. vm_compute. tauto.
Defined.

(** *** The watchdog catches silent workers *)

(** A live worker with a watchdog has a check pending, due within 30000 ms;
    when the check before it came more than 60000 ms after the time kept for
    the worker, that check has killed the worker. *)
Definition watch_inv (w : W) : Prop :=
  forall id t0, id ∈ workers (app w) -> lastHeartbeat (app w) !! id = Some t0 ->
    exists d, (d, HeartbeatCheck id) ∈ timers w /\ d <= now w + 30000 /\
              (t0 + 90000 < d -> (d - 30000, Out (Kill id)) ∈ trace w).

(** A step that leaves the watchdogs alone: time and the trace only grow,
    and a worker that is live afterwards either has no watchdog, or was
    live, with the same time kept and its checks still pending. *)
Definition keeps (w w' : W) : Prop :=
  now w <= now w' /\
  (forall x, x ∈ trace w -> x ∈ trace w') /\
  forall id, id ∈ workers (app w') ->
    lastHeartbeat (app w') !! id = None \/
    (id ∈ workers (app w) /\
     lastHeartbeat (app w') !! id = lastHeartbeat (app w) !! id /\
     forall d, (d, HeartbeatCheck id) ∈ timers w -> (d, HeartbeatCheck id) ∈ timers w').

Lemma keeps_watch (w w' : W) : keeps w w' -> watch_inv w -> watch_inv w'.
Proof.
  intros (Hn & Ht & Hk) Hinv id t0 Hin E.
  destruct (Hk id Hin) as [Hnone|(Hin0 & Hl & Htm)]; [congruence|].
  rewrite Hl in E. destruct (Hinv id t0 Hin0 E) as (d & Hd & Hle & Hkill).
  exists d. split; [by apply Htm|]. split; [lia|]. intros Hlate. by apply Ht, Hkill.
Qed.

Lemma keeps_refl (w : W) : keeps w w.
Proof. split; [lia|]. split; [done|]. intros id Hin. right. done. Qed.

Lemma keeps_trans (w1 w2 w3 : W) : keeps w1 w2 -> keeps w2 w3 -> keeps w1 w3.
Proof.
  intros (A1 & A2 & A3) (B1 & B2 & B3). split; [lia|]. split; [by auto|].
  intros id Hin. destruct (B3 id Hin) as [Hnone|(Hin2 & Hl2 & Ht2)]; [by left|].
  destruct (A3 id Hin2) as [Hnone|(Hin1 & Hl1 & Ht1)].
  - left. congruence.
  - right. split; [done|]. split; [congruence|]. auto.
Qed.

Lemma keeps_frame (w w' : W) :
  (forall id, id ∈ workers (app w') -> id ∈ workers (app w)) ->
  lastHeartbeat (app w') = lastHeartbeat (app w) ->
  now w <= now w' ->
  (forall x, x ∈ trace w -> x ∈ trace w') ->
  (forall id d, id ∈ workers (app w') ->
     (d, HeartbeatCheck id) ∈ timers w -> (d, HeartbeatCheck id) ∈ timers w') ->
  keeps w w'.
Proof.
  intros Hw Hl Hn Ht Htm. split; [done|]. split; [done|].
  intros id Hin. right. split; [by apply Hw|]. split; [by rewrite Hl|]. intros d. by apply Htm.
Qed.

Lemma keeps_record o (w : W) : keeps w (record o w).
Proof.
  apply keeps_frame; cbn; try done; try lia.
  intros x Hx. apply elem_of_app. by left.
Qed.

Lemma keeps_emit o (w : W) : keeps w (emit o w).
Proof. apply keeps_record. Qed.

Lemma keeps_world t tm ex (w : W) :
  now w <= t ->
  (forall id d, id ∈ workers (app w) -> (d, HeartbeatCheck id) ∈ timers w ->
                (d, HeartbeatCheck id) ∈ tm) ->
  keeps w (mkWorld t tm ex (trace w) (app w)).
Proof. intros Ht Htm. apply keeps_frame; cbn; done. Qed.

Lemma keeps_setTimeout ms a (w : W) : keeps w (setTimeout ms a w).
Proof.
  apply keeps_world; [lia|]. intros id d _ Hd. apply elem_of_app. by left.
Qed.

Lemma keeps_clearTimers p (w : W) :
  (forall id, id ∈ workers (app w) -> p (HeartbeatCheck id) = false) ->
  keeps w (clearTimers p w).
Proof.
  intros Hp. apply keeps_world; [lia|]. intros id d Hin Hd.
  apply list_elem_of_In, List.filter_In. split; [by apply list_elem_of_In|].
  cbn. by rewrite (Hp id Hin).
Qed.

Lemma keeps_setApp f (w : W) :
  (forall id, id ∈ workers (f (app w)) -> id ∈ workers (app w)) ->
  lastHeartbeat (f (app w)) = lastHeartbeat (app w) ->
  keeps w (setApp f w).
Proof. intros Hw Hl. apply keeps_frame; cbn; try done; try lia. Qed.

Lemma keeps_processExit c (w : W) : keeps w (processExit c w).
Proof.
  eapply keeps_trans; [apply (keeps_emit (Exit c))|].
  apply (keeps_world (now (emit (Exit c) w)) (timers (emit (Exit c) w)) (Some c)
           (emit (Exit c) w)); [lia|done].
Qed.

Lemma keeps_fork (w : W) :
  fresh w -> keeps w (emit (Fork (S (ids (app w)))) (setApp addWorker w)).
Proof.
  intros Hf. split; [cbn; lia|]. split.
  { intros x Hx. cbn. apply elem_of_app. by left. }
  intros id Hin. cbn in Hin. apply elem_of_app in Hin as [Hin|Hin].
  - right. done.
  - left. apply list_elem_of_singleton in Hin as ->. exact Hf.
Qed.

Lemma watch_forkWorker (w : W) : fresh w -> watch_inv w -> watch_inv (forkWorker w).
Proof.
  intros Hf Hinv id t0 Hin E. cbn in Hin, E |- *.
  destruct (decide (id = S (ids (app w)))) as [->|Hne].
  - rewrite lookup_insert_eq in E. injection E as <-.
    exists (now w + timerDelay 30000). split.
    + apply elem_of_app. right. apply list_elem_of_here.
    + change (timerDelay 30000) with 30000. split; [lia|]. intros; lia.
  - rewrite lookup_insert_ne in E by done.
    apply elem_of_app in Hin as [Hin|Hin]; [|by apply list_elem_of_singleton in Hin].
    destruct (Hinv id t0 Hin E) as (d & Hd & Hle & Hk).
    exists d. split; [apply elem_of_app; by left|]. split; [done|].
    intros Hlate. apply elem_of_app. left. by apply Hk.
Qed.

Lemma keeps_restartFrom rest : forall i wids (w : W),
  fresh w -> keeps w (restartFrom i rest wids w).
Proof.
  induction rest as [|old rest IH]; intros i wids w Hf; simpl.
  { apply keeps_emit. }
  destruct (isLive old (app w)); [|by apply IH].
  cbn [clusterFork].
  set (w0 := emit (Log Info "Restarting worker ${worker.id}") w).
  eapply keeps_trans; [apply (keeps_emit (Log Info "Restarting worker ${worker.id}"))|].
  fold w0. change (ids (app w)) with (ids (app w0)).
  eapply keeps_trans; [apply keeps_fork; exact Hf|]. by apply keeps_setApp.
Qed.

Lemma keeps_exit_listeners id ls : forall w : W,
  id ∉ workers (app w) -> keeps w (fold_left (runExitListener id) ls w).
Proof.
  induction ls as [|l ls IH]; intros w Hid; simpl; [apply keeps_refl|].
  assert (H1 : keeps w (runExitListener id w l) /\ app (runExitListener id w l) = app w).
  { unfold runExitListener. destruct (Nat.eqb l.1 id); [|split; [apply keeps_refl|done]].
    destruct (l.2).
    - split; [|done]. apply keeps_clearTimers. intros id' Hin. cbn.
      apply Nat.eqb_neq. intros ->. done.
    - split; [apply keeps_setTimeout|done]. }
  destruct H1 as [H1 Ha]. eapply keeps_trans; [exact H1|]. apply IH. by rewrite Ha.
Qed.

Lemma watch_workerExit id (w : W) : fresh w -> watch_inv w -> watch_inv (workerExit id w).
Proof.
  intros Hf Hinv. unfold workerExit. cbv zeta.
  assert (Hgone : id ∉ workers (app (setApp (removeWorker id) w))).
  { cbn. intros Hin. apply list_elem_of_In, List.filter_In in Hin as [_ Hin].
    by rewrite Nat.eqb_refl in Hin. }
  assert (K1 : keeps w (fold_left (runExitListener id) (onExit (app (setApp (removeWorker id) w)))
                          (setApp (removeWorker id) w))).
  { eapply keeps_trans; [|by apply keeps_exit_listeners].
    apply keeps_setApp; [|done]. intros x Hx. cbn in Hx.
    apply list_elem_of_In, List.filter_In in Hx as [Hx _]. by apply list_elem_of_In. }
  assert (F1 : fresh (fold_left (runExitListener id) (onExit (app (setApp (removeWorker id) w)))
                        (setApp (removeWorker id) w))).
  { destruct (exit_listeners_frame id (onExit (app (setApp (removeWorker id) w)))
                (setApp (removeWorker id) w)) as (Ha & _). cbv zeta in Ha.
    unfold fresh. rewrite Ha. exact Hf. }
  apply (keeps_watch _ _ K1) in Hinv.
  set (w1 := fold_left _ _ _) in *. clearbody w1.
  unfold clusterOnExit. cbv zeta.
  set (w0 := emit (Log Warn "Worker died") w1).
  assert (H0 : watch_inv w0) by (by eapply keeps_watch; [apply keeps_emit|]).
  destruct (isShuttingDown (cstate (app w0))); [done|].
  destruct (_ <=? _)%nat; [by eapply keeps_watch; [apply keeps_emit|]|].
  apply watch_forkWorker; [exact F1|].
  eapply keeps_watch; [apply keeps_emit|].
  eapply keeps_watch; [|exact H0]. by apply keeps_setApp.
Qed.

Lemma keeps_listening id ls : forall w : W,
  keeps w (fold_left (runListeningListener id) ls w).
Proof.
  induction ls as [|l ls IH]; intros w; simpl; [apply keeps_refl|].
  eapply keeps_trans; [|apply IH].
  unfold runListeningListener. destruct (Nat.eqb l.1 id); [|apply keeps_refl].
  cbv zeta. eapply keeps_trans; [apply (keeps_emit (Disconnect (oldWorker l.2)))|].
  by apply keeps_setApp.
Qed.

Lemma keeps_gracefulShutdown sig (w : W) : keeps w (gracefulShutdown sig w).
Proof.
  destruct (isShuttingDown (cstate (app w))) eqn:Hs.
  { rewrite primary_shutdown_again by done. apply keeps_refl. }
  rewrite primary_shutdown_first by done.
  apply keeps_frame; cbn; try done; try lia.
  - intros x Hx. apply elem_of_app. by left.
  - intros id d _ Hd. apply elem_of_app. by left.
Qed.

Lemma watch_workerMessage id type (w : W) :
  watch_inv w -> watch_inv (workerMessage id type w).
Proof.
  intros Hinv. unfold workerMessage.
  set (w0 := if String.eqb type "heartbeat" then _ else _).
  assert (H0 : watch_inv w0).
  { unfold w0. destruct (String.eqb type "heartbeat"); [|done].
    destruct (lastHeartbeat (app w) !! id) as [t1|] eqn:E1; [|done].
    intros id' t0 Hin E. cbn in Hin, E |- *.
    destruct (decide (id' = id)) as [->|Hne].
    - rewrite lookup_insert_eq in E. injection E as <-.
      destruct (Hinv id t1 Hin E1) as (d & Hd & Hle & _).
      exists d. split; [done|]. split; [done|]. intros; lia.
    - rewrite lookup_insert_ne in E by done. by apply Hinv. }
  destruct (String.eqb type "log"); [|done]. by eapply keeps_watch; [apply keeps_emit|].
Qed.

Lemma tick_watch_inv (w : W) :
  pool_inv w -> Forall (fun y => now w <= y.1) (timers w) ->
  watch_inv w -> watch_inv (tick w).
Proof.
  intros Hpool Hdue Hinv.
  pose proof (tick_ticked fire w) as Ht. unfold tick.
  remember (Loop.tick fire w) as w2 eqn:E. clear E.
  destruct Ht as [_|d a l1 l2 Hex Htim Hmin]; [done|].
  assert (Hd : now w <= d).
  { rewrite Htim in Hdue. by apply Forall_middle in Hdue as [? _]. }
  set (w1 := record (Fired a) (mkWorld d (l1 ++ l2) None (trace w) (app w))).
  assert (F1 : fresh w1) by (by apply pool_fresh in Hpool).
  assert (Hother : (forall id, a <> HeartbeatCheck id) -> watch_inv w1).
  { intros Ha id t0 Hin E. cbn in Hin, E |- *.
    destruct (Hinv id t0 Hin E) as (d1 & Hd1 & Hle & Hk).
    assert (Hge : d <= d1) by (rewrite Forall_forall in Hmin; apply (Hmin _ Hd1)).
    exists d1. split.
    - rewrite Htim in Hd1. apply elem_of_app in Hd1 as [?|Hd1]; [apply elem_of_app; by left|].
      apply elem_of_cons in Hd1 as [Heq|?]; [|apply elem_of_app; by right].
      injection Heq as -> <-. by destruct (Ha id).
    - split.
      + lia.
      + intros Hlate. apply elem_of_app. left. by apply Hk. }
  destruct a as [| |i wids|id0]; cbn [fire].
  - specialize (Hother ltac:(done)). destruct (workers (app w1)) eqn:Hw.
    + eapply keeps_watch; [|exact Hother].
      eapply keeps_trans; [apply (keeps_clearTimers isPoll); done|].
      eapply keeps_trans; [|apply keeps_processExit]. apply keeps_emit.
    + eapply keeps_watch; [apply keeps_setTimeout|done].
  - specialize (Hother ltac:(done)).
    eapply keeps_watch; [|exact Hother].
    eapply keeps_trans; [|apply keeps_processExit]. apply keeps_emit.
  - specialize (Hother ltac:(done)).
    eapply keeps_watch; [by apply keeps_restartFrom|done].
  - clear Hother. intros id t0 Hin E.
    assert (Hin0 : id ∈ workers (app w)).
    { unfold heartbeatCheck in Hin. cbn in Hin.
      destruct (lastHeartbeat (app w) !! id0); [destruct (60000 <? d - _)|]; exact Hin. }
    assert (E0 : lastHeartbeat (app w) !! id = Some t0).
    { unfold heartbeatCheck in E. cbn in E.
      destruct (lastHeartbeat (app w) !! id0); [destruct (60000 <? d - _)|]; exact E. }
    destruct (Hinv id t0 Hin0 E0) as (d1 & Hd1 & Hle & Hk).
    assert (Hge : d <= d1) by (rewrite Forall_forall in Hmin; apply (Hmin _ Hd1)).
    assert (Htr : forall x, x ∈ trace w -> x ∈ trace (heartbeatCheck id0 w1)).
    { intros x Hx. unfold heartbeatCheck. cbn.
      destruct (lastHeartbeat (app w) !! id0); [destruct (60000 <? d - _)|]; cbn;
        repeat (apply elem_of_app; left); done. }
    assert (Hnow : now (heartbeatCheck id0 w1) = d).
    { unfold heartbeatCheck. cbn.
      destruct (lastHeartbeat (app w) !! id0); [destruct (60000 <? d - _)|]; done. }
    assert (Htm : timers (heartbeatCheck id0 w1) = (l1 ++ l2) ++ [(d + 30000, HeartbeatCheck id0)]).
    { unfold heartbeatCheck. cbn.
      destruct (lastHeartbeat (app w) !! id0); [destruct (60000 <? d - _)|]; done. }
    rewrite Hnow, Htm.
    rewrite Htim in Hd1. apply elem_of_app in Hd1 as [Hd1|Hd1].
    { exists d1. split; [apply elem_of_app; left; apply elem_of_app; by left|].
      split; [lia|]. intros Hlate. by apply Htr, Hk. }
    apply elem_of_cons in Hd1 as [Heq|Hd1].
    2:{ exists d1. split; [apply elem_of_app; left; apply elem_of_app; by right|].
        split; [lia|]. intros Hlate. by apply Htr, Hk. }
    injection Heq as Hdd Hii. subst d1 id0.
    exists (d + 30000). split; [apply elem_of_app; right; apply list_elem_of_here|].
    split; [lia|]. intros Hlate.
    replace (d + 30000 - 30000) with d by lia.
    unfold heartbeatCheck. cbn. rewrite E0.
    assert ((60000 <? d - t0) = true) as -> by lia. cbn.
    apply elem_of_app. right. apply list_elem_of_here.
Qed.

Lemma deliver_watch_inv t e (w : W) :
  pool_inv w -> now w <= t -> watch_inv w -> watch_inv (deliver t e w).
Proof.
  intros Hpool Ht Hinv. unfold deliver, Loop.deliver.
  assert (H0 : watch_inv (record (Recv e) (setNow t w))).
  { eapply keeps_watch; [|exact Hinv].
    eapply keeps_trans; [apply (keeps_world t (timers w) (exited w)); done|].
    apply keeps_record. }
  assert (F0 : fresh (record (Recv e) (setNow t w))) by (by apply pool_fresh in Hpool).
  set (w1 := record (Recv e) (setNow t w)) in *. clearbody w1.
  destruct e as [[| |]|id|id|id|id|id type]; cbn [handle].
  - eapply keeps_watch; [apply keeps_gracefulShutdown|done].
  - eapply keeps_watch; [apply keeps_gracefulShutdown|done].
  - unfold rollingRestart. cbv zeta.
    eapply keeps_watch; [|exact H0].
    eapply keeps_trans; [apply keeps_emit|]. by apply keeps_restartFrom.
  - by apply watch_workerExit.
  - unfold workerListening. cbv zeta.
    eapply keeps_watch; [|exact H0].
    eapply keeps_trans; [apply keeps_listening|]. apply keeps_emit.
  - eapply keeps_watch; [apply keeps_emit|done].
  - eapply keeps_watch; [apply keeps_emit|done].
  - by apply watch_workerMessage.
Qed.

Lemma forkWorkers_watch n : forall w : W,
  pool_inv w /\ watch_inv w -> pool_inv (forkWorkers n w) /\ watch_inv (forkWorkers n w).
Proof.
  induction n as [|n IH]; intros w [H1 H2]; simpl; [done|].
  apply IH. split; [by apply pool_forkWorker|].
  apply watch_forkWorker; [by apply pool_fresh|done].
Qed.

Lemma exec_watch_inv n timeoutEnv ins (w : W) :
  exec ins (start n timeoutEnv) = Some w -> pool_inv w /\ beat_inv w /\ watch_inv w.
Proof.
  apply (exec_invariant fire handle (fun w => pool_inv w /\ beat_inv w /\ watch_inv w)).
  - intros i w1 w2 (Hp & Hb & Hw) Hstep. split; [by eapply step_pool_inv|].
    apply step_cases in Hstep as [Hex [(-> & _ & ->)|(t & e & -> & Ht & Hq & ->)]].
    + split; [by apply tick_beat_inv|]. apply tick_watch_inv; [done| |done].
      by destruct Hb as (B0 & _).
    + split; [by apply deliver_beat_inv|]. by apply deliver_watch_inv.
  - destruct (exec_beat_inv n timeoutEnv [] _ eq_refl) as [Hp Hb].
    split; [done|]. split; [done|]. apply forkWorkers_watch. split.
    + apply (exec_pool_inv 0 timeoutEnv [] _ eq_refl).
    + intros id t0 Hin. cbn in Hin. by apply elem_of_nil in Hin.
Qed.

(** The watchdog kills a worker that stays silent: at any moment of any
    execution, a live worker with a watchdog whose last heartbeat (or whose
    fork, when it never sent one) lies more than 90000 ms back has been
    killed by a check that ran more than 60000 ms after that heartbeat, and
    its next check is pending. *)
Theorem watchdog_kills_silent_workers (n : nat) (timeoutEnv : option Z)
    (ins : list (Input Event)) (w : W) (id : nat) (t0 : Z) :
  exec ins (start n timeoutEnv) = Some w ->
  id ∈ workers (app w) ->
  lastHeartbeat (app w) !! id = Some t0 ->
  t0 + 90000 < now w ->
  exists t, (t, Out (Kill id)) ∈ trace w /\ t0 + 60000 < t <= now w /\
            (t + 30000, HeartbeatCheck id) ∈ timers w.
Proof.
  intros Hexec Hin E Hlate.
  destruct (exec_watch_inv n timeoutEnv ins w Hexec) as (_ & (B0 & _) & Hinv).
  destruct (Hinv id t0 Hin E) as (d & Hd & Hle & Hk).
  rewrite Forall_forall in B0. specialize (B0 _ Hd). cbn in B0.
  exists (d - 30000). split; [apply Hk; lia|]. split; [lia|].
  by replace (d - 30000 + 30000) with d by lia.
Qed.

(** A one-worker cluster left alone for four checks: the worker, forked at 0
    and silent, is killed at 90 s and again at 120 s. *)
Lemma watchdog_kills_silent_workers_witness :
  let w := run 4 (start 1 None) in
  exists t, (t, Out (Kill 1)) ∈ trace w /\ 0 + 60000 < t <= now w /\
            (t + 30000, HeartbeatCheck 1) ∈ timers w.
Proof.
  intros w.
  assert (H : exec [Tick; Tick; Tick; Tick] (start 1 None) = Some w)
    by (vm_compute; reflexivity).
  refine (watchdog_kills_silent_workers 1 None _ w 1 0 H _ _ _).
  - apply list_elem_of_In. vm_compute. tauto.
  - vm_compute. reflexivity.
  - vm_compute. reflexivity.
Defined.

End PrimaryLife.

(** ** The exit code of the primary *)

Module PrimaryExit.
Import Primary PrimaryFacts PrimaryLife.

(** While the primary lives after the termination signal, a poll is
    pending, due within 500 ms. *)
Definition polling (w : W) : Prop :=
  exited w = None -> exists d, (d, PollWorkers) ∈ timers w /\ d <= now w + 500.

Lemma tick_polling (w : W) :
  Forall (fun y => now w <= y.1) (timers w) -> polling w -> polling (tick w).
Proof.
  intros Hdue Hp.
  pose proof (tick_ticked fire w) as Ht. unfold tick.
  remember (Loop.tick fire w) as w2 eqn:E. clear E.
  destruct Ht as [_|d a l1 l2 Hex Htim Hmin]; [done|].
  destruct (Hp Hex) as (dp & Hdp & Hle).
  assert (Hd : now w <= d).
  { rewrite Htim in Hdue. by apply Forall_middle in Hdue as [? _]. }
  assert (Hrest : a <> PollWorkers -> (dp, PollWorkers) ∈ l1 ++ l2).
  { intros Ha. rewrite Htim in Hdp. eapply elem_of_middle_ne; [exact Hdp|congruence]. }
  destruct a as [| |i wids|id]; cbn [fire].
  - destruct (workers (app _)); [done|].
    intros _. exists (d + 500). split; [|cbn; lia].
    cbn. apply elem_of_app. right. apply list_elem_of_here.
  - done.
  - specialize (Hrest ltac:(done)). intros _. exists dp.
    unfold restartNext.
    match goal with |- context [restartFrom i ?r wids ?w0] =>
      destruct (restartFrom_frame r i wids w0) as (_ & -> & _ & -> & _) end.
    cbn. split; [done|lia].
  - specialize (Hrest ltac:(done)). intros _. exists dp.
    destruct (fire_frame (HeartbeatCheck id)
                (record (Fired (HeartbeatCheck id))
                   (mkWorld d (l1 ++ l2) None (trace w) (app w)))) as [_ Hn].
    cbn [fire] in Hn. rewrite Hn. cbn [record now]. split; [|lia].
    unfold heartbeatCheck. cbn.
    destruct (lastHeartbeat (app w) !! id); [destruct (60000 <? d - _)|];
      cbn; apply elem_of_app; by left.
Qed.

Lemma deliver_polling t e (w : W) :
  isShuttingDown (cstate (app w)) = true -> exited w = None -> now w <= t ->
  polling w -> polling (deliver t e w).
Proof.
  intros Hs Hex Ht Hp. destruct (Hp Hex) as (dp & Hdp & Hle).
  unfold deliver, Loop.deliver. set (w1 := record _ _).
  destruct (handle_frame e w1) as (He & Hn & _).
  intros _. exists dp. rewrite Hn. cbn [w1 record setNow now]. split; [|lia].
  apply handle_timers_elem; [done|by left|done].
Qed.

(** With no worker left and a poll due before the force-exit timer, the
    next poll ends the primary with code 0. *)
Definition leaving (timeoutEnv : option Z) (T N : Z) (w : W) : Prop :=
  stopping_inv timeoutEnv T w /\
  workers (app w) = [] /\
  now w <= N /\
  (exited w = None -> exists d, (d, PollWorkers) ∈ timers w /\ d <= N) /\
  (forall c, exited w = Some c -> c = 0).

Lemma tick_leaving timeoutEnv T N (w : W) :
  N < forceAt timeoutEnv T -> leaving timeoutEnv T N w -> leaving timeoutEnv T N (tick w).
Proof.
  intros HN (Hstop & Hw & Hnow & Hp & Hc).
  pose proof (tick_stopping_inv timeoutEnv T w Hstop) as Hstop'.
  destruct Hstop as (_ & _ & H3 & _).
  pose proof (tick_ticked fire w) as Ht. unfold tick in *.
  remember (Loop.tick fire w) as w2 eqn:E. clear E.
  destruct Ht as [_|d a l1 l2 Hex Htim Hmin]; [done|].
  destruct (Hp Hex) as (dp & Hdp & Hle).
  assert (Hd : d <= N).
  { rewrite Forall_forall in Hmin. apply Hmin in Hdp. cbn in Hdp. lia. }
  assert (Hrest : a <> PollWorkers -> (dp, PollWorkers) ∈ l1 ++ l2).
  { intros Ha. rewrite Htim in Hdp. eapply elem_of_middle_ne; [exact Hdp|congruence]. }
  rewrite Htim in H3. apply Forall_middle in H3 as [Ha3 _]. cbn in Ha3.
  split; [exact Hstop'|]. clear Hstop'.
  destruct a as [| |i wids|id]; cbn [fire].
  - cbn [record app]. rewrite Hw. cbn. repeat split; try done. by intros c [= <-].
  - specialize (Ha3 eq_refl). lia.
  - specialize (Hrest ltac:(done)).
    set (w1 := record _ _).
    destruct (restartNext_spec i wids w1) as [[_ ->]|(j & old & _ & _ & Hlive & _)].
    + cbn. repeat split; try done. intros _. by exists dp.
    + exfalso. cbn in Hlive. unfold isLive in Hlive. rewrite Hw in Hlive. done.
  - specialize (Hrest ltac:(done)).
    unfold heartbeatCheck. cbn.
    destruct (lastHeartbeat (app w) !! id); [destruct (60000 <? d - _)|]; cbn;
      (repeat split; try done; intros _; exists dp; split; [apply elem_of_app; by left|done]).
Qed.

Lemma leaving_exits timeoutEnv T N (w : W) :
  N < forceAt timeoutEnv T -> leaving timeoutEnv T N w ->
  exists n, exited (run n w) = Some 0 /\ now (run n w) <= N.
Proof.
  intros HN Hl.
  destruct (run_exits fire primary_fire_timers (leaving timeoutEnv T N) N) with (w := w)
    as [n Hn].
  - intros w1. by apply tick_leaving.
  - intros w1 (_ & _ & _ & Hp & _) Hex. destruct (Hp Hex) as (d & Hd & Hle).
    by exists (d, PollWorkers).
  - done.
  - exists n.
    pose proof (run_invariant fire (leaving timeoutEnv T N)
                  (fun w1 => tick_leaving timeoutEnv T N w1 HN) n w Hl)
      as (_ & _ & Hnow & _ & Hc).
    fold (run n w) in *. split; [|done].
    destruct (exited (run n w)) as [c|]; [|done]. by rewrite (Hc c eq_refl).
Qed.

(** What holds in every execution after the termination signal. *)
Lemma exec_polling numWorkers timeoutEnv ins0 (w0 : W) T e ins (w' : W) :
  exec ins0 (start numWorkers timeoutEnv) = Some w0 ->
  isShuttingDown (cstate (app w0)) = false ->
  isTerminate e = true ->
  step (Ext T e) w0 = Some (deliver T e w0) ->
  exec ins (deliver T e w0) = Some w' ->
  stopping_inv timeoutEnv T w' /\ polling w'.
Proof.
  intros H0 Hs He H1 Hexec.
  pose proof (exec_running_inv numWorkers timeoutEnv ins0 w0 H0) as Hrun.
  pose proof (terminate_stopping_inv timeoutEnv T e w0 Hrun Hs He) as Hstop.
  assert (Hall : exec (ins0 ++ [Ext T e]) (start numWorkers timeoutEnv)
                 = Some (deliver T e w0)).
  { unfold exec. rewrite exec_app. fold (exec ins0 (start numWorkers timeoutEnv)).
    rewrite H0. cbn. unfold step in H1. by rewrite H1. }
  destruct (exec_beat_inv numWorkers timeoutEnv _ _ Hall) as [Hpool Hbeat].
  assert (Hpoll : polling (deliver T e w0)).
  { intros _. exists (T + 500). unfold deliver, Loop.deliver.
    destruct e as [[| |]| | | | |]; try discriminate He; cbn [handle];
      rewrite primary_shutdown_first by done; cbn;
      (split; [|lia]); apply elem_of_app; right; apply list_elem_of_here. }
  cut ((pool_inv w' /\ beat_inv w') /\ stopping_inv timeoutEnv T w' /\ polling w').
  { tauto. }
  revert Hexec.
  apply (exec_invariant fire handle
           (fun w => (pool_inv w /\ beat_inv w) /\ stopping_inv timeoutEnv T w /\ polling w));
    [|done].
  intros i wa wb ([Hp Hb] & Hst & Hpl) Hstep.
  split.
  { split; [by eapply step_pool_inv|].
    apply step_cases in Hstep as [Hex [(-> & _ & ->)|(t & e' & -> & Ht & Hq & ->)]].
    - by apply tick_beat_inv.
    - by apply deliver_beat_inv. }
  split; [by eapply step_stopping_inv|].
  apply step_cases in Hstep as [Hex [(-> & _ & ->)|(t & e' & -> & Ht & Hq & ->)]].
  - apply tick_polling; [|done]. by destruct Hb as (B0 & _).
  - apply deliver_polling; try done. by destruct Hst as (_ & ? & _).
Qed.

End PrimaryExit.

(** C6, as claimed, fails: the force-exit timer never looks at the workers.
    With the default timeout and SIGTERM at time 0 the polls run at 500, ...,
    29500 ms; both workers have exited at 29600 ms, before the timeout, but
    the timer due at 30000 ms was armed before the poll due at the same
    time, and the primary exits with code 1.  With a timeout of 1250 ms no
    two timers are due together: the workers are gone at 1100 ms, between
    the poll at 1000 ms and the timer at 1250 ms, and the exit code is 1. *)
Lemma C6_exit_code_counterexample :
  (exists w w',
     Primary.exec ([Ext 0 (Primary.Sig Primary.SIGTERM)] ++ repeat Tick 59 ++
                   [Ext 29600 (Primary.WorkerExit 1); Ext 29600 (Primary.WorkerExit 2)])
                  (Primary.start 2 None) = Some w /\
     Primary.workers (app w) = [] /\ exited w = None /\ now w = 29600 /\
     Primary.forceAt None 0 = 30000 /\
     Primary.step Tick w = Some w' /\
     exited w' = Some 1 /\ now w' = 30000 /\ Primary.workers (app w') = []) /\
  (exists w w',
     Primary.exec [Ext 0 (Primary.Sig Primary.SIGTERM); Tick; Tick;
                   Ext 1100 (Primary.WorkerExit 1); Ext 1100 (Primary.WorkerExit 2)]
                  (Primary.start 2 (Some 1250)) = Some w /\
     Primary.workers (app w) = [] /\ exited w = None /\ now w = 1100 /\
     Primary.forceAt (Some 1250) 0 = 1250 /\
     Primary.step Tick w = Some w' /\
     exited w' = Some 1 /\ now w' = 1250 /\ Primary.workers (app w') = []).
Proof.
  split.
  - eexists. eexists. split; [vm_compute; reflexivity|].
    repeat split; vm_compute; reflexivity.
  - eexists. eexists. split; [vm_compute; reflexivity|].
    repeat split; vm_compute; reflexivity.
Qed.

(** C6, amended.  On SIGTERM or SIGINT a primary that is not yet shutting
    down sets [isShuttingDown], sends the shutdown message to every live
    worker, and arms the 500 ms poll and the force-exit timer (30000 ms by
    default).  From then on, whatever happens, exit code 0 is given only by
    a poll that finds no worker left, and it is given when no worker is left
    more than 500 ms before the timer is due: the primary then ends with code
    0 within 500 ms; the timer exits with code 1 when it fires, whether or
    not a worker is still alive; an exit with code 1 comes at the time the
    timer is due; the clock does not pass the timer, and the primary does
    exit.  A worker exits with code 0 only from its poll, with
    no connection left, and with code 1 otherwise, in particular when its
    port is already in use. *)
Theorem C6_cluster_shutdown_exit_codes (numWorkers : nat) (timeoutEnv : option Z)
    (ins0 : list (Input Primary.Event)) (w0 w1 : Primary.W) (T : Z) (e : Primary.Event) :
  Primary.exec ins0 (Primary.start numWorkers timeoutEnv) = Some w0 ->
  Primary.isShuttingDown (Primary.cstate (app w0)) = false ->
  Primary.isTerminate e = true ->
  Primary.step (Ext T e) w0 = Some w1 ->
  Primary.isShuttingDown (Primary.cstate (app w1)) = true /\
  (exists name,
     trace w1 = trace w0 ++
       (T, Recv e)
       :: (T, Out (Primary.Log Info ("Primary received " +:+ name +:+
                                     ", initiating graceful shutdown")))
       :: map (fun id => (T, Out (Primary.Send id "shutdown"))) (Primary.workers (app w0))) /\
  timers w1 = timers w0 ++ [(T + 500, Primary.PollWorkers);
                            (Primary.forceAt timeoutEnv T, Primary.ShutdownTimeout)] /\
  Primary.forceAt None T = T + 30000 /\
  (forall ins w', Primary.exec ins w1 = Some w' ->
     now w' <= Primary.forceAt timeoutEnv T /\
     (forall c, exited w' = Some c ->
        (c = 0 /\ Primary.workers (app w') = []) \/
        (c = 1 /\ now w' = Primary.forceAt timeoutEnv T)) /\
     (exists n c,
        exited (Primary.run n w') = Some c /\
        now (Primary.run n w') <= Primary.forceAt timeoutEnv T /\
        ((c = 0 /\ Primary.workers (app (Primary.run n w')) = []) \/
         (c = 1 /\ now (Primary.run n w') = Primary.forceAt timeoutEnv T))) /\
     (exited w' = None -> Primary.workers (app w') = [] ->
      now w' + 500 < Primary.forceAt timeoutEnv T ->
      exists n, exited (Primary.run n w') = Some 0 /\
                now (Primary.run n w') <= now w' + 500) /\
     (Primary.workers (app w') = [] ->
        exited (Primary.fire Primary.PollWorkers w') = Some 0) /\
     (Primary.workers (app w') <> [] ->
        exited (Primary.fire Primary.PollWorkers w') = exited w' /\
        timers (Primary.fire Primary.PollWorkers w')
        = timers w' ++ [(now w' + 500, Primary.PollWorkers)]) /\
     exited (Primary.fire Primary.ShutdownTimeout w') = Some 1) /\
  (forall w : Worker.W, exited (Worker.handle (Worker.ServerError true) w) = Some 1) /\
  (forall cfg clustered ins (w : Worker.W) c,
     Worker.exec ins (Worker.start cfg clustered) = Some w ->
     exited w = Some c ->
     (c = 0 /\ Worker.connections (Worker.server (app w)) = []) \/ c = 1).
Proof.
  intros H0 Hs He H1.
  pose proof (PrimaryFacts.exec_running_inv numWorkers timeoutEnv ins0 w0 H0) as Hrun.
  pose proof H1 as Hstep1.
  apply step_cases in H1 as [Hex [(? & _)|(t & e' & [= <- <-] & Hnow & Hq & ->)]];
    [done|].
  assert (Hlive : forall ins w',
            Primary.exec ins (Loop.deliver Primary.handle T e w0) = Some w' ->
            exited w' = None -> Primary.workers (app w') = [] ->
            now w' + 500 < Primary.forceAt timeoutEnv T ->
            exists n, exited (Primary.run n w') = Some 0 /\
                      now (Primary.run n w') <= now w' + 500).
  { intros ins w' Hexec Hex' Hw HN.
    apply (PrimaryExit.leaving_exits timeoutEnv T (now w' + 500)); [done|].
    destruct (PrimaryExit.exec_polling numWorkers timeoutEnv ins0 w0 T e ins w'
                H0 Hs He Hstep1 Hexec) as [Hst Hpl].
    split; [done|]. split; [done|]. split; [lia|]. split; [|by rewrite Hex'].
    intros _. by apply Hpl. }
  clear Hstep1.
  pose proof (PrimaryFacts.terminate_stopping_inv timeoutEnv T e w0 Hrun Hs He) as Hinv.
  unfold Primary.deliver in Hinv.
  destruct Hrun as [Henv _].
  assert (Hw1 : exists name,
            Loop.deliver Primary.handle T e w0
            = Primary.gracefulShutdown name (record (Recv e) (setNow T w0))).
  { destruct e as [[| |]| | | | |]; try discriminate He; by eexists. }
  destruct Hw1 as [name Hw1].
  rewrite Hw1 in *.
  rewrite PrimaryFacts.primary_shutdown_first in * by done.
  split; [done|].
  split. { exists name. cbn. by rewrite <- app_assoc. }
  split. { cbn. unfold Primary.forceAt, Primary.shutdownTimeout. cbn. by rewrite Henv. }
  split; [done|].
  split.
  { intros ins w' Hexec.
    pose proof (PrimaryFacts.exec_stopping_inv timeoutEnv T ins _ w' Hinv Hexec)
      as (E1 & E2 & E3 & E4 & E5 & E6).
    split; [done|]. split; [done|].
    split.
    { destruct (PrimaryFacts.stopping_exits timeoutEnv T w') as [n Hn]; [done|].
      pose proof (PrimaryFacts.run_stopping_inv timeoutEnv T n w')
        as (_ & _ & _ & _ & R5 & R6); [done|].
      destruct (exited (Primary.run n w')) as [c|] eqn:Ec; [|done].
      exists n, c. split; [done|]. split; [done|]. by apply R6. }
    split; [by apply (Hlive ins)|].
    split. { intros Hw. cbn [Primary.fire]. by rewrite Hw. }
    split. { intros Hw. cbn [Primary.fire].
             by destruct (Primary.workers (app w')). }
    done. }
  split; [done|].
  intros cfg clustered ins w c Hexec Hc.
  by apply (WorkerFacts.exec_exit_codes cfg clustered ins w Hexec).
Qed.

(** C6 on a two-worker cluster with the default timeout, SIGTERM at 100 ms:
    the poll is due at 600 ms and the force-exit timer at 30100 ms; the
    workers exit at 200 and 300 ms, and the first poll exits with code 0. *)
Lemma C6_cluster_shutdown_exit_codes_witness :
  let w1 := Primary.deliver 100 (Primary.Sig Primary.SIGTERM) (Primary.start 2 None) in
  let w' := Primary.tick (Primary.deliver 300 (Primary.WorkerExit 2)
                            (Primary.deliver 200 (Primary.WorkerExit 1) w1)) in
  timers w1 = timers (Primary.start 2 None)
              ++ [(600, Primary.PollWorkers); (Primary.forceAt None 100, Primary.ShutdownTimeout)] /\
  exited w' = Some 0 /\ now w' = 600 /\ Primary.workers (app w') = [] /\
  now w' <= Primary.forceAt None 100.
Proof.
  intros w1 w'.
  assert (H0 : Primary.exec [] (Primary.start 2 None) = Some (Primary.start 2 None))
    by reflexivity.
  assert (H1 : Primary.step (Ext 100 (Primary.Sig Primary.SIGTERM)) (Primary.start 2 None)
               = Some w1)
    by (vm_compute; reflexivity).
  assert (H2 : Primary.exec [Ext 200 (Primary.WorkerExit 1); Ext 300 (Primary.WorkerExit 2);
                             Tick] w1 = Some w')
    by (vm_compute; reflexivity).
  assert (Hex : exited w' = Some 0) by (vm_compute; reflexivity).
  destruct (C6_cluster_shutdown_exit_codes 2 None [] _ _ 100
              (Primary.Sig Primary.SIGTERM) H0 eq_refl eq_refl H1)
    as (_ & _ & Htimers & _ & Hafter & _).
  destruct (Hafter _ w' H2) as (Hnow & Hcode & _).
  split; [exact Htimers|]. split; [exact Hex|]. split; [vm_compute; reflexivity|].
  split; [|exact Hnow].
  destruct (Hcode 0 Hex) as [[_ Hw]|[Hc _]]; [exact Hw|discriminate Hc].
Defined.

(** ** The rolling restart, undisturbed *)

Module Rolling.
Import Primary PrimaryFacts PrimaryLife.

Definition isRestartSignal (o : Obs Action Event Effect) : bool :=
  match o with Recv (Sig SIGUSR2) => true | _ => false end.

Definition isComplete (o : Obs Action Event Effect) : bool :=
  match o with
  | Out (Log Info msg) => String.eqb msg "Rolling restart complete"
  | _ => false
  end.

(** A rolling restart is in flight: SIGUSR2 was received and the restart is
    not reported complete. *)
Definition inFlight (tr : list (Z * Obs Action Event Effect)) : bool :=
  occurs isRestartSignal tr && negb (occurs isComplete tr).

(** The schedules in which one rolling restart runs undisturbed, as the
    specification assumes.  SIGUSR2 is received once.  While the rolling
    restart is in flight a worker exits only when the rolling restart has
    asked it to disconnect: no worker crashes, and neither the watchdog nor a
    shutdown of the cluster ends one meanwhile; before SIGUSR2, and once the
    restart is complete, workers may crash.  The notifications are those of
    the cluster module: the exit of a worker that is alive; the listening of
    a worker that was forked, once, as [server.js] calls [listen] once. *)
Definition calmInput (i : Input Event) (w : W) : bool :=
  match i with
  | Ext _ (Sig SIGUSR2) => negb (occurs isRestartSignal (trace w))
  | Ext _ (WorkerExit id) =>
      isLive id (app w) &&
      (negb (inFlight (trace w)) || occurs (isDisconnectOf id) (trace w))
  | Ext _ (WorkerListening id) =>
      occurs (isForkOf id) (trace w) && negb (occurs (isListeningOf id) (trace w))
  | _ => true
  end.

Fixpoint calm (ins : list (Input Event)) (w : W) : bool :=
  match ins with
  | [] => true
  | i :: ins' =>
      calmInput i w &&
      match step i w with
      | Some w' => calm ins' w'
      | None => true
      end
  end.










Lemma filter_app_nil {A} (f : A -> bool) (l more : list A) :
  Forall (fun x => f x = false) more -> List.filter f (l ++ more) = List.filter f l.
Proof.
  intros H. rewrite List.filter_app.
  assert (List.filter f more = []) as ->; [|by rewrite app_nil_r].
  induction H as [|x more Hx _ IH]; [done|]. cbn. by rewrite Hx.
Qed.











(** *** The invariant of an undisturbed rolling restart *)














(** *** The steps of a schedule, seen from the rolling restart *)





























Section Invariant.
Variable ws : list nat.    (* the ids of the workers when SIGUSR2 arrived *)






























End Invariant.




(** *** Schedules *)












(** The hypothesis is needed.  Two workers; SIGUSR2 forks worker 3 for
    worker 1; worker 2 crashes while the rolling restart is in flight (the
    exit handler of the cluster forks worker 4); worker 3 listens, worker 1 is
    disconnected and exits; one second later the rolling restart reaches
    id 2, finds no worker, forks nothing and is complete: worker 2 was never
    asked to disconnect. *)
Remark crash_disturbs_rolling_restart :
  calm [Ext 10 (Sig SIGUSR2); Ext 20 (WorkerExit 2); Ext 30 (WorkerListening 3);
        Ext 40 (WorkerExit 1); Tick] (start 2 None) = false /\
  exists w,
    exec [Ext 10 (Sig SIGUSR2); Ext 20 (WorkerExit 2); Ext 30 (WorkerListening 3);
          Ext 40 (WorkerExit 1); Tick] (start 2 None) = Some w /\
    trace w !! 18%nat = Some (1040, Fired (RestartNext 1 [1; 2]%nat)) /\
    drop 19 (trace w) = [(1040, Out (Log Info "Rolling restart complete"))] /\
    forks (trace w) = [1; 2; 3; 4; 5]%nat /\
    map fst (onListening (app w)) = [3]%nat /\
    occurs (isDisconnectOf 2) (trace w) = false.
Proof.
  split; [vm_compute; reflexivity|].
  eexists. split; [vm_compute; reflexivity|].
  repeat split; vm_compute; reflexivity.
Qed.

End Rolling.

(** ** The health routes, further *)

Module ProbesFacts.
Import Health Probes.

(** [formatUptime] shows the two or three most significant units of the
    uptime in whole seconds [s]: below a minute the seconds; below an hour
    minutes and seconds; below a day hours, minutes and seconds; from one day
    on days, hours and minutes, the seconds being dropped.  Each unit but the
    first is below its modulus.  An uptime that is negative (the clock was
    set back) is shown in seconds, rounded down. *)
Theorem formatUptime_units (ms : Z) :
  let s := ms / 1000 in
  (s < 60 -> formatUptime ms = pretty s +:+ "s") /\
  (60 <= s < 3600 ->
     formatUptime ms = pretty (s / 60) +:+ "m " +:+ pretty (s mod 60) +:+ "s") /\
  (3600 <= s < 86400 ->
     formatUptime ms = pretty (s / 3600) +:+ "h " +:+ pretty (s / 60 mod 60) +:+ "m "
                         +:+ pretty (s mod 60) +:+ "s") /\
  (86400 <= s ->
     formatUptime ms = pretty (s / 86400) +:+ "d " +:+ pretty (s / 3600 mod 24) +:+ "h "
                         +:+ pretty (s / 60 mod 60) +:+ "m") /\
  (0 <= s -> 0 <= s mod 60 < 60 /\ 0 <= s / 60 mod 60 < 60 /\ 0 <= s / 3600 mod 24 < 24 /\
             s = s / 86400 * 86400 + s / 3600 mod 24 * 3600 + s / 60 mod 60 * 60 + s mod 60).
Proof.
  intros s. unfold formatUptime. fold s. cbv zeta.
  assert (H1 : s / 60 / 60 = s / 3600) by (rewrite Z.div_div by lia; done).
  assert (H2 : s / 60 / 60 / 24 = s / 86400) by (rewrite !Z.div_div by lia; done).
  rewrite H2, H1.
  split; [|split; [|split; [|split]]].
  - intros Hs.
    assert (s / 86400 <= 0 /\ s / 3600 <= 0 /\ s / 60 <= 0) as (A & B & C)
      by (Z.div_mod_to_equations; lia).
    destruct (Z.ltb_spec 0 (s / 86400)); [lia|].
    destruct (Z.ltb_spec 0 (s / 3600)); [lia|].
    destruct (Z.ltb_spec 0 (s / 60)); [lia|]. done.
  - intros Hs.
    assert (s / 86400 <= 0 /\ s / 3600 <= 0 /\ 0 < s / 60) as (A & B & C)
      by (Z.div_mod_to_equations; lia).
    destruct (Z.ltb_spec 0 (s / 86400)); [lia|].
    destruct (Z.ltb_spec 0 (s / 3600)); [lia|].
    destruct (Z.ltb_spec 0 (s / 60)); [|lia].
    by rewrite Z.rem_mod_nonneg by lia.
  - intros Hs.
    assert (s / 86400 <= 0 /\ 0 < s / 3600 /\ 0 < s / 60) as (A & B & C)
      by (Z.div_mod_to_equations; lia).
    destruct (Z.ltb_spec 0 (s / 86400)); [lia|].
    destruct (Z.ltb_spec 0 (s / 3600)); [|lia].
    by rewrite !Z.rem_mod_nonneg by lia.
  - intros Hs.
    assert (0 < s / 86400 /\ 0 < s / 3600 /\ 0 < s / 60) as (A & B & C)
      by (Z.div_mod_to_equations; lia).
    destruct (Z.ltb_spec 0 (s / 86400)); [|lia].
    by rewrite !Z.rem_mod_nonneg by lia.
  - intros Hs. Z.div_mod_to_equations. lia.
Qed.

(** The four probes compared on the same readings: the liveness probe and
    the detailed report always answer 200, also when a check fails; [GET
    /health] answers 200 exactly when the checks pass, whether or not the
    application is ready; so a ready answer of [GET /health/ready] implies a
    healthy answer of [GET /health], and the two agree once the application is
    ready.  No probe changes [isReady], and the probes that run the checks
    leave the same state behind. *)
Theorem probes_compared (r : Readings) (uptime : Z) (hs : healthState) :
  statusCode (getLive hs).1 = 200 /\ (getLive hs).2 = hs /\
  statusCode (response (getDetailed r uptime hs).1) = 200 /\
  ready (getDetailed r uptime hs).1 = isReady hs /\
  (statusCode (getHealth r hs).1 = 200 <-> allHealthy (checksOf r) = true) /\
  (statusCode (getHealth r hs).1 = 503 <-> allHealthy (checksOf r) = false) /\
  (statusCode (getReady r hs).1 = 200 -> statusCode (getHealth r hs).1 = 200) /\
  (isReady hs = true -> statusCode (getReady r hs).1 = statusCode (getHealth r hs).1) /\
  isReady (getHealth r hs).2 = isReady hs /\
  isReady (getReady r hs).2 = isReady hs /\
  (getDetailed r uptime hs).2 = (getHealth r hs).2 /\
  (isReady hs = true -> (getReady r hs).2 = (getHealth r hs).2) /\
  (isReady hs = false -> (getReady r hs).2 = hs).
Proof.
  unfold getLive, getDetailed, getHealth, getReady, runHealthChecks. cbv zeta.
  set (cs := checksOf r). clearbody cs.
  destruct (isReady hs) eqn:Hr; cbn [negb fst snd isHealthy isReady statusCode
      response ready];
    destruct (allHealthy cs) eqn:Hh; rewrite ?Hr;
    repeat split; try done; try (intros; discriminate).
Qed.

(** *** The health state over any sequence of requests *)

(** The entries of [healthState.checks] are the three named checks; either
    no check has ever run (every status is ['unknown'], no time is recorded
    and [isHealthy] has its initial value), or all three carry the result
    and the time of one and the same run, and [isHealthy] is their
    conjunction. *)
Definition consistent (hs : healthState) : Prop :=
  (forall name, is_Some (checks hs !! name) <-> name ∈ checkNames) /\
  ((isHealthy hs = true /\
    forall name c, checks hs !! name = Some c -> status c = unknown /\ lastCheck c = None) \/
   (exists r,
      checks hs !! "memory"
        = Some {| status := statusOf (memoryHealthy r); lastCheck := Some (eventLoopStart r) |} /\
      checks hs !! "eventLoop"
        = Some {| status := statusOf (eventLoopHealthy r); lastCheck := Some (eventLoopEnd r) |} /\
      checks hs !! "database"
        = Some {| status := healthy; lastCheck := Some (eventLoopEnd r) |} /\
      isHealthy hs = allHealthy (checksOf r))).

Lemma consistent_initial : consistent initial.
Proof.
  split.
  - intros name. unfold initial, checkNames. cbn [checks].
    rewrite !lookup_insert_is_Some, lookup_empty, is_Some_alt.
    rewrite !elem_of_cons, elem_of_nil. intuition congruence.
  - left. split; [done|]. intros name c. unfold initial. cbn [checks].
    rewrite !lookup_insert_Some, lookup_empty.
    intros [[_ <-]|[_ [[_ <-]|[_ [[_ <-]|[_ ?]]]]]]; done.
Qed.

Lemma consistent_run r hs : consistent hs -> consistent (runHealthChecks r hs).2.
Proof.
  intros [Hdom _]. split.
  - intros name. unfold runHealthChecks, updateHealthCheck. cbn [snd checks].
    rewrite !lookup_insert_is_Some, Hdom. unfold checkNames.
    rewrite !elem_of_cons, elem_of_nil. intuition congruence.
  - right. exists r. unfold runHealthChecks, updateHealthCheck. cbn [snd checks isHealthy].
    rewrite lookup_insert_ne by done. rewrite lookup_insert_ne by done.
    rewrite lookup_insert_eq.
    rewrite (lookup_insert_ne _ "database" "eventLoop") by done.
    rewrite !lookup_insert_eq. done.
Qed.

Lemma consistent_serve q hs : consistent hs -> consistent (serve q hs).
Proof.
  intros H. destruct q as [r| |r|r uptime| |]; cbn [serve].
  - by apply (consistent_run r).
  - done.
  - unfold getReady. destruct (isReady hs); cbn [negb snd]; [|done].
    by apply (consistent_run r).
  - by apply (consistent_run r).
  - done.
  - done.
Qed.

(** Whatever requests have been served since start-up, [healthState] holds
    exactly the three named checks, and what it says is of one piece: before
    the first run of the checks everything is at its initial value; after
    it, the three entries and [isHealthy] all come from the same run, so
    [isHealthy] holds exactly when no entry is ['unhealthy']. *)
Theorem health_state_is_consistent (qs : list Request) :
  let hs := serveAll qs initial in
  consistent hs /\
  (isHealthy hs = true <->
   forall name c, checks hs !! name = Some c -> status c <> unhealthy).
Proof.
  intros hs.
  assert (H : consistent hs).
  { unfold hs, serveAll. generalize consistent_initial. generalize initial.
    induction qs as [|q qs IH]; intros hs0 H0; simpl; [done|].
    apply IH. by apply consistent_serve. }
  split; [done|].
  destruct H as [Hdom [[Hh Hall]|(r & Hm & He & Hd & Hh)]].
  - split; [|done]. intros _ name c Hc. destruct (Hall name c Hc) as [-> _]. done.
  - rewrite Hh, allHealthy_checksOf.
    destruct (memoryHealthy r) eqn:Em, (eventLoopHealthy r) eqn:Ee;
      cbn [andb statusOf] in *; (split; [intros Hok name c Hc|intros Hok]);
      try discriminate; try reflexivity.
    + assert (Hin : name ∈ checkNames) by (apply Hdom; by eexists).
      unfold checkNames in Hin. rewrite !elem_of_cons, elem_of_nil in Hin.
      destruct Hin as [->|[->|[->|[]]]]; simplify_eq; done.
    + by destruct (Hok _ _ He).
    + by destruct (Hok _ _ Hm).
    + by destruct (Hok _ _ Hm).
Qed.

End ProbesFacts.

(** ** The user store, further *)

Module UsersFacts.
Import Users.

(** *** The Map *)

Lemma eqb_refl' (s : string) : String.eqb s s = true.
Proof. apply String.eqb_refl. Qed.

Lemma mapGet_cons (k k' : string) (v : User) (m : Store) :
  mapGet k ((k', v) :: m) = if String.eqb k' k then Some v else mapGet k m.
Proof. unfold mapGet; cbn. by destruct (String.eqb k' k). Qed.

Lemma mapGet_mapSet (k : string) (v : User) (m : Store) :
  mapGet k (mapSet k v m) = Some v.
Proof.
  induction m as [|[k' v'] m IH]; cbn [mapSet].
  - by rewrite mapGet_cons, eqb_refl'.
  - destruct (String.eqb k' k) eqn:E; rewrite mapGet_cons.
    + by rewrite eqb_refl'.
    + by rewrite E.
Qed.

Lemma mapGet_mapSet_ne (k k0 : string) (v : User) (m : Store) :
  k0 <> k -> mapGet k0 (mapSet k v m) = mapGet k0 m.
Proof.
  intros Hne. induction m as [|[k' v'] m IH]; cbn [mapSet].
  - rewrite mapGet_cons. by apply String.eqb_neq in Hne; rewrite String.eqb_sym, Hne.
  - destruct (String.eqb k' k) eqn:E; rewrite !mapGet_cons.
    + apply String.eqb_eq in E; subst k'.
      assert (String.eqb k k0 = false) as -> by (apply String.eqb_neq; congruence).
      done.
    + by rewrite IH.
Qed.

Lemma mapGet_mapDelete (k : string) (m : Store) : mapGet k (mapDelete k m) = None.
Proof.
  induction m as [|[k' v'] m IH]; [done|]. unfold mapDelete in *; cbn.
  destruct (String.eqb k' k) eqn:E; cbn; [done|]. by rewrite mapGet_cons, E.
Qed.

Lemma mapGet_mapDelete_ne (k k0 : string) (m : Store) :
  k0 <> k -> mapGet k0 (mapDelete k m) = mapGet k0 m.
Proof.
  intros Hne. induction m as [|[k' v'] m IH]; [done|]. unfold mapDelete in *; cbn.
  destruct (String.eqb k' k) eqn:E; cbn; rewrite !mapGet_cons.
  - apply String.eqb_eq in E; subst k'.
    assert (String.eqb k k0 = false) as -> by (apply String.eqb_neq; congruence).
    done.
  - by rewrite IH.
Qed.

Lemma mapGet_None (k : string) (m : Store) : mapGet k m = None <-> k ∉ map fst m.
Proof.
  induction m as [|[k' v'] m IH]; cbn.
  - split; [intros _; apply not_elem_of_nil|done].
  - rewrite mapGet_cons, not_elem_of_cons. destruct (String.eqb k' k) eqn:E.
    + apply String.eqb_eq in E. split; [done|]. intros [? _]; congruence.
    + apply String.eqb_neq in E. rewrite IH. split; [intros ?; split; congruence|tauto].
Qed.

Lemma mapGet_Some_elem (k : string) (u : User) (m : Store) :
  mapGet k m = Some u -> (k, u) ∈ m.
Proof.
  induction m as [|[k' v'] m IH]; [done|]. rewrite mapGet_cons.
  destruct (String.eqb k' k) eqn:E.
  - apply String.eqb_eq in E. intros [= ->]. subst. apply list_elem_of_here.
  - intros ?. apply list_elem_of_further; auto.
Qed.

Lemma mapSet_absent (k : string) (v : User) (m : Store) :
  k ∉ map fst m -> mapSet k v m = m ++ [(k, v)].
Proof.
  induction m as [|[k' v'] m IH]; cbn; [done|]. rewrite not_elem_of_cons. intros [Hne Hk].
  assert (String.eqb k' k = false) as -> by (apply String.eqb_neq; congruence).
  by rewrite IH.
Qed.

Lemma mapSet_keys_present (k : string) (v : User) (m : Store) :
  k ∈ map fst m -> map fst (mapSet k v m) = map fst m.
Proof.
  induction m as [|[k' v'] m IH]; cbn; [by intros ?%elem_of_nil|].
  destruct (String.eqb k' k) eqn:E.
  - apply String.eqb_eq in E. by subst.
  - apply String.eqb_neq in E. rewrite elem_of_cons. intros [?|?]; [congruence|].
    cbn. by rewrite IH.
Qed.

Lemma mapSet_length_present (k : string) (v : User) (m : Store) :
  k ∈ map fst m -> length (mapSet k v m) = length m.
Proof.
  intros H. rewrite <- (length_map fst (mapSet k v m)), mapSet_keys_present by done.
  apply length_map.
Qed.

(** The users of a store after [set]: the one at the key is replaced, or
    the new one comes last. *)
Lemma mapSet_split (k : string) (v : User) (m : Store) :
  ((k ∉ map fst m) /\ mapSet k v m = m ++ [(k, v)]) \/
  (exists m1 v0 m2, m = m1 ++ (k, v0) :: m2 /\ (k ∉ map fst m1) /\
                    mapSet k v m = m1 ++ (k, v) :: m2).
Proof.
  induction m as [|[k' v'] m IH]; cbn.
  - left. split; [apply not_elem_of_nil|done].
  - destruct (String.eqb k' k) eqn:E.
    + apply String.eqb_eq in E; subst k'. right. exists [], v', m.
      split; [done|]. split; [apply not_elem_of_nil|done].
    + apply String.eqb_neq in E. destruct IH as [[Hk ->]|(m1 & v0 & m2 & -> & Hk & ->)].
      * left. split; [|done]. rewrite not_elem_of_cons. split; congruence.
      * right. exists ((k', v') :: m1), v0, m2. split; [done|]. split; [|done].
        cbn. rewrite not_elem_of_cons. split; congruence.
Qed.

Lemma find_values_mapSet (P : User -> bool) (k : string) (v : User) (m : Store) :
  P v = true -> Forall (fun u => P u = false) (values m) ->
  List.find P (values (mapSet k v m)) = Some v.
Proof.
  intros Hv Hm. destruct (mapSet_split k v m) as [[_ ->]|(m1 & v0 & m2 & -> & _ & ->)];
    unfold values in *; rewrite map_app in *; cbn in *.
  - induction (map snd m) as [|u l IH]; cbn; [by rewrite Hv|].
    apply Forall_cons in Hm as [-> ?]. auto.
  - apply Forall_app in Hm as [Hm _].
    induction (map snd m1) as [|u l IH]; cbn; [by rewrite Hv|].
    apply Forall_cons in Hm as [-> ?]. auto.
Qed.

Lemma existsb_false_Forall {A} (P : A -> bool) (l : list A) :
  existsb P l = false <-> Forall (fun x => P x = false) l.
Proof.
  induction l as [|x l IH]; cbn; [by split; [constructor|]|].
  rewrite orb_false_iff, Forall_cons, IH. done.
Qed.

(** *** An ASCII instance of the platform, for the examples *)

Definition lowerAscii (c : Ascii.ascii) : Ascii.ascii :=
  let n := Ascii.nat_of_ascii c in
  if ((65 <=? n) && (n <=? 90))%nat then Ascii.ascii_of_nat (n + 32) else c.

Fixpoint lowerCase (s : string) : string :=
  match s with
  | EmptyString => EmptyString
  | String c s' => String (lowerAscii c) (lowerCase s')
  end.

Definition isSpace (c : Ascii.ascii) : bool :=
  let n := Ascii.nat_of_ascii c in (n =? 32)%nat || ((9 <=? n) && (n <=? 13))%nat.

Fixpoint trimStart (s : string) : string :=
  match s with
  | EmptyString => EmptyString
  | String c s' => if isSpace c then trimStart s' else s
  end.

Fixpoint trimEnd (s : string) : string :=
  match s with
  | EmptyString => EmptyString
  | String c s' =>
      match trimEnd s' with
      | EmptyString => if isSpace c then EmptyString else String c EmptyString
      | t => String c t
      end
  end.

Definition trimAscii (s : string) : string := trimEnd (trimStart s).

Definition sampleData (e n : string) : UserData :=
  {| data_id := None; data_email := e; data_name := n; data_role := None;
     data_status := None; data_metadata := None; data_createdAt := None |}.

Definition sampleUpdate (e : option string) : UpdateData :=
  {| upd_email := e; upd_name := None; upd_role := None; upd_status := None;
     upd_metadata := None |}.

(** In a list with distinct addresses, two entries with the same address
    are the same entry. *)
Lemma NoDup_fmap_fst_email (m : Store) (k k' : string) (u u' : User) :
  NoDup (map email (values m)) -> (k, u) ∈ m -> (k', u') ∈ m ->
  email u' = email u -> k' = k.
Proof.
  unfold values. induction m as [|[k0 u0] m IH]; cbn; [by intros _ ?%elem_of_nil|].
  intros [Hn Hnd]%NoDup_cons [Hu|Hu]%elem_of_cons [Hu'|Hu']%elem_of_cons Heq.
  - congruence.
  - injection Hu as -> ->. exfalso. apply Hn. rewrite <- Heq.
    rewrite <- list_fmap_compose. apply list_elem_of_fmap. by exists (k', u').
  - injection Hu' as -> ->. exfalso. apply Hn. rewrite Heq.
    rewrite <- list_fmap_compose. apply list_elem_of_fmap. by exists (k, u).
  - by apply IH.
Qed.

Section Facts.
Variable toLowerCase : string -> string.
Variable trim : string -> string.
Variable sortByCreatedAt : list User -> list User.

(** A user that [create] returns is in the store: [findById] of its id
    returns it, the users under the other ids are as before, and [findByEmail]
    of the address given returns it when trimming does not change the
    lower-case address. *)
Theorem create_then_find (failing : bool) (uuid_ now : string) (d : UserData)
    (users users' : Store) (user : User) :
  create toLowerCase trim failing uuid_ now d users = (Ok user, users') ->
  findById false (id user) users' = Ok (Some user) /\
  (forall k, k <> id user -> findById false k users' = findById false k users) /\
  (trim (toLowerCase (data_email d)) = toLowerCase (data_email d) ->
   findByEmail toLowerCase false (data_email d) users' = Ok (Some user)).
Proof.
  unfold create. destruct failing; [done|].
  destruct (existsb _ _) eqn:Hex; [done|]. intros [= <- <-].
  split; [|split].
  - unfold findById. by rewrite mapGet_mapSet.
  - intros k Hk. unfold findById. by rewrite mapGet_mapSet_ne.
  - intros Hclean. unfold findByEmail. f_equal.
    apply find_values_mapSet.
    + cbn. rewrite Hclean. apply eqb_refl'.
    + by apply existsb_false_Forall.
Qed.

(** [update] of a stored user keeps its [id] and [createdAt], whatever
    the data, and stores the result under the same key: [findById] returns
    the updated user, the other users and the size of the store are as
    before. An id that is not stored gives [null] and changes nothing. *)
Theorem update_keeps_identity (failing : bool) (now id_ : string) (upd : UpdateData)
    (users users' : Store) (result : option User) :
  update toLowerCase trim failing now id_ upd users = (Ok result, users') ->
  match mapGet id_ users with
  | None => result = None /\ users' = users
  | Some user =>
      exists updated, result = Some updated /\
        id updated = id user /\ createdAt updated = createdAt user /\
        updatedAt updated = now /\
        findById false id_ users' = Ok (Some updated) /\
        (forall k, k <> id_ -> findById false k users' = findById false k users) /\
        map fst users' = map fst users
  end.
Proof.
  unfold update. destruct failing; [done|].
  destruct (mapGet id_ users) as [user|] eqn:Hget; [|by intros [= <- <-]].
  match goal with |- context [if ?c then _ else _] => destruct c end; [done|].
  intros [= <- <-]. eexists. split; [done|]. cbn [id createdAt updatedAt].
  repeat split.
  - unfold findById. by rewrite mapGet_mapSet.
  - intros k Hk. unfold findById. by rewrite mapGet_mapSet_ne.
  - apply mapSet_keys_present.
    destruct (decide (id_ ∈ map fst users)) as [|Hn]; [done|].
    apply mapGet_None in Hn. congruence.
Qed.

(** [delete] answers [true] exactly for a stored id; afterwards
    [findById] of the id gives [null], a second [delete] answers [false], and
    the other users are as before. For an id that is not stored the store
    is unchanged. *)
Theorem delete_then_find (failing : bool) (id_ : string) (users users' : Store)
    (deleted : bool) :
  delete failing id_ users = (Ok deleted, users') ->
  (deleted = true <-> id_ ∈ map fst users) /\
  (deleted = false -> users' = users) /\
  findById false id_ users' = Ok None /\
  delete false id_ users' = (Ok false, users') /\
  (forall k, k <> id_ -> findById false k users' = findById false k users).
Proof.
  unfold delete. destruct failing; [done|].
  destruct (mapGet id_ users) as [user|] eqn:Hget; intros [= <- <-].
  - split; [|split; [done|]].
    + split; [intros _|done]. destruct (decide (id_ ∈ map fst users)) as [|Hn]; [done|].
      apply mapGet_None in Hn. congruence.
    + unfold findById. rewrite mapGet_mapDelete. repeat split.
      intros k Hk. by rewrite mapGet_mapDelete_ne.
  - split; [|split; [done|]].
    + split; [done|]. intros Hin. apply mapGet_None in Hget. done.
    + unfold findById. rewrite Hget. done.
Qed.

(** *** Unique addresses *)

(** An address that the normalisation of [createUserObject] only puts in
    lower case: trimming changes nothing, and lower case is stable. The
    addresses that pass the service's test [emailRegex] hold no white space. *)
Definition cleanEmail (e : string) : Prop :=
  trim (toLowerCase e) = toLowerCase e /\
  toLowerCase (toLowerCase e) = toLowerCase e.

(** A call of the model that writes. *)
Inductive Op :=
| Create (failing : bool) (uuid_ now : string) (data : UserData)
| Update (failing : bool) (now id_ : string) (upd : UpdateData)
| Delete (failing : bool) (id_ : string).

Definition perform (users : Store) (op : Op) : Store :=
  match op with
  | Create failing uuid_ now data => (create toLowerCase trim failing uuid_ now data users).2
  | Update failing now id_ upd => (update toLowerCase trim failing now id_ upd users).2
  | Delete failing id_ => (delete failing id_ users).2
  end.

Definition cleanOp (op : Op) : Prop :=
  match op with
  | Create _ _ _ data => cleanEmail (data_email data)
  | Update _ _ _ upd =>
      match upd_email upd with
      | Some e => e <> "" /\ cleanEmail e
      | None => True
      end
  | Delete _ _ => True
  end.

Definition normal (u : User) : Prop :=
  truthy (email u) = true -> trim (toLowerCase (email u)) = email u.

Definition sound (users : Store) : Prop :=
  NoDup (map fst users) /\
  Forall (fun p => id p.2 = p.1) users /\
  NoDup (map email (values users)) /\
  Forall normal (values users).

Lemma sound_nil : sound [].
Proof. repeat split; constructor. Qed.

Lemma sound_mapSet (k : string) (v : User) (m : Store) :
  sound m -> id v = k -> normal v ->
  (forall k' u, (k', u) ∈ m -> k' <> k -> email u <> email v) ->
  sound (mapSet k v m).
Proof.
  intros (Hk & Hid & He & Hn) Hv Hnv Hfresh.
  assert (Hout : forall m', m' ⊆ m -> (k ∉ map fst m') -> email v ∉ map email (values m')).
  { intros m' Hsub Hk' Hin. unfold values in Hin. rewrite <- list_fmap_compose in Hin.
    apply list_elem_of_fmap in Hin as ([k' u] & Hu & Hin). cbn in Hu.
    apply (Hfresh k' u); [by apply Hsub| |done].
    intros ->. apply Hk'. apply list_elem_of_fmap. by exists (k, u). }
  destruct (mapSet_split k v m) as [[Hnk ->]|(m1 & v0 & m2 & -> & Hnk & ->)].
  - unfold sound, values in *. rewrite !map_app. cbn.
    split; [|split; [|split]].
    + apply NoDup_app. split; [done|]. split; [|apply NoDup_singleton].
      intros x Hx ->%list_elem_of_singleton. done.
    + apply Forall_app. split; [done|]. by apply Forall_singleton.
    + apply NoDup_app. split; [done|]. split; [|apply NoDup_singleton].
      intros x Hx ->%list_elem_of_singleton. by apply (Hout m).
    + apply Forall_app. split; [done|]. by apply Forall_singleton.
  - unfold sound, values in *. rewrite !map_app in *. cbn in *.
    apply NoDup_app in Hk as (Hk1 & Hk12 & Hk2). apply NoDup_cons in Hk2 as [Hk2 Hk3].
    apply NoDup_app in He as (He1 & He12 & He2). apply NoDup_cons in He2 as [He2 He3].
    apply Forall_app in Hid as [Hid1 Hid2]. apply Forall_cons in Hid2 as [_ Hid2].
    apply Forall_app in Hn as [Hn1 Hn2]. apply Forall_cons in Hn2 as [_ Hn2].
    assert (email v ∉ map email (map snd m1)).
    { apply (Hout m1); [|done]. intros x Hx. apply elem_of_app. by left. }
    assert (email v ∉ map email (map snd m2)).
    { apply (Hout m2); [|done]. intros x Hx. apply elem_of_app. right.
      by apply list_elem_of_further. }
    split; [|split; [|split]].
    + apply NoDup_app. split; [done|]. split; [done|]. by apply NoDup_cons.
    + apply Forall_app. split; [done|]. by apply Forall_cons.
    + apply NoDup_app. split; [done|]. split.
      * intros x Hx [->|Hx2]%elem_of_cons; [done|].
        apply (He12 x Hx). by apply list_elem_of_further.
      * by apply NoDup_cons.
    + apply Forall_app. split; [done|]. by apply Forall_cons.
Qed.

Lemma sound_mapDelete (k : string) (m : Store) : sound m -> sound (mapDelete k m).
Proof.
  intros (Hk & Hid & He & Hn). unfold sound, mapDelete, values in *.
  induction m as [|[k' u] m IH]; [done|]. cbn in *.
  apply NoDup_cons in Hk as [Hk1 Hk]. apply NoDup_cons in He as [He1 He].
  apply Forall_cons in Hid as [Hid1 Hid]. apply Forall_cons in Hn as [Hn1 Hn].
  destruct (IH Hk Hid He Hn) as (IH1 & IH2 & IH3 & IH4).
  destruct (String.eqb k' k); cbn; [done|].
  split; [|split; [|split]].
  - apply NoDup_cons. split; [|done]. intros Hin. apply Hk1.
    apply list_elem_of_fmap in Hin as (p & -> & Hp). apply list_elem_of_fmap.
    exists p. split; [done|]. apply list_elem_of_In. apply list_elem_of_In in Hp.
    by apply List.filter_In in Hp as [? _].
  - by apply Forall_cons.
  - apply NoDup_cons. split; [|done]. intros Hin. apply He1.
    rewrite <- list_fmap_compose in *.
    apply list_elem_of_fmap in Hin as (p & -> & Hp). apply list_elem_of_fmap.
    exists p. split; [done|]. apply list_elem_of_In. apply list_elem_of_In in Hp.
    by apply List.filter_In in Hp as [? _].
  - by apply Forall_cons.
Qed.

Lemma sound_lookup (k : string) (u : User) (m : Store) :
  sound m -> mapGet k m = Some u -> id u = k /\ normal u.
Proof.
  intros (_ & Hid & _ & Hn) Hget%mapGet_Some_elem. split.
  - by apply (proj1 (Forall_forall _ _) Hid (k, u)).
  - apply (proj1 (Forall_forall _ _) Hn u). apply list_elem_of_fmap. by exists (k, u).
Qed.

Lemma sound_perform (op : Op) (users : Store) :
  cleanOp op -> sound users -> sound (perform users op).
Proof.
  destruct op as [failing uuid_ now d|failing now id_ upd|failing id_]; cbn.
  - intros [Htrim Hlow] Hs. unfold create. destruct failing; [done|].
    destruct (existsb _ _) eqn:Hex; [done|]. cbn [snd].
    apply sound_mapSet; [done|done| |].
    + intros _. cbn. by rewrite Htrim, Hlow.
    + intros k' u Hin _. cbn. rewrite Htrim.
      apply existsb_false_Forall in Hex.
      pose proof (proj1 (Forall_forall _ _) Hex u) as Hu. cbn in Hu.
      apply String.eqb_neq, Hu. apply list_elem_of_fmap. by exists (k', u).
  - intros Hc Hs. unfold update. destruct failing; [done|].
    destruct (mapGet id_ users) as [user|] eqn:Hget; [|done].
    destruct (sound_lookup _ _ _ Hs Hget) as [Hid Hnorm].
    match goal with |- context [if ?c then _ else _] => destruct c eqn:Hclash end; [done|].
    cbn [snd]. destruct (upd_email upd) as [e|]; cbn [default from_option Datatypes.id] in *.
    + destruct Hc as [Hne [Htrim Hlow]].
      assert (truthy e = true) as He.
      { unfold truthy. apply negb_true_iff, String.eqb_neq. done. }
      rewrite He in *. cbn [andb] in Hclash.
      apply sound_mapSet; [done|done| |].
      * intros _. cbn. by rewrite Htrim, Hlow.
      * intros k' u Hin Hk'. cbn [email]. rewrite Htrim.
        apply andb_false_iff in Hclash as [Hsame|Hnone].
        -- apply negb_false_iff, String.eqb_eq in Hsame. rewrite Hsame.
           destruct Hs as (Hk & _ & Hemails & _).
           apply mapGet_Some_elem in Hget.
           intros Heq. apply Hk'.
           eapply (NoDup_fmap_fst_email users); eauto.
        -- apply existsb_false_Forall in Hnone.
           pose proof (proj1 (Forall_forall _ _) Hnone u) as Hu. cbn in Hu.
           destruct Hs as (_ & Hids & _ & _).
           pose proof (proj1 (Forall_forall _ _) Hids (k', u) Hin) as Hku. cbn in Hku.
           assert (Hin' : u ∈ values users) by (apply list_elem_of_fmap; by exists (k', u)).
           specialize (Hu Hin'). apply andb_false_iff in Hu as [Hu|Hu].
           ++ by apply String.eqb_neq.
           ++ apply negb_false_iff, String.eqb_eq in Hu. congruence.
    + assert (Hsame : (if truthy (email user) then trim (toLowerCase (email user))
                       else email user) = email user).
      { destruct (truthy (email user)) eqn:Ht; [by apply Hnorm|done]. }
      apply sound_mapSet; [done|done| |].
      * unfold normal. cbn [email]. by rewrite Hsame.
      * intros k' u Hin Hk'. cbn [email]. rewrite Hsame. destruct Hs as (Hk & _ & Hemails & _).
        apply mapGet_Some_elem in Hget.
        intros Heq. apply Hk'.
        eapply (NoDup_fmap_fst_email users); eauto.
  - intros _ Hs. unfold delete. destruct failing; [done|].
    destruct (mapGet id_ users); [|done]. by apply sound_mapDelete.
Qed.

(** After any sequence of [create], [update] and [delete] on the empty
    store whose addresses are clean (and, for [update], not empty), every
    user is stored under its own id, no id occurs twice and no two users
    have the same address. *)
Theorem emails_stay_unique (ops : list Op) :
  Forall cleanOp ops ->
  let users := fold_left perform ops [] in
  NoDup (map fst users) /\
  (forall k u, (k, u) ∈ users -> id u = k) /\
  NoDup (map email (values users)).
Proof.
  intros Hops. cbn zeta.
  assert (Hs : sound (fold_left perform ops [])).
  { generalize sound_nil. generalize (@nil (string * User)) as users.
    induction Hops as [|op ops Hop _ IH]; intros users Hs; cbn; [done|].
    apply IH. by apply sound_perform. }
  destruct Hs as (Hk & Hid & He & _). split; [done|]. split; [|done].
  intros k u Hin. by apply (proj1 (Forall_forall _ _) Hid (k, u)).
Qed.

(** [update] with the empty string as address checks nothing and
    stores the empty address: two different users updated that way end with
    the same address. *)
Theorem empty_email_update_unchecked (now1 now2 id1 id2 : string) (upd : UpdateData)
    (users : Store) :
  id1 <> id2 -> id1 ∈ map fst users -> id2 ∈ map fst users ->
  upd_email upd = Some "" ->
  exists r1 users1 r2 users2,
    update toLowerCase trim false now1 id1 upd users = (Ok (Some r1), users1) /\
    update toLowerCase trim false now2 id2 upd users1 = (Ok (Some r2), users2) /\
    email r1 = "" /\ email r2 = "" /\
    findById false id1 users2 = Ok (Some r1) /\
    findById false id2 users2 = Ok (Some r2).
Proof.
  intros Hne H1 H2 Hupd.
  destruct (mapGet id1 users) as [u1|] eqn:Hg1; [|by apply mapGet_None in Hg1].
  destruct (mapGet id2 users) as [u2|] eqn:Hg2; [|by apply mapGet_None in Hg2].
  eexists _, _, _, _. split.
  { unfold update. rewrite Hg1, Hupd.
    cbn [truthy String.eqb negb andb default from_option Datatypes.id]. reflexivity. }
  split.
  { unfold update. rewrite mapGet_mapSet_ne, Hg2, Hupd by congruence.
    cbn [truthy String.eqb negb andb default from_option Datatypes.id]. reflexivity. }
  cbn [email]. split; [done|]. split; [done|]. unfold findById.
  rewrite mapGet_mapSet_ne, !mapGet_mapSet by done. done.
Qed.

(** *** Pagination *)

Lemma slice_page {A} (offset limit_ : Z) (l : list A) :
  0 <= offset -> 0 <= limit_ ->
  slice offset (offset + limit_) l = take (Z.to_nat limit_) (drop (Z.to_nat offset) l).
Proof.
  intros Ho Hl. unfold slice.
  assert ((offset <? 0) = false) as -> by lia.
  assert ((offset + limit_ <? 0) = false) as -> by lia.
  destruct (decide (Z.of_nat (length l) <= offset)) as [Hge|Hlt].
  - rewrite (drop_ge l (Z.to_nat offset)) by lia.
    rewrite (drop_ge l) by lia. by rewrite !take_nil.
  - replace (Z.to_nat (Z.min offset (Z.of_nat (length l)))) with (Z.to_nat offset) by lia.
    destruct (decide (offset + limit_ <= Z.of_nat (length l))) as [Hin|Hout].
    + f_equal. lia.
    + rewrite !take_ge; [done| |]; rewrite length_drop; lia.
Qed.

Lemma pageNum_ge (page_ : option Z) : 1 <= pageNum page_.
Proof. unfold pageNum. lia. Qed.

Lemma limitNum_range (limit_ : option Z) : 1 <= limitNum limit_ <= 100.
Proof. unfold limitNum. lia. Qed.

Lemma ceilDiv_pos (total_ limit_ : Z) :
  0 < limit_ ->
  exists n, ceilDiv total_ limit_ = Finite n /\
            (n - 1) * limit_ < total_ <= n * limit_.
Proof.
  intros Hl. unfold ceilDiv. assert ((limit_ =? 0) = false) as -> by lia.
  eexists. split; [done|].
  pose proof (Z.div_mod (- total_) limit_ ltac:(lia)).
  pose proof (Z.mod_pos_bound (- total_) limit_ Hl). nia.
Qed.

(** What a call of [getUsers] returns, [[]] when it throws. *)
Definition dataOf (r : Result (list User * Pagination)) : list User :=
  match r with Ok (data, _) => data | Err _ => [] end.

Definition filtersOnly (status_ role_ search_ : option string) : Options :=
  {| opt_page := None; opt_limit := None; opt_status := status_; opt_role := role_;
     opt_search := search_ |}.

(** A listing through [getUsers] is the page asked for of the filtered
    and sorted users: [page] is at least 1 and [limit] between 1 and 100
    whatever was asked, the data are the (at most [limit]) users from
    position [(page - 1) * limit] on, [totalPages] is the least number of
    pages that hold them all, [hasNext] says whether users come after this
    page and [hasPrev] whether the page is not the first. *)
Theorem getUsers_page (page_ limit_ : option Z) (status_ role_ search_ : option string)
    (users : Store) :
  let all := selected toLowerCase sortByCreatedAt (filtersOnly status_ role_ search_) users in
  exists data pg,
    getUsers toLowerCase sortByCreatedAt false page_ limit_ status_ role_ search_ users
      = Ok (data, pg) /\
    1 <= page pg /\ 1 <= limit pg <= 100 /\
    total pg = Z.of_nat (length all) /\
    data = take (Z.to_nat (limit pg)) (drop (Z.to_nat ((page pg - 1) * limit pg)) all) /\
    Z.of_nat (length data) <= limit pg /\
    (exists n, totalPages pg = Finite n /\
               (n - 1) * limit pg < total pg <= n * limit pg) /\
    (hasNext pg = true <-> page pg * limit pg < total pg) /\
    (hasPrev pg = true <-> 1 < page pg).
Proof.
  intros all. unfold getUsers, findAll. cbn [opt_page opt_limit default from_option Datatypes.id].
  change (selected _ _ _ users) with all.
  pose proof (pageNum_ge page_) as HP. pose proof (limitNum_range limit_) as HL.
  set (P := pageNum page_) in *. set (L := limitNum limit_) in *.
  eexists _, _. split; [reflexivity|]. cbn [page limit total totalPages hasNext hasPrev].
  split; [done|]. split; [done|]. split; [done|].
  assert (Hdata : slice ((P - 1) * L) ((P - 1) * L + L) all
                  = take (Z.to_nat L) (drop (Z.to_nat ((P - 1) * L)) all)).
  { apply slice_page; nia. }
  split; [done|]. split.
  { rewrite Hdata, length_take. lia. }
  destruct (ceilDiv_pos (Z.of_nat (length all)) L ltac:(lia)) as (n & Hn & Hlo & Hhi).
  split; [by exists n|]. rewrite Hn. cbn [ltNumber]. split.
  - rewrite Z.ltb_lt. split; intros; nia.
  - apply Z.ltb_lt.
Qed.

Lemma concat_pages {A} (L n : nat) (l : list A) :
  concat (map (fun p => take L (drop ((p - 1) * L) l)) (seq 1 n)) = take (n * L) l.
Proof.
  induction n as [|n IH]; [by rewrite take_0|].
  rewrite seq_S, map_app, concat_app, IH. cbn [map concat Nat.add].
  replace (S n - 1)%nat with n by lia. rewrite app_nil_r, take_take_drop.
  f_equal. lia.
Qed.

(** The pages of a listing partition it: with the same filters and
    limit on an unchanged store, the data of the pages 1 to [totalPages], one
    after the other, are the filtered and sorted users, each once. *)
Theorem pages_partition (limit_ : option Z) (status_ role_ search_ : option string)
    (users : Store) :
  let listing p :=
    getUsers toLowerCase sortByCreatedAt false (Some (Z.of_nat p)) limit_
             status_ role_ search_ users in
  exists n : nat,
    (forall p data pg, listing p = Ok (data, pg) -> totalPages pg = Finite (Z.of_nat n)) /\
    concat (map (fun p => dataOf (listing p)) (seq 1 n))
    = selected toLowerCase sortByCreatedAt (filtersOnly status_ role_ search_) users.
Proof.
  intros listing.
  set (all := selected toLowerCase sortByCreatedAt (filtersOnly status_ role_ search_) users).
  pose proof (limitNum_range limit_) as HL.
  destruct (ceilDiv_pos (Z.of_nat (length all)) (limitNum limit_) ltac:(lia))
    as (n & Hn & Hlo & Hhi).
  assert (0 <= n) by nia.
  exists (Z.to_nat n). split.
  - intros p data pg. unfold listing, getUsers, findAll.
    cbn [opt_page opt_limit default from_option Datatypes.id].
    change (selected _ _ _ users) with all. intros [= <- <-]. cbn [totalPages].
    rewrite Hn. f_equal. lia.
  - transitivity (concat (map (fun p => take (Z.to_nat (limitNum limit_))
                    (drop ((p - 1) * Z.to_nat (limitNum limit_)) all)) (seq 1 (Z.to_nat n)))).
    + f_equal. apply map_ext_in. intros p [Hp _]%in_seq.
      unfold listing, getUsers, findAll, dataOf.
      cbn [opt_page opt_limit default from_option Datatypes.id].
      change (selected _ _ _ users) with all.
      assert (pageNum (Some (Z.of_nat p)) = Z.of_nat p) as ->.
      { unfold pageNum, envInt. assert ((Z.of_nat p =? 0) = false) as -> by lia. lia. }
      rewrite slice_page by nia. do 2 f_equal. nia.
    + rewrite concat_pages. apply take_ge. nia.
Qed.

(** *** The bulk update of the service *)

Definition statusIs (status_ id_ : string) (users : Store) : Prop :=
  forall u, mapGet id_ users = Some u -> status u = status_.

Lemma update_statusOnly (failing : bool) (now id_ status_ : string) (users : Store) :
  update toLowerCase trim failing now id_ (statusOnly status_) users =
  if failing then (Err dbTimeout, users)
  else match mapGet id_ users with
       | None => (Ok None, users)
       | Some user =>
           let updated :=
             {| id := id user;
                email := if truthy (email user) then trim (toLowerCase (email user))
                         else email user;
                name := if truthy (name user) then trim (name user) else name user;
                role := role user; status := status_; metadata := metadata user;
                createdAt := createdAt user; updatedAt := now |} in
           (Ok (Some updated), mapSet id_ updated users)
       end.
Proof. unfold update. destruct failing; [done|]. by destruct (mapGet id_ users). Qed.

Lemma bulkFrom_spec (failing : nat -> bool) (clock : nat -> string) (status_ : string)
    (userIds : list string) (i : nat) (results : BulkResults) (users : Store) :
  let r := bulkFrom toLowerCase trim failing clock i userIds status_ results users in
  let numbered := zip (seq i (length userIds)) userIds in
  success r.1 = success results
                ++ map snd (List.filter (fun p => negb (failing p.1)) numbered) /\
  failed r.1 = failed results
               ++ map (fun p => (p.2, dbTimeout)) (List.filter (fun p => failing p.1) numbered) /\
  map fst r.2 = map fst users /\
  ((forall id_, id_ ∈ success results -> statusIs status_ id_ users) ->
   forall id_, id_ ∈ success r.1 -> statusIs status_ id_ r.2).
Proof.
  revert i results users. induction userIds as [|id0 ids IH]; intros i results users.
  - cbn. rewrite !app_nil_r. done.
  - cbn [bulkFrom length seq zip zip_with List.filter map fst snd]. cbn zeta.
    rewrite update_statusOnly. destruct (failing i) eqn:Hf; cbn [negb].
    + specialize (IH (S i) {| success := success results;
                              failed := failed results ++ [(id0, dbTimeout)] |} users).
      cbn zeta in IH. cbn [success failed] in IH. destruct IH as (IH1 & IH2 & IH3 & IH4).
      split; [done|]. split; [|done]. cbn [map fst snd]. rewrite IH2, <- app_assoc. done.
    + destruct (mapGet id0 users) as [user|] eqn:Hget.
      * cbn zeta.
        match goal with |- context [mapSet id0 ?v users] => set (updated := v) end.
        specialize (IH (S i) {| success := success results ++ [id0];
                                failed := failed results |} (mapSet id0 updated users)).
        cbn zeta in IH. cbn [success failed] in IH. destruct IH as (IH1 & IH2 & IH3 & IH4).
        split; [by cbn [map fst snd]; rewrite IH1, <- app_assoc|]. split; [done|].
        split.
        { rewrite IH3. apply mapSet_keys_present.
          destruct (decide (id0 ∈ map fst users)) as [|Hn]; [done|].
          apply mapGet_None in Hn. congruence. }
        intros Hinv. apply IH4. intros id_ [Hin|Heq%list_elem_of_singleton]%elem_of_app u; [|subst id_].
        -- destruct (decide (id_ = id0)) as [->|Hne].
           ++ rewrite mapGet_mapSet. by intros [= <-].
           ++ rewrite mapGet_mapSet_ne by done. by apply Hinv.
        -- rewrite mapGet_mapSet. by intros [= <-].
      * specialize (IH (S i) {| success := success results ++ [id0];
                                failed := failed results |} users).
        cbn zeta in IH. cbn [success failed] in IH. destruct IH as (IH1 & IH2 & IH3 & IH4).
        split; [by cbn [map fst snd]; rewrite IH1, <- app_assoc|]. split; [done|].
        split; [done|].
        intros Hinv. apply IH4. intros id_ [Hin|Heq%list_elem_of_singleton]%elem_of_app u; [|subst id_].
        -- by apply Hinv.
        -- by rewrite Hget.
Qed.

(** [bulkUpdateStatus] reports as failed exactly the ids at whose turn
    the database threw, and as successful all the others, whether or not a
    user with that id exists: the update of an unknown id resolves to [null]
    and is counted as a success. No user is added or removed, and every
    stored user reported successful has the new status. *)
Theorem bulk_update_counts_missing_as_success (failing : nat -> bool)
    (clock : nat -> string) (userIds : list string) (status_ : string) (users : Store) :
  let r := bulkUpdateStatus toLowerCase trim failing clock userIds status_ users in
  let numbered := zip (seq 0 (length userIds)) userIds in
  success r.1 = map snd (List.filter (fun p => negb (failing p.1)) numbered) /\
  failed r.1 = map (fun p => (p.2, dbTimeout)) (List.filter (fun p => failing p.1) numbered) /\
  map fst r.2 = map fst users /\
  (forall id_ u, id_ ∈ success r.1 -> findById false id_ r.2 = Ok (Some u) ->
                 status u = status_).
Proof.
  cbn zeta. unfold bulkUpdateStatus.
  destruct (bulkFrom_spec failing clock status_ userIds 0 {| success := []; failed := [] |}
              users) as (H1 & H2 & H3 & H4).
  cbn [success failed app] in *. split; [done|]. split; [done|]. split; [done|].
  intros id_ u Hin. unfold findById. intros [= Hget]. revert u Hget. apply H4; [|done].
  by intros ? ?%elem_of_nil.
Qed.

(** *** Seeding *)

Lemma string_length_app (s t : string) :
  String.length (s +:+ t) = (String.length s + String.length t)%nat.
Proof.
  induction s as [|a s IH]; [done|].
  change (S (String.length (s +:+ t)) = S (String.length s + String.length t)).
  by rewrite IH.
Qed.

Lemma string_app_inj_r (s1 s2 t : string) : s1 +:+ t = s2 +:+ t -> s1 = s2.
Proof.
  revert s2. induction s1 as [|a s1 IH]; intros [|b s2] H; cbn in H.
  - done.
  - apply (f_equal String.length) in H.
    change (String.length t = S (String.length (s2 +:+ t))) in H.
    rewrite string_length_app in H. lia.
  - apply (f_equal String.length) in H.
    change (S (String.length (s1 +:+ t)) = String.length t) in H.
    rewrite string_length_app in H. lia.
  - injection H as -> H. f_equal. by apply IH.
Qed.

(** The address of the user that [seed] creates in iteration [i]. *)
Definition seedEmail (i : nat) : string := "user" +:+ pretty (S i) +:+ "@example.com".

Lemma seedEmail_inj (i j : nat) : seedEmail i = seedEmail j -> i = j.
Proof.
  unfold seedEmail. intros H%String.app_inj%string_app_inj_r%pretty_nat_inj. lia.
Qed.

(** The number of draws before the first one at which the database throws. *)
Fixpoint firstError (draws : list Draw) : nat :=
  match draws with
  | [] => 0
  | d :: draws' => if dbError d then 0 else S (firstError draws')
  end.

Definition seeded (u : User) : Prop :=
  role u ∈ ["user"; "admin"; "moderator"] /\ status u ∈ ["active"; "inactive"; "pending"].

Lemma pick_orElse (a b c dflt : string) (i : nat) :
  dflt ∈ [a; b; c] -> orElse (Some (pick [a; b; c] i)) dflt ∈ [a; b; c].
Proof.
  intros Hd. unfold orElse, pick.
  destruct (truthy (nth i [a; b; c] "")) eqn:Ht; [|done].
  destruct i as [|[|[|i]]]; cbn in *.
  - apply list_elem_of_here.
  - apply list_elem_of_further, list_elem_of_here.
  - do 2 apply list_elem_of_further. apply list_elem_of_here.
  - by destruct i.
Qed.

(** The platform leaves the first [n] addresses of [seed] as they are: they
    are in lower case and without white space. *)
Definition keepsSeedEmails (n : nat) : Prop :=
  forall i, (i < n)%nat ->
    toLowerCase (seedEmail i) = seedEmail i /\ trim (seedEmail i) = seedEmail i.

Lemma seedFrom_spec (n : nat) (draws : list Draw) (i : nat) (users : Store) :
  keepsSeedEmails n -> (i + length draws <= n)%nat ->
  map email (values users) = map seedEmail (seq 0 i) ->
  NoDup (map fst users ++ map uuid draws) ->
  Forall seeded (values users) ->
  let k := firstError draws in
  let r := seedFrom toLowerCase trim i draws users in
  r.1 = (if (k =? length draws)%nat then Ok tt else Err dbTimeout) /\
  map fst r.2 = map fst users ++ map uuid (take k draws) /\
  map email (values r.2) = map seedEmail (seq 0 (i + k)) /\
  Forall seeded (values r.2).
Proof.
  intros Hkeep. revert i users.
  induction draws as [|d draws IH]; intros i users Hn He Hk Hs; cbn zeta.
  - cbn. rewrite app_nil_r, Nat.add_0_r. done.
  - cbn [length] in Hn. destruct (Hkeep i ltac:(lia)) as [lower_seed trim_seed].
    cbn [seedFrom firstError]. unfold create. destruct (dbError d) eqn:Hd.
    { cbn. rewrite app_nil_r, Nat.add_0_r. done. }
    assert (Hfresh : existsb (fun u => String.eqb (email u)
                       (toLowerCase (data_email (seedData i d)))) (values users) = false).
    { apply existsb_false_Forall, Forall_forall. intros u Hu.
      change (data_email (seedData i d)) with (seedEmail i). rewrite lower_seed.
      apply String.eqb_neq. intros Heq.
      assert (Hin : email u ∈ map email (values users)) by (by apply list_elem_of_fmap_2).
      rewrite He in Hin. apply list_elem_of_fmap in Hin as (j & Hj & Hin).
      apply list_elem_of_In, in_seq in Hin. rewrite Heq in Hj.
      apply seedEmail_inj in Hj. lia. }
    rewrite Hfresh.
    set (user := createUserObject toLowerCase trim (uuid d) (now_ d) (seedData i d)).
    assert (Hid : id user = uuid d) by done.
    assert (Hemail : email user = seedEmail i).
    { cbn. change (_ +:+ _) with (seedEmail i). by rewrite lower_seed, trim_seed. }
    rewrite Hid. cbn [map] in Hk.
    assert (Hnew : uuid d ∉ map fst users).
    { apply NoDup_app in Hk as (_ & Hk & _). intros Hin. apply (Hk _ Hin), list_elem_of_here. }
    rewrite mapSet_absent by done.
    specialize (IH (S i) (users ++ [(uuid d, user)])). cbn zeta in IH.
    destruct IH as (IH1 & IH2 & IH3 & IH4).
    + lia.
    + unfold values. rewrite map_app, map_app. cbn [map snd].
      rewrite seq_S, map_app. cbn [map Nat.add]. unfold values in He. by rewrite He, Hemail.
    + rewrite map_app. cbn [map fst]. rewrite <- app_assoc. done.
    + unfold values. rewrite map_app. apply Forall_app. split; [done|].
      apply Forall_singleton. split; cbn; apply pick_orElse.
      * apply list_elem_of_here.
      * apply list_elem_of_here.
    + rewrite IH1, IH2, IH3. cbn [length take map Nat.eqb]. split; [done|].
      split; [|split; [|done]].
      * rewrite map_app, <- app_assoc. done.
      * do 2 f_equal. lia.
Qed.

(** [seed] on the empty store creates the users user1@example.com,
    user2@example.com, ... in order, each with one of the three roles and
    one of the three statuses, until the database throws: it resolves when no
    insert fails, and otherwise throws the database error and leaves the
    users created before it in the store. *)
Theorem seed_stops_at_first_error (draws : list Draw) :
  keepsSeedEmails (length draws) -> NoDup (map uuid draws) ->
  let k := firstError draws in
  let r := seed toLowerCase trim draws [] in
  r.1 = (if (k =? length draws)%nat then Ok tt else Err dbTimeout) /\
  map fst r.2 = map uuid (take k draws) /\
  map email (values r.2) = map seedEmail (seq 0 k) /\
  Forall seeded (values r.2).
Proof.
  intros Hkeep Hnd.
  apply (seedFrom_spec (length draws) draws 0 []); [done|done|done|done|constructor].
Qed.

(** [seed] on a store that holds user1@example.com, as after an
    earlier seed, creates nothing: it throws at the first insert (the
    database error, or the duplicate address) and leaves the store as it
    was. *)
Theorem seed_again_fails (d : Draw) (draws : list Draw) (users : Store) :
  toLowerCase (seedEmail 0) = seedEmail 0 ->
  seedEmail 0 ∈ map email (values users) ->
  seed toLowerCase trim (d :: draws) users
  = (Err (if dbError d then dbTimeout else "Email already exists"), users).
Proof.
  intros lower_seed Hin. unfold seed. cbn [seedFrom]. unfold create.
  destruct (dbError d); [done|].
  assert (existsb (fun u => String.eqb (email u) (toLowerCase (data_email (seedData 0 d))))
            (values users) = true) as ->; [|done].
  apply existsb_exists. apply list_elem_of_fmap in Hin as (u & Hu & Hin).
  exists u. split; [by apply list_elem_of_In|].
  change (data_email (seedData 0 d)) with (seedEmail 0). rewrite lower_seed.
  apply String.eqb_eq. done.
Qed.

(** *** Counting *)

Lemma filter_filter_and {A} (f g : A -> bool) (l : list A) :
  List.filter g (List.filter f l) = List.filter (fun x => f x && g x) l.
Proof.
  induction l as [|x l IH]; [done|]. cbn. destruct (f x); cbn; [|done].
  destruct (g x); by rewrite IH.
Qed.

Lemma filter_true {A} (l : list A) : List.filter (fun _ => true) l = l.
Proof. induction l as [|x l IH]; [done|]. cbn. by rewrite IH. Qed.

(** [count] and a listing agree: for the same [status] and [role]
    filters (an empty string counts as no filter in both) and no search, the
    [total] of [findAll] is the number that [count] returns, whatever the
    page and the limit. *)
Theorem count_agrees_with_listing (status_ role_ : option string) (page_ limit_ : option Z)
    (users : Store) (n : nat) (data : list User) (pg : Pagination) :
  (forall l, length (sortByCreatedAt l) = length l) ->
  count false status_ role_ users = Ok n ->
  findAll toLowerCase sortByCreatedAt false
    {| opt_page := page_; opt_limit := limit_; opt_status := status_; opt_role := role_;
       opt_search := None |} users = Ok (data, pg) ->
  total pg = Z.of_nat n.
Proof.
  intros Hsort. unfold count, findAll, selected.
  cbn [opt_status opt_role opt_search given]. intros [= <-] [= _ <-]. cbn [total].
  rewrite Hsort. do 2 f_equal. unfold matches.
  destruct (given status_), (given role_); cbn [andb negb].
  - rewrite filter_filter_and. apply List.filter_ext. intros u.
    by rewrite !negb_involutive.
  - apply List.filter_ext. intros u. by rewrite negb_involutive, andb_true_r.
  - apply List.filter_ext. intros u. by rewrite negb_involutive.
  - by rewrite filter_true.
Qed.

End Facts.

(** *** Examples *)

Definition ann : UserData := sampleData "Ann@Example.com" " Ann ".
Definition bob : UserData := sampleData "bob@example.com" "Bob".

Definition twoUsers : Store :=
  fold_left (perform lowerCase trimAscii)
    [Create false "id-1" "t1" ann; Create false "id-2" "t2" bob] [].

Definition draw (failing : bool) (n : string) : Draw :=
  {| dbError := failing; uuid := n; now_ := "t"; roleIndex := 1; statusIndex := 2 |}.

Lemma create_then_find_witness :
  exists user users',
    create lowerCase trimAscii false "id-1" "t1" ann [] = (Ok user, users') /\
    findById false (id user) users' = Ok (Some user) /\
    findByEmail lowerCase false "Ann@Example.com" users' = Ok (Some user).
Proof.
  eexists _, _. split; [reflexivity|].
  pose proof (create_then_find lowerCase trimAscii false "id-1" "t1" ann [] _ _ eq_refl)
    as (H1 & _ & H3).
  split; [exact H1|]. apply H3. reflexivity.
Defined.

Lemma update_keeps_identity_witness :
  exists updated users',
    update lowerCase trimAscii false "t3" "id-2" (sampleUpdate (Some "Bobby@example.com"))
      twoUsers = (Ok (Some updated), users') /\
    id updated = "id-2" /\ createdAt updated = "t2" /\ map fst users' = ["id-1"; "id-2"].
Proof.
  eexists _, _. split; [reflexivity|].
  pose proof (update_keeps_identity lowerCase trimAscii false "t3" "id-2"
                (sampleUpdate (Some "Bobby@example.com")) twoUsers _ _ eq_refl) as H.
  change (mapGet "id-2" twoUsers) with
    (Some (createUserObject lowerCase trimAscii "id-2" "t2" bob)) in H.
  destruct H as (updated & [= <-] & H1 & H2 & _ & _ & _ & H3).
  split; [exact H1|]. split; [exact H2|exact H3].
Defined.

Lemma delete_then_find_witness :
  exists users',
    delete false "id-1" twoUsers = (Ok true, users') /\
    findById false "id-1" users' = Ok None /\
    delete false "id-1" users' = (Ok false, users').
Proof.
  eexists. split; [reflexivity|].
  pose proof (delete_then_find false "id-1" twoUsers _ true eq_refl) as (_ & _ & H1 & H2 & _).
  split; [exact H1|exact H2].
Defined.

Lemma emails_stay_unique_witness :
  NoDup (map email (values (fold_left (perform lowerCase trimAscii)
    [Create false "id-1" "t1" ann; Create false "id-2" "t2" bob;
     Update false "t3" "id-2" (sampleUpdate (Some "ANN@example.com"));
     Create false "id-3" "t4" (sampleData "BOB@example.com" "Rob");
     Delete false "id-1";
     Update false "t5" "id-2" (sampleUpdate (Some "Ann@example.com"))] []))).
Proof.
  refine (proj2 (proj2 (emails_stay_unique lowerCase trimAscii _ _))).
  repeat (apply Forall_cons_2;
          [vm_compute; intuition (discriminate || reflexivity)|]).
  apply Forall_nil_2.
Defined.

Lemma empty_email_update_unchecked_witness :
  exists r1 users1 r2 users2,
    update lowerCase trimAscii false "t3" "id-1" (sampleUpdate (Some "")) twoUsers
      = (Ok (Some r1), users1) /\
    update lowerCase trimAscii false "t4" "id-2" (sampleUpdate (Some "")) users1
      = (Ok (Some r2), users2) /\
    email r1 = "" /\ email r2 = "" /\
    findById false "id-1" users2 = Ok (Some r1) /\
    findById false "id-2" users2 = Ok (Some r2).
Proof.
  apply (empty_email_update_unchecked lowerCase trimAscii "t3" "t4" "id-1" "id-2"
           (sampleUpdate (Some "")) twoUsers).
  - discriminate.
  - vm_compute. apply list_elem_of_here.
  - vm_compute. apply list_elem_of_further, list_elem_of_here.
  - reflexivity.
Defined.

Lemma keepsSeedEmails_3 : keepsSeedEmails lowerCase trimAscii 3.
Proof.
  intros [|[|[|i]]] Hi; [split; reflexivity..|]. exfalso. lia.
Defined.

Lemma seed_stops_at_first_error_witness :
  let r := seed lowerCase trimAscii [draw false "a"; draw false "b"; draw true "c"] [] in
  r.1 = Err dbTimeout /\
  map fst r.2 = ["a"; "b"] /\
  map email (values r.2) = ["user1@example.com"; "user2@example.com"] /\
  Forall seeded (values r.2).
Proof.
  apply (seed_stops_at_first_error lowerCase trimAscii
           [draw false "a"; draw false "b"; draw true "c"] keepsSeedEmails_3).
  apply NoDup_ListNoDup. repeat (apply List.NoDup_cons; [vm_compute; intuition discriminate|]).
  apply List.NoDup_nil.
Defined.

Lemma seed_again_fails_witness :
  let users := (seed lowerCase trimAscii [draw false "a"; draw false "b"] []).2 in
  seed lowerCase trimAscii [draw false "c"; draw false "d"] users
  = (Err "Email already exists", users).
Proof.
  apply (seed_again_fails lowerCase trimAscii (draw false "c") [draw false "d"]).
  - reflexivity.
  - vm_compute. apply list_elem_of_here.
Defined.

Lemma count_agrees_with_listing_witness :
  exists data pg,
    findAll lowerCase (@rev User) false
      {| opt_page := Some 1; opt_limit := Some 1; opt_status := Some "active";
         opt_role := Some ""; opt_search := None |} twoUsers = Ok (data, pg) /\
    count false (Some "active") (Some "") twoUsers = Ok 2%nat /\
    total pg = 2.
Proof.
  eexists _, _. split; [reflexivity|]. split; [reflexivity|].
  apply (count_agrees_with_listing lowerCase (@rev User) (Some "active") (Some "")
           (Some 1) (Some 1) twoUsers 2 _ _ (@length_rev User) eq_refl eq_refl).
Defined.

End UsersFacts.
